(** * libpod: the BoltDB state back end (libpod/boltdb_state_internal.go)

    A shallow embedding of the container store's internal layer: the
    runtime-configuration validator, the three hydration functions and the
    container mutators [addContainer] and [removeContainer], over a model
    of the bbolt engine they are written against (nested buckets reached
    through bucket handles, transactions that roll back on error). *)

From stdpp Require Import gmap strings list fin_maps sorting.
From Stdlib Require Import ZArith Lia.

Set Default Proof Using "Type".
#[local] Set Warnings "-register-all".

(** ** Errors *)

(** The sentinel errors of [libpod/define] and of bbolt that this file can
    return, errors of the external collaborators (JSON codec, lock manager,
    storage options, the file system), and [errors.Wrapf], which keeps its
    cause.  A wrapped error records the format string and its arguments as
    the source passes them; the text is not rendered. *)
Inductive error :=
  | ErrNoSuchCtr | ErrNoSuchPod | ErrNoSuchVolume
  | ErrCtrExists | ErrNSMismatch | ErrInvalidArg
  | ErrDBBadConfig | ErrInternal
  | ErrKeyRequired | ErrKeyTooLarge | ErrValueTooLarge
  | ErrIncompatibleValue | ErrBucketExists | ErrBucketNotFound
  | ErrBucketNameRequired
  | ErrExternal (msg : string)
  | errors_Wrapf (cause : error) (format : string) (args : list string).

(** [errors.Cause]: the innermost error of a chain of wraps. *)
Fixpoint errors_Cause (e : error) : error :=
  match e with
  | errors_Wrapf c _ _ => errors_Cause c
  | _ => e
  end.

#[global] Instance error_eq_dec : EqDecision error.
Proof.
  intros x. induction x; intros []; try (right; discriminate); try (left; reflexivity).
  - destruct (decide (msg = msg0)) as [->|]; [left|right]; congruence.
  - destruct (IHx cause) as [->|]; [|right; congruence].
    destruct (decide (format = format0)) as [->|]; [|right; congruence].
    destruct (decide (args = args0)) as [->|]; [left|right]; congruence.
Defined.

(** ** The engine: nested buckets *)

(** The contract of bbolt that the code relies on, from the documentation
    of its [Bucket], [Tx] and [DB] methods.  Left out: the mutex of the
    connection gate, the failure of a commit on the disk, and the
    read-only flag of a [View] transaction, in which this code calls no
    write. *)

(** A key of a bucket holds a byte string or a nested bucket. *)
Inductive node :=
  | Val (v : string)
  | Bkt (m : gmap string node).

Abbreviation bucket := (gmap string node).

(** Side effects outside the database: [logrus.Errorf] lines and the
    [valid = false] writes to the caller's pod and container objects. *)
Inductive event :=
  | LogErrorf (format : string) (args : list string)
  | InvalidatePod (id : string)
  | InvalidateCtr (id : string).

(** What a transaction body sees: the bucket tree of the transaction and
    the events emitted so far. *)
Record World := mkWorld { root : bucket; trace : list event }.

Definition set_root (f : bucket → bucket) (w : World) : World :=
  mkWorld (f (root w)) (trace w).

(** A Go call returns normally, returns an error, or panics. *)
Inductive outcome (A : Type) :=
  | Ret (a : A)
  | Err (e : error)
  | Panic.
Arguments Ret {A} a.
Arguments Err {A} e.
Arguments Panic {A}.

Definition M (A : Type) : Type := World → outcome A * World.

#[global] Instance M_ret : MRet M := λ A a w, (Ret a, w).
#[global] Instance M_bind : MBind M := λ A B k m w,
  match m w with
  | (Ret a, w') => k a w'
  | (Err e, w') => (Err e, w')
  | (Panic, w') => (Panic, w')
  end.

Definition throw {A} (e : error) : M A := λ w, (Err e, w).
Definition emit (ev : event) : M unit := λ w, (Ret tt, mkWorld (root w) (trace w ++ [ev])).
Definition modify_root (f : bucket → bucket) : M unit := λ w, (Ret tt, set_root f w).

(** [if err := m; err != nil { return errors.Wrapf(err, format, args) }]. *)
Definition wrapf {A} (m : M A) (format : string) (args : list string) : M A :=
  λ w,
    match m w with
    | (Err err, w') => (Err (errors_Wrapf err format args), w')
    | r => r
    end.

(** [if err := m; err != nil { return e }]: the error of [m] is dropped. *)
Definition or_else {A} (m : M A) (e : error) : M A :=
  λ w,
    match m w with
    | (Err _, w') => (Err e, w')
    | r => r
    end.

(** [for _, x := range l { body }], left at the first error. *)
Fixpoint for_range {A} (l : list A) (body : A → M unit) : M unit :=
  match l with
  | [] => mret tt
  | x :: l' => body x ≫= λ _, for_range l' body
  end.

(** A [*bolt.Bucket] is nil or designates a bucket by its path from the
    root of the transaction, so that two handles on one bucket alias. *)
Definition handle := option (list string).

(** The bucket a path leads to. *)
Fixpoint walk (p : list string) (m : bucket) : option bucket :=
  match p with
  | [] => Some m
  | k :: p' =>
      match m !! k with
      | Some (Bkt m') => walk p' m'
      | _ => None
      end
  end.

(** Rewrite the bucket a path leads to (nothing when it leads nowhere). *)
Fixpoint wr (p : list string) (f : bucket → bucket) (m : bucket) : bucket :=
  match p with
  | [] => f m
  | k :: p' =>
      match m !! k with
      | Some (Bkt m') => <[k := Bkt (wr p' f m')]> m
      | _ => m
      end
  end.

(** Calling a method on a nil handle dereferences nil; a handle whose
    bucket is gone is treated the same way. *)
Definition with_bkt {A} (b : handle) (k : list string → bucket → M A) : M A :=
  λ w,
    match b with
    | None => (Panic, w)
    | Some p =>
        match walk p (root w) with
        | None => (Panic, w)
        | Some m => k p m w
        end
    end.

Definition MaxKeySize : Z := 32768.
Definition MaxValueSize : Z := 2147483646.
Definition len (s : string) : Z := Z.of_nat (String.length s).

(** [tx.Bucket(name)]: nil unless [name] is a top-level bucket. *)
Definition tx_Bucket (name : string) : M handle :=
  λ w,
    match root w !! name with
    | Some (Bkt _) => (Ret (Some [name]), w)
    | _ => (Ret None, w)
    end.

(** [b.Bucket(name)]: nil unless [name] is a nested bucket of [b]. *)
Definition bkt_Bucket (b : handle) (name : string) : M handle :=
  with_bkt b (λ p m,
    match m !! name with
    | Some (Bkt _) => mret (Some (p ++ [name]))
    | _ => mret None
    end).

(** [b.Get(key)]: nil when the key is absent or is a nested bucket. *)
Definition bkt_Get (b : handle) (key : string) : M (option string) :=
  with_bkt b (λ _ m,
    match m !! key with
    | Some (Val v) => mret (Some v)
    | _ => mret None
    end).

(** [b.Put(key, value)]. *)
Definition bkt_Put (b : handle) (key value : string) : M unit :=
  with_bkt b (λ p m,
    if decide (key = EmptyString) then throw ErrKeyRequired
    else if (MaxKeySize <? len key)%Z then throw ErrKeyTooLarge
    else if (MaxValueSize <? len value)%Z then throw ErrValueTooLarge
    else match m !! key with
         | Some (Bkt _) => throw ErrIncompatibleValue
         | _ => modify_root (wr p (insert key (Val value)))
         end).

(** [b.Delete(key)]: deleting an absent key is not an error. *)
Definition bkt_Delete (b : handle) (key : string) : M unit :=
  with_bkt b (λ p m,
    match m !! key with
    | Some (Bkt _) => throw ErrIncompatibleValue
    | _ => modify_root (wr p (delete key))
    end).

(** [b.CreateBucket(key)]. *)
Definition bkt_CreateBucket (b : handle) (key : string) : M handle :=
  with_bkt b (λ p m,
    if decide (key = EmptyString) then throw ErrBucketNameRequired
    else match m !! key with
         | Some (Bkt _) => throw ErrBucketExists
         | Some (Val _) => throw ErrIncompatibleValue
         | None =>
             modify_root (wr p (insert key (Bkt ∅))) ≫= λ _,
             mret (Some (p ++ [key]))
         end).

(** [b.DeleteBucket(key)]. *)
Definition bkt_DeleteBucket (b : handle) (key : string) : M unit :=
  with_bkt b (λ p m,
    match m !! key with
    | None => throw ErrBucketNotFound
    | Some (Val _) => throw ErrIncompatibleValue
    | Some (Bkt _) => modify_root (wr p (delete key))
    end).

(** The keys of a bucket in the order of the B+tree: byte-wise
    lexicographic. *)
Definition sorted_keys (m : bucket) : list string :=
  merge_sort String.le (map fst (map_to_list m)).

Definition node_value (n : option node) : option string :=
  match n with
  | Some (Val v) => Some v
  | _ => None
  end.

(** A loop that threads the variables its body assigns as [acc]. *)
Fixpoint for_fold {A S} (l : list A) (body : A → S → M S) (acc : S) : M S :=
  match l with
  | [] => mret acc
  | x :: l' => body x acc ≫= for_fold l' body
  end.

(** [b.ForEach(fn)]: [fn] is called on every key in key order, with a nil
    value for a nested bucket, until it returns an error. *)
Definition bkt_ForEach {S} (b : handle) (fn : string → option string → S → M S)
    (acc : S) : M S :=
  with_bkt b (λ _ m, for_fold (sorted_keys m) (λ k, fn k (node_value (m !! k))) acc).

(** [db.View(fn)]: [fn] runs on the committed tree, which it leaves as it
    is (the bodies here only read). *)
Definition db_View {A} (fn : M A) : M A :=
  λ w, let '(o, w') := fn w in (o, mkWorld (root w) (trace w')).

(** [db.Update(fn)]: commits what [fn] wrote when it returns nil, rolls
    back when it returns an error or panics. *)
Definition db_Update {A} (fn : M A) : M A :=
  λ w,
    match fn w with
    | (Ret a, w') => (Ret a, w')
    | (o, w') => (o, mkWorld (root w) (trace w'))
    end.

(** ** The schema *)

Definition idRegistryBkt : string := "id-registry".
Definition nameRegistryBkt : string := "name-registry".
Definition nsRegistryBkt : string := "ns-registry".
Definition ctrBkt : string := "ctr".
Definition allCtrsBkt : string := "all-ctrs".
Definition podBkt : string := "pod".
Definition allPodsBkt : string := "allPods".
Definition volBkt : string := "vol".
Definition allVolsBkt : string := "allVolumes".
Definition runtimeConfigBkt : string := "runtime-config".

Definition configKey : string := "config".
Definition stateKey : string := "state".
Definition dependenciesBkt : string := "dependencies".
Definition volDependenciesBkt : string := "vol-dependencies".
Definition netNSKey : string := "netns".
Definition containersBkt : string := "containers".
Definition podIDKey : string := "pod-id".
Definition namespaceKey : string := "namespace".

Definition staticDirKey : string := "static-dir".
Definition tmpDirKey : string := "tmp-dir".
Definition runRootKey : string := "run-root".
Definition graphRootKey : string := "graph-root".
Definition graphDriverKey : string := "graph-driver-name".
Definition osKey : string := "os".
Definition volPathKey : string := "volume-path".

(** ** The objects of the runtime, as far as this file reads them *)

Definition Lock := nat.
Definition OCIRuntime := string.

Record ContainerNamedVolume := { vol_Name : string; vol_Dest : string }.

Record ContainerConfig := {
  cfg_ID : string;
  cfg_Name : string;
  cfg_Namespace : string;
  cfg_NamedVolumes : list ContainerNamedVolume;
  cfg_LockID : nat;
  cfg_OCIRuntime : string
}.

Record PodConfig := {
  pod_cfg_ID : string;
  pod_cfg_Name : string;
  pod_cfg_Namespace : string;
  pod_cfg_LockID : nat
}.

Record VolumeConfig := {
  vol_cfg_Name : string;
  vol_cfg_LockID : nat
}.

Record StorageConfig := {
  RunRoot : string;
  GraphRoot : string;
  GraphDriverName : string
}.

Record RuntimeConfig := {
  StaticDir : string;
  TmpDir : string;
  StorageConfig_ : StorageConfig;
  VolumePath : string
}.

(** The runtime: its configuration, its lock manager ([RetrieveLock]) and
    its OCI runtimes. *)
Record Runtime := {
  rt_config : RuntimeConfig;
  lockManager_RetrieveLock : nat → error + Lock;
  defaultOCIRuntime : OCIRuntime;
  ociRuntimes : gmap string OCIRuntime
}.

Record Container := mkContainer {
  ctr_config : ContainerConfig;
  ctr_state : string;
  ctr_lock : option Lock;
  ctr_ociRuntime : option OCIRuntime;
  ctr_runtime : option Runtime;
  ctr_valid : bool
}.

Record Pod := mkPod {
  pod_config : PodConfig;
  pod_lock : option Lock;
  pod_runtime : option Runtime;
  pod_valid : bool
}.

Record Volume := mkVolume {
  volume_config : VolumeConfig;
  volume_lock : option Lock;
  volume_runtime : option Runtime;
  volume_valid : bool
}.

Record BoltState := {
  dbPath : string;
  namespace : string;
  namespaceBytes : option string;
  runtime : Runtime
}.

Definition ctr_ID (c : Container) : string := cfg_ID (ctr_config c).
Definition ctr_Name (c : Container) : string := cfg_Name (ctr_config c).
Definition ctr_Namespace (c : Container) : string := cfg_Namespace (ctr_config c).
Definition pod_ID (p : Pod) : string := pod_cfg_ID (pod_config p).

(** What the code calls outside this file and outside the engine: the JSON
    codec, the operating system and storage defaults, [bolt.Open],
    [filepath.Base], and two readers of the container object. *)
Record Externals := {
  json_Marshal_config : ContainerConfig → error + string;
  json_Marshal_state : string → error + string;
  json_Unmarshal_ctr : string → ContainerConfig → ContainerConfig * option error;
  json_Unmarshal_pod : string → PodConfig → PodConfig * option error;
  json_Unmarshal_vol : string → VolumeConfig → VolumeConfig * option error;
  runtime_GOOS : string;
  storage_DefaultStoreOptions : error + StorageConfig;
  bolt_Open : string → option error;
  filepath_Base : string → string;
  ctr_Dependencies : Container → list string;
  getNetNSPath : Container → string
}.

(** [bytes.Equal]: a nil slice equals an empty one. *)
Definition bytes_Equal (a b : option string) : bool :=
  bool_decide (default EmptyString a = default EmptyString b).

(** [strings.Join]. *)
Fixpoint strings_Join (l : list string) (sep : string) : string :=
  match l with
  | [] => EmptyString
  | [x] => x
  | x :: l' => String.app x (String.app sep (strings_Join l' sep))
  end.

(** ** Bucket accessors *)

Definition required_bucket (name : string) (what : string) : M handle :=
  bkt ← tx_Bucket name;
  match bkt with
  | None => throw (errors_Wrapf ErrDBBadConfig what [])
  | Some _ => mret bkt
  end.

Definition getIDBucket : M handle :=
  required_bucket idRegistryBkt "id registry bucket not found in DB".
Definition getNamesBucket : M handle :=
  required_bucket nameRegistryBkt "name registry bucket not found in DB".
Definition getNSBucket : M handle :=
  required_bucket nsRegistryBkt "namespace registry bucket not found in DB".
Definition getCtrBucket : M handle :=
  required_bucket ctrBkt "containers bucket not found in DB".
Definition getAllCtrsBucket : M handle :=
  required_bucket allCtrsBkt "all containers bucket not found in DB".
Definition getPodBucket : M handle :=
  required_bucket podBkt "pods bucket not found in DB".
Definition getAllPodsBucket : M handle :=
  required_bucket allPodsBkt "all pods bucket not found in DB".
Definition getVolBucket : M handle :=
  required_bucket volBkt "volumes bucket not found in DB".
Definition getAllVolsBucket : M handle :=
  required_bucket allVolsBkt "all volumes bucket not found in DB".
Definition getRuntimeConfigBucket : M handle :=
  required_bucket runtimeConfigBkt "runtime configuration bucket not found in DB".

(** ** Runtime configuration validator *)

(** A field of the runtime configuration that is validated against the
    database. *)
Record dbConfigValidation := mkCheck {
  name : string;
  runtimeValue : string;
  key : string;
  defaultValue : string
}.

(** Validate one field read-only: [(false, nil)] when the key is missing,
    [(true, nil)] when it is there and matches, [(true, err)] when it is
    there and does not. *)
Definition readOnlyValidateConfig (bucket : handle) (toCheck : dbConfigValidation)
    : M (bool * option error) :=
  keyBytes ← bkt_Get bucket (key toCheck);
  match keyBytes with
  | None => mret (false, None)
  | Some dbValue =>
      if bool_decide (runtimeValue toCheck ≠ dbValue) then
        if bool_decide (runtimeValue toCheck = EmptyString) &&
           bool_decide (defaultValue toCheck ≠ EmptyString) &&
           bool_decide (dbValue = defaultValue toCheck)
        then mret (true, None)
        else if bool_decide (dbValue = EmptyString) &&
                bool_decide (defaultValue toCheck ≠ EmptyString) &&
                bool_decide (runtimeValue toCheck = defaultValue toCheck)
        then mret (true, None)
        else mret (true, Some (errors_Wrapf ErrDBBadConfig
                     "database %s %q does not match our %s %q"
                     [name toCheck; dbValue; name toCheck; runtimeValue toCheck]))
      else mret (true, None)
  end.

(** The fields [checkRuntimeConfig] validates, in its order. *)
Definition runtimeConfigChecks (goos : string) (rt : Runtime) (storeOpts : StorageConfig)
    : list dbConfigValidation :=
  [ mkCheck "OS" goos osKey goos;
    mkCheck "libpod root directory (staticdir)"
      (StaticDir (rt_config rt)) staticDirKey EmptyString;
    mkCheck "libpod temporary files directory (tmpdir)"
      (TmpDir (rt_config rt)) tmpDirKey EmptyString;
    mkCheck "storage temporary directory (runroot)"
      (RunRoot (StorageConfig_ (rt_config rt))) runRootKey (RunRoot storeOpts);
    mkCheck "storage graph root directory (graphroot)"
      (GraphRoot (StorageConfig_ (rt_config rt))) graphRootKey (GraphRoot storeOpts);
    mkCheck "storage graph driver"
      (GraphDriverName (StorageConfig_ (rt_config rt))) graphDriverKey
      (GraphDriverName storeOpts);
    mkCheck "volume path" (VolumePath (rt_config rt)) volPathKey EmptyString ].

(** The read-only pass: the fields whose key is missing, or the first
    validation error. *)
Definition validateChecks (checks : list dbConfigValidation)
    : M (list dbConfigValidation) :=
  configBkt ← getRuntimeConfigBucket;
  for_fold checks (λ check missingFields,
    r ← readOnlyValidateConfig configBkt check;
    match r with
    | (_, Some err) => throw err
    | (false, None) => mret (missingFields ++ [check])
    | (true, None) => mret missingFields
    end) [].

(** The value stored for a missing field. *)
Definition missingValue (missing : dbConfigValidation) : string :=
  if bool_decide (runtimeValue missing = EmptyString) &&
     bool_decide (defaultValue missing ≠ EmptyString)
  then defaultValue missing
  else runtimeValue missing.

(** The write pass over the missing fields. *)
Definition populateMissing (missingFields : list dbConfigValidation) : M unit :=
  configBkt ← getRuntimeConfigBucket;
  for_range missingFields (λ missing,
    wrapf (bkt_Put configBkt (key missing) (missingValue missing))
      "error updating %s in DB runtime config" [name missing]).

(** The two passes of [checkRuntimeConfig] over a list of fields. *)
Definition checkFields (checks : list dbConfigValidation) : M unit :=
  missingFields ← db_View (validateChecks checks);
  match missingFields with
  | [] => mret tt
  | _ => db_Update (populateMissing missingFields)
  end.

(** Check that the configuration stored in the database is compatible
    with the runtime opening it; store the fields the database lacks. *)
Definition checkRuntimeConfig (E : Externals) (rt : Runtime) : M unit :=
  match storage_DefaultStoreOptions E with
  | inl err => throw err
  | inr storeOpts => checkFields (runtimeConfigChecks (runtime_GOOS E) rt storeOpts)
  end.

(** ** Entity hydration *)

(** Each function returns the caller's object as the call leaves it,
    together with the error returned. *)

Definition getContainerFromDB (E : Externals) (s : BoltState) (id : string)
    (ctr : Container) (ctrsBkt : handle) : M (Container * option error) :=
  ctrBkt ← bkt_Bucket ctrsBkt id;
  match ctrBkt with
  | None =>
      mret (ctr, Some (errors_Wrapf ErrNoSuchCtr "container %s not found in DB" [id]))
  | Some _ =>
      ctrNamespaceBytes ←
        (match namespaceBytes s with
         | Some _ => bkt_Get ctrBkt namespaceKey
         | None => mret None
         end);
      if bool_decide (namespaceBytes s ≠ None) &&
         negb (bytes_Equal (namespaceBytes s) ctrNamespaceBytes)
      then
        mret (ctr, Some (errors_Wrapf ErrNSMismatch
          "cannot retrieve container %s as it is part of namespace %q and we are in namespace %q"
          [id; default EmptyString ctrNamespaceBytes; namespace s]))
      else
        configBytes ← bkt_Get ctrBkt configKey;
        match configBytes with
        | None =>
            mret (ctr, Some (errors_Wrapf ErrInternal
              "container %s missing config key in DB" [id]))
        | Some configBytes =>
            let '(config, uerr) := json_Unmarshal_ctr E configBytes (ctr_config ctr) in
            let ctr := mkContainer config (ctr_state ctr) (ctr_lock ctr)
                         (ctr_ociRuntime ctr) (ctr_runtime ctr) (ctr_valid ctr) in
            match uerr with
            | Some err =>
                mret (ctr, Some (errors_Wrapf err
                  "error unmarshalling container %s config" [id]))
            | None =>
                match lockManager_RetrieveLock (runtime s) (cfg_LockID config) with
                | inl err =>
                    mret (ctr, Some (errors_Wrapf err
                      "error retrieving lock for container %s" [id]))
                | inr lock =>
                    let ctr := mkContainer config (ctr_state ctr) (Some lock)
                                 (ctr_ociRuntime ctr) (ctr_runtime ctr) (ctr_valid ctr) in
                    let resolved :=
                      if bool_decide (cfg_OCIRuntime config = EmptyString)
                      then Some (defaultOCIRuntime (runtime s))
                      else
                        let runtimeName := cfg_OCIRuntime config in
                        let runtimeName :=
                          if String.prefix "/" runtimeName
                          then filepath_Base E runtimeName else runtimeName in
                        ociRuntimes (runtime s) !! runtimeName in
                    match resolved with
                    | None =>
                        mret (ctr, Some (errors_Wrapf ErrInternal
                          "container %s was created with OCI runtime %s, but that runtime is not available in the current configuration"
                          [ctr_ID ctr; cfg_OCIRuntime config]))
                    | Some ociRuntime =>
                        mret (mkContainer config (ctr_state ctr) (Some lock)
                                (Some ociRuntime) (Some (runtime s)) true, None)
                    end
                end
            end
        end
  end.

Definition getPodFromDB (E : Externals) (s : BoltState) (id : string)
    (pod : Pod) (podBkt : handle) : M (Pod * option error) :=
  podDB ← bkt_Bucket podBkt id;
  match podDB with
  | None =>
      mret (pod, Some (errors_Wrapf ErrNoSuchPod "pod with ID %s not found" [id]))
  | Some _ =>
      podNamespaceBytes ←
        (match namespaceBytes s with
         | Some _ => bkt_Get podDB namespaceKey
         | None => mret None
         end);
      if bool_decide (namespaceBytes s ≠ None) &&
         negb (bytes_Equal (namespaceBytes s) podNamespaceBytes)
      then
        mret (pod, Some (errors_Wrapf ErrNSMismatch
          "cannot retrieve pod %s as it is part of namespace %q and we are in namespace %q"
          [id; default EmptyString podNamespaceBytes; namespace s]))
      else
        podConfigBytes ← bkt_Get podDB configKey;
        match podConfigBytes with
        | None =>
            mret (pod, Some (errors_Wrapf ErrInternal
              "pod %s is missing configuration key in DB" [id]))
        | Some podConfigBytes =>
            let '(config, uerr) := json_Unmarshal_pod E podConfigBytes (pod_config pod) in
            let pod := mkPod config (pod_lock pod) (pod_runtime pod) (pod_valid pod) in
            match uerr with
            | Some err =>
                mret (pod, Some (errors_Wrapf err
                  "error unmarshalling pod %s config from DB" [id]))
            | None =>
                match lockManager_RetrieveLock (runtime s) (pod_cfg_LockID config) with
                | inl err =>
                    mret (pod, Some (errors_Wrapf err
                      "error retrieving lock for pod %s" [id]))
                | inr lock =>
                    mret (mkPod config (Some lock) (Some (runtime s)) true, None)
                end
            end
        end
  end.

Definition getVolumeFromDB (E : Externals) (s : BoltState) (name : string)
    (volume : Volume) (volBkt : handle) : M (Volume * option error) :=
  volDB ← bkt_Bucket volBkt name;
  match volDB with
  | None =>
      mret (volume, Some (errors_Wrapf ErrNoSuchVolume
        "volume with name %s not found" [name]))
  | Some _ =>
      volConfigBytes ← bkt_Get volDB configKey;
      match volConfigBytes with
      | None =>
          mret (volume, Some (errors_Wrapf ErrInternal
            "volume %s is missing configuration key in DB" [name]))
      | Some volConfigBytes =>
          let '(config, uerr) :=
            json_Unmarshal_vol E volConfigBytes (volume_config volume) in
          let volume := mkVolume config (volume_lock volume) (volume_runtime volume)
                          (volume_valid volume) in
          match uerr with
          | Some err =>
              mret (volume, Some (errors_Wrapf err
                "error unmarshalling volume %s config from DB" [name]))
          | None =>
              match lockManager_RetrieveLock (runtime s) (vol_cfg_LockID config) with
              | inl err =>
                  mret (volume, Some (errors_Wrapf err
                    "error retrieving lock for volume %q" [name]))
              | inr lock =>
                  mret (mkVolume config (Some lock) (Some (runtime s)) true, None)
              end
          end
      end
  end.

(** ** Container mutator: add *)

Definition ctrNamespaceOf (ctr : Container) : option string :=
  if bool_decide (ctr_Namespace ctr ≠ EmptyString) then Some (ctr_Namespace ctr) else None.

(** The pod given to [addContainer]: its bucket must exist, have a
    [containers] bucket and be in the namespace of the container.  Returns
    [podCtrs]. *)
Definition addContainer_pod (ctr : Container) (pod : option Pod) : M handle :=
  match pod with
  | None => mret None
  | Some pod =>
      podBucket ← getPodBucket;
      podDB ← bkt_Bucket podBucket (pod_ID pod);
      match podDB with
      | None =>
          emit (InvalidatePod (pod_ID pod));;
          throw (errors_Wrapf ErrNoSuchPod "pod %s does not exist in database" [pod_ID pod])
      | Some _ =>
          podCtrs ← bkt_Bucket podDB containersBkt;
          match podCtrs with
          | None =>
              throw (errors_Wrapf ErrInternal
                "pod %s does not have a containers bucket" [pod_ID pod])
          | Some _ =>
              podNS ← bkt_Get podDB namespaceKey;
              if negb (bytes_Equal podNS (ctrNamespaceOf ctr)) then
                throw (errors_Wrapf ErrNSMismatch
                  "container %s is in namespace %s and pod %s is in namespace %s"
                  [ctr_ID ctr; ctr_Namespace ctr; pod_ID pod;
                   pod_cfg_Namespace (pod_config pod)])
              else mret podCtrs
          end
      end
  end.

(** The registry entries and the bucket of the new container. *)
Definition addContainer_register (ctr : Container) (pod : option Pod)
    (configJSON stateJSON netNSPath : string)
    (idsBucket namesBucket nsBucket ctrBucket allCtrsBucket : handle) : M unit :=
  let ctrID := ctr_ID ctr in
  let ctrName := ctr_Name ctr in
  let ctrNamespace := ctrNamespaceOf ctr in
  idExist ← bkt_Get idsBucket ctrID;
  match idExist with
  | Some _ => throw (errors_Wrapf ErrCtrExists "ID %s is in use" [ctr_ID ctr])
  | None =>
  nameExist ← bkt_Get namesBucket ctrName;
  match nameExist with
  | Some _ => throw (errors_Wrapf ErrCtrExists "name %s is in use" [ctr_Name ctr])
  | None =>
  wrapf (bkt_Put idsBucket ctrID ctrName)
    "error adding container %s ID to DB" [ctr_ID ctr];;
  wrapf (bkt_Put namesBucket ctrName ctrID)
    "error adding container %s name (%s) to DB" [ctr_ID ctr; ctr_Name ctr];;
  match ctrNamespace with
  | Some ns =>
      wrapf (bkt_Put nsBucket ctrID ns)
        "error adding container %s namespace (%q) to DB" [ctr_ID ctr; ctr_Namespace ctr]
  | None => mret tt
  end;;
  wrapf (bkt_Put allCtrsBucket ctrID ctrName)
    "error adding container %s to all containers bucket in DB" [ctr_ID ctr];;
  newCtrBkt ← wrapf (bkt_CreateBucket ctrBucket ctrID)
    "error adding container %s bucket to DB" [ctr_ID ctr];
  wrapf (bkt_Put newCtrBkt configKey configJSON)
    "error adding container %s config to DB" [ctr_ID ctr];;
  wrapf (bkt_Put newCtrBkt stateKey stateJSON)
    "error adding container %s state to DB" [ctr_ID ctr];;
  match ctrNamespace with
  | Some ns =>
      wrapf (bkt_Put newCtrBkt namespaceKey ns)
        "error adding container %s namespace to DB" [ctr_ID ctr]
  | None => mret tt
  end;;
  match pod with
  | Some pod =>
      wrapf (bkt_Put newCtrBkt podIDKey (pod_ID pod))
        "error adding container %s pod to DB" [ctr_ID ctr]
  | None => mret tt
  end;;
  (if bool_decide (netNSPath ≠ EmptyString) then
     wrapf (bkt_Put newCtrBkt netNSKey netNSPath)
       "error adding container %s netns path to DB" [ctr_ID ctr]
   else mret tt);;
  wrapf (bkt_CreateBucket newCtrBkt dependenciesBkt)
    "error creating dependencies bucket for container %s" [ctr_ID ctr];;
  mret tt
  end end.

(** One turn of the loop over the dependencies of the new container. *)
Definition addContainer_dependency (ctr : Container) (pod : option Pod)
    (ctrBucket : handle) (dependsCtr : string) : M unit :=
  let ctrID := ctr_ID ctr in
  let ctrName := ctr_Name ctr in
  depCtrBkt ← bkt_Bucket ctrBucket dependsCtr;
  match depCtrBkt with
  | None =>
      throw (errors_Wrapf ErrNoSuchCtr
        "container %s depends on container %s, but it does not exist in the DB"
        [ctr_ID ctr; dependsCtr])
  | Some _ =>
      depCtrPod ← bkt_Get depCtrBkt podIDKey;
      match pod, depCtrPod with
      | Some pod, None =>
          throw (errors_Wrapf ErrInvalidArg
            "container %s depends on container %s which is not in pod %s"
            [ctr_ID ctr; dependsCtr; pod_ID pod])
      | Some pod, Some depCtrPod =>
          if bool_decide (depCtrPod ≠ pod_ID pod) then
            throw (errors_Wrapf ErrInvalidArg
              "container %s depends on container %s which is in a different pod (%s)"
              [ctr_ID ctr; dependsCtr; depCtrPod])
          else mret tt
      | None, Some _ =>
          throw (errors_Wrapf ErrInvalidArg
            "container %s depends on container %s which is in a pod - containers not in pods cannot depend on containers in pods"
            [ctr_ID ctr; dependsCtr])
      | None, None => mret tt
      end;;
      depNamespace ← bkt_Get depCtrBkt namespaceKey;
      if negb (bytes_Equal (ctrNamespaceOf ctr) depNamespace) then
        throw (errors_Wrapf ErrNSMismatch
          "container %s in namespace %q depends on container %s in namespace %q - namespaces must match"
          [ctr_ID ctr; ctr_Namespace ctr; dependsCtr; default EmptyString depNamespace])
      else
        depCtrDependsBkt ← bkt_Bucket depCtrBkt dependenciesBkt;
        match depCtrDependsBkt with
        | None =>
            throw (errors_Wrapf ErrInternal
              "container %s does not have a dependencies bucket" [dependsCtr])
        | Some _ =>
            wrapf (bkt_Put depCtrDependsBkt ctrID ctrName)
              "error adding ctr %s as dependency of container %s" [ctr_ID ctr; dependsCtr]
        end
  end.

(** One turn of the loop over the named volumes of the new container. *)
Definition addContainer_volume (ctr : Container) (volBkt : handle)
    (vol : ContainerNamedVolume) : M unit :=
  let ctrID := ctr_ID ctr in
  volDB ← bkt_Bucket volBkt (vol_Name vol);
  match volDB with
  | None =>
      throw (errors_Wrapf ErrNoSuchVolume
        "no volume with name %s found in database when adding container %s"
        [vol_Name vol; ctr_ID ctr])
  | Some _ =>
      ctrDepsBkt ← bkt_Bucket volDB volDependenciesBkt;
      depExists ← bkt_Get ctrDepsBkt ctrID;
      match depExists with
      | None =>
          wrapf (bkt_Put ctrDepsBkt ctrID ctrID)
            "error adding container %s to volume %s dependencies" [ctr_ID ctr; vol_Name vol]
      | Some _ => mret tt
      end
  end.

(** The transaction of [addContainer] up to the loop over the
    dependencies: the buckets, the pod, the registries and the bucket of
    the container.  Returns [ctrBucket], [volBkt] and [podCtrs]. *)
Definition addContainer_open (ctr : Container) (pod : option Pod)
    (configJSON stateJSON netNSPath : string) : M (handle * handle * handle) :=
  idsBucket ← getIDBucket;
  namesBucket ← getNamesBucket;
  nsBucket ← getNSBucket;
  ctrBucket ← getCtrBucket;
  allCtrsBucket ← getAllCtrsBucket;
  volBkt ← getVolBucket;
  (* If a pod was given, check if it exists *)
  podCtrs ← addContainer_pod ctr pod;
  (* Check if we already have a container with the given ID and name;
     add the new container to the DB *)
  addContainer_register ctr pod configJSON stateJSON netNSPath
    idsBucket namesBucket nsBucket ctrBucket allCtrsBucket;;
  mret (ctrBucket, volBkt, podCtrs).

(** The body of the write transaction of [addContainer]. *)
Definition addContainer_tx (ctr : Container) (pod : option Pod)
    (configJSON stateJSON netNSPath : string) (dependsCtrs : list string) : M unit :=
  let ctrID := ctr_ID ctr in
  let ctrName := ctr_Name ctr in
  '(ctrBucket, volBkt, podCtrs) ← addContainer_open ctr pod configJSON stateJSON netNSPath;
  (* Add dependencies for the container *)
  for_range dependsCtrs (addContainer_dependency ctr pod ctrBucket);;
  (* Add ctr to pod *)
  match pod, podCtrs with
  | Some pod, Some _ =>
      wrapf (bkt_Put podCtrs ctrID ctrName)
        "error adding container %s to pod %s" [ctr_ID ctr; pod_ID pod]
  | _, _ => mret tt
  end;;
  (* Add container to named volume dependencies buckets *)
  for_range (cfg_NamedVolumes (ctr_config ctr)) (addContainer_volume ctr volBkt).

(** [s.getDBCon()]: open the database file.  The deferred close only
    logs. *)
Definition getDBCon (E : Externals) (s : BoltState) : M unit :=
  match bolt_Open E (dbPath s) with
  | Some err => throw (errors_Wrapf err "error opening database %s" [dbPath s])
  | None => mret tt
  end.

(** Add a container to the DB.  If [pod] is given, the container is added
    to the pod as well. *)
Definition addContainer (E : Externals) (s : BoltState) (ctr : Container)
    (pod : option Pod) : M unit :=
  if bool_decide (namespace s ≠ EmptyString) &&
     bool_decide (namespace s ≠ ctr_Namespace ctr)
  then
    throw (errors_Wrapf ErrNSMismatch
      "cannot add container %s as it is in namespace %q and we are in namespace %q"
      [ctr_ID ctr; namespace s; ctr_Namespace ctr])
  else
    match json_Marshal_config E (ctr_config ctr) with
    | inl err =>
        throw (errors_Wrapf err "error marshalling container %s config to JSON" [ctr_ID ctr])
    | inr configJSON =>
        match json_Marshal_state E (ctr_state ctr) with
        | inl err =>
            throw (errors_Wrapf err "error marshalling container %s state to JSON"
                     [ctr_ID ctr])
        | inr stateJSON =>
            let netNSPath := getNetNSPath E ctr in
            let dependsCtrs := ctr_Dependencies E ctr in
            getDBCon E s;;
            db_Update (addContainer_tx ctr pod configJSON stateJSON netNSPath dependsCtrs)
        end
    end.

(** ** Container mutator: remove *)

(** One turn of the loop that removes the container from the
    [dependencies] bucket of a container it depends on. *)
Definition removeContainer_dependency (ctr : Container) (ctrBucket : handle)
    (depCtr : string) : M unit :=
  let ctrID := ctr_ID ctr in
  depCtrBkt ← bkt_Bucket ctrBucket depCtr;
  match depCtrBkt with
  | None => mret tt
  | Some _ =>
      depCtrDependsBkt ← bkt_Bucket depCtrBkt dependenciesBkt;
      match depCtrDependsBkt with
      | None =>
          emit (LogErrorf "Container %s is missing dependencies bucket in DB" [ctr_ID ctr])
      | Some _ =>
          wrapf (bkt_Delete depCtrDependsBkt ctrID)
            "error removing container %s as a dependency of container %s"
            [ctr_ID ctr; depCtr]
      end
  end.

(** One turn of the loop over the named volumes of the removed container. *)
Definition removeContainer_volume (ctr : Container) (volBkt : handle)
    (vol : ContainerNamedVolume) : M unit :=
  let ctrID := ctr_ID ctr in
  volDB ← bkt_Bucket volBkt (vol_Name vol);
  match volDB with
  | None => mret tt
  | Some _ =>
      ctrDepsBkt ← bkt_Bucket volDB volDependenciesBkt;
      depExists ← bkt_Get ctrDepsBkt ctrID;
      match depExists with
      | None =>
          wrapf (bkt_Delete ctrDepsBkt ctrID)
            "error deleting container %s dependency on volume %s"
            [ctr_ID ctr; vol_Name vol]
      | Some _ => mret tt
      end
  end.

(** The pod given to [removeContainer]: its bucket must exist.  Returns
    [podDB]. *)
Definition removeContainer_pod (pod : option Pod) : M handle :=
  match pod with
  | None => mret None
  | Some pod =>
      podBucket ← getPodBucket;
      podDB ← bkt_Bucket podBucket (pod_ID pod);
      match podDB with
      | None =>
          emit (InvalidatePod (pod_ID pod));;
          throw (errors_Wrapf ErrNoSuchPod "no pod with ID %s found in DB" [pod_ID pod])
      | Some _ => mret podDB
      end
  end.

(** We can't remove containers not in our namespace. *)
Definition removeContainer_namespace (s : BoltState) (ctr : Container)
    (pod : option Pod) : M unit :=
  if bool_decide (namespace s ≠ EmptyString) then
    if bool_decide (namespace s ≠ ctr_Namespace ctr) then
      throw (errors_Wrapf ErrNSMismatch
        "container %s is in namespace %q, does not match our namespace %q"
        [ctr_ID ctr; ctr_Namespace ctr; namespace s])
    else
      match pod with
      | Some pod =>
          if bool_decide (namespace s ≠ pod_cfg_Namespace (pod_config pod)) then
            throw (errors_Wrapf ErrNSMismatch
              "pod %s is in namespace %q, does not match out namespace %q"
              [pod_ID pod; pod_cfg_Namespace (pod_config pod); namespace s])
          else mret tt
      | None => mret tt
      end
  else mret tt.

(** Check if the container is in the pod, remove it if it is. *)
Definition removeContainer_unlink (ctr : Container) (pod : option Pod)
    (podDB : handle) : M unit :=
  let ctrID := ctr_ID ctr in
  match podDB, pod with
  | Some _, Some pod =>
      podCtrs ← bkt_Bucket podDB containersBkt;
      match podCtrs with
      | None =>
          emit (LogErrorf "pod %s malformed in database, missing containers bucket!"
                  [pod_ID pod])
      | Some _ =>
          ctrInPod ← bkt_Get podCtrs ctrID;
          match ctrInPod with
          | None =>
              throw (errors_Wrapf ErrNoSuchCtr "container %s is not in pod %s"
                       [ctr_ID ctr; pod_ID pod])
          | Some _ =>
              wrapf (bkt_Delete podCtrs ctrID)
                "error removing container %s from pod %s" [ctr_ID ctr; pod_ID pod]
          end
      end
  | _, _ => mret tt
  end.

(** Remove a container from the DB, inside the transaction of the caller.
    If [pod] is given, the container is removed from the pod as well. *)
Definition removeContainer (E : Externals) (s : BoltState) (ctr : Container)
    (pod : option Pod) : M unit :=
  let ctrID := ctr_ID ctr in
  let ctrName := ctr_Name ctr in
  idsBucket ← getIDBucket;
  namesBucket ← getNamesBucket;
  ctrBucket ← getCtrBucket;
  nsBucket ← getNSBucket;
  allCtrsBucket ← getAllCtrsBucket;
  volBkt ← getVolBucket;
  (* Does the pod exist? *)
  podDB ← removeContainer_pod pod;
  (* Does the container exist? *)
  ctrExists ← bkt_Bucket ctrBucket ctrID;
  match ctrExists with
  | None =>
      emit (InvalidateCtr (ctr_ID ctr));;
      throw (errors_Wrapf ErrNoSuchCtr "no container with ID %s found in DB" [ctr_ID ctr])
  | Some _ =>
  (* Compare namespace *)
  removeContainer_namespace s ctr pod;;
  removeContainer_unlink ctr pod podDB;;
  (* Does the container have dependencies? *)
  ctrDepsBkt ← bkt_Bucket ctrExists dependenciesBkt;
  match ctrDepsBkt with
  | None =>
      throw (errors_Wrapf ErrInternal
        "container %s does not have a dependencies bucket" [ctr_ID ctr])
  | Some _ =>
  deps ← bkt_ForEach ctrDepsBkt (λ id value deps, mret (deps ++ [id])) [];
  if bool_decide (length deps ≠ 0) then
    throw (errors_Wrapf ErrCtrExists
      "container %s is a dependency of the following containers: %s"
      [ctr_ID ctr; strings_Join deps ", "])
  else
  or_else (bkt_DeleteBucket ctrBucket ctrID)
    (errors_Wrapf ErrInternal "error deleting container %s from DB" [ctr_ID ctr]);;
  wrapf (bkt_Delete idsBucket ctrID)
    "error deleting container %s ID in DB" [ctr_ID ctr];;
  wrapf (bkt_Delete namesBucket ctrName)
    "error deleting container %s name in DB" [ctr_ID ctr];;
  wrapf (bkt_Delete nsBucket ctrID)
    "error deleting container %s namespace in DB" [ctr_ID ctr];;
  wrapf (bkt_Delete allCtrsBucket ctrID)
    "error deleting container %s from all containers bucket in DB" [ctr_ID ctr];;
  (* Remove us from other container's dependencies *)
  for_range (ctr_Dependencies E ctr) (removeContainer_dependency ctr ctrBucket);;
  (* Remove container from named volume dependencies buckets *)
  for_range (cfg_NamedVolumes (ctr_config ctr)) (removeContainer_volume ctr volBkt)
  end end.

(** Modelled from the spec: the caller of [removeContainer], which is not
    among the sources (RemoveContainer and RemoveContainerFromPod of the
    state's public file).  "Given a container A and optionally a pod P,
    in one write transaction": the removal is the body of one
    [db.Update], so that an error rolls back what it wrote. *)
Definition RemoveContainer (E : Externals) (s : BoltState) (ctr : Container)
    (pod : option Pod) : M unit :=
  db_Update (removeContainer E s ctr pod).

(** ** Concrete stores and objects, for the examples *)

Module Sample.

(** A freshly initialised database: the ten top-level buckets, empty. *)
Definition emptyDB : bucket :=
  list_to_map ((λ k, (k, Bkt ∅)) <$>
    [idRegistryBkt; nameRegistryBkt; nsRegistryBkt; ctrBkt; allCtrsBkt;
     podBkt; allPodsBkt; volBkt; allVolsBkt; runtimeConfigBkt]).

Definition world (r : bucket) : World := mkWorld r [].

Definition E : Externals := {|
  json_Marshal_config := λ c, inr (String.app "config:" (cfg_ID c));
  json_Marshal_state := λ st, inr st;
  json_Unmarshal_ctr := λ _ c, (c, None);
  json_Unmarshal_pod := λ _ c, (c, None);
  json_Unmarshal_vol := λ _ c, (c, None);
  runtime_GOOS := "linux";
  storage_DefaultStoreOptions :=
    inr {| RunRoot := "/run/containers"; GraphRoot := "/var/lib/containers";
           GraphDriverName := "overlay" |};
  bolt_Open := λ _, None;
  filepath_Base := λ p, p;
  ctr_Dependencies := λ _, [];
  getNetNSPath := λ _, EmptyString
|}.

(** The same collaborators, for a container that depends on ["A"]. *)
Definition E_depA : Externals := {|
  json_Marshal_config := json_Marshal_config E;
  json_Marshal_state := json_Marshal_state E;
  json_Unmarshal_ctr := json_Unmarshal_ctr E;
  json_Unmarshal_pod := json_Unmarshal_pod E;
  json_Unmarshal_vol := json_Unmarshal_vol E;
  runtime_GOOS := runtime_GOOS E;
  storage_DefaultStoreOptions := storage_DefaultStoreOptions E;
  bolt_Open := bolt_Open E;
  filepath_Base := filepath_Base E;
  ctr_Dependencies := λ c, if bool_decide (ctr_ID c = "A") then [] else ["A"];
  getNetNSPath := getNetNSPath E
|}.

Definition rt : Runtime := {|
  rt_config := {| StaticDir := "/var/lib/libpod"; TmpDir := "/run/libpod";
                  StorageConfig_ := {| RunRoot := EmptyString;
                                       GraphRoot := "/var/lib/containers";
                                       GraphDriverName := "overlay" |};
                  VolumePath := "/var/lib/volumes" |};
  lockManager_RetrieveLock := λ n, inr n;
  defaultOCIRuntime := "runc";
  ociRuntimes := {[ "runc" := "runc" ]}
|}.

Definition s (ns : string) : BoltState := {|
  dbPath := "/var/lib/libpod/bolt_state.db";
  namespace := ns;
  namespaceBytes := if bool_decide (ns = EmptyString) then None else Some ns;
  runtime := rt
|}.

Definition container (id nm ns : string) (vols : list string) : Container := {|
  ctr_config := {| cfg_ID := id; cfg_Name := nm; cfg_Namespace := ns;
                   cfg_NamedVolumes := (λ v, {| vol_Name := v; vol_Dest := "/data" |}) <$> vols;
                   cfg_LockID := 0; cfg_OCIRuntime := EmptyString |};
  ctr_state := "{}";
  ctr_lock := None; ctr_ociRuntime := None; ctr_runtime := None; ctr_valid := false
|}.

Definition pod (id nm ns : string) : Pod := {|
  pod_config := {| pod_cfg_ID := id; pod_cfg_Name := nm; pod_cfg_Namespace := ns;
                   pod_cfg_LockID := 1 |};
  pod_lock := None; pod_runtime := None; pod_valid := true
|}.

(** A volume record as the volume mutator leaves it. *)
Definition volumeRecord (deps : bucket) : node :=
  Bkt (<[configKey := Val "{}"]> (<[volDependenciesBkt := Bkt deps]> ∅)).

(** A pod record with its members. *)
Definition podRecord (ns : option string) (members : bucket) : node :=
  Bkt (<[configKey := Val "{}"]> (<[containersBkt := Bkt members]>
    (match ns with Some n => {[ namespaceKey := Val n ]} | None => ∅ end))).

(** A container record as [addContainer] leaves it. *)
Definition ctrRecord (ns podID : option string) (dependents : bucket) : node :=
  Bkt (<[configKey := Val "{}"]> (<[stateKey := Val "{}"]>
    (<[dependenciesBkt := Bkt dependents]>
      ((match ns with Some n => {[ namespaceKey := Val n ]} | None => ∅ end) ∪
       (match podID with Some i => {[ podIDKey := Val i ]} | None => ∅ end))))).

Definition withCtr (id : string) (n : node) (r : bucket) : bucket :=
  wr [ctrBkt] (insert id n) r.

Definition withVolume (v : string) (n : node) (r : bucket) : bucket :=
  wr [volBkt] (insert v n) r.

Definition withPod (id : string) (n : node) (r : bucket) : bucket :=
  wr [podBkt] (insert id n) r.

End Sample.


(** * Vocabulary of the specifications *)

(** The key holds a nested bucket. *)
Definition is_bkt (n : option node) : Prop := ∃ m, n = Some (Bkt m).

(** The handle [b.Bucket(k)] returns. *)
Definition sub_handle (p : list string) (m : bucket) (k : string) : handle :=
  match m !! k with
  | Some (Bkt _) => Some (p ++ [k])
  | _ => None
  end.

(** When the two values differ, the field is accepted by one of the two
    default rules or not at all. *)
Definition matches (toCheck : dbConfigValidation) (dbValue : string) : Prop :=
  dbValue = runtimeValue toCheck ∨
  (runtimeValue toCheck = EmptyString ∧ dbValue = defaultValue toCheck) ∨
  (dbValue = EmptyString ∧ runtimeValue toCheck = defaultValue toCheck).

(** A computation that returns the world it was given. *)
Definition readonly {A} (m : M A) : Prop := ∀ w, (m w).2 = w.

(** The value the specification names for a missing field: the runtime
    value, or the default when the runtime value is empty. *)
Definition storedValue (c : dbConfigValidation) : string :=
  if decide (runtimeValue c = EmptyString) then defaultValue c else runtimeValue c.

(** A field is in order when its key is free or holds a matching value. *)
Definition in_order (mc : bucket) (c : dbConfigValidation) : Prop :=
  mc !! key c = None ∨ ∃ v, mc !! key c = Some (Val v) ∧ matches c v.

Definition absent (mc : bucket) (c : dbConfigValidation) : Prop := mc !! key c = None.

#[global] Instance absent_dec (mc : bucket) (c : dbConfigValidation) : Decision (absent mc c).
Proof. unfold absent. apply _. Defined.

(** The bucket after the write pass. *)
Definition store (ms : list dbConfigValidation) (mc : bucket) : bucket :=
  foldl (λ m c, <[key c := Val (missingValue c)]> m) mc ms.


(** [K] bounds the top-level buckets that differ between two worlds, and
    no top-level bucket is lost. *)
Definition confined (K : list string) (w w' : World) : Prop :=
  (∀ k, k ∉ K → root w' !! k = root w !! k) ∧
  (∀ k, is_bkt (root w !! k) → is_bkt (root w' !! k)).

(** The precondition of the volume steps: every bucket under [vol] has a
    [vol-dependencies] bucket. *)
Definition vol_ok (r : bucket) : Prop :=
  ∀ mv v mV, r !! volBkt = Some (Bkt mv) → mv !! v = Some (Bkt mV) →
             is_bkt (mV !! volDependenciesBkt).

(** The top-level buckets the container mutators ask for. *)
Definition registries_exist (r : bucket) : Prop :=
  is_bkt (r !! idRegistryBkt) ∧ is_bkt (r !! nameRegistryBkt) ∧
  is_bkt (r !! nsRegistryBkt) ∧ is_bkt (r !! ctrBkt) ∧
  is_bkt (r !! allCtrsBkt) ∧ is_bkt (r !! volBkt).

(** The pod given to [addContainer] passes its checks: it has a bucket
    with a [containers] bucket, in the namespace of the container. *)
Definition pod_ready (r : bucket) (ctr : Container) (pod : option Pod) : Prop :=
  match pod with
  | None => True
  | Some pod =>
      ∃ mp mc, walk [podBkt; pod_ID pod] r = Some mp ∧
               mp !! containersBkt = Some (Bkt mc) ∧
               bytes_Equal (node_value (mp !! namespaceKey)) (ctrNamespaceOf ctr) = true
  end.

(** What [addContainer] checks and computes before it opens the
    transaction. *)
Definition prepared (E : Externals) (s : BoltState) (ctr : Container)
    (configJSON stateJSON : string) : Prop :=
  (namespace s = EmptyString ∨ namespace s = ctr_Namespace ctr) ∧
  json_Marshal_config E (ctr_config ctr) = inr configJSON ∧
  json_Marshal_state E (ctr_state ctr) = inr stateJSON ∧
  bolt_Open E (dbPath s) = None.

(** The registries answer for the ID, or for the name, of the container. *)
Definition id_taken (r : bucket) (ctr : Container) : Prop :=
  ∃ m v, r !! idRegistryBkt = Some (Bkt m) ∧ m !! ctr_ID ctr = Some (Val v).

Definition name_taken (r : bucket) (ctr : Container) : Prop :=
  ∃ m v, r !! nameRegistryBkt = Some (Bkt m) ∧ m !! ctr_Name ctr = Some (Val v).

(** The dependency breaks pod coherence: the container is added to a pod
    and the dependency does not store that pod's ID, or it is added to no
    pod and the dependency stores a pod ID. *)
Definition pod_incoherent (pod : option Pod) (mD : bucket) : Prop :=
  match pod with
  | Some pod => node_value (mD !! podIDKey) ≠ Some (pod_ID pod)
  | None => node_value (mD !! podIDKey) ≠ None
  end.

(** No bucket of [w] is lost in [w']: every handle stays usable. *)
Definition alive (w w' : World) : Prop :=
  ∀ q, is_Some (walk q (root w)) → is_Some (walk q (root w')).

(** The handle [addContainer] keeps on the [containers] bucket of its pod. *)
Definition podCtrs_handle (pod : option Pod) : handle :=
  match pod with
  | Some pod => Some [podBkt; pod_ID pod; containersBkt]
  | None => None
  end.

(** [Q] holds of whatever [m] does from [w]. *)
Definition wp {A} (m : M A) (w : World) (Q : outcome A → World → Prop) : Prop :=
  ∀ o w', m w = (o, w') → Q o w'.

(** Only the top-level buckets [K] changed, and no bucket was lost. *)
Definition framed (K : list string) (w w' : World) : Prop :=
  confined K w w' ∧ alive w w'.

(** The post-condition of a phase: no fault, only [K] touched. *)
Definition kept (K : list string) (w : World) {A} (o : outcome A) (w' : World) : Prop :=
  o ≠ Panic ∧ framed K w w'.

(** A write through a live handle under [k]: no fault, a world framed by
    [k]; and on success the bucket was rewritten by [f]. *)
Definition written (k : string) (p : list string) (f : bucket → bucket)
    {A} (o : outcome A) (w w' : World) : Prop :=
  o ≠ Panic ∧ framed [k] w w' ∧
  (∀ a, o = Ret a → root w' = wr (k :: p) f (root w)) ∧
  ((∀ a, o ≠ Ret a) → w' = w).


(** The top-level buckets [addContainer] writes when it registers the
    container. *)
Definition registerKeys : list string :=
  [idRegistryBkt; nameRegistryBkt; nsRegistryBkt; allCtrsBkt; ctrBkt].

(** The top-level buckets [removeContainer] writes. *)
Definition removeKeys : list string :=
  [podBkt; ctrBkt; idRegistryBkt; nameRegistryBkt; nsRegistryBkt; allCtrsBkt].

(** The pod given to [removeContainer] passes its checks: it has a
    bucket, and its [containers] bucket, if it has one, lists the
    container. *)
Definition unlink_ready (r : bucket) (ctr : Container) (pod : option Pod) : Prop :=
  match pod with
  | None => True
  | Some pod =>
      ∃ mp, walk [podBkt; pod_ID pod] r = Some mp ∧
            (¬ is_bkt (mp !! containersBkt) ∨
             ∃ mc v, mp !! containersBkt = Some (Bkt mc) ∧ mc !! ctr_ID ctr = Some (Val v))
  end.

(** The container, and the pod if one is given, are in the namespace of
    a namespace-scoped store. *)
Definition namespace_ok (s : BoltState) (ctr : Container) (pod : option Pod) : Prop :=
  namespace s = EmptyString ∨
  (namespace s = ctr_Namespace ctr ∧
   match pod with
   | Some pod => namespace s = pod_cfg_Namespace (pod_config pod)
   | None => True
   end).

(** What a removal may end with: only [removeKeys] touched; no fault when
    every volume has its [vol-dependencies] bucket; no success when the
    container has dependents. *)
Definition removed (ctr : Container) (w : World) (o : outcome unit) (w' : World) : Prop :=
  confined removeKeys w w' ∧
  (vol_ok (root w) → o ≠ Panic) ∧
  (∀ md, walk [ctrBkt; ctr_ID ctr; dependenciesBkt] (root w) = Some md →
         md ≠ ∅ → o ≠ Ret tt).


(** * Vocabulary of the further properties *)

(** ** Runtime configuration *)

#[global] Instance matches_dec (c : dbConfigValidation) (v : string) : Decision (matches c v).
Proof. unfold matches. apply _. Defined.

(** [Get] answers nil for the key of the field: the key is free or holds
    a nested bucket. *)
Definition unset (mc : bucket) (c : dbConfigValidation) : Prop :=
  node_value (mc !! key c) = None.

#[global] Instance unset_dec (mc : bucket) (c : dbConfigValidation) : Decision (unset mc c).
Proof. unfold unset. apply _. Defined.

(** The field is stored with a value that the validation rejects. *)
Definition mismatched (mc : bucket) (c : dbConfigValidation) : Prop :=
  ∃ v, mc !! key c = Some (Val v) ∧ ¬ matches c v.

(** What can be wrong with a field that is written. *)
Definition unwritable (mc : bucket) (e : error) (c : dbConfigValidation) : Prop :=
  (e = ErrKeyRequired ∧ key c = EmptyString) ∨
  (e = ErrKeyTooLarge ∧ (MaxKeySize < len (key c))%Z) ∨
  (e = ErrValueTooLarge ∧ (MaxValueSize < len (missingValue c))%Z) ∨
  (e = ErrIncompatibleValue ∧ is_bkt (mc !! key c)).

(** The keys of the seven validated fields. *)
Definition configKeys : list string :=
  [osKey; staticDirKey; tmpDirKey; runRootKey; graphRootKey; graphDriverKey; volPathKey].

(** ** The store a successful add leaves *)

(** The record [addContainer] creates under [ctr] for the container: the
    bucket it creates and the keys it puts in it. *)
Definition newCtrRecord (ctr : Container) (pod : option Pod)
    (configJSON stateJSON netNSPath : string) : bucket :=
  let m : bucket := <[stateKey := Val stateJSON]> (<[configKey := Val configJSON]> ∅) in
  let m := match ctrNamespaceOf ctr with
           | Some ns => <[namespaceKey := Val ns]> m
           | None => m
           end in
  let m := match pod with
           | Some pod => <[podIDKey := Val (pod_ID pod)]> m
           | None => m
           end in
  let m := if bool_decide (netNSPath ≠ EmptyString) then <[netNSKey := Val netNSPath]> m
           else m in
  <[dependenciesBkt := Bkt ∅]> m.

(** The writes of the registration, in the order of the code. *)
Definition registered (ctr : Container) (pod : option Pod)
    (configJSON stateJSON netNSPath : string) (r : bucket) : bucket :=
  let r := wr [idRegistryBkt] (insert (ctr_ID ctr) (Val (ctr_Name ctr))) r in
  let r := wr [nameRegistryBkt] (insert (ctr_Name ctr) (Val (ctr_ID ctr))) r in
  let r := match ctrNamespaceOf ctr with
           | Some ns => wr [nsRegistryBkt] (insert (ctr_ID ctr) (Val ns)) r
           | None => r
           end in
  let r := wr [allCtrsBkt] (insert (ctr_ID ctr) (Val (ctr_Name ctr))) r in
  wr [ctrBkt] (insert (ctr_ID ctr)
                 (Bkt (newCtrRecord ctr pod configJSON stateJSON netNSPath))) r.

(** The write of one turn of the loop over the dependencies. *)
Definition linkDependency (ctr : Container) (r : bucket) (dependsCtr : string) : bucket :=
  wr [ctrBkt; dependsCtr; dependenciesBkt] (insert (ctr_ID ctr) (Val (ctr_Name ctr))) r.

(** The write that adds the container to its pod. *)
Definition linkPod (ctr : Container) (pod : option Pod) (r : bucket) : bucket :=
  match pod with
  | Some pod =>
      wr [podBkt; pod_ID pod; containersBkt] (insert (ctr_ID ctr) (Val (ctr_Name ctr))) r
  | None => r
  end.

(** What one turn of the loop over the named volumes does to a
    [vol-dependencies] bucket: the container is entered unless [Get]
    finds it. *)
Definition enterVolume (ctr : Container) (md : bucket) : bucket :=
  match node_value (md !! ctr_ID ctr) with
  | Some _ => md
  | None => <[ctr_ID ctr := Val (ctr_ID ctr)]> md
  end.

Definition linkVolume (ctr : Container) (r : bucket) (vol : ContainerNamedVolume) : bucket :=
  wr [volBkt; vol_Name vol; volDependenciesBkt] (enterVolume ctr) r.

(** The store after the transaction of [addContainer] committed. *)
Definition added (ctr : Container) (pod : option Pod)
    (configJSON stateJSON netNSPath : string) (dependsCtrs : list string)
    (r : bucket) : bucket :=
  foldl (linkVolume ctr)
    (linkPod ctr pod
       (foldl (linkDependency ctr)
          (registered ctr pod configJSON stateJSON netNSPath r) dependsCtrs))
    (cfg_NamedVolumes (ctr_config ctr)).

(** ** The store a successful removal leaves *)

(** The write that takes the container out of its pod. *)
Definition unlinkPod (ctr : Container) (pod : option Pod) (r : bucket) : bucket :=
  match pod with
  | Some pod => wr [podBkt; pod_ID pod; containersBkt] (delete (ctr_ID ctr)) r
  | None => r
  end.

(** The deletes of the registration. *)
Definition unregistered (ctr : Container) (r : bucket) : bucket :=
  let r := wr [ctrBkt] (delete (ctr_ID ctr)) r in
  let r := wr [idRegistryBkt] (delete (ctr_ID ctr)) r in
  let r := wr [nameRegistryBkt] (delete (ctr_Name ctr)) r in
  let r := wr [nsRegistryBkt] (delete (ctr_ID ctr)) r in
  wr [allCtrsBkt] (delete (ctr_ID ctr)) r.

(** The write of one turn of the loop over the dependencies. *)
Definition unlinkDependency (ctr : Container) (r : bucket) (depCtr : string) : bucket :=
  wr [ctrBkt; depCtr; dependenciesBkt] (delete (ctr_ID ctr)) r.

(** The store after [removeContainer] returned nil. *)
Definition removedStore (ctr : Container) (pod : option Pod) (depCtrs : list string)
    (r : bucket) : bucket :=
  foldl (unlinkDependency ctr) (unregistered ctr (unlinkPod ctr pod r)) depCtrs.

(** A dependency as a committed add leaves it: it has a record, in the
    pod and in the namespace of the container, and its [dependencies]
    bucket lists the container. *)
Definition linked (ctr : Container) (pod : option Pod) (r : bucket) (D : string) : Prop :=
  ∃ mD md, walk [ctrBkt; D] r = Some mD ∧
           ¬ pod_incoherent pod mD ∧
           bytes_Equal (ctrNamespaceOf ctr) (node_value (mD !! namespaceKey)) = true ∧
           mD !! dependenciesBkt = Some (Bkt md) ∧
           md !! ctr_ID ctr = Some (Val (ctr_Name ctr)).

(** A named volume as a committed add leaves it: its [vol-dependencies]
    bucket has an entry for the container. *)
Definition entered (ctr : Container) (r : bucket) (vol : ContainerNamedVolume) : Prop :=
  ∃ md v, walk [volBkt; vol_Name vol; volDependenciesBkt] r = Some md ∧
          md !! ctr_ID ctr = Some (Val v).

(** ** Hydration *)

(** The OCI runtime [getContainerFromDB] resolves for a configuration:
    the default one for an empty name, and for a legacy path the runtime
    named by its base name. *)
Definition resolveOCIRuntime (E : Externals) (s : BoltState) (config : ContainerConfig)
    : option OCIRuntime :=
  if bool_decide (cfg_OCIRuntime config = EmptyString)
  then Some (defaultOCIRuntime (runtime s))
  else
    let runtimeName := cfg_OCIRuntime config in
    let runtimeName :=
      if String.prefix "/" runtimeName then filepath_Base E runtimeName else runtimeName in
    ociRuntimes (runtime s) !! runtimeName.

(** The two namespace fields of the state agree, as its setter leaves
    them: no bytes for the empty namespace, the bytes of the namespace
    otherwise. *)
Definition namespace_set (s : BoltState) : Prop :=
  namespaceBytes s =
  if decide (namespace s = EmptyString) then None else Some (namespace s).

(** ** Events *)

Definition is_log (ev : event) : Prop :=
  match ev with
  | LogErrorf _ _ => True
  | _ => False
  end.

(** From [w] to [w'] only [logrus.Errorf] lines were emitted. *)
Definition logged (w w' : World) : Prop :=
  ∃ evs, trace w' = trace w ++ evs ∧ Forall is_log evs.

(** The store holds no entry for the ID of the container outside the two
    registries that [addContainer] checks: none in [all-ctrs], none in
    [ns-registry], none in the pod, none in a dependency. *)
Definition unlisted (ctr : Container) (pod : option Pod) (depCtrs : list string)
    (r : bucket) : Prop :=
  (∀ m, r !! allCtrsBkt = Some (Bkt m) → m !! ctr_ID ctr = None) ∧
  (∀ m, r !! nsRegistryBkt = Some (Bkt m) → m !! ctr_ID ctr = None) ∧
  (∀ p mc, pod = Some p → walk [podBkt; pod_ID p; containersBkt] r = Some mc →
           mc !! ctr_ID ctr = None) ∧
  (∀ D md, D ∈ depCtrs → walk [ctrBkt; D; dependenciesBkt] r = Some md →
           md !! ctr_ID ctr = None).

(** ** The connection and its lock *)

(** [getDBCon], [closeDBCon] and [deferredCloseDBCon] seen from the
    in-memory lock [s.dbLock] of the state, which the transaction bodies
    above leave out.  One thread of control: [Lock] on a held mutex waits
    for ever, [Unlock] of a free one is a fatal error of the Go runtime. *)
Module Conn.

Record State := mkState { dbLock : bool; log : list event }.

Inductive result (A : Type) :=
  | Returns (a : A) (st : State)
  | Waits
  | Fatal.
Arguments Returns {A} a st.
Arguments Waits {A}.
Arguments Fatal {A}.

Definition mutex_Lock (st : State) : result unit :=
  if dbLock st then Waits else Returns tt (mkState true (log st)).

Definition mutex_Unlock (st : State) : result unit :=
  if dbLock st then Returns tt (mkState false (log st)) else Fatal.

Section connection.
Variable E : Externals.
(** What [db.Close()] returns, and the text of an error. *)
Variable db_Close : option error.
Variable error_Error : error → string.

(** [getDBCon] with its lock: open a connection to the database. *)
Definition getDBCon_lock (s : BoltState) (st : State) : result (option error) :=
  match mutex_Lock st with
  | Returns _ st =>
      match bolt_Open E (dbPath s) with
      | Some err =>
          Returns (Some (errors_Wrapf err "error opening database %s" [dbPath s])) st
      | None => Returns None st
      end
  | Waits => Waits
  | Fatal => Fatal
  end.

(** Close a connection to the database. *)
Definition closeDBCon (st : State) : result (option error) :=
  let err := db_Close in
  match mutex_Unlock st with
  | Returns _ st => Returns err st
  | Waits => Waits
  | Fatal => Fatal
  end.

(** Close the database; log the error instead of returning it. *)
Definition deferredCloseDBCon (st : State) : result unit :=
  match closeDBCon st with
  | Returns (Some err) st =>
      Returns tt (mkState (dbLock st)
                    (log st ++ [LogErrorf "failed to close libpod db: %q" [error_Error err]]))
  | Returns None st => Returns tt st
  | Waits => Waits
  | Fatal => Fatal
  end.

(** The connection of [addContainer]: [getDBCon], return its error if it
    has one, otherwise defer [deferredCloseDBCon] and run the
    transaction, which does not use the lock. *)
Definition addContainer_connection (s : BoltState) (st : State) : result (option error) :=
  match getDBCon_lock s st with
  | Returns (Some err) st => Returns (Some err) st
  | Returns None st =>
      match deferredCloseDBCon st with
      | Returns _ st => Returns None st
      | Waits => Waits
      | Fatal => Fatal
      end
  | Waits => Waits
  | Fatal => Fatal
  end.

End connection.
End Conn.

(** ** What a successful add needs *)

(** A key and a value the engine accepts. *)
Definition key_ok (k : string) : Prop := k ≠ EmptyString ∧ (len k ≤ MaxKeySize)%Z.
Definition value_ok (v : string) : Prop := (len v ≤ MaxValueSize)%Z.

(** A dependency the loop of [addContainer] accepts: it has a record, in
    the pod and in the namespace of the container, and in its
    [dependencies] bucket the ID of the container holds no bucket. *)
Definition linkable (ctr : Container) (pod : option Pod) (r : bucket) (D : string) : Prop :=
  ∃ mD md, walk [ctrBkt; D] r = Some mD ∧
           ¬ pod_incoherent pod mD ∧
           bytes_Equal (ctrNamespaceOf ctr) (node_value (mD !! namespaceKey)) = true ∧
           mD !! dependenciesBkt = Some (Bkt md) ∧
           ¬ is_bkt (md !! ctr_ID ctr).

(** A named volume the loop of [addContainer] accepts: it has a record
    with a [vol-dependencies] bucket in which the ID of the container
    holds no bucket. *)
Definition enterable (ctr : Container) (r : bucket) (vol : ContainerNamedVolume) : Prop :=
  ∃ md, walk [volBkt; vol_Name vol; volDependenciesBkt] r = Some md ∧
        ¬ is_bkt (md !! ctr_ID ctr).

(** * Properties *)

(** ** Sequencing *)

Section sequencing.
Context {A B : Type}.
Implicit Types (m : M A) (k : A → M B) (w : World).

Lemma mbind_Ret m k w a w1 : m w = (Ret a, w1) → (m ≫= k) w = k a w1.
Proof. unfold mbind, M_bind. by intros ->. Qed.

Lemma mbind_Err m k w e w1 : m w = (Err e, w1) → (m ≫= k) w = (Err e, w1).
Proof. unfold mbind, M_bind. by intros ->. Qed.

Lemma mbind_Panic m k w w1 : m w = (Panic, w1) → (m ≫= k) w = (Panic, w1).
Proof. unfold mbind, M_bind. by intros ->. Qed.

Lemma mbind_inv m k w o w' :
  (m ≫= k) w = (o, w') →
  (∃ a w1, m w = (Ret a, w1) ∧ k a w1 = (o, w')) ∨
  (∃ e, m w = (Err e, w') ∧ o = Err e) ∨
  (m w = (Panic, w') ∧ o = Panic).
Proof.
  unfold mbind, M_bind. destruct (m w) as [[a|e|] w1]; intros H.
  - left. eauto.
  - right. left. injection H as <- <-. eauto.
  - right. right. injection H as <- <-. eauto.
Qed.
End sequencing.

(** Invert a sequence in [H]: what the first computation returned is
    named [a], [w1] and [H1]; the rest stays in [H]. *)
Ltac bind_inv H a w1 H1 :=
  let H' := fresh "H" in
  apply mbind_inv in H as [(a & w1 & H1 & H')|[(? & H1 & ->)|[H1 ->]]];
  [try clear H; rename H' into H| |].

Lemma wrapf_inv {A} (m : M A) format args w o w' :
  wrapf m format args w = (o, w') →
  ∃ o0, m w = (o0, w') ∧
        o = match o0 with Err e => Err (errors_Wrapf e format args) | _ => o0 end.
Proof.
  unfold wrapf. destruct (m w) as [[a|e|] w1]; intros [= <- <-]; eauto.
Qed.

Lemma wrapf_Ret {A} (m : M A) format args w a w' :
  m w = (Ret a, w') → wrapf m format args w = (Ret a, w').
Proof. unfold wrapf. by intros ->. Qed.

Lemma or_else_inv {A} (m : M A) e w o w' :
  or_else m e w = (o, w') →
  ∃ o0, m w = (o0, w') ∧ o = match o0 with Err _ => Err e | _ => o0 end.
Proof.
  unfold or_else. destruct (m w) as [[a|e'|] w1]; intros [= <- <-]; eauto.
Qed.

Lemma for_range_app {A} (l1 l2 : list A) (body : A → M unit) w :
  for_range (l1 ++ l2) body w = (for_range l1 body ≫= λ _, for_range l2 body) w.
Proof.
  revert w. induction l1 as [|x l1 IH]; intros w; cbn [for_range app].
  - done.
  - unfold mbind, M_bind in *. destruct (body x w) as [[[]|e|] w1]; [apply IH|done..].
Qed.

(** ** Paths *)

Section paths.
Implicit Types (r m : bucket) (p q : list string) (k : string) (f : bucket → bucket).

Lemma walk_snoc p k r :
  walk (p ++ [k]) r =
  match walk p r with
  | Some m => match m !! k with Some (Bkt b) => Some b | _ => None end
  | None => None
  end.
Proof.
  revert r. induction p as [|k' p IH]; intros r; cbn [walk app].
  - destruct (r !! k) as [[]|]; reflexivity.
  - destruct (r !! k') as [[]|]; auto.
Qed.

Lemma walk_top k r : walk [k] r = match r !! k with Some (Bkt b) => Some b | _ => None end.
Proof. cbn [walk]. destruct (r !! k) as [[]|]; reflexivity. Qed.

Lemma wr_lookup_ne k k' p f r : k ≠ k' → wr (k :: p) f r !! k' = r !! k'.
Proof.
  intros Hne. cbn [wr]. destruct (r !! k) as [[]|]; try reflexivity.
  by rewrite lookup_insert_ne.
Qed.

Lemma wr_lookup_eq k p f r m :
  r !! k = Some (Bkt m) → wr (k :: p) f r !! k = Some (Bkt (wr p f m)).
Proof. intros H. cbn [wr]. rewrite H. by rewrite lookup_insert_eq. Qed.

Lemma wr_cons k p f r m :
  r !! k = Some (Bkt m) → wr (k :: p) f r = <[k := Bkt (wr p f m)]> r.
Proof. intros H. cbn [wr]. by rewrite H. Qed.

Lemma wr_is_bkt k k' p f r : is_bkt (r !! k') → is_bkt (wr (k :: p) f r !! k').
Proof.
  intros [m Hm]. destruct (decide (k = k')) as [->|Hne].
  - erewrite wr_lookup_eq by eassumption. by eexists.
  - rewrite wr_lookup_ne by done. by eexists.
Qed.

Lemma walk_wr_same p f r m : walk p r = Some m → walk p (wr p f r) = Some (f m).
Proof.
  revert r. induction p as [|k p IH]; intros r; cbn [walk wr].
  - congruence.
  - destruct (r !! k) as [[|b]|] eqn:Hk; try discriminate.
    intros H. rewrite lookup_insert_eq. by apply IH.
Qed.

Lemma wr_id p f r m : walk p r = Some m → f m = m → wr p f r = r.
Proof.
  revert r. induction p as [|k p IH]; intros r; cbn [walk wr].
  - congruence.
  - destruct (r !! k) as [[|b]|] eqn:Hk; try discriminate.
    intros H Hf. rewrite (IH _ H Hf). by apply insert_id.
Qed.

(** A rewrite that keeps the nested buckets of the bucket it changes
    keeps every path alive. *)
Lemma walk_wr_alive p f r m q :
  walk p r = Some m →
  (∀ k b, m !! k = Some (Bkt b) → f m !! k = Some (Bkt b)) →
  is_Some (walk q r) → is_Some (walk q (wr p f r)).
Proof.
  revert r q. induction p as [|k p IH]; intros r q; cbn [walk wr].
  - intros [= ->] Hf. destruct q as [|k q]; cbn [walk]; [by eauto|].
    destruct (m !! k) as [[|b]|] eqn:Hk; try by intros [? [=]].
    by rewrite (Hf _ _ Hk).
  - destruct (r !! k) as [[|b]|] eqn:Hk; try discriminate.
    intros Hp Hf. destruct q as [|k' q]; cbn [walk]; [by eauto|].
    destruct (decide (k = k')) as [<-|Hne].
    + rewrite Hk, lookup_insert_eq. by apply IH.
    + by rewrite lookup_insert_ne.
Qed.

Lemma insert_val_keeps m k v k' b :
  ¬ is_bkt (m !! k) → m !! k' = Some (Bkt b) → <[k := Val v]> m !! k' = Some (Bkt b).
Proof.
  intros Hk Hk'. rewrite lookup_insert_ne; [done|].
  intros ->. apply Hk. by eexists.
Qed.

Lemma insert_new_keeps m k n k' b :
  m !! k = None → m !! k' = Some (Bkt b) → <[k := n]> m !! k' = Some (Bkt b).
Proof. intros Hk Hk'. rewrite lookup_insert_ne; [done|]. intros ->. congruence. Qed.

Lemma delete_val_keeps m k k' b :
  ¬ is_bkt (m !! k) → m !! k' = Some (Bkt b) → delete k m !! k' = Some (Bkt b).
Proof.
  intros Hk Hk'. rewrite lookup_delete_ne; [done|].
  intros ->. apply Hk. by eexists.
Qed.
End paths.

(** ** The engine's operations *)

Section engine.
Implicit Types (w : World) (p : list string) (m : bucket) (k v : string).

Lemma tx_Bucket_found k w m :
  root w !! k = Some (Bkt m) → tx_Bucket k w = (Ret (Some [k]), w).
Proof. unfold tx_Bucket. by intros ->. Qed.

Lemma required_bucket_found k what w m :
  root w !! k = Some (Bkt m) → required_bucket k what w = (Ret (Some [k]), w).
Proof.
  intros H. unfold required_bucket, mbind, M_bind.
  by rewrite (tx_Bucket_found _ _ _ H).
Qed.

(** An accessor returns a handle on its top-level bucket or fails. *)
Lemma required_bucket_cases k what w :
  (is_bkt (root w !! k) ∧ required_bucket k what w = (Ret (Some [k]), w)) ∨
  (¬ is_bkt (root w !! k) ∧
   required_bucket k what w = (Err (errors_Wrapf ErrDBBadConfig what []), w)).
Proof.
  unfold required_bucket, mbind, M_bind, tx_Bucket, is_bkt.
  destruct (root w !! k) as [[|m]|]; [right|left|right]; split; eauto;
    by intros [? [=]].
Qed.

Lemma bkt_Get_at p k w m :
  walk p (root w) = Some m → bkt_Get (Some p) k w = (Ret (node_value (m !! k)), w).
Proof.
  intros H. unfold bkt_Get, with_bkt. rewrite H.
  by destruct (m !! k) as [[]|].
Qed.

Lemma bkt_Bucket_at p k w m :
  walk p (root w) = Some m → bkt_Bucket (Some p) k w = (Ret (sub_handle p m k), w).
Proof.
  intros H. unfold bkt_Bucket, with_bkt, sub_handle. rewrite H.
  by destruct (m !! k) as [[]|].
Qed.

Lemma sub_handle_Some p m k b : m !! k = Some (Bkt b) → sub_handle p m k = Some (p ++ [k]).
Proof. unfold sub_handle. by intros ->. Qed.

Lemma sub_handle_None p m k : ¬ is_bkt (m !! k) → sub_handle p m k = None.
Proof.
  unfold sub_handle, is_bkt. destruct (m !! k) as [[]|]; try done.
  intros []. by eexists.
Qed.

Lemma sub_handle_inv p m k h :
  sub_handle p m k = Some h → h = p ++ [k] ∧ ∃ b, m !! k = Some (Bkt b).
Proof. unfold sub_handle. destruct (m !! k) as [[]|]; intros [=]. eauto. Qed.

(** Reads leave the world as it is, whatever the handle. *)
Lemma bkt_Get_world h k w : (bkt_Get h k w).2 = w.
Proof.
  unfold bkt_Get, with_bkt. destruct h as [p|]; [|done].
  destruct (walk p (root w)) as [m|]; [|done]. by destruct (m !! k) as [[]|].
Qed.

Lemma bkt_Bucket_world h k w : (bkt_Bucket h k w).2 = w.
Proof.
  unfold bkt_Bucket, with_bkt. destruct h as [p|]; [|done].
  destruct (walk p (root w)) as [m|]; [|done]. by destruct (m !! k) as [[]|].
Qed.

Lemma bkt_Put_at p k v w m :
  walk p (root w) = Some m →
  k ≠ EmptyString → (len k ≤ MaxKeySize)%Z → (len v ≤ MaxValueSize)%Z →
  ¬ is_bkt (m !! k) →
  bkt_Put (Some p) k v w = (Ret tt, set_root (wr p (insert k (Val v))) w).
Proof.
  intros H Hk Hlk Hlv Hn. unfold bkt_Put, with_bkt. rewrite H.
  rewrite decide_False by done.
  destruct (Z.ltb_spec MaxKeySize (len k)); [lia|].
  destruct (Z.ltb_spec MaxValueSize (len v)); [lia|].
  destruct (m !! k) as [[|b]|] eqn:Hm; try done.
  destruct Hn. by eexists.
Qed.

(** What any [Put] does: it fails and leaves the world, or it writes a
    value under a key that holds no bucket. *)
Lemma bkt_Put_cases h k v w :
  (∃ o, bkt_Put h k v w = (o, w) ∧ o ≠ Ret tt ∧
        (o = Panic → ∀ p, h = Some p → walk p (root w) = None)) ∨
  (∃ p m, h = Some p ∧ walk p (root w) = Some m ∧ ¬ is_bkt (m !! k) ∧
          bkt_Put h k v w = (Ret tt, set_root (wr p (insert k (Val v))) w)).
Proof.
  unfold bkt_Put, with_bkt. destruct h as [p|].
  2:{ left. eexists. split; [done|]. split; [done|]. by intros _ p [=]. }
  destruct (walk p (root w)) as [m|] eqn:Hp.
  2:{ left. eexists. split; [done|]. split; [done|]. by intros _ ? [= <-]. }
  destruct (decide (k = EmptyString)).
  { left. eexists. split; [done|]. split; done. }
  destruct (MaxKeySize <? len k)%Z.
  { left. eexists. split; [done|]. split; done. }
  destruct (MaxValueSize <? len v)%Z.
  { left. eexists. split; [done|]. split; done. }
  destruct (m !! k) as [[|b]|] eqn:Hm.
  - right. exists p, m. rewrite Hm. repeat split; try done. by intros [? [=]].
  - left. eexists. split; [done|]. split; done.
  - right. exists p, m. rewrite Hm. repeat split; try done. by intros [? [=]].
Qed.

Lemma bkt_Delete_cases h k w :
  (∃ o, bkt_Delete h k w = (o, w) ∧ o ≠ Ret tt ∧
        (o = Panic → ∀ p, h = Some p → walk p (root w) = None)) ∨
  (∃ p m, h = Some p ∧ walk p (root w) = Some m ∧ ¬ is_bkt (m !! k) ∧
          bkt_Delete h k w = (Ret tt, set_root (wr p (delete k)) w)).
Proof.
  unfold bkt_Delete, with_bkt. destruct h as [p|].
  2:{ left. eexists. split; [done|]. split; [done|]. by intros _ p [=]. }
  destruct (walk p (root w)) as [m|] eqn:Hp.
  2:{ left. eexists. split; [done|]. split; [done|]. by intros _ ? [= <-]. }
  destruct (m !! k) as [[|b]|] eqn:Hm.
  - right. exists p, m. rewrite Hm. repeat split; try done. by intros [? [=]].
  - left. eexists. split; [done|]. split; done.
  - right. exists p, m. rewrite Hm. repeat split; try done. by intros [? [=]].
Qed.

Lemma bkt_CreateBucket_cases h k w :
  (∃ o, bkt_CreateBucket h k w = (o, w) ∧ (∀ a, o ≠ Ret a) ∧
        (o = Panic → ∀ p, h = Some p → walk p (root w) = None)) ∨
  (∃ p m, h = Some p ∧ walk p (root w) = Some m ∧ m !! k = None ∧
          bkt_CreateBucket h k w =
            (Ret (Some (p ++ [k])), set_root (wr p (insert k (Bkt ∅))) w)).
Proof.
  unfold bkt_CreateBucket, with_bkt. destruct h as [p|].
  2:{ left. eexists. split; [done|]. split; [done|]. by intros _ p [=]. }
  destruct (walk p (root w)) as [m|] eqn:Hp.
  2:{ left. eexists. split; [done|]. split; [done|]. by intros _ ? [= <-]. }
  destruct (decide (k = EmptyString)).
  { left. eexists. split; [done|]. split; done. }
  destruct (m !! k) as [[|b]|] eqn:Hm.
  - left. eexists. split; [done|]. split; done.
  - left. eexists. split; [done|]. split; done.
  - right. exists p, m. by rewrite Hm.
Qed.

Lemma bkt_DeleteBucket_cases h k w :
  (∃ o, bkt_DeleteBucket h k w = (o, w) ∧ o ≠ Ret tt ∧
        (o = Panic → ∀ p, h = Some p → walk p (root w) = None)) ∨
  (∃ p m, h = Some p ∧ walk p (root w) = Some m ∧ is_bkt (m !! k) ∧
          bkt_DeleteBucket h k w = (Ret tt, set_root (wr p (delete k)) w)).
Proof.
  unfold bkt_DeleteBucket, with_bkt. destruct h as [p|].
  2:{ left. eexists. split; [done|]. split; [done|]. by intros _ p [=]. }
  destruct (walk p (root w)) as [m|] eqn:Hp.
  2:{ left. eexists. split; [done|]. split; [done|]. by intros _ ? [= <-]. }
  destruct (m !! k) as [[|b]|] eqn:Hm.
  - left. eexists. split; [done|]. split; done.
  - right. exists p, m. rewrite Hm. repeat split; try done. by eexists.
  - left. eexists. split; [done|]. split; done.
Qed.
End engine.

(** ** Runtime configuration: validating one field *)

(** C6: a field whose key is stored is accepted exactly when the stored
    value equals the runtime value, or one of the two is empty and the
    other is the declared default; otherwise the validation fails with
    [ErrDBBadConfig], and the error names the field and both values. *)
Theorem readOnlyValidateConfig_matches (p : list string) (toCheck : dbConfigValidation)
    (w : World) (m : bucket) (dbValue : string) :
  walk p (root w) = Some m →
  m !! key toCheck = Some (Val dbValue) →
  ∃ r, readOnlyValidateConfig (Some p) toCheck w = (Ret (true, r), w) ∧
       (r = None ↔ matches toCheck dbValue) ∧
       (r ≠ None →
        r = Some (errors_Wrapf ErrDBBadConfig "database %s %q does not match our %s %q"
                    [name toCheck; dbValue; name toCheck; runtimeValue toCheck])).
Proof.
  intros Hp Hk. unfold readOnlyValidateConfig, mbind, M_bind, matches.
  rewrite (bkt_Get_at _ _ _ _ Hp), Hk. cbn [node_value].
  destruct toCheck as [nm rv ky dv]; cbn [runtimeValue defaultValue name key] in *.
  case_bool_decide as Hne.
  2:{ subst. eexists. split; [done|]. split; [split; auto|done]. }
  repeat case_bool_decide; cbn [andb]; subst;
    eexists; (split; [reflexivity|]); split; try done; try tauto;
    try (split; [done|]; intros [?|[[? ?]|[? ?]]]; subst; congruence).
Qed.

Lemma readOnlyValidateConfig_matches_witness :
  ∃ r, readOnlyValidateConfig (Some [runtimeConfigBkt])
         (mkCheck "storage graph driver" EmptyString graphDriverKey "overlay")
         (Sample.world (wr [runtimeConfigBkt] (insert graphDriverKey (Val "overlay"))
                          Sample.emptyDB))
       = (Ret (true, r),
          Sample.world (wr [runtimeConfigBkt] (insert graphDriverKey (Val "overlay"))
                          Sample.emptyDB)) ∧
       (r = None ↔ matches (mkCheck "storage graph driver" EmptyString graphDriverKey "overlay")
                     "overlay") ∧
       (r ≠ None →
        r = Some (errors_Wrapf ErrDBBadConfig "database %s %q does not match our %s %q"
                    ["storage graph driver"; "overlay"; "storage graph driver"; EmptyString])).
Proof.
  apply (readOnlyValidateConfig_matches [runtimeConfigBkt]
           (mkCheck "storage graph driver" EmptyString graphDriverKey "overlay")
           _ (<[graphDriverKey := Val "overlay"]> ∅) "overlay");
    vm_compute; reflexivity.
Defined.

(** ** Hydration *)

Lemma readonly_ret {A} (a : A) : readonly (mret a).
Proof. done. Qed.

Lemma readonly_bind {A B} (m : M A) (k : A → M B) :
  readonly m → (∀ a, readonly (k a)) → readonly (m ≫= k).
Proof.
  intros Hm Hk w. unfold mbind, M_bind. specialize (Hm w).
  destruct (m w) as [[a|e|] w']; cbn in Hm; subst; [apply Hk|done..].
Qed.

Lemma readonly_Get h k : readonly (bkt_Get h k).
Proof. intros w. apply bkt_Get_world. Qed.

Lemma readonly_Bucket h k : readonly (bkt_Bucket h k).
Proof. intros w. apply bkt_Bucket_world. Qed.

Create HintDb readonly.
#[local] Hint Resolve readonly_ret readonly_Get readonly_Bucket : readonly.

Ltac readonly_steps :=
  repeat first
    [ progress intros
    | apply readonly_bind
    | solve [auto with readonly]
    | match goal with
      | |- readonly (match ?x with _ => _ end) => destruct x
      | |- readonly (if ?b then _ else _) => destruct b
      | |- readonly (let '(_, _) := ?x in _) => destruct x
      end ].

Lemma getContainerFromDB_readonly E s id ctr ctrsBkt :
  readonly (getContainerFromDB E s id ctr ctrsBkt).
Proof. unfold getContainerFromDB. readonly_steps. Qed.

Lemma getPodFromDB_readonly E s id pod podBkt :
  readonly (getPodFromDB E s id pod podBkt).
Proof. unfold getPodFromDB. readonly_steps. Qed.

Lemma getVolumeFromDB_readonly E s name volume volBkt :
  readonly (getVolumeFromDB E s name volume volBkt).
Proof. unfold getVolumeFromDB. readonly_steps. Qed.

(** C8: hydration never mutates the store.  Whatever the identifier, the
    object, the bucket handle and the store, and whether the call returns
    an entity, returns an error or faults, the world after
    [getContainerFromDB], [getPodFromDB] or [getVolumeFromDB] is the world
    before it. *)
Theorem hydration_never_mutates (E : Externals) (s : BoltState) (id : string)
    (ctr : Container) (pod : Pod) (volume : Volume) (bkt : handle) (w : World) :
  (getContainerFromDB E s id ctr bkt w).2 = w ∧
  (getPodFromDB E s id pod bkt w).2 = w ∧
  (getVolumeFromDB E s id volume bkt w).2 = w.
Proof.
  split; [apply getContainerFromDB_readonly|].
  split; [apply getPodFromDB_readonly|apply getVolumeFromDB_readonly].
Qed.

Lemma bytes_Equal_false (ns : string) (stored : option string) :
  default EmptyString stored ≠ ns → bytes_Equal (Some ns) stored = false.
Proof. intros H. unfold bytes_Equal. apply bool_decide_eq_false. cbn. congruence. Qed.

(** C9: volume hydration has no namespace check.  Provided the codec and
    the lock manager do not themselves report a namespace mismatch,
    [getVolumeFromDB] never returns one, and it returns the same result
    under any two stores that share the runtime, whatever their
    namespaces; whereas under a namespace-scoped store
    [getContainerFromDB] and [getPodFromDB] reject with [ErrNSMismatch] an
    entity whose stored namespace is another one. *)
Theorem getVolumeFromDB_ignores_namespace (E : Externals) (s s' : BoltState)
    (name : string) (volume : Volume) (h : handle) (w : World) :
  runtime s' = runtime s →
  (∀ b c e, (json_Unmarshal_vol E b c).2 = Some e → errors_Cause e ≠ ErrNSMismatch) →
  (∀ n e, lockManager_RetrieveLock (runtime s) n = inl e → errors_Cause e ≠ ErrNSMismatch) →
  getVolumeFromDB E s' name volume h w = getVolumeFromDB E s name volume h w ∧
  (∀ v e w', getVolumeFromDB E s name volume h w = (Ret (v, Some e), w') →
             errors_Cause e ≠ ErrNSMismatch) ∧
  (∀ ns p m mc ctr pod,
     namespaceBytes s = Some ns →
     walk p (root w) = Some m →
     m !! name = Some (Bkt mc) →
     default EmptyString (node_value (mc !! namespaceKey)) ≠ ns →
     getContainerFromDB E s name ctr (Some p) w =
       (Ret (ctr, Some (errors_Wrapf ErrNSMismatch
          "cannot retrieve container %s as it is part of namespace %q and we are in namespace %q"
          [name; default EmptyString (node_value (mc !! namespaceKey)); namespace s])), w) ∧
     getPodFromDB E s name pod (Some p) w =
       (Ret (pod, Some (errors_Wrapf ErrNSMismatch
          "cannot retrieve pod %s as it is part of namespace %q and we are in namespace %q"
          [name; default EmptyString (node_value (mc !! namespaceKey)); namespace s])), w)).
Proof.
  intros Hrt Hjson Hlock. split; [|split].
  - unfold getVolumeFromDB. by rewrite Hrt.
  - intros v e w'. unfold getVolumeFromDB, mbind, M_bind.
    destruct (bkt_Bucket h name w) as [[[volDB|]|?|] w1]; try by intros [= <- <- <-].
    destruct (bkt_Get (Some volDB) configKey w1) as [[[cb|]|?|] w2];
      try by intros [= <- <- <-].
    destruct (json_Unmarshal_vol E cb (volume_config volume)) as [cfg [ue|]] eqn:Hu.
    { intros [= <- <- <-]. cbn. eapply Hjson. by rewrite Hu. }
    destruct (lockManager_RetrieveLock (runtime s) (vol_cfg_LockID cfg)) as [le|lk] eqn:Hl.
    { intros [= <- <- <-]. cbn. by eapply Hlock. }
    done.
  - intros ns p m mc ctr pod Hns Hp Hm Hdiff.
    assert (walk (p ++ [name]) (root w) = Some mc) as Hsub
      by (by rewrite walk_snoc, Hp, Hm).
    split.
    + unfold getContainerFromDB, mbind, M_bind.
      rewrite (bkt_Bucket_at _ _ _ _ Hp), (sub_handle_Some _ _ _ _ Hm), Hns.
      rewrite (bkt_Get_at _ _ _ _ Hsub), (bytes_Equal_false _ _ Hdiff).
      by rewrite bool_decide_eq_true_2.
    + unfold getPodFromDB, mbind, M_bind.
      rewrite (bkt_Bucket_at _ _ _ _ Hp), (sub_handle_Some _ _ _ _ Hm), Hns.
      rewrite (bkt_Get_at _ _ _ _ Hsub), (bytes_Equal_false _ _ Hdiff).
      by rewrite bool_decide_eq_true_2.
Qed.

Lemma getVolumeFromDB_ignores_namespace_witness :
  let w := Sample.world (wr [ctrBkt]
             (insert "x" (Bkt (<[namespaceKey := Val "ns2"]> {[ configKey := Val "{}" ]})))
             Sample.emptyDB) in
  let volume := mkVolume {| vol_cfg_Name := "x"; vol_cfg_LockID := 2 |} None None false in
  getVolumeFromDB Sample.E (Sample.s EmptyString) "x" volume (Some [ctrBkt]) w =
    getVolumeFromDB Sample.E (Sample.s "ns1") "x" volume (Some [ctrBkt]) w ∧
  (∀ v e w', getVolumeFromDB Sample.E (Sample.s "ns1") "x" volume (Some [ctrBkt]) w =
               (Ret (v, Some e), w') → errors_Cause e ≠ ErrNSMismatch) ∧
  getContainerFromDB Sample.E (Sample.s "ns1") "x"
      (Sample.container "x" "x" "ns2" []) (Some [ctrBkt]) w =
    (Ret (Sample.container "x" "x" "ns2" [], Some (errors_Wrapf ErrNSMismatch
       "cannot retrieve container %s as it is part of namespace %q and we are in namespace %q"
       ["x"; "ns2"; "ns1"])), w).
Proof.
  intros w volume.
  destruct (getVolumeFromDB_ignores_namespace Sample.E (Sample.s "ns1")
              (Sample.s EmptyString) "x" volume (Some [ctrBkt]) w) as (Hsame & Hnever & Hctr).
  - reflexivity.
  - intros b c e. cbn. discriminate.
  - intros n e. cbn. discriminate.
  - split; [exact Hsame|]. split; [exact Hnever|].
    assert (default EmptyString (node_value
              ((<[namespaceKey := Val "ns2"]> {[ configKey := Val "{}" ]} : bucket)
                 !! namespaceKey)) = "ns2") as Hstored by (vm_compute; reflexivity).
    rewrite <- Hstored at 2.
    refine (proj1 (Hctr "ns1" [ctrBkt]
              {[ "x" := Bkt (<[namespaceKey := Val "ns2"]> {[ configKey := Val "{}" ]}) ]}
              (<[namespaceKey := Val "ns2"]> {[ configKey := Val "{}" ]})
              _ (Sample.pod "x" "x" "ns2") _ _ _ _)).
    + reflexivity.
    + vm_compute. reflexivity.
    + vm_compute. reflexivity.
    + rewrite Hstored. discriminate.
Defined.

(** ** Runtime configuration: the two passes *)

Section check_fields.
Implicit Types (c : dbConfigValidation) (mc : bucket) (w : World).

Lemma missingValue_storedValue c : missingValue c = storedValue c.
Proof.
  unfold missingValue, storedValue.
  destruct (decide (runtimeValue c = EmptyString)) as [Hr|Hr].
  - rewrite (bool_decide_eq_true_2 _ Hr). cbn [andb].
    case_bool_decide as Hd; [done|]. congruence.
  - by rewrite (bool_decide_eq_false_2 _ Hr).
Qed.

(** The result of validating a field whose key holds a value. *)
Lemma readOnlyValidateConfig_stored p c w m dbValue :
  walk p (root w) = Some m →
  m !! key c = Some (Val dbValue) →
  matches c dbValue →
  readOnlyValidateConfig (Some p) c w = (Ret (true, None), w).
Proof.
  intros Hp Hk Hm. unfold readOnlyValidateConfig, mbind, M_bind.
  rewrite (bkt_Get_at _ _ _ _ Hp), Hk. cbn [node_value].
  case_bool_decide as Hne; [|done].
  destruct Hm as [->|[[Hr ->]|[-> Hr]]]; [done| |].
  - rewrite (bool_decide_eq_true_2 _ Hr), bool_decide_eq_true_2 by congruence.
    by rewrite bool_decide_eq_true_2.
  - assert (defaultValue c ≠ EmptyString) as Hd by congruence.
    rewrite (bool_decide_eq_true_2 _ Hd), (bool_decide_eq_true_2 _ Hr).
    rewrite (bool_decide_eq_true_2 (EmptyString = EmptyString)) by done.
    cbn [andb]. by destruct (_ && _).
Qed.

Lemma readOnlyValidateConfig_absent p c w m :
  walk p (root w) = Some m →
  m !! key c = None →
  readOnlyValidateConfig (Some p) c w = (Ret (false, None), w).
Proof.
  intros Hp Hk. unfold readOnlyValidateConfig, mbind, M_bind.
  by rewrite (bkt_Get_at _ _ _ _ Hp), Hk.
Qed.

Lemma validate_loop checks acc w mc :
  walk [runtimeConfigBkt] (root w) = Some mc →
  Forall (in_order mc) checks →
  for_fold checks (λ check missingFields,
    r ← readOnlyValidateConfig (Some [runtimeConfigBkt]) check;
    match r with
    | (_, Some err) => throw err
    | (false, None) => mret (missingFields ++ [check])
    | (true, None) => mret missingFields
    end) acc w = (Ret (acc ++ filter (absent mc) checks), w).
Proof.
  intros Hp. revert acc. induction checks as [|c checks IH]; intros acc Hall.
  - cbn. by rewrite app_nil_r.
  - apply Forall_cons in Hall as [Hc Hall]. cbn [for_fold].
    unfold mbind at 1, M_bind at 1. unfold mbind at 1, M_bind at 1.
    destruct Hc as [Hc|(v & Hc & Hm)].
    + rewrite filter_cons_True by done.
      rewrite (readOnlyValidateConfig_absent _ _ _ _ Hp Hc). cbn.
      rewrite (IH _ Hall). by rewrite <- app_assoc.
    + rewrite filter_cons_False by (unfold absent; congruence).
      rewrite (readOnlyValidateConfig_stored _ _ _ _ _ Hp Hc Hm). cbn.
      by rewrite (IH _ Hall).
Qed.

Lemma validateChecks_missing checks w mc :
  root w !! runtimeConfigBkt = Some (Bkt mc) →
  Forall (in_order mc) checks →
  db_View (validateChecks checks) w = (Ret (filter (absent mc) checks), w).
Proof.
  intros Hrc Hall. unfold db_View, validateChecks, getRuntimeConfigBucket.
  unfold mbind at 1, M_bind at 1.
  rewrite (required_bucket_found _ _ _ _ Hrc), (validate_loop _ [] _ mc); [|by rewrite walk_top, Hrc|done].
  by destruct w.
Qed.

Lemma store_cons c ms mc :
  store (c :: ms) mc = store ms (<[key c := Val (missingValue c)]> mc).
Proof. reflexivity. Qed.

Lemma store_lookup_other ms mc k :
  k ∉ key <$> ms → store ms mc !! k = mc !! k.
Proof.
  revert mc. induction ms as [|c ms IH]; intros mc Hk; [done|].
  rewrite fmap_cons in Hk. apply not_elem_of_cons in Hk as [Hne Hk].
  rewrite store_cons, IH by done. by rewrite lookup_insert_ne.
Qed.

Lemma store_lookup ms mc c :
  NoDup (key <$> ms) → c ∈ ms →
  store ms mc !! key c = Some (Val (missingValue c)).
Proof.
  revert mc. induction ms as [|c' ms IH]; intros mc Hnd Hin; [by inversion Hin|].
  rewrite fmap_cons in Hnd. apply NoDup_cons in Hnd as [Hc' Hnd].
  rewrite store_cons. apply elem_of_cons in Hin as [->|Hin].
  - rewrite store_lookup_other by done. by rewrite lookup_insert_eq.
  - by apply IH.
Qed.

Lemma wr_wr p (f g : bucket → bucket) (r : bucket) :
  wr p g (wr p f r) = wr p (g ∘ f) r.
Proof.
  revert r. induction p as [|k p IH]; intros r; cbn [wr]; [done|].
  destruct (r !! k) as [[|b]|] eqn:Hk; rewrite ?Hk; try done.
  by rewrite lookup_insert_eq, insert_insert_eq, IH.
Qed.


End check_fields.

(** The result of validating a field whose key holds a value that does
    not match. *)
Lemma readOnlyValidateConfig_mismatch p c w m dbValue :
  walk p (root w) = Some m →
  m !! key c = Some (Val dbValue) →
  ¬ matches c dbValue →
  readOnlyValidateConfig (Some p) c w =
    (Ret (true, Some (errors_Wrapf ErrDBBadConfig "database %s %q does not match our %s %q"
                        [name c; dbValue; name c; runtimeValue c])), w).
Proof.
  intros Hp Hk Hm. unfold readOnlyValidateConfig, mbind, M_bind, matches in *.
  rewrite (bkt_Get_at _ _ _ _ Hp), Hk. cbn [node_value].
  case_bool_decide as Hne; [|by destruct Hm; left].
  repeat case_bool_decide; cbn [andb]; try done; destruct Hm; auto.
Qed.

(** The read-only pass stops at the first stored field that does not
    match, and [checkRuntimeConfig] returns its error without writing. *)
Lemma checkFields_rejects pre c post w mc dbValue :
  root w !! runtimeConfigBkt = Some (Bkt mc) →
  Forall (in_order mc) pre →
  mc !! key c = Some (Val dbValue) →
  ¬ matches c dbValue →
  checkFields (pre ++ c :: post) w =
    (Err (errors_Wrapf ErrDBBadConfig "database %s %q does not match our %s %q"
            [name c; dbValue; name c; runtimeValue c]), w).
Proof.
  intros Hrc Hpre Hk Hm.
  assert (walk [runtimeConfigBkt] (root w) = Some mc) as Hp by (by rewrite walk_top, Hrc).
  unfold checkFields. apply mbind_Err.
  unfold db_View, validateChecks, getRuntimeConfigBucket.
  rewrite (mbind_Ret _ _ _ _ _ (required_bucket_found _ _ _ _ Hrc)).
  enough (∀ acc, for_fold (pre ++ c :: post) (λ check missingFields,
      r ← readOnlyValidateConfig (Some [runtimeConfigBkt]) check;
      match r with
      | (_, Some err) => throw err
      | (false, None) => mret (missingFields ++ [check])
      | (true, None) => mret missingFields
      end) acc w =
    (Err (errors_Wrapf ErrDBBadConfig "database %s %q does not match our %s %q"
            [name c; dbValue; name c; runtimeValue c]), w)) as -> by (by destruct w).
  induction Hpre as [|c' pre Hc' Hpre IH]; intros acc; cbn [app for_fold].
  - apply mbind_Err.
    by rewrite (mbind_Ret _ _ _ _ _ (readOnlyValidateConfig_mismatch _ _ _ _ _ Hp Hk Hm)).
  - destruct Hc' as [Hc'|(v & Hc' & Hm')].
    + erewrite mbind_Ret; [apply IH|].
      by rewrite (mbind_Ret _ _ _ _ _ (readOnlyValidateConfig_absent _ _ _ _ Hp Hc')).
    + erewrite mbind_Ret; [apply IH|].
      by rewrite (mbind_Ret _ _ _ _ _ (readOnlyValidateConfig_stored _ _ _ _ _ Hp Hc' Hm')).
Qed.

Lemma runtimeConfigChecks_keys goos rt storeOpts :
  key <$> runtimeConfigChecks goos rt storeOpts =
  [osKey; staticDirKey; tmpDirKey; runRootKey; graphRootKey; graphDriverKey; volPathKey].
Proof. reflexivity. Qed.

Lemma runtimeConfigChecks_NoDup goos rt storeOpts :
  NoDup (key <$> runtimeConfigChecks goos rt storeOpts).
Proof.
  rewrite runtimeConfigChecks_keys.
  apply (bool_decide_unpack (NoDup _)). vm_compute. exact I.
Qed.

Lemma runtimeConfigChecks_keys_ok goos rt storeOpts :
  Forall (λ c, key c ≠ EmptyString ∧ (len (key c) ≤ MaxKeySize)%Z)
    (runtimeConfigChecks goos rt storeOpts).
Proof. repeat constructor; (discriminate || (vm_compute; discriminate)). Qed.



(** ** Frames *)

Section frames.
Implicit Types (w : World) (K : list string) (k : string) (p : list string).

Lemma confined_refl K w : confined K w w.
Proof. by split. Qed.

Lemma confined_trans K w1 w2 w3 : confined K w1 w2 → confined K w2 w3 → confined K w1 w3.
Proof.
  intros [H1 H1'] [H2 H2']. split.
  - intros k Hk. by rewrite H2, H1.
  - auto.
Qed.

Lemma confined_mono K K' w w' : K ⊆ K' → confined K w w' → confined K' w w'.
Proof. intros HK [H1 H2]. split; [|done]. intros k Hk. apply H1. set_solver. Qed.

Lemma confined_write k p f w : confined [k] w (set_root (wr (k :: p) f) w).
Proof.
  split; cbn [set_root root].
  - intros k' Hk'. apply wr_lookup_ne. set_solver.
  - intros k'. apply wr_is_bkt.
Qed.

Lemma confined_trace K w t : confined K w (mkWorld (root w) t).
Proof. by split. Qed.

Lemma confined_walk K w w' k p :
  confined K w w' → k ∉ K → walk (k :: p) (root w') = walk (k :: p) (root w).
Proof. intros [H _] Hk. cbn [walk]. by rewrite H. Qed.
End frames.

(** What the write operations do through a handle under the top-level
    bucket [k]: no fault when the handle is alive, and only [k] changes. *)
Section writes.
Implicit Types (w : World) (k key : string) (p : list string).

Lemma root_set_root f w : root (set_root f w) = f (root w).
Proof. reflexivity. Qed.

Lemma alive_refl w : alive w w.
Proof. by intros q. Qed.

Lemma alive_trans w1 w2 w3 : alive w1 w2 → alive w2 w3 → alive w1 w3.
Proof. intros H1 H2 q Hq. auto. Qed.

Lemma bkt_Put_frame k p key v w o w' :
  is_Some (walk (k :: p) (root w)) →
  bkt_Put (Some (k :: p)) key v w = (o, w') →
  o ≠ Panic ∧ confined [k] w w' ∧ alive w w'.
Proof.
  intros [m Hm] H.
  destruct (bkt_Put_cases (Some (k :: p)) key v w)
    as [(o0 & H0 & ? & Hp)|(p0 & m0 & [= <-] & Hm0 & Hn & H0)];
    rewrite H0 in H; injection H as <- <-.
  - split; [|split; [apply confined_refl|apply alive_refl]].
    intros ->. specialize (Hp eq_refl _ eq_refl). congruence.
  - split; [done|]. split; [apply confined_write|].
    intros q Hq.
    change (is_Some (walk q (wr (k :: p) (insert key (Val v)) (root w)))).
    eapply walk_wr_alive; [exact Hm0| |exact Hq].
    intros k' b. by apply insert_val_keeps.
Qed.

Lemma bkt_Delete_frame k p key w o w' :
  is_Some (walk (k :: p) (root w)) →
  bkt_Delete (Some (k :: p)) key w = (o, w') →
  o ≠ Panic ∧ confined [k] w w' ∧ alive w w'.
Proof.
  intros [m Hm] H.
  destruct (bkt_Delete_cases (Some (k :: p)) key w)
    as [(o0 & H0 & ? & Hp)|(p0 & m0 & [= <-] & Hm0 & Hn & H0)];
    rewrite H0 in H; injection H as <- <-.
  - split; [|split; [apply confined_refl|apply alive_refl]].
    intros ->. specialize (Hp eq_refl _ eq_refl). congruence.
  - split; [done|]. split; [apply confined_write|].
    intros q Hq.
    change (is_Some (walk q (wr (k :: p) (delete key) (root w)))).
    eapply walk_wr_alive; [exact Hm0| |exact Hq].
    intros k' b. by apply delete_val_keeps.
Qed.

Lemma bkt_CreateBucket_frame k p key w o w' :
  is_Some (walk (k :: p) (root w)) →
  bkt_CreateBucket (Some (k :: p)) key w = (o, w') →
  o ≠ Panic ∧ confined [k] w w' ∧ alive w w' ∧
  ∀ h, o = Ret h → h = Some ((k :: p) ++ [key]) ∧ walk ((k :: p) ++ [key]) (root w') = Some ∅.
Proof.
  intros [m Hm] H.
  destruct (bkt_CreateBucket_cases (Some (k :: p)) key w)
    as [(o0 & H0 & Hno & Hp)|(p0 & m0 & [= <-] & Hm0 & Hn & H0)];
    rewrite H0 in H; injection H as <- <-.
  - split; [|split; [apply confined_refl|split; [apply alive_refl|]]].
    + intros ->. specialize (Hp eq_refl _ eq_refl). congruence.
    + intros h ->. by destruct (Hno h).
  - split; [done|]. split; [apply confined_write|]. split.
    + intros q Hq.
      change (is_Some (walk q (wr (k :: p) (insert key (Bkt ∅)) (root w)))).
      eapply walk_wr_alive; [exact Hm0| |exact Hq].
      intros k' b. by apply insert_new_keeps.
    + intros h [= <-]. split; [done|].
      change (walk ((k :: p) ++ [key]) (wr (k :: p) (insert key (Bkt ∅)) (root w)) = Some ∅).
      rewrite walk_snoc, (walk_wr_same _ _ _ _ Hm0). by rewrite lookup_insert_eq.
Qed.

Lemma bkt_DeleteBucket_frame k p key w o w' :
  is_Some (walk (k :: p) (root w)) →
  bkt_DeleteBucket (Some (k :: p)) key w = (o, w') →
  o ≠ Panic ∧ confined [k] w w'.
Proof.
  intros [m Hm] H.
  destruct (bkt_DeleteBucket_cases (Some (k :: p)) key w)
    as [(o0 & H0 & ? & Hp)|(p0 & m0 & [= <-] & ? & ? & H0)];
    rewrite H0 in H; injection H as <- <-.
  - split; [|apply confined_refl]. intros ->. specialize (Hp eq_refl _ eq_refl). congruence.
  - split; [done|apply confined_write].
Qed.

(** A wrapped operation changes the world as the operation does and
    faults when it does. *)
Lemma wrapf_frame {A} (m : M A) format args w o w' :
  wrapf m format args w = (o, w') →
  ∃ o0, m w = (o0, w') ∧ (o = Panic ↔ o0 = Panic) ∧ (∀ a, o = Ret a ↔ o0 = Ret a).
Proof.
  intros (o0 & H0 & ->)%wrapf_inv. exists o0. split; [done|].
  destruct o0; split; try done; intros; split; congruence.
Qed.

(** The errors a [Put] can return. *)
Lemma bkt_Put_errors h key v w e w' :
  bkt_Put h key v w = (Err e, w') →
  e = ErrKeyRequired ∨ e = ErrKeyTooLarge ∨ e = ErrValueTooLarge ∨
  e = ErrIncompatibleValue.
Proof.
  unfold bkt_Put, with_bkt. destruct h as [p|]; [|done].
  destruct (walk p (root w)) as [m|]; [|done].
  destruct (decide _); [intros [= <- <-]; auto|].
  destruct (_ <? _)%Z; [intros [= <- <-]; auto|].
  destruct (_ <? _)%Z; [intros [= <- <-]; auto|].
  destruct (m !! key) as [[]|]; intros [= <- <-] || intros [=]; auto.
Qed.
End writes.

(** ** Reasoning on sequences of operations *)

Section wp.
Context {A B : Type}.
Implicit Types (m : M A) (k : A → M B) (w : World).

Lemma wp_bind m k w (Q : outcome B → World → Prop) :
  wp m w (λ o1 w1,
    match o1 with
    | Ret a => wp (k a) w1 Q
    | Err e => Q (Err e) w1
    | Panic => Q Panic w1
    end) →
  wp (m ≫= k) w Q.
Proof.
  intros Hm o w' H.
  apply mbind_inv in H as [(a & w1 & H1 & H)|[(e & H1 & ->)|[H1 ->]]].
  - by apply (Hm _ _ H1).
  - apply (Hm _ _ H1).
  - apply (Hm _ _ H1).
Qed.

Lemma wp_mono m w (Q Q' : outcome A → World → Prop) :
  wp m w Q → (∀ o w', Q o w' → Q' o w') → wp m w Q'.
Proof. intros Hm HQ o w' H. by apply HQ, Hm. Qed.

Lemma wp_ret (a : A) w (Q : outcome A → World → Prop) : Q (Ret a) w → wp (mret a) w Q.
Proof. by intros HQ o w' [= <- <-]. Qed.

Lemma wp_throw e w (Q : outcome A → World → Prop) : Q (Err e) w → wp (throw e) w Q.
Proof. by intros HQ o w' [= <- <-]. Qed.

Lemma wp_wrapf m format args w (Q : outcome A → World → Prop) :
  wp m w (λ o w', Q match o with
                    | Err e => Err (errors_Wrapf e format args)
                    | _ => o
                    end w') →
  wp (wrapf m format args) w Q.
Proof. intros Hm o w' (o0 & H0 & ->)%wrapf_inv. by apply Hm. Qed.

Lemma wp_or_else m e w (Q : outcome A → World → Prop) :
  wp m w (λ o w', Q match o with Err _ => Err e | _ => o end w') →
  wp (or_else m e) w Q.
Proof. intros Hm o w' (o0 & H0 & ->)%or_else_inv. by apply Hm. Qed.
End wp.

Lemma wp_emit ev w (Q : outcome unit → World → Prop) :
  Q (Ret tt) (mkWorld (root w) (trace w ++ [ev])) → wp (emit ev) w Q.
Proof. by intros HQ o w' [= <- <-]. Qed.

Lemma wp_required_bucket k what w (Q : outcome handle → World → Prop) :
  (is_bkt (root w !! k) → Q (Ret (Some [k])) w) →
  Q (Err (errors_Wrapf ErrDBBadConfig what [])) w →
  wp (required_bucket k what) w Q.
Proof.
  intros HR HE o w' H.
  destruct (required_bucket_cases k what w) as [[Hb Heq]|[_ Heq]];
    rewrite Heq in H; injection H as <- <-; auto.
Qed.

Lemma wp_Get p key w m (Q : outcome (option string) → World → Prop) :
  walk p (root w) = Some m →
  Q (Ret (node_value (m !! key))) w →
  wp (bkt_Get (Some p) key) w Q.
Proof. intros Hp HQ o w'. rewrite (bkt_Get_at _ _ _ _ Hp). by intros [= <- <-]. Qed.

Lemma wp_Bucket p key w m (Q : outcome handle → World → Prop) :
  walk p (root w) = Some m →
  Q (Ret (sub_handle p m key)) w →
  wp (bkt_Bucket (Some p) key) w Q.
Proof. intros Hp HQ o w'. rewrite (bkt_Bucket_at _ _ _ _ Hp). by intros [= <- <-]. Qed.

Lemma wp_Put k p key v w (Q : outcome unit → World → Prop) :
  is_Some (walk (k :: p) (root w)) →
  (∀ o w', written k p (insert key (Val v)) o w w' → Q o w') →
  wp (bkt_Put (Some (k :: p)) key v) w Q.
Proof.
  intros Hv HQ o w' H. apply HQ.
  destruct (bkt_Put_frame _ _ _ _ _ _ _ Hv H) as (Hnp & Hc & Ha).
  split; [done|]. split; [by split|].
  destruct (bkt_Put_cases (Some (k :: p)) key v w)
    as [(o0 & H0 & Hne & _)|(p0 & m0 & [= <-] & _ & _ & H0)];
    rewrite H0 in H; injection H as <- <-.
  - split; [by intros [] ?|done].
  - split; [done|]. intros Hne. by destruct (Hne tt).
Qed.

Lemma wp_Delete k p key w (Q : outcome unit → World → Prop) :
  is_Some (walk (k :: p) (root w)) →
  (∀ o w', written k p (delete key) o w w' → Q o w') →
  wp (bkt_Delete (Some (k :: p)) key) w Q.
Proof.
  intros Hv HQ o w' H. apply HQ.
  destruct (bkt_Delete_frame _ _ _ _ _ _ Hv H) as (Hnp & Hc & Ha).
  split; [done|]. split; [by split|].
  destruct (bkt_Delete_cases (Some (k :: p)) key w)
    as [(o0 & H0 & Hne & _)|(p0 & m0 & [= <-] & _ & _ & H0)];
    rewrite H0 in H; injection H as <- <-.
  - split; [by intros [] ?|done].
  - split; [done|]. intros Hne. by destruct (Hne tt).
Qed.

Lemma wp_CreateBucket k p key w (Q : outcome handle → World → Prop) :
  is_Some (walk (k :: p) (root w)) →
  (∀ o w', written k p (insert key (Bkt ∅)) o w w' →
           (∀ h, o = Ret h → h = Some ((k :: p) ++ [key]) ∧
                             walk ((k :: p) ++ [key]) (root w') = Some ∅) →
           Q o w') →
  wp (bkt_CreateBucket (Some (k :: p)) key) w Q.
Proof.
  intros Hv HQ o w' H.
  destruct (bkt_CreateBucket_frame _ _ _ _ _ _ Hv H) as (Hnp & Hc & Ha & Hh).
  apply HQ; [|done].
  split; [done|]. split; [by split|].
  destruct (bkt_CreateBucket_cases (Some (k :: p)) key w)
    as [(o0 & H0 & Hne & _)|(p0 & m0 & [= <-] & _ & _ & H0)];
    rewrite H0 in H; injection H as <- <-.
  - split; [|done]. intros h ?. by destruct (Hne h).
  - split; [done|]. intros Hne. by destruct (Hne (Some ((k :: p) ++ [key]))).
Qed.

Section framed.
Implicit Types (w : World) (K : list string) (k : string).

Lemma framed_refl K w : framed K w w.
Proof. split; [apply confined_refl|apply alive_refl]. Qed.

Lemma framed_step K k w0 w w' :
  k ∈ K → framed K w0 w → framed [k] w w' → framed K w0 w'.
Proof.
  intros Hk [Hc Ha] [Hc' Ha']. split.
  - eapply confined_trans; [exact Hc|]. eapply confined_mono; [|exact Hc'].
    intros x Hx. apply elem_of_cons in Hx as [->|Hx]; [done|by apply elem_of_nil in Hx].
  - by eapply alive_trans.
Qed.

Lemma framed_trans K w1 w2 w3 : framed K w1 w2 → framed K w2 w3 → framed K w1 w3.
Proof.
  intros [Hc Ha] [Hc' Ha']. split; [by eapply confined_trans|by eapply alive_trans].
Qed.

Lemma framed_mono K K' w w' : K ⊆ K' → framed K w w' → framed K' w w'.
Proof. intros HK [Hc Ha]. split; [by eapply confined_mono|done]. Qed.

Lemma framed_trace K w t : framed K w (mkWorld (root w) t).
Proof. split; [apply confined_trace|by intros q]. Qed.

Lemma framed_lookup K w w' k : framed K w w' → k ∉ K → root w' !! k = root w !! k.
Proof. intros [[H _] _]. apply H. Qed.

Lemma is_bkt_valid k w : is_bkt (root w !! k) → is_Some (walk [k] (root w)).
Proof. intros [m Hm]. rewrite walk_top, Hm. by eexists. Qed.

Lemma valid_is_bkt k w : is_Some (walk [k] (root w)) → is_bkt (root w !! k).
Proof.
  rewrite walk_top. destruct (root w !! k) as [[|m]|]; intros [? [=]]. by eexists.
Qed.
End framed.

(** A loop whose turns keep [I] and are related by [R] keeps [I] and is
    related by [R]; [P] holds of the outcome that ends it early. *)
Lemma wp_for_range {A} (I : World → Prop) (R : World → World → Prop)
    (P : outcome unit → Prop) (body : A → M unit) (l : list A) w :
  (∀ w1, R w1 w1) →
  (∀ w1 w2 w3, R w1 w2 → R w2 w3 → R w1 w3) →
  P (Ret tt) →
  (∀ x w1, x ∈ l → I w1 →
     wp (body x) w1 (λ o w2, R w1 w2 ∧ (o = Ret tt → I w2) ∧ (o ≠ Ret tt → P o))) →
  I w →
  wp (for_range l body) w (λ o w', R w w' ∧ (o = Ret tt → I w') ∧ P o).
Proof.
  intros Hrefl Htrans HP Hbody. revert w.
  induction l as [|x l IH]; intros w HI; cbn [for_range].
  - apply wp_ret. auto.
  - apply wp_bind. eapply wp_mono.
    { apply Hbody; [apply elem_of_cons; by left|exact HI]. }
    intros o w1 (HR & HI1 & HP1). destruct o as [[]|e|].
    + eapply wp_mono.
      { apply IH; [|by apply HI1]. intros y w2 Hy. apply Hbody. apply elem_of_cons. by right. }
      intros o w2 (HR2 & HI2 & HP2). split; [by eapply Htrans|]. by split.
    + split; [done|]. split; [done|]. by apply HP1.
    + split; [done|]. split; [done|]. by apply HP1.
Qed.

Lemma wp_Get_nil key w (Q : outcome (option string) → World → Prop) :
  Q Panic w → wp (bkt_Get None key) w Q.
Proof. by intros HQ o w' [= <- <-]. Qed.

(** ** Adding a container: the steps *)

(** An accessor that returns, returns the handle on its bucket and leaves
    the world. *)
Lemma required_bucket_inv k what w h w' :
  required_bucket k what w = (Ret h, w') →
  h = Some [k] ∧ w' = w ∧ is_bkt (root w !! k).
Proof.
  destruct (required_bucket_cases k what w) as [[Hb ->]|[_ ->]]; [|done].
  by intros [= <- <-].
Qed.

Lemma required_bucket_safe k what w o w' :
  required_bucket k what w = (o, w') → o ≠ Panic ∧ w' = w.
Proof.
  destruct (required_bucket_cases k what w) as [[_ ->]|[_ ->]]; by intros [= <- <-].
Qed.

Lemma is_bkt_walk k r : is_bkt (r !! k) → ∃ m, r !! k = Some (Bkt m) ∧ walk [k] r = Some m.
Proof. intros [m Hm]. exists m. by rewrite walk_top, Hm. Qed.

(** The transaction that gets past its opening has found its buckets and
    its pod, and has registered the container. *)
Lemma addContainer_open_inv ctr pod configJSON stateJSON netNSPath w cb vb pc w0 :
  addContainer_open ctr pod configJSON stateJSON netNSPath w = (Ret (cb, vb, pc), w0) →
  registries_exist (root w) ∧ cb = Some [ctrBkt] ∧ vb = Some [volBkt] ∧
  ∃ wp, addContainer_pod ctr pod w = (Ret pc, wp) ∧
        addContainer_register ctr pod configJSON stateJSON netNSPath
          (Some [idRegistryBkt]) (Some [nameRegistryBkt]) (Some [nsRegistryBkt])
          (Some [ctrBkt]) (Some [allCtrsBkt]) wp = (Ret tt, w0).
Proof.
  unfold addContainer_open, getIDBucket, getNamesBucket, getNSBucket, getCtrBucket,
    getAllCtrsBucket, getVolBucket.
  intros H.
  do 6 (let H' := fresh "Hrun" in
        let Hb := fresh "Hb" in
        match goal with
        | H0 : _ = (Ret (cb, vb, pc), w0) |- _ =>
            apply mbind_inv in H0 as [(? & ? & (-> & -> & Hb)%required_bucket_inv & H')|
                                      [(? & _ & [=])|[_ [=]]]]
        end).
  match goal with
  | H0 : _ = (Ret (cb, vb, pc), w0) |- _ =>
      apply mbind_inv in H0 as [(pc' & wp & Hpod & H')|[(? & _ & [=])|[_ [=]]]]
  end.
  apply mbind_inv in H' as [([] & w0' & Hreg & H)|[(? & _ & [=])|[_ [=]]]].
  injection H as <- <- <- <-.
  repeat split; eauto.
Qed.

Lemma addContainer_prepared E s ctr pod configJSON stateJSON w :
  prepared E s ctr configJSON stateJSON →
  addContainer E s ctr pod w =
  db_Update (addContainer_tx ctr pod configJSON stateJSON (getNetNSPath E ctr)
               (ctr_Dependencies E ctr)) w.
Proof.
  intros (Hns & Hc & Hs & Ho). unfold addContainer, getDBCon.
  rewrite Hc, Hs, Ho.
  destruct Hns as [Hns|Hns].
  - by rewrite (bool_decide_eq_false_2 (namespace s ≠ EmptyString)) by auto.
  - rewrite (bool_decide_eq_false_2 (namespace s ≠ ctr_Namespace ctr)) by auto.
    by rewrite andb_false_r.
Qed.

(** An error in the turn of a dependency is the error of [addContainer],
    and the transaction is rolled back. *)
Lemma addContainer_dependency_fails E s ctr pod configJSON stateJSON w
    pre D post cb vb pc w0 w1 e w2 :
  prepared E s ctr configJSON stateJSON →
  ctr_Dependencies E ctr = pre ++ D :: post →
  addContainer_open ctr pod configJSON stateJSON (getNetNSPath E ctr) w =
    (Ret (cb, vb, pc), w0) →
  for_range pre (addContainer_dependency ctr pod cb) w0 = (Ret tt, w1) →
  addContainer_dependency ctr pod cb D w1 = (Err e, w2) →
  addContainer E s ctr pod w = (Err e, mkWorld (root w) (trace w2)).
Proof.
  intros Hprep Hdeps Hopen Hpre HD.
  rewrite (addContainer_prepared _ _ _ _ _ _ _ Hprep).
  unfold db_Update, addContainer_tx.
  rewrite (mbind_Ret _ _ _ _ _ Hopen). cbv beta iota.
  rewrite Hdeps.
  erewrite mbind_Err; [done|].
  rewrite for_range_app. rewrite (mbind_Ret _ _ _ _ _ Hpre).
  cbn [for_range]. by rewrite (mbind_Err _ _ _ _ _ HD).
Qed.

(** The four ways a turn of the dependency loop goes. *)
Lemma addContainer_dependency_cases ctr pod p mb D mD w :
  walk p (root w) = Some mb →
  mb !! D = Some (Bkt mD) →
  let r := addContainer_dependency ctr pod (Some p) D w in
  let depNamespace := node_value (mD !! namespaceKey) in
  (pod_incoherent pod mD ∧ ∃ e, r = (Err e, w) ∧ errors_Cause e = ErrInvalidArg) ∨
  (¬ pod_incoherent pod mD ∧ bytes_Equal (ctrNamespaceOf ctr) depNamespace = false ∧
   r = (Err (errors_Wrapf ErrNSMismatch
          "container %s in namespace %q depends on container %s in namespace %q - namespaces must match"
          [ctr_ID ctr; ctr_Namespace ctr; D; default EmptyString depNamespace]), w)) ∨
  (¬ pod_incoherent pod mD ∧ bytes_Equal (ctrNamespaceOf ctr) depNamespace = true ∧
   ¬ is_bkt (mD !! dependenciesBkt) ∧
   r = (Err (errors_Wrapf ErrInternal
          "container %s does not have a dependencies bucket" [D]), w)) ∨
  (¬ pod_incoherent pod mD ∧ bytes_Equal (ctrNamespaceOf ctr) depNamespace = true ∧
   is_bkt (mD !! dependenciesBkt) ∧
   r = wrapf (bkt_Put (Some ((p ++ [D]) ++ [dependenciesBkt])) (ctr_ID ctr) (ctr_Name ctr))
         "error adding ctr %s as dependency of container %s" [ctr_ID ctr; D] w).
Proof.
  intros Hp HD r depNamespace. subst r.
  assert (walk (p ++ [D]) (root w) = Some mD) as HpD by (by rewrite walk_snoc, Hp, HD).
  unfold addContainer_dependency.
  rewrite (mbind_Ret _ _ _ _ _ (bkt_Bucket_at _ _ _ _ Hp)).
  rewrite (sub_handle_Some _ _ _ _ HD).
  rewrite (mbind_Ret _ _ _ _ _ (bkt_Get_at _ podIDKey _ _ HpD)).
  unfold pod_incoherent.
  destruct pod as [pod|]; destruct (node_value (mD !! podIDKey)) as [depCtrPod|] eqn:Hpod.
  - case_bool_decide as Hne.
    + left. split; [congruence|]. eexists. by split.
    + assert (¬ Some depCtrPod ≠ Some (pod_ID pod)) as Hcoh by (intros []; congruence).
      clear Hne. revert Hcoh. generalize (Some depCtrPod ≠ Some (pod_ID pod)). intros P HP.
      right. rewrite (mbind_Ret _ _ _ tt w) by done.
      rewrite (mbind_Ret _ _ _ _ _ (bkt_Get_at _ namespaceKey _ _ HpD)).
      fold depNamespace. destruct (bytes_Equal _ depNamespace) eqn:Hns; cbn [negb].
      * right. rewrite (mbind_Ret _ _ _ _ _ (bkt_Bucket_at _ dependenciesBkt _ _ HpD)).
        unfold sub_handle. destruct (mD !! dependenciesBkt) as [[|b]|] eqn:Hdeps.
        -- left. repeat split; try done. by intros [? [=]].
        -- right. repeat split; try done. by eexists.
        -- left. repeat split; try done. by intros [? [=]].
      * left. done.
  - left. split; [done|]. eexists. by split.
  - left. split; [done|]. eexists. by split.
  - right. rewrite (mbind_Ret _ _ _ tt w) by done.
    rewrite (mbind_Ret _ _ _ _ _ (bkt_Get_at _ namespaceKey _ _ HpD)).
    fold depNamespace. destruct (bytes_Equal _ depNamespace) eqn:Hns; cbn [negb].
    * right. rewrite (mbind_Ret _ _ _ _ _ (bkt_Bucket_at _ dependenciesBkt _ _ HpD)).
      unfold sub_handle. destruct (mD !! dependenciesBkt) as [[|b]|] eqn:Hdeps.
      -- left. repeat split; try done; try tauto. by intros [? [=]].
      -- right. repeat split; try done; try tauto. by eexists.
      -- left. repeat split; try done; try tauto. by intros [? [=]].
    * left. repeat split; try done; tauto.
Qed.

(** C4: when the transaction of [addContainer] reaches the turn of a
    declared dependency [D], that turn fails with [ErrInvalidArg] exactly
    when the container is added to a pod and [D] does not store that
    pod's ID, or is added to no pod and [D] stores a pod ID; and then
    [addContainer] fails with that error and the store is as before. *)
Theorem addContainer_pod_coherence (E : Externals) (s : BoltState) (ctr : Container)
    (pod : option Pod) (configJSON stateJSON : string) (w : World)
    (pre : list string) (D : string) (post : list string)
    (cb vb pc : handle) (w0 w1 : World) (mD : bucket) :
  prepared E s ctr configJSON stateJSON →
  ctr_Dependencies E ctr = pre ++ D :: post →
  addContainer_open ctr pod configJSON stateJSON (getNetNSPath E ctr) w =
    (Ret (cb, vb, pc), w0) →
  for_range pre (addContainer_dependency ctr pod cb) w0 = (Ret tt, w1) →
  walk [ctrBkt; D] (root w1) = Some mD →
  (pod_incoherent pod mD ↔
   ∃ e w', addContainer_dependency ctr pod cb D w1 = (Err e, w') ∧
           errors_Cause e = ErrInvalidArg) ∧
  (pod_incoherent pod mD →
   ∃ e, addContainer E s ctr pod w = (Err e, mkWorld (root w) (trace w1)) ∧
        errors_Cause e = ErrInvalidArg).
Proof.
  intros Hprep Hdeps Hopen Hpre HD.
  destruct (addContainer_open_inv _ _ _ _ _ _ _ _ _ _ Hopen) as (_ & -> & _ & _).
  cbn [walk] in HD.
  destruct (root w1 !! ctrBkt) as [[|mb]|] eqn:Hctr; try done.
  destruct (mb !! D) as [[|mD']|] eqn:HmD; try done. injection HD as ->.
  assert (walk [ctrBkt] (root w1) = Some mb) as Hp by (by rewrite walk_top, Hctr).
  pose proof (addContainer_dependency_cases ctr pod _ _ _ _ _ Hp HmD) as Hcases.
  cbv zeta in Hcases.
  assert (pod_incoherent pod mD →
          ∃ e, addContainer_dependency ctr pod (Some [ctrBkt]) D w1 = (Err e, w1) ∧
               errors_Cause e = ErrInvalidArg) as Hfail.
  { intros Hinc. destruct Hcases as [(_ & e & He & Hc)|[(Hn & _)|[(Hn & _)|(Hn & _)]]];
      [by eauto|done..]. }
  split; [split|].
  - intros Hinc. destruct (Hfail Hinc) as (e & He & Hc). eauto.
  - intros (e & w' & He & Hc).
    destruct Hcases as [(Hinc & _)|[(_ & _ & Hr)|[(_ & _ & _ & Hr)|(_ & _ & _ & Hr)]]];
      [done|rewrite Hr in He..].
    + injection He as <- <-. done.
    + injection He as <- <-. done.
    + apply wrapf_inv in He as (o0 & Hput & Ho0).
      destruct o0 as [[]|e0|]; try done. injection Ho0 as ->.
      apply bkt_Put_errors in Hput. by destruct Hput as [->|[->|[->| ->]]].
  - intros Hinc. destruct (Hfail Hinc) as (e & He & Hc). exists e. split; [|done].
    by eapply addContainer_dependency_fails.
Qed.

Lemma addContainer_pod_coherence_witness :
  let w := Sample.world (Sample.withCtr "A" (Sample.ctrRecord None (Some "P") ∅)
                           Sample.emptyDB) in
  let ctr := Sample.container "B" "b" EmptyString [] in
  let mD : bucket :=
    <[configKey := Val "{}"]> (<[stateKey := Val "{}"]>
      (<[dependenciesBkt := Bkt ∅]> (∅ ∪ {[ podIDKey := Val "P" ]}))) in
  let w1 := (addContainer_open ctr None "config:B" "{}" EmptyString w).2 in
  (pod_incoherent None mD ↔
   ∃ e w', addContainer_dependency ctr None (Some [ctrBkt]) "A" w1 = (Err e, w') ∧
           errors_Cause e = ErrInvalidArg) ∧
  (pod_incoherent None mD →
   ∃ e, addContainer Sample.E_depA (Sample.s EmptyString) ctr None w =
          (Err e, mkWorld (root w) (trace w1)) ∧
        errors_Cause e = ErrInvalidArg).
Proof.
  intros w ctr mD w1.
  apply (addContainer_pod_coherence Sample.E_depA (Sample.s EmptyString) ctr None
           "config:B" "{}" w [] "A" [] (Some [ctrBkt]) (Some [volBkt]) None w1 w1 mD).
  - repeat split; auto.
  - reflexivity.
  - vm_compute. reflexivity.
  - reflexivity.
  - vm_compute. reflexivity.
Defined.




(** ** Adding a container: what each phase touches *)

Lemma id_taken_framed k w w' ctr :
  framed [k] w w' → k ≠ idRegistryBkt →
  id_taken (root w) ctr → id_taken (root w') ctr.
Proof.
  intros Hfr Hk (m & v & Hm & Hv). exists m, v. split; [|done].
  rewrite (framed_lookup _ _ _ _ Hfr); [done|].
  intros [Heq|[]%elem_of_nil]%elem_of_cons. congruence.
Qed.

Lemma id_taken_written w w' ctr v :
  is_bkt (root w !! idRegistryBkt) →
  root w' = wr [idRegistryBkt] (insert (ctr_ID ctr) (Val v)) (root w) →
  id_taken (root w') ctr.
Proof.
  intros [m Hm] ->. exists (<[ctr_ID ctr := Val v]> m), v.
  split; [by rewrite (wr_lookup_eq _ _ _ _ _ Hm)|by rewrite lookup_insert_eq].
Qed.

(** Membership in a list of bucket names, by computation. *)
Ltac in_names := apply (bool_decide_unpack (_ ∈ _)); vm_compute; exact I.
Ltac names_differ := let H := fresh in intros H; vm_compute in H; discriminate H.

Lemma kept_Err K w {A} e w' : framed K w w' → kept K w (@Err A e) w'.
Proof. by split. Qed.

Lemma wrapf_Put_kept k p key v format args w :
  is_Some (walk (k :: p) (root w)) →
  wp (wrapf (bkt_Put (Some (k :: p)) key v) format args) w (kept [k] w).
Proof.
  intros Hv. apply wp_wrapf, wp_Put; [done|].
  intros o w' (Hnp & Hfr & _ & _). split; [by destruct o|done].
Qed.

Lemma wrapf_Delete_kept k p key format args w :
  is_Some (walk (k :: p) (root w)) →
  wp (wrapf (bkt_Delete (Some (k :: p)) key) format args) w (kept [k] w).
Proof.
  intros Hv. apply wp_wrapf, wp_Delete; [done|].
  intros o w' (Hnp & Hfr & _ & _). split; [by destruct o|done].
Qed.

Lemma wrapf_CreateBucket_kept k p key format args w :
  is_Some (walk (k :: p) (root w)) →
  wp (wrapf (bkt_CreateBucket (Some (k :: p)) key) format args) w
     (λ o w', kept [k] w o w' ∧
              ∀ h, o = Ret h → h = Some ((k :: p) ++ [key]) ∧
                               is_Some (walk ((k :: p) ++ [key]) (root w'))).
Proof.
  intros Hv. apply wp_wrapf, wp_CreateBucket; [done|].
  intros o w' (Hnp & Hfr & _ & _) Hh. split; [split; [by destruct o|done]|].
  intros h Ho. destruct o as [h'|?|]; try done. injection Ho as ->.
  destruct (Hh h eq_refl) as [-> Hw]. by rewrite Hw.
Qed.

Lemma mret_kept {A} K (a : A) w : wp (mret a) w (kept K w).
Proof. apply wp_ret. split; [done|apply framed_refl]. Qed.

(** One step of a phase confined to [K]: the facts about the world are
    moved to the world after the step, [Hfr] being the frame so far and
    [Hid] a fact kept by writes outside [id-registry].  The frame of the
    step is left as [Hstep]. *)
Ltac kept_step K k Hfr Hid Hstep :=
  let o := fresh "o" in
  let w1 := fresh "w" in
  let Hnp := fresh "Hnp" in
  let Hfr' := fresh "Hfr" in
  let Hid' := fresh "Hid" in
  intros o w1 (Hnp & Hstep);
  pose proof (framed_step K k _ _ _ ltac:(in_names) Hfr Hstep) as Hfr';
  pose proof (id_taken_framed k _ _ _ Hstep ltac:(names_differ) Hid) as Hid';
  clear Hfr Hid; rename Hfr' into Hfr; rename Hid' into Hid;
  destruct o as [?|?|];
  [clear Hnp|split; [by apply kept_Err|discriminate]|done].

Ltac live Hfr H := apply Hfr; first [exact H | by apply is_bkt_valid].

Lemma addContainer_register_wp ctr pod configJSON stateJSON netNSPath w :
  is_bkt (root w !! idRegistryBkt) → is_bkt (root w !! nameRegistryBkt) →
  is_bkt (root w !! nsRegistryBkt) → is_bkt (root w !! ctrBkt) →
  is_bkt (root w !! allCtrsBkt) →
  wp (addContainer_register ctr pod configJSON stateJSON netNSPath
        (Some [idRegistryBkt]) (Some [nameRegistryBkt]) (Some [nsRegistryBkt])
        (Some [ctrBkt]) (Some [allCtrsBkt])) w
     (λ o w', kept registerKeys w o w' ∧ (o = Ret tt → id_taken (root w') ctr)).
Proof.
  intros Hids Hnames Hns Hctr Hall. unfold addContainer_register.
  destruct (is_bkt_walk _ _ Hids) as (mids & _ & Hwids).
  destruct (is_bkt_walk _ _ Hnames) as (mnames & _ & Hwnames).
  apply wp_bind. eapply wp_Get; [exact Hwids|].
  destruct (node_value (mids !! ctr_ID ctr)).
  { apply wp_throw. split; [apply kept_Err, framed_refl|discriminate]. }
  apply wp_bind. eapply wp_Get; [exact Hwnames|].
  destruct (node_value (mnames !! ctr_Name ctr)).
  { apply wp_throw. split; [apply kept_Err, framed_refl|discriminate]. }
  (* id-registry *)
  apply wp_bind, wp_wrapf, wp_Put; [by apply is_bkt_valid|].
  intros o w1 (Hnp & Hfr1 & Hex & _).
  pose proof (framed_step registerKeys idRegistryBkt _ _ _ ltac:(in_names)
                (framed_refl _ w) Hfr1) as Hfr.
  destruct o as [[]|?|]; [|split; [by apply kept_Err|discriminate]|done].
  pose proof (id_taken_written _ _ ctr _ Hids (Hex tt eq_refl)) as Hid.
  clear Hfr1 Hex Hnp.
  (* name-registry, ns-registry, all-ctrs *)
  apply wp_bind. eapply wp_mono; [apply wrapf_Put_kept; live Hfr Hnames|].
  kept_step registerKeys nameRegistryBkt Hfr Hid Hstep. clear Hstep.
  apply wp_bind. eapply wp_mono.
  { destruct (ctrNamespaceOf ctr); [apply wrapf_Put_kept; live Hfr Hns|apply mret_kept]. }
  kept_step registerKeys nsRegistryBkt Hfr Hid Hstep. clear Hstep.
  apply wp_bind. eapply wp_mono; [apply wrapf_Put_kept; live Hfr Hall|].
  kept_step registerKeys allCtrsBkt Hfr Hid Hstep. clear Hstep.
  (* the bucket of the container *)
  apply wp_bind. eapply wp_mono; [apply wrapf_CreateBucket_kept; live Hfr Hctr|].
  intros o w4 [[Hnp Hstep] Hnew].
  pose proof (framed_step registerKeys ctrBkt _ _ _ ltac:(in_names) Hfr Hstep) as Hfr'.
  pose proof (id_taken_framed ctrBkt _ _ _ Hstep ltac:(names_differ) Hid) as Hid'.
  clear Hfr Hid Hstep. rename Hfr' into Hfr. rename Hid' into Hid.
  destruct o as [newCtrBkt|?|]; [|split; [by apply kept_Err|discriminate]|done].
  destruct (Hnew _ eq_refl) as [-> Hlive]. clear Hnew Hnp. cbn [app] in Hlive |- *.
  apply wp_bind. eapply wp_mono; [apply wrapf_Put_kept; exact Hlive|].
  kept_step registerKeys ctrBkt Hfr Hid Hstep. apply (proj2 Hstep) in Hlive. clear Hstep.
  apply wp_bind. eapply wp_mono; [apply wrapf_Put_kept; exact Hlive|].
  kept_step registerKeys ctrBkt Hfr Hid Hstep. apply (proj2 Hstep) in Hlive. clear Hstep.
  apply wp_bind. eapply wp_mono.
  { destruct (ctrNamespaceOf ctr); [apply wrapf_Put_kept; exact Hlive|apply mret_kept]. }
  kept_step registerKeys ctrBkt Hfr Hid Hstep. apply (proj2 Hstep) in Hlive. clear Hstep.
  apply wp_bind. eapply wp_mono.
  { destruct pod; [apply wrapf_Put_kept; exact Hlive|apply mret_kept]. }
  kept_step registerKeys ctrBkt Hfr Hid Hstep. apply (proj2 Hstep) in Hlive. clear Hstep.
  apply wp_bind. eapply wp_mono.
  { destruct (bool_decide _); [apply wrapf_Put_kept; exact Hlive|apply mret_kept]. }
  kept_step registerKeys ctrBkt Hfr Hid Hstep. apply (proj2 Hstep) in Hlive. clear Hstep.
  apply wp_bind. eapply wp_mono.
  { eapply wp_mono; [apply wrapf_CreateBucket_kept; exact Hlive|]. by intros ? ? [? _]. }
  kept_step registerKeys ctrBkt Hfr Hid Hstep. clear Hstep.
  apply wp_ret. split; [by split|done].
Qed.

(** The pod phase reads only; when it returns, the pod is ready and the
    handle is the one on its [containers] bucket. *)
Lemma addContainer_pod_wp ctr pod w :
  wp (addContainer_pod ctr pod) w
     (λ o w', o ≠ Panic ∧ root w' = root w ∧
              ∀ pc, o = Ret pc →
                    w' = w ∧ pc = podCtrs_handle pod ∧ pod_ready (root w) ctr pod).
Proof.
  unfold addContainer_pod. destruct pod as [pod|].
  2:{ apply wp_ret. split; [done|]. split; [done|]. by intros pc [= <-]. }
  unfold getPodBucket. apply wp_bind, wp_required_bucket;
    [|split; [done|]; split; [done|]; by intros pc [=]].
  intros (mpod & Hpod & Hwpod)%is_bkt_walk.
  apply wp_bind. eapply wp_Bucket; [exact Hwpod|].
  destruct (sub_handle [podBkt] mpod (pod_ID pod)) as [podDB|] eqn:HpodDB.
  2:{ apply wp_bind, wp_emit, wp_throw. split; [done|]. split; [done|]. by intros pc [=]. }
  apply sub_handle_inv in HpodDB as (-> & mp & Hmp).
  assert (walk [podBkt; pod_ID pod] (root w) = Some mp) as Hwmp.
  { change [podBkt; pod_ID pod] with ([podBkt] ++ [pod_ID pod]).
    by rewrite walk_snoc, Hwpod, Hmp. }
  cbn [app]. apply wp_bind. eapply wp_Bucket; [exact Hwmp|].
  destruct (sub_handle [podBkt; pod_ID pod] mp containersBkt) as [podCtrs|] eqn:HpodCtrs.
  2:{ apply wp_throw. split; [done|]. split; [done|]. by intros pc [=]. }
  apply sub_handle_inv in HpodCtrs as (-> & mc & Hmc).
  apply wp_bind. eapply wp_Get; [exact Hwmp|].
  destruct (bytes_Equal _ _) eqn:Hns; cbn [negb].
  - apply wp_ret. split; [done|]. split; [done|]. intros pc [= <-].
    split; [done|]. split; [done|]. by exists mp, mc.
  - apply wp_throw. split; [done|]. split; [done|]. by intros pc [=].
Qed.

Lemma addContainer_pod_ready ctr pod w :
  pod_ready (root w) ctr pod →
  addContainer_pod ctr pod w = (Ret (podCtrs_handle pod), w).
Proof.
  unfold addContainer_pod, pod_ready. destruct pod as [pod|]; [|done].
  intros (mp & mc & Hwmp & Hmc & Hns).
  assert (∃ mpod, root w !! podBkt = Some (Bkt mpod) ∧
                  mpod !! pod_ID pod = Some (Bkt mp)) as (mpod & Hpod & Hmp).
  { cbn [walk] in Hwmp. destruct (root w !! podBkt) as [[|mpod]|]; try done.
    destruct (mpod !! pod_ID pod) as [[|mp']|] eqn:Hmp'; try done.
    injection Hwmp as ->. eauto. }
  unfold getPodBucket.
  rewrite (mbind_Ret _ _ _ _ _ (required_bucket_found _ _ _ _ Hpod)).
  assert (walk [podBkt] (root w) = Some mpod) as Hwpod by (by rewrite walk_top, Hpod).
  rewrite (mbind_Ret _ _ _ _ _ (bkt_Bucket_at _ _ _ _ Hwpod)).
  rewrite (sub_handle_Some _ _ _ _ Hmp). cbn [app].
  rewrite (mbind_Ret _ _ _ _ _ (bkt_Bucket_at _ _ _ _ Hwmp)).
  rewrite (sub_handle_Some _ _ _ _ Hmc).
  rewrite (mbind_Ret _ _ _ _ _ (bkt_Get_at _ namespaceKey _ _ Hwmp)).
  by rewrite Hns.
Qed.

Lemma addContainer_dependency_wp ctr pod D w :
  is_bkt (root w !! ctrBkt) →
  wp (addContainer_dependency ctr pod (Some [ctrBkt]) D) w (kept [ctrBkt] w).
Proof.
  intros (mb & Hmb & Hw)%is_bkt_walk.
  destruct (mb !! D) as [[v|mD]|] eqn:HD.
  - unfold addContainer_dependency. apply wp_bind. eapply wp_Bucket; [exact Hw|].
    unfold sub_handle. rewrite HD. apply wp_throw, kept_Err, framed_refl.
  - destruct (addContainer_dependency_cases ctr pod _ _ _ _ _ Hw HD)
      as [(_ & e & Hr & _)|[(_ & _ & Hr)|[(_ & _ & _ & Hr)|(_ & _ & [md Hmd] & Hr)]]];
      intros o w'; rewrite Hr; try (intros [= <- <-]; apply kept_Err, framed_refl).
    apply wrapf_Put_kept.
    change ([ctrBkt] ++ [D]) with [ctrBkt; D]. cbn [app].
    change [ctrBkt; D; dependenciesBkt] with ([ctrBkt; D] ++ [dependenciesBkt]).
    rewrite walk_snoc.
    change [ctrBkt; D] with ([ctrBkt] ++ [D]). rewrite walk_snoc, Hw, HD, Hmd. by eexists.
  - unfold addContainer_dependency. apply wp_bind. eapply wp_Bucket; [exact Hw|].
    unfold sub_handle. rewrite HD. apply wp_throw, kept_Err, framed_refl.
Qed.

Lemma addContainer_dependencies_wp ctr pod deps w :
  is_bkt (root w !! ctrBkt) →
  wp (for_range deps (addContainer_dependency ctr pod (Some [ctrBkt]))) w (kept [ctrBkt] w).
Proof.
  intros Hctr. eapply wp_mono.
  { apply (wp_for_range (λ w1, is_bkt (root w1 !! ctrBkt)) (framed [ctrBkt])
             (λ o, o ≠ Panic)); [apply framed_refl|apply framed_trans|done| |exact Hctr].
    intros D w1 _ H1. eapply wp_mono; [by apply addContainer_dependency_wp|].
    intros o w2 [Hnp Hfr]. split; [done|]. split; [|done].
    intros _. apply valid_is_bkt, Hfr. by apply is_bkt_valid. }
  intros o w' (Hfr & _ & Hnp). by split.
Qed.

Lemma vol_ok_ext r r' : r' !! volBkt = r !! volBkt → vol_ok r → vol_ok r'.
Proof. intros Heq H mv v mV Hmv. rewrite Heq in Hmv. by apply H. Qed.

(** A write inside a [vol-dependencies] bucket keeps every
    [vol-dependencies] bucket. *)
Lemma vol_ok_written r V f :
  vol_ok r → vol_ok (wr [volBkt; V; volDependenciesBkt] f r).
Proof.
  intros H mv' v mV'.
  destruct (r !! volBkt) as [[|mv]|] eqn:Hvol.
  { cbn [wr]. by rewrite ?Hvol. }
  2:{ cbn [wr]. by rewrite ?Hvol. }
  rewrite (wr_lookup_eq _ _ _ _ _ Hvol). intros [= <-].
  destruct (mv !! V) as [[|mV]|] eqn:HV.
  { cbn [wr]. rewrite ?HV. by apply (H mv). }
  2:{ cbn [wr]. rewrite ?HV. by apply (H mv). }
  rewrite ?(wr_cons _ _ _ _ _ HV).
  destruct (decide (V = v)) as [<-|Hne].
  - rewrite lookup_insert_eq. intros [= <-].
    destruct (H _ _ _ Hvol HV) as [md Hmd].
    rewrite ?(wr_cons _ _ _ _ _ Hmd), ?Hmd. rewrite lookup_insert_eq. by eexists.
  - rewrite lookup_insert_ne by done. by apply (H mv).
Qed.

Lemma addContainer_volume_wp ctr vol w :
  is_bkt (root w !! volBkt) →
  wp (addContainer_volume ctr (Some [volBkt]) vol) w
     (λ o w', framed [volBkt] w w' ∧ (vol_ok (root w) → o ≠ Panic ∧ vol_ok (root w'))).
Proof.
  intros Hvol. pose proof Hvol as (mv & Hmv & Hw)%is_bkt_walk.
  unfold addContainer_volume.
  apply wp_bind. eapply wp_Bucket; [exact Hw|].
  destruct (sub_handle [volBkt] mv (vol_Name vol)) as [volDB|] eqn:HvolDB.
  2:{ apply wp_throw. split; [apply framed_refl|done]. }
  apply sub_handle_inv in HvolDB as (-> & mV & HmV).
  assert (walk ([volBkt] ++ [vol_Name vol]) (root w) = Some mV) as HwV
    by (by rewrite walk_snoc, Hw, HmV).
  apply wp_bind. eapply wp_Bucket; [exact HwV|].
  destruct (sub_handle _ mV volDependenciesBkt) as [ctrDepsBkt|] eqn:Hdeps.
  2:{ apply wp_bind, wp_Get_nil. split; [apply framed_refl|].
      intros Hok. destruct (Hok _ _ _ Hmv HmV) as [md Hmd].
      unfold sub_handle in Hdeps. by rewrite Hmd in Hdeps. }
  apply sub_handle_inv in Hdeps as (-> & md & Hmd).
  assert (walk (([volBkt] ++ [vol_Name vol]) ++ [volDependenciesBkt]) (root w) = Some md)
    as Hwd by (by rewrite walk_snoc, HwV, Hmd).
  apply wp_bind. eapply wp_Get; [exact Hwd|].
  destruct (node_value (md !! ctr_ID ctr)).
  { apply wp_ret. split; [apply framed_refl|done]. }
  cbn [app] in Hwd |- *. apply wp_wrapf, wp_Put; [by rewrite Hwd|].
  intros o w' (Hnp & Hfr & Hex & Hsame). split; [done|]. intros Hok.
  split; [by destruct o|].
  destruct o as [[]|e|]; [|by rewrite Hsame..].
  rewrite (Hex tt eq_refl). by apply vol_ok_written.
Qed.

Lemma addContainer_volumes_wp ctr vols w :
  is_bkt (root w !! volBkt) →
  wp (for_range vols (addContainer_volume ctr (Some [volBkt]))) w
     (λ o w', framed [volBkt] w w' ∧ (vol_ok (root w) → o ≠ Panic)).
Proof.
  intros Hvol. eapply wp_mono.
  { apply (wp_for_range
             (λ w1, is_bkt (root w1 !! volBkt) ∧ (vol_ok (root w) → vol_ok (root w1)))
             (framed [volBkt]) (λ o, vol_ok (root w) → o ≠ Panic));
      [apply framed_refl|apply framed_trans|done| |by split].
    intros v w1 _ [H1 Hok1]. eapply wp_mono; [by apply addContainer_volume_wp|].
    intros o w2 [Hfr Hnp]. split; [done|]. split.
    - intros _. split; [apply valid_is_bkt, Hfr; by apply is_bkt_valid|].
      intros Hok. by apply Hnp, Hok1.
    - intros _ Hok. by apply Hnp, Hok1. }
  intros o w' (Hfr & _ & Hnp). by split.
Qed.

Ltac by_compute := apply (bool_decide_unpack _); vm_compute; exact I.

Lemma registries_exist_framed K w w' :
  framed K w w' → registries_exist (root w) → registries_exist (root w').
Proof.
  intros [[_ Hkeep] _] (? & ? & ? & ? & ? & ?). repeat split; by apply Hkeep.
Qed.

Lemma pod_ready_ext r r' ctr pod :
  r' !! podBkt = r !! podBkt → pod_ready r ctr pod → pod_ready r' ctr pod.
Proof.
  intros Heq. unfold pod_ready. destruct pod as [pod|]; [|done].
  intros (mp & mc & Hw & H). exists mp, mc. split; [|done].
  cbn [walk] in *. by rewrite Heq.
Qed.

Lemma pod_ready_written r ctr pod key v :
  pod_ready r ctr (Some pod) →
  pod_ready (wr [podBkt; pod_ID pod; containersBkt] (insert key (Val v)) r) ctr (Some pod).
Proof.
  intros (mp & mc & Hw & Hmc & Hns). cbn [walk] in Hw.
  destruct (r !! podBkt) as [[|mpod]|] eqn:Hpod; try done.
  destruct (mpod !! pod_ID pod) as [[|mp']|] eqn:Hmp; try done. injection Hw as ->.
  exists (<[containersBkt := Bkt (<[key := Val v]> mc)]> mp), (<[key := Val v]> mc).
  split; [|split].
  - rewrite (wr_cons _ _ _ _ _ Hpod), (wr_cons _ _ _ _ _ Hmp), (wr_cons _ _ _ _ _ Hmc).
    cbn [walk wr]. by rewrite !lookup_insert_eq.
  - by rewrite lookup_insert_eq.
  - rewrite lookup_insert_ne; [done|]. by_compute.
Qed.

Lemma pod_ready_valid r ctr pod :
  pod_ready r ctr (Some pod) → is_Some (walk [podBkt; pod_ID pod; containersBkt] r).
Proof.
  intros (mp & mc & Hw & Hmc & _).
  change [podBkt; pod_ID pod; containersBkt] with ([podBkt; pod_ID pod] ++ [containersBkt]).
  rewrite walk_snoc, Hw, Hmc. by eexists.
Qed.

(** The opening of the transaction: the handles it returns and what it
    leaves. *)
Lemma addContainer_open_wp ctr pod configJSON stateJSON netNSPath w :
  wp (addContainer_open ctr pod configJSON stateJSON netNSPath) w
     (λ o w', o ≠ Panic ∧
              ∀ hs, o = Ret hs →
                    hs = (Some [ctrBkt], Some [volBkt], podCtrs_handle pod) ∧
                    registries_exist (root w) ∧ pod_ready (root w) ctr pod ∧
                    framed registerKeys w w' ∧ id_taken (root w') ctr).
Proof.
  unfold addContainer_open, getIDBucket, getNamesBucket, getNSBucket, getCtrBucket,
    getAllCtrsBucket, getVolBucket.
  apply wp_bind, wp_required_bucket; [intros Hids|by split].
  apply wp_bind, wp_required_bucket; [intros Hnames|by split].
  apply wp_bind, wp_required_bucket; [intros Hns|by split].
  apply wp_bind, wp_required_bucket; [intros Hctr|by split].
  apply wp_bind, wp_required_bucket; [intros Hall|by split].
  apply wp_bind, wp_required_bucket; [intros Hvol|by split].
  apply wp_bind. eapply wp_mono; [apply addContainer_pod_wp|].
  intros o w1 (Hnp & _ & Hpc). destruct o as [pc|e|]; [|by split|done].
  destruct (Hpc _ eq_refl) as (-> & -> & Hready). clear Hpc Hnp.
  apply wp_bind. eapply wp_mono; [by apply addContainer_register_wp|].
  intros o w2 [[Hnp Hfr] Hid]. destruct o as [[]|e|]; [|by split|done].
  apply wp_ret. split; [done|]. intros hs [= <-].
  split; [done|]. split; [by repeat split|]. split; [done|]. split; [done|]. by apply Hid.
Qed.

Lemma addContainer_podput_wp ctr pod pc w :
  pc = podCtrs_handle pod →
  pod_ready (root w) ctr pod →
  wp (match pod, pc with
      | Some pod0, Some _ =>
          wrapf (bkt_Put pc (ctr_ID ctr) (ctr_Name ctr))
            "error adding container %s to pod %s" [ctr_ID ctr; pod_ID pod0]
      | _, _ => mret tt
      end) w
     (λ o w', kept [podBkt] w o w' ∧ (o = Ret tt → pod_ready (root w') ctr pod)).
Proof.
  intros -> Hready. destruct pod as [pod|]; cbn [podCtrs_handle].
  2:{ apply wp_ret. split; [split; [done|apply framed_refl]|done]. }
  apply wp_wrapf, wp_Put; [by eapply pod_ready_valid|].
  intros o w' (Hnp & Hfr & Hex & _). split; [split; [by destruct o|done]|].
  intros Ho. destruct o as [[]|?|]; try done.
  unfold pod_ready. rewrite (Hex tt eq_refl). by apply pod_ready_written.
Qed.

(** The transaction of [addContainer] as a whole: it does not fault when
    every volume has its [vol-dependencies] bucket, and when it commits
    the buckets and the pod are as they must be for a second add, and the
    ID is registered. *)
Lemma addContainer_tx_wp ctr pod configJSON stateJSON netNSPath deps w :
  wp (addContainer_tx ctr pod configJSON stateJSON netNSPath deps) w
     (λ o w', (vol_ok (root w) → o ≠ Panic) ∧
              (o = Ret tt → registries_exist (root w') ∧ pod_ready (root w') ctr pod ∧
                            id_taken (root w') ctr)).
Proof.
  unfold addContainer_tx. apply wp_bind.
  eapply wp_mono; [apply addContainer_open_wp|].
  intros o w0 [Hnp Hopen]. destruct o as [[[cb vb] pc]|e|]; [|by split|done].
  destruct (Hopen _ eq_refl) as ([= -> -> ->] & Hreg & Hready & Hfr & Hid).
  clear Hopen Hnp.
  (* dependencies *)
  apply wp_bind. eapply wp_mono.
  { apply addContainer_dependencies_wp.
    eapply (registries_exist_framed _ _ _ Hfr) in Hreg. apply Hreg. }
  intros o wa [Hnp Hfra]. destruct o as [[]|e|]; [|by split|done]. clear Hnp.
  (* pod *)
  assert (pod_ready (root wa) ctr pod) as Hreadya.
  { eapply pod_ready_ext; [|exact Hready].
    rewrite (framed_lookup _ _ _ _ Hfra) by by_compute.
    by rewrite (framed_lookup _ _ _ _ Hfr) by by_compute. }
  apply wp_bind. eapply wp_mono; [by apply addContainer_podput_wp|].
  intros o wb [[Hnp Hfrb] Hreadyb]. destruct o as [[]|e|]; [|by split|done].
  specialize (Hreadyb eq_refl). clear Hnp.
  (* volumes *)
  assert (registries_exist (root wb)) as Hregb.
  { eapply registries_exist_framed; [exact Hfrb|].
    eapply registries_exist_framed; [exact Hfra|].
    by eapply registries_exist_framed. }
  eapply wp_mono; [apply addContainer_volumes_wp; apply Hregb|].
  intros o w' [Hfrv Hnp]. split.
  - intros Hok. apply Hnp. eapply vol_ok_ext; [|exact Hok].
    rewrite (framed_lookup _ _ _ _ Hfrb) by by_compute.
    rewrite (framed_lookup _ _ _ _ Hfra) by by_compute.
    by rewrite (framed_lookup _ _ _ _ Hfr) by by_compute.
  - intros _. split; [by eapply registries_exist_framed|]. split.
    + eapply pod_ready_ext; [|exact Hreadyb].
      by rewrite (framed_lookup _ _ _ _ Hfrv) by by_compute.
    + eapply (id_taken_framed volBkt); [exact Hfrv|by_compute|].
      eapply (id_taken_framed podBkt); [exact Hfrb|by_compute|].
      eapply (id_taken_framed ctrBkt); [exact Hfra|by_compute|]. done.
Qed.

(** ** Adding a container: collisions *)

Lemma addContainer_register_collides ctr pod configJSON stateJSON netNSPath w :
  is_bkt (root w !! idRegistryBkt) → is_bkt (root w !! nameRegistryBkt) →
  id_taken (root w) ctr ∨ name_taken (root w) ctr →
  ∃ e, addContainer_register ctr pod configJSON stateJSON netNSPath
         (Some [idRegistryBkt]) (Some [nameRegistryBkt]) (Some [nsRegistryBkt])
         (Some [ctrBkt]) (Some [allCtrsBkt]) w = (Err e, w) ∧
       errors_Cause e = ErrCtrExists.
Proof.
  intros (mids & Hids & Hwids)%is_bkt_walk (mnames & Hnames & Hwnames)%is_bkt_walk Htaken.
  unfold addContainer_register.
  rewrite (mbind_Ret _ _ _ _ _ (bkt_Get_at _ _ _ _ Hwids)).
  destruct (node_value (mids !! ctr_ID ctr)) as [v|] eqn:Hid.
  { eexists. by split. }
  rewrite (mbind_Ret _ _ _ _ _ (bkt_Get_at _ _ _ _ Hwnames)).
  destruct (node_value (mnames !! ctr_Name ctr)) as [v|] eqn:Hname.
  { eexists. by split. }
  exfalso. destruct Htaken as [(m & v & Hm & Hv)|(m & v & Hm & Hv)].
  - rewrite Hids in Hm. injection Hm as <-. by rewrite Hv in Hid.
  - rewrite Hnames in Hm. injection Hm as <-. by rewrite Hv in Hname.
Qed.

Lemma addContainer_tx_collides ctr pod configJSON stateJSON netNSPath deps w :
  registries_exist (root w) → pod_ready (root w) ctr pod →
  id_taken (root w) ctr ∨ name_taken (root w) ctr →
  ∃ e, addContainer_tx ctr pod configJSON stateJSON netNSPath deps w = (Err e, w) ∧
       errors_Cause e = ErrCtrExists.
Proof.
  intros (Hids & Hnames & Hns & Hctr & Hall & Hvol) Hready Htaken.
  destruct (addContainer_register_collides ctr pod configJSON stateJSON netNSPath w
              Hids Hnames Htaken) as (e & Hreg & Hcause).
  exists e. split; [|done].
  destruct Hids as [? Hids], Hnames as [? Hnames], Hns as [? Hns], Hctr as [? Hctr],
    Hall as [? Hall], Hvol as [? Hvol].
  unfold addContainer_tx. apply mbind_Err.
  unfold addContainer_open, getIDBucket, getNamesBucket, getNSBucket, getCtrBucket,
    getAllCtrsBucket, getVolBucket.
  rewrite (mbind_Ret _ _ _ _ _ (required_bucket_found _ _ _ _ Hids)).
  rewrite (mbind_Ret _ _ _ _ _ (required_bucket_found _ _ _ _ Hnames)).
  rewrite (mbind_Ret _ _ _ _ _ (required_bucket_found _ _ _ _ Hns)).
  rewrite (mbind_Ret _ _ _ _ _ (required_bucket_found _ _ _ _ Hctr)).
  rewrite (mbind_Ret _ _ _ _ _ (required_bucket_found _ _ _ _ Hall)).
  rewrite (mbind_Ret _ _ _ _ _ (required_bucket_found _ _ _ _ Hvol)).
  rewrite (mbind_Ret _ _ _ _ _ (addContainer_pod_ready _ _ _ Hready)).
  by apply mbind_Err.
Qed.

(** An add that returns went through its transaction. *)
Lemma addContainer_Ret_inv E s ctr pod w w1 :
  addContainer E s ctr pod w = (Ret tt, w1) →
  ∃ configJSON stateJSON,
    prepared E s ctr configJSON stateJSON ∧
    addContainer_tx ctr pod configJSON stateJSON (getNetNSPath E ctr)
      (ctr_Dependencies E ctr) w = (Ret tt, w1).
Proof.
  unfold addContainer, getDBCon.
  destruct (bool_decide (namespace s ≠ EmptyString) &&
            bool_decide (namespace s ≠ ctr_Namespace ctr)) eqn:Hns; [done|].
  destruct (json_Marshal_config E (ctr_config ctr)) as [|configJSON] eqn:Hc; [done|].
  destruct (json_Marshal_state E (ctr_state ctr)) as [|stateJSON] eqn:Hs; [done|].
  destruct (bolt_Open E (dbPath s)) as [|] eqn:Ho; [done|].
  rewrite (mbind_Ret _ _ _ tt w) by done.
  unfold db_Update.
  destruct (addContainer_tx _ _ _ _ _ _ w) as [[[]|?|] w'] eqn:Htx; try done.
  intros [= <-]. exists configJSON, stateJSON. split; [|done].
  split; [|done].
  apply andb_false_iff in Hns as [Hns|Hns]; apply bool_decide_eq_false in Hns.
  - left. by apply dec_stable.
  - right. by apply dec_stable.
Qed.

(** A failed add leaves the store as it was. *)
Lemma addContainer_rollback E s ctr pod w o w' :
  addContainer E s ctr pod w = (o, w') → o ≠ Ret tt → root w' = root w.
Proof.
  unfold addContainer, getDBCon.
  destruct (_ && _); [by intros [= <- <-]|].
  destruct (json_Marshal_config E (ctr_config ctr)); [by intros [= <- <-]|].
  destruct (json_Marshal_state E (ctr_state ctr)); [by intros [= <- <-]|].
  destruct (bolt_Open E (dbPath s)); [by intros [= <- <-]|].
  rewrite (mbind_Ret _ _ _ tt w) by done.
  unfold db_Update.
  destruct (addContainer_tx _ _ _ _ _ _ w) as [[[]|?|] w2]; by intros [= <- <-].
Qed.

(** C3: an add whose ID is in [id-registry], or whose name is in
    [name-registry], fails with [ErrCtrExists] and leaves the world as it
    was; adding a container a second time, after a first add that
    succeeded, fails so and keeps the state the first add left; and
    whatever makes an add fail, the store is as before. *)
Theorem addContainer_already_exists (E : Externals) (s : BoltState) (ctr : Container)
    (pod : option Pod) (w : World) :
  (∀ configJSON stateJSON,
     prepared E s ctr configJSON stateJSON →
     registries_exist (root w) → pod_ready (root w) ctr pod →
     id_taken (root w) ctr ∨ name_taken (root w) ctr →
     ∃ e, addContainer E s ctr pod w = (Err e, w) ∧ errors_Cause e = ErrCtrExists) ∧
  (∀ w1, addContainer E s ctr pod w = (Ret tt, w1) →
         ∃ e, addContainer E s ctr pod w1 = (Err e, w1) ∧ errors_Cause e = ErrCtrExists) ∧
  (∀ o w', addContainer E s ctr pod w = (o, w') → o ≠ Ret tt → root w' = root w).
Proof.
  assert (∀ w0 configJSON stateJSON,
     prepared E s ctr configJSON stateJSON →
     registries_exist (root w0) → pod_ready (root w0) ctr pod →
     id_taken (root w0) ctr ∨ name_taken (root w0) ctr →
     ∃ e, addContainer E s ctr pod w0 = (Err e, w0) ∧ errors_Cause e = ErrCtrExists)
    as Hcollide.
  { intros w0 configJSON stateJSON Hprep Hreg Hready Htaken.
    destruct (addContainer_tx_collides ctr pod configJSON stateJSON (getNetNSPath E ctr)
                (ctr_Dependencies E ctr) w0 Hreg Hready Htaken) as (e & Htx & Hcause).
    exists e. split; [|done].
    rewrite (addContainer_prepared _ _ _ _ _ _ _ Hprep). unfold db_Update.
    rewrite Htx. by destruct w0. }
  split; [apply Hcollide|]. split; [|apply addContainer_rollback].
  intros w1 (configJSON & stateJSON & Hprep & Htx)%addContainer_Ret_inv.
  destruct (addContainer_tx_wp _ _ _ _ _ _ _ _ _ Htx) as [_ Hpost].
  destruct (Hpost eq_refl) as (Hreg & Hready & Hid).
  eapply Hcollide; eauto.
Qed.

Lemma addContainer_already_exists_witness :
  let ctr := Sample.container "c1" "web" EmptyString ["V"] in
  let pod := Some (Sample.pod "p1" "db" EmptyString) in
  let w := Sample.world (Sample.withPod "p1" (Sample.podRecord None ∅)
             (Sample.withVolume "V" (Sample.volumeRecord ∅) Sample.emptyDB)) in
  ∃ w1 e, addContainer Sample.E (Sample.s EmptyString) ctr pod w = (Ret tt, w1) ∧
          addContainer Sample.E (Sample.s EmptyString) ctr pod w1 = (Err e, w1) ∧
          errors_Cause e = ErrCtrExists.
Proof.
  intros ctr pod w.
  exists (addContainer Sample.E (Sample.s EmptyString) ctr pod w).2.
  assert (addContainer Sample.E (Sample.s EmptyString) ctr pod w =
          (Ret tt, (addContainer Sample.E (Sample.s EmptyString) ctr pod w).2)) as Hfirst
    by (vm_compute; reflexivity).
  destruct (addContainer_already_exists Sample.E (Sample.s EmptyString) ctr pod w)
    as (_ & Hsecond & _).
  destruct (Hsecond _ Hfirst) as (e & Hrun & Hcause).
  exists e. auto.
Defined.

(** ** Removing a container: the steps *)

Lemma sorted_keys_elem (m : bucket) d : d ∈ sorted_keys m ↔ is_Some (m !! d).
Proof.
  unfold sorted_keys. rewrite merge_sort_Permutation, list_elem_of_fmap. split.
  - intros ([k n] & -> & Hin). apply elem_of_map_to_list in Hin. by eexists.
  - intros [n Hn]. exists (d, n). split; [done|]. by apply elem_of_map_to_list.
Qed.

Lemma sorted_keys_nil (m : bucket) : sorted_keys m = [] → m = ∅.
Proof.
  intros Hnil. apply map_empty. intros d.
  destruct (m !! d) as [n|] eqn:Hd; [|done].
  assert (d ∈ sorted_keys m) as Hin by (apply sorted_keys_elem; by eexists).
  rewrite Hnil in Hin. by apply elem_of_nil in Hin.
Qed.

(** The closure [removeContainer] passes to [ForEach] collects the keys. *)
Lemma for_fold_collect (m : bucket) (ks acc : list string) w :
  for_fold ks (λ k, (λ (id : string) (value : option string) (deps : list string),
                        mret (deps ++ [id])) k (node_value (m !! k))) acc w
  = (Ret (acc ++ ks), w).
Proof.
  revert acc. induction ks as [|k ks IH]; intros acc; cbn [for_fold].
  - by rewrite app_nil_r.
  - rewrite (mbind_Ret _ _ _ (acc ++ [k]) w) by done.
    by rewrite IH, <- app_assoc.
Qed.

Lemma bkt_ForEach_collect p w m :
  walk p (root w) = Some m →
  bkt_ForEach (Some p) (λ id value deps, mret (deps ++ [id])) [] w
  = (Ret (sorted_keys m), w).
Proof.
  intros Hp. unfold bkt_ForEach, with_bkt. rewrite Hp.
  apply (for_fold_collect m (sorted_keys m) []).
Qed.

Lemma bkt_Delete_at p k w m :
  walk p (root w) = Some m → ¬ is_bkt (m !! k) →
  bkt_Delete (Some p) k w = (Ret tt, set_root (wr p (delete k)) w).
Proof.
  intros Hp Hn. unfold bkt_Delete, with_bkt. rewrite Hp.
  destruct (m !! k) as [[|b]|] eqn:Hk; try done. destruct Hn. by eexists.
Qed.

(** Deleting a key for which [Get] answers nil changes nothing. *)
Lemma bkt_Delete_absent p k w m :
  walk p (root w) = Some m → node_value (m !! k) = None →
  ∃ o, bkt_Delete (Some p) k w = (o, w) ∧ o ≠ Panic.
Proof.
  intros Hp Hk. unfold bkt_Delete, with_bkt. rewrite Hp.
  destruct (m !! k) as [[|b]|] eqn:Hmk; try done.
  - eexists. by split.
  - exists (Ret tt). split; [|done]. unfold modify_root, set_root. destruct w as [r t].
    cbn [root trace] in *. f_equal. f_equal. eapply wr_id; [exact Hp|].
    by apply delete_id.
Qed.

(** A step confined to one bucket of [K] extends a frame confined to [K]. *)
Lemma confined_step K k w0 w w' :
  k ∈ K → confined K w0 w → confined [k] w w' → confined K w0 w'.
Proof.
  intros Hk Hc Hc'. eapply confined_trans; [exact Hc|]. eapply confined_mono; [|exact Hc'].
  intros x Hx. apply elem_of_cons in Hx as [->|Hx]; [done|by apply elem_of_nil in Hx].
Qed.

Lemma confined_valid K w w' k :
  confined K w w' → is_bkt (root w !! k) → is_Some (walk [k] (root w')).
Proof. intros [_ H] Hk. by apply is_bkt_valid, H. Qed.

Lemma removeContainer_pod_wp pod w :
  wp (removeContainer_pod pod) w
     (λ o w', o ≠ Panic ∧ root w' = root w ∧
              ∀ podDB, o = Ret podDB →
                match pod with
                | None => podDB = None
                | Some pod => podDB = Some [podBkt; pod_ID pod] ∧
                              is_Some (walk [podBkt; pod_ID pod] (root w))
                end).
Proof.
  unfold removeContainer_pod. destruct pod as [pod|].
  2:{ apply wp_ret. split; [done|]. split; [done|]. by intros ? [= <-]. }
  unfold getPodBucket. apply wp_bind, wp_required_bucket;
    [|split; [done|]; split; [done|]; by intros ? [=]].
  intros (mpod & Hpod & Hwpod)%is_bkt_walk.
  apply wp_bind. eapply wp_Bucket; [exact Hwpod|].
  destruct (sub_handle [podBkt] mpod (pod_ID pod)) as [podDB|] eqn:HpodDB.
  2:{ apply wp_bind, wp_emit, wp_throw. split; [done|]. split; [done|]. by intros ? [=]. }
  apply sub_handle_inv in HpodDB as (-> & mp & Hmp).
  apply wp_ret. split; [done|]. split; [done|]. intros ? [= <-]. split; [done|].
  change [podBkt; pod_ID pod] with ([podBkt] ++ [pod_ID pod]).
  rewrite walk_snoc, Hwpod, Hmp. by eexists.
Qed.

Lemma removeContainer_namespace_wp s ctr pod w :
  wp (removeContainer_namespace s ctr pod) w (λ o w', o ≠ Panic ∧ w' = w).
Proof.
  unfold removeContainer_namespace.
  repeat first [ apply wp_ret | apply wp_throw | done
               | match goal with
                 | |- wp (if ?b then _ else _) _ _ => destruct b
                 | |- wp (match ?x with _ => _ end) _ _ => destruct x
                 end ].
Qed.

Lemma removeContainer_unlink_wp ctr pod podDB w :
  match pod with
  | None => podDB = None
  | Some pod => podDB = Some [podBkt; pod_ID pod] ∧
                is_Some (walk [podBkt; pod_ID pod] (root w))
  end →
  wp (removeContainer_unlink ctr pod podDB) w (λ o w', o ≠ Panic ∧ confined [podBkt] w w').
Proof.
  unfold removeContainer_unlink. destruct pod as [pod|].
  2:{ intros ->. apply wp_ret. split; [done|apply confined_refl]. }
  intros [-> [mp Hmp]].
  apply wp_bind. eapply wp_Bucket; [exact Hmp|].
  destruct (sub_handle _ mp containersBkt) as [podCtrs|] eqn:Hctrs.
  2:{ apply wp_emit. split; [done|apply confined_trace]. }
  apply sub_handle_inv in Hctrs as (-> & mc & Hmc).
  assert (walk ([podBkt; pod_ID pod] ++ [containersBkt]) (root w) = Some mc) as Hwc
    by (by rewrite walk_snoc, Hmp, Hmc).
  apply wp_bind. eapply wp_Get; [exact Hwc|].
  destruct (node_value (mc !! ctr_ID ctr)).
  2:{ apply wp_throw. split; [done|apply confined_refl]. }
  cbn [app] in Hwc |- *. eapply wp_mono; [apply wrapf_Delete_kept; by rewrite Hwc|].
  intros o w' [Hnp [Hc _]]. by split.
Qed.

Lemma removeContainer_dependency_wp ctr D w :
  is_bkt (root w !! ctrBkt) →
  wp (removeContainer_dependency ctr (Some [ctrBkt]) D) w
     (λ o w', o ≠ Panic ∧ confined [ctrBkt] w w').
Proof.
  intros (mb & Hmb & Hw)%is_bkt_walk. unfold removeContainer_dependency.
  apply wp_bind. eapply wp_Bucket; [exact Hw|].
  destruct (sub_handle [ctrBkt] mb D) as [depCtrBkt|] eqn:HD.
  2:{ apply wp_ret. split; [done|apply confined_refl]. }
  apply sub_handle_inv in HD as (-> & mD & HmD).
  assert (walk ([ctrBkt] ++ [D]) (root w) = Some mD) as HwD
    by (by rewrite walk_snoc, Hw, HmD).
  apply wp_bind. eapply wp_Bucket; [exact HwD|].
  destruct (sub_handle _ mD dependenciesBkt) as [depCtrDependsBkt|] eqn:Hdeps.
  2:{ apply wp_emit. split; [done|apply confined_trace]. }
  apply sub_handle_inv in Hdeps as (-> & md & Hmd).
  assert (walk (([ctrBkt] ++ [D]) ++ [dependenciesBkt]) (root w) = Some md) as Hwd
    by (by rewrite walk_snoc, HwD, Hmd).
  cbn [app] in Hwd |- *. eapply wp_mono; [apply wrapf_Delete_kept; by rewrite Hwd|].
  intros o w' [Hnp [Hc _]]. by split.
Qed.

Lemma removeContainer_dependencies_wp ctr deps w :
  is_bkt (root w !! ctrBkt) →
  wp (for_range deps (removeContainer_dependency ctr (Some [ctrBkt]))) w
     (λ o w', o ≠ Panic ∧ confined [ctrBkt] w w').
Proof.
  intros Hctr. eapply wp_mono.
  { apply (wp_for_range (λ w1, is_bkt (root w1 !! ctrBkt)) (confined [ctrBkt])
             (λ o, o ≠ Panic)); [apply confined_refl|apply confined_trans|done| |exact Hctr].
    intros D w1 _ H1. eapply wp_mono; [by apply removeContainer_dependency_wp|].
    intros o w2 [Hnp Hc]. split; [done|]. split; [|done].
    intros _. by apply Hc. }
  intros o w' (Hc & _ & Hnp). by split.
Qed.

(** The turn of the volume loop of [removeContainer] never changes the
    world: it deletes only where [Get] answered nil. *)
Lemma removeContainer_volume_wp ctr vol w :
  is_bkt (root w !! volBkt) →
  wp (removeContainer_volume ctr (Some [volBkt]) vol) w
     (λ o w', w' = w ∧ (vol_ok (root w) → o ≠ Panic)).
Proof.
  intros (mv & Hmv & Hw)%is_bkt_walk. unfold removeContainer_volume.
  apply wp_bind. eapply wp_Bucket; [exact Hw|].
  destruct (sub_handle [volBkt] mv (vol_Name vol)) as [volDB|] eqn:HvolDB.
  2:{ by apply wp_ret. }
  apply sub_handle_inv in HvolDB as (-> & mV & HmV).
  assert (walk ([volBkt] ++ [vol_Name vol]) (root w) = Some mV) as HwV
    by (by rewrite walk_snoc, Hw, HmV).
  apply wp_bind. eapply wp_Bucket; [exact HwV|].
  destruct (sub_handle _ mV volDependenciesBkt) as [ctrDepsBkt|] eqn:Hdeps.
  2:{ apply wp_bind, wp_Get_nil. split; [done|].
      intros Hok. destruct (Hok _ _ _ Hmv HmV) as [md Hmd].
      unfold sub_handle in Hdeps. by rewrite Hmd in Hdeps. }
  apply sub_handle_inv in Hdeps as (-> & md & Hmd).
  assert (walk (([volBkt] ++ [vol_Name vol]) ++ [volDependenciesBkt]) (root w) = Some md)
    as Hwd by (by rewrite walk_snoc, HwV, Hmd).
  apply wp_bind. eapply wp_Get; [exact Hwd|].
  destruct (node_value (md !! ctr_ID ctr)) eqn:Hget.
  { by apply wp_ret. }
  apply wp_wrapf. intros o w' Hdel.
  destruct (bkt_Delete_absent _ _ _ _ Hwd Hget) as (o0 & H0 & Hnp).
  rewrite H0 in Hdel. injection Hdel as <- <-. split; [done|]. intros _. by destruct o0.
Qed.

Lemma removeContainer_volumes_wp ctr vols w :
  is_bkt (root w !! volBkt) →
  wp (for_range vols (removeContainer_volume ctr (Some [volBkt]))) w
     (λ o w', w' = w ∧ (vol_ok (root w) → o ≠ Panic)).
Proof.
  intros Hvol. eapply wp_mono.
  { apply (wp_for_range (λ w1, w1 = w) (λ w1 w2, w2 = w1) (λ o, vol_ok (root w) → o ≠ Panic));
      [done|congruence|done| |done].
    intros v w1 _ ->. eapply wp_mono; [by apply removeContainer_volume_wp|].
    intros o w2 [-> Hnp]. split; [done|]. split; [done|]. intros _. exact Hnp. }
  intros o w' (-> & _ & Hnp). by split.
Qed.

Lemma wrapf_Delete_confined k p key format args w :
  is_Some (walk (k :: p) (root w)) →
  wp (wrapf (bkt_Delete (Some (k :: p)) key) format args) w
     (λ o w', o ≠ Panic ∧ confined [k] w w').
Proof.
  intros Hv. eapply wp_mono; [by apply wrapf_Delete_kept|].
  intros o w' [Hnp [Hc _]]. by split.
Qed.

Lemma confined_root K w w' : root w' = root w → confined K w w'.
Proof. intros Heq. split; intros k; by rewrite Heq. Qed.

Lemma removed_Err ctr w e w' : confined removeKeys w w' → removed ctr w (Err e) w'.
Proof. intros Hc. split; [done|]. split; [done|]. by intros md _ _. Qed.

(** One step of the removal: the frame so far is moved to the world
    after the step. *)
Ltac rm_step k Hc :=
  let o := fresh "o" in
  let w1 := fresh "w" in
  let Hnp := fresh "Hnp" in
  let Hstep := fresh "Hstep" in
  let Hc' := fresh "Hc" in
  intros o w1 [Hnp Hstep];
  pose proof (confined_step removeKeys k _ _ _ ltac:(in_names) Hc Hstep) as Hc';
  clear Hc Hstep; rename Hc' into Hc;
  destruct o as [?|?|]; [clear Hnp|by apply removed_Err|done].

Lemma removeContainer_wp E s ctr pod w :
  wp (removeContainer E s ctr pod) w (removed ctr w).
Proof.
  unfold removeContainer, getIDBucket, getNamesBucket, getNSBucket, getCtrBucket,
    getAllCtrsBucket, getVolBucket.
  apply wp_bind, wp_required_bucket; [intros Hids|apply removed_Err, confined_refl].
  apply wp_bind, wp_required_bucket; [intros Hnames|apply removed_Err, confined_refl].
  apply wp_bind, wp_required_bucket; [intros Hctr|apply removed_Err, confined_refl].
  apply wp_bind, wp_required_bucket; [intros Hns|apply removed_Err, confined_refl].
  apply wp_bind, wp_required_bucket; [intros Hall|apply removed_Err, confined_refl].
  apply wp_bind, wp_required_bucket; [intros Hvol|apply removed_Err, confined_refl].
  (* the pod *)
  apply wp_bind. eapply wp_mono; [apply removeContainer_pod_wp|].
  intros o w1 (Hnp & Hroot & HpodDB).
  pose proof (confined_root removeKeys _ _ Hroot) as Hc.
  destruct o as [podDB|e|]; [|by apply removed_Err|done].
  specialize (HpodDB _ eq_refl). clear Hnp.
  (* the container *)
  destruct (is_bkt_walk _ _ Hctr) as (mb & Hmb & Hwb).
  apply wp_bind. eapply wp_Bucket; [by rewrite Hroot|].
  destruct (sub_handle [ctrBkt] mb (ctr_ID ctr)) as [ctrExists|] eqn:Hexists.
  2:{ apply wp_bind, wp_emit, wp_throw, removed_Err.
      eapply confined_trans; [exact Hc|apply confined_trace]. }
  apply sub_handle_inv in Hexists as (-> & mA & HmA).
  assert (walk [ctrBkt; ctr_ID ctr] (root w) = Some mA) as HwA.
  { change [ctrBkt; ctr_ID ctr] with ([ctrBkt] ++ [ctr_ID ctr]).
    by rewrite walk_snoc, Hwb, HmA. }
  (* the namespace *)
  apply wp_bind. eapply wp_mono; [apply removeContainer_namespace_wp|].
  intros o w2 [Hnp ->]. destruct o as [[]|e|]; [|by apply removed_Err|done]. clear Hnp.
  (* out of the pod *)
  apply wp_bind. eapply wp_mono.
  { apply removeContainer_unlink_wp. destruct pod; [|done]. by rewrite Hroot. }
  intros o w3 [Hnp Hunlink].
  assert (walk [ctrBkt; ctr_ID ctr] (root w3) = Some mA) as HwA3.
  { rewrite (confined_walk _ _ _ _ _ Hunlink) by by_compute.
    cbn [walk] in HwA |- *. by rewrite Hroot. }
  pose proof (confined_step removeKeys podBkt _ _ _ ltac:(in_names) Hc Hunlink) as Hc3.
  clear Hc Hunlink. destruct o as [[]|e|]; [|by apply removed_Err|done]. clear Hnp.
  (* the dependents *)
  cbn [app]. apply wp_bind. eapply wp_Bucket; [exact HwA3|].
  destruct (sub_handle _ mA dependenciesBkt) as [ctrDepsBkt|] eqn:Hdeps.
  2:{ by apply wp_throw, removed_Err. }
  apply sub_handle_inv in Hdeps as (-> & md & Hmd).
  assert (walk ([ctrBkt; ctr_ID ctr] ++ [dependenciesBkt]) (root w3) = Some md) as Hwd3
    by (by rewrite walk_snoc, HwA3, Hmd).
  assert (walk [ctrBkt; ctr_ID ctr; dependenciesBkt] (root w) = Some md) as Hwd.
  { change [ctrBkt; ctr_ID ctr; dependenciesBkt]
      with ([ctrBkt; ctr_ID ctr] ++ [dependenciesBkt]).
    by rewrite walk_snoc, HwA, Hmd. }
  apply wp_bind. intros o w4 Hforeach.
  rewrite (bkt_ForEach_collect _ _ _ Hwd3) in Hforeach. injection Hforeach as <- <-.
  case_bool_decide as Hlen.
  { by apply wp_throw, removed_Err. }
  assert (md = ∅) as ->.
  { apply sorted_keys_nil. by destruct (sorted_keys md). }
  assert (∀ o : outcome unit, ∀ md', walk [ctrBkt; ctr_ID ctr; dependenciesBkt] (root w) =
            Some md' → md' ≠ ∅ → o ≠ Ret tt) as Hnone.
  { intros o md' Hmd'. rewrite Hwd in Hmd'. by injection Hmd' as <-. }
  clear Hwd Hwd3 HwA3 HwA Hlen Hmd.
  (* the bucket and the registries *)
  apply wp_bind, wp_or_else. intros o w5 Hdel.
  apply bkt_DeleteBucket_frame in Hdel as [Hnp Hstep];
    [|by eapply confined_valid].
  pose proof (confined_step removeKeys ctrBkt _ _ _ ltac:(in_names) Hc3 Hstep) as Hc.
  clear Hc3 Hstep. destruct o as [[]|e|]; [|by apply removed_Err|done]. clear Hnp.
  apply wp_bind. eapply wp_mono;
    [apply wrapf_Delete_confined; by eapply confined_valid|].
  rm_step idRegistryBkt Hc.
  apply wp_bind. eapply wp_mono;
    [apply wrapf_Delete_confined; by eapply confined_valid|].
  rm_step nameRegistryBkt Hc.
  apply wp_bind. eapply wp_mono;
    [apply wrapf_Delete_confined; by eapply confined_valid|].
  rm_step nsRegistryBkt Hc.
  apply wp_bind. eapply wp_mono;
    [apply wrapf_Delete_confined; by eapply confined_valid|].
  rm_step allCtrsBkt Hc.
  (* the dependencies and the volumes *)
  apply wp_bind. eapply wp_mono;
    [apply removeContainer_dependencies_wp; by apply Hc|].
  rm_step ctrBkt Hc.
  eapply wp_mono; [apply removeContainer_volumes_wp; by apply Hc|].
  intros o w' [-> Hnp]. split; [done|]. split; [|apply Hnone].
  intros Hok. apply Hnp. eapply vol_ok_ext; [|exact Hok].
  apply Hc. by_compute.
Qed.

(** ** Removing a container: dependents and volumes *)

(** Nothing under [vol] changes in a removal, however it ends. *)
Lemma removeContainer_keeps_vol E s ctr pod w o w' :
  removeContainer E s ctr pod w = (o, w') → root w' !! volBkt = root w !! volBkt.
Proof.
  intros H. destruct (removeContainer_wp E s ctr pod w _ _ H) as [[Hc _] _].
  apply Hc. by_compute.
Qed.

(** C1 fails on the code.  Container ["C"] is added with named volume
    ["V"]: the [vol-dependencies] bucket of ["V"] holds ["C"].  The
    removal of ["C"] succeeds, and the bucket still holds ["C"]: the
    guard of the volume loop deletes only when [Get] answers nil. *)
Theorem removeContainer_leaves_volume_reference :
  let ctr := Sample.container "C" "c" EmptyString ["V"] in
  let w0 := Sample.world (Sample.withVolume "V" (Sample.volumeRecord ∅) Sample.emptyDB) in
  let w := (addContainer Sample.E (Sample.s EmptyString) ctr None w0).2 in
  let w' := (RemoveContainer Sample.E (Sample.s EmptyString) ctr None w).2 in
  addContainer Sample.E (Sample.s EmptyString) ctr None w0 = (Ret tt, w) ∧
  walk [volBkt; "V"; volDependenciesBkt] (root w) = Some {[ "C" := Val "C" ]} ∧
  RemoveContainer Sample.E (Sample.s EmptyString) ctr None w = (Ret tt, w') ∧
  walk [ctrBkt; "C"] (root w') = None ∧
  walk [volBkt; "V"; volDependenciesBkt] (root w') = Some {[ "C" := Val "C" ]}.
Proof. vm_compute. repeat split; reflexivity. Qed.

Lemma removeContainer_pod_ready ctr pod w :
  unlink_ready (root w) ctr pod →
  removeContainer_pod pod w =
    (Ret match pod with Some pod => Some [podBkt; pod_ID pod] | None => None end, w).
Proof.
  unfold removeContainer_pod, unlink_ready. destruct pod as [pod|]; [|done].
  intros (mp & Hwmp & _). cbn [walk] in Hwmp.
  destruct (root w !! podBkt) as [[|mpod]|] eqn:Hpod; try done.
  destruct (mpod !! pod_ID pod) as [[|mp']|] eqn:Hmp; try done.
  unfold getPodBucket.
  rewrite (mbind_Ret _ _ _ _ _ (required_bucket_found _ _ _ _ Hpod)).
  assert (walk [podBkt] (root w) = Some mpod) as Hwpod by (by rewrite walk_top, Hpod).
  rewrite (mbind_Ret _ _ _ _ _ (bkt_Bucket_at _ _ _ _ Hwpod)).
  by rewrite (sub_handle_Some _ _ _ _ Hmp).
Qed.

Lemma removeContainer_namespace_ok s ctr pod w :
  namespace_ok s ctr pod → removeContainer_namespace s ctr pod w = (Ret tt, w).
Proof.
  unfold removeContainer_namespace. intros [Hns|[Hctr Hpod]].
  - by rewrite (bool_decide_eq_false_2 (namespace s ≠ EmptyString)) by auto.
  - destruct (bool_decide (namespace s ≠ EmptyString)); [|done].
    rewrite (bool_decide_eq_false_2 (namespace s ≠ ctr_Namespace ctr)) by auto.
    destruct pod as [pod|]; [|done].
    by rewrite (bool_decide_eq_false_2 (namespace s ≠ _)) by auto.
Qed.

Lemma removeContainer_unlink_ready ctr pod w :
  unlink_ready (root w) ctr pod →
  ∃ w', removeContainer_unlink ctr pod
          match pod with Some pod => Some [podBkt; pod_ID pod] | None => None end w
        = (Ret tt, w') ∧ confined [podBkt] w w'.
Proof.
  unfold removeContainer_unlink, unlink_ready. destruct pod as [pod|].
  2:{ intros _. exists w. split; [done|apply confined_refl]. }
  intros (mp & Hwmp & Hctrs).
  rewrite (mbind_Ret _ _ _ _ _ (bkt_Bucket_at _ _ _ _ Hwmp)).
  destruct Hctrs as [Hnone|(mc & v & Hmc & Hv)].
  - rewrite (sub_handle_None _ _ _ Hnone). eexists. split; [done|apply confined_trace].
  - rewrite (sub_handle_Some _ _ _ _ Hmc).
    assert (walk ([podBkt; pod_ID pod] ++ [containersBkt]) (root w) = Some mc) as Hwc
      by (by rewrite walk_snoc, Hwmp, Hmc).
    rewrite (mbind_Ret _ _ _ _ _ (bkt_Get_at _ (ctr_ID ctr) _ _ Hwc)), Hv.
    cbn [node_value].
    eexists. split.
    + apply wrapf_Ret. eapply bkt_Delete_at; [exact Hwc|]. rewrite Hv. by intros [? [=]].
    + apply confined_write.
Qed.

(** The removal of a container with dependents, when it gets to the
    check: the error lists the keys of its [dependencies] bucket, and
    only the [pod] bucket may have changed in the transaction. *)
Lemma removeContainer_referenced E s ctr pod w mA md :
  registries_exist (root w) → unlink_ready (root w) ctr pod → namespace_ok s ctr pod →
  walk [ctrBkt; ctr_ID ctr] (root w) = Some mA →
  mA !! dependenciesBkt = Some (Bkt md) → md ≠ ∅ →
  ∃ w', removeContainer E s ctr pod w =
          (Err (errors_Wrapf ErrCtrExists
                  "container %s is a dependency of the following containers: %s"
                  [ctr_ID ctr; strings_Join (sorted_keys md) ", "]), w') ∧
        confined [podBkt] w w'.
Proof.
  intros (Hids & Hnames & Hns & Hctr & Hall & Hvol) Hready Hnsok HwA Hmd Hne.
  destruct Hids as [? Hids], Hnames as [? Hnames], Hns as [? Hns], Hctr as [mb Hctr],
    Hall as [? Hall], Hvol as [? Hvol].
  destruct (removeContainer_unlink_ready ctr pod w Hready) as (w' & Hunlink & Hc).
  exists w'. split; [|done].
  unfold removeContainer, getIDBucket, getNamesBucket, getNSBucket, getCtrBucket,
    getAllCtrsBucket, getVolBucket.
  rewrite (mbind_Ret _ _ _ _ _ (required_bucket_found _ _ _ _ Hids)).
  rewrite (mbind_Ret _ _ _ _ _ (required_bucket_found _ _ _ _ Hnames)).
  rewrite (mbind_Ret _ _ _ _ _ (required_bucket_found _ _ _ _ Hctr)).
  rewrite (mbind_Ret _ _ _ _ _ (required_bucket_found _ _ _ _ Hns)).
  rewrite (mbind_Ret _ _ _ _ _ (required_bucket_found _ _ _ _ Hall)).
  rewrite (mbind_Ret _ _ _ _ _ (required_bucket_found _ _ _ _ Hvol)).
  rewrite (mbind_Ret _ _ _ _ _ (removeContainer_pod_ready ctr _ _ Hready)).
  assert (walk [ctrBkt] (root w) = Some mb) as Hwb by (by rewrite walk_top, Hctr).
  assert (mb !! ctr_ID ctr = Some (Bkt mA)) as HmA.
  { cbn [walk] in HwA. rewrite Hctr in HwA.
    destruct (mb !! ctr_ID ctr) as [[|mA']|]; try done. by injection HwA as ->. }
  rewrite (mbind_Ret _ _ _ _ _ (bkt_Bucket_at _ _ _ _ Hwb)).
  rewrite (sub_handle_Some _ _ _ _ HmA).
  rewrite (mbind_Ret _ _ _ _ _ (removeContainer_namespace_ok _ _ _ _ Hnsok)).
  rewrite (mbind_Ret _ _ _ _ _ Hunlink).
  assert (walk ([ctrBkt] ++ [ctr_ID ctr]) (root w') = Some mA) as HwA'.
  { cbn [app]. by rewrite (confined_walk _ _ _ _ _ Hc) by by_compute. }
  rewrite (mbind_Ret _ _ _ _ _ (bkt_Bucket_at _ _ _ _ HwA')).
  rewrite (sub_handle_Some _ _ _ _ Hmd).
  assert (walk (([ctrBkt] ++ [ctr_ID ctr]) ++ [dependenciesBkt]) (root w') = Some md)
    as Hwd by (by rewrite walk_snoc, HwA', Hmd).
  rewrite (mbind_Ret _ _ _ _ _ (bkt_ForEach_collect _ _ _ Hwd)).
  rewrite bool_decide_eq_true_2; [done|].
  intros Hlen. apply Hne, sorted_keys_nil. by destruct (sorted_keys md).
Qed.

(** C2: a container whose [dependencies] bucket is not empty is never
    removed, and the store after the attempt is the store before it;
    when the store is well formed and the container passes the checks on
    its pod and its namespace, the error is [ErrCtrExists] (the sentinel
    of the still-referenced kind) and lists the keys of that bucket, which
    are the dependents. *)
Theorem removeContainer_still_referenced (E : Externals) (s : BoltState)
    (ctr : Container) (pod : option Pod) (w : World) (mA md : bucket) :
  walk [ctrBkt; ctr_ID ctr] (root w) = Some mA →
  mA !! dependenciesBkt = Some (Bkt md) →
  md ≠ ∅ →
  (∀ o w', RemoveContainer E s ctr pod w = (o, w') → o ≠ Ret tt ∧ root w' = root w) ∧
  (registries_exist (root w) → unlink_ready (root w) ctr pod → namespace_ok s ctr pod →
   ∃ w', RemoveContainer E s ctr pod w =
           (Err (errors_Wrapf ErrCtrExists
                   "container %s is a dependency of the following containers: %s"
                   [ctr_ID ctr; strings_Join (sorted_keys md) ", "]), w') ∧
         root w' = root w) ∧
  (∀ d, d ∈ sorted_keys md ↔ is_Some (md !! d)).
Proof.
  intros HwA Hmd Hne. split; [|split; [|apply sorted_keys_elem]].
  - intros o w'. unfold RemoveContainer, db_Update.
    destruct (removeContainer E s ctr pod w) as [o1 w1] eqn:Hrun.
    destruct (removeContainer_wp E s ctr pod w _ _ Hrun) as (_ & _ & Hnever).
    assert (o1 ≠ Ret tt) as Ho1.
    { apply (Hnever md); [|done].
      change [ctrBkt; ctr_ID ctr; dependenciesBkt]
        with ([ctrBkt; ctr_ID ctr] ++ [dependenciesBkt]).
      by rewrite walk_snoc, HwA, Hmd. }
    destruct o1 as [[]|e|]; [done|..]; by intros [= <- <-].
  - intros Hreg Hready Hnsok.
    destruct (removeContainer_referenced E s ctr pod w mA md Hreg Hready Hnsok HwA Hmd Hne)
      as (w1 & Hrun & _).
    unfold RemoveContainer, db_Update. rewrite Hrun. by eexists.
Qed.

Lemma removeContainer_still_referenced_witness :
  let w := Sample.world
             (Sample.withCtr "A" (Sample.ctrRecord None None {[ "B" := Val "b" ]})
                Sample.emptyDB) in
  let ctr := Sample.container "A" "a" EmptyString [] in
  let md : bucket := {[ "B" := Val "b" ]} in
  (∀ o w', RemoveContainer Sample.E (Sample.s EmptyString) ctr None w = (o, w') →
           o ≠ Ret tt ∧ root w' = root w) ∧
  (registries_exist (root w) → unlink_ready (root w) ctr None →
   namespace_ok (Sample.s EmptyString) ctr None →
   ∃ w', RemoveContainer Sample.E (Sample.s EmptyString) ctr None w =
           (Err (errors_Wrapf ErrCtrExists
                   "container %s is a dependency of the following containers: %s"
                   [ctr_ID ctr; strings_Join (sorted_keys md) ", "]), w') ∧
         root w' = root w) ∧
  (∀ d, d ∈ sorted_keys md ↔ is_Some (md !! d)).
Proof.
  intros w ctr md.
  apply (removeContainer_still_referenced Sample.E (Sample.s EmptyString) ctr None w
           (<[configKey := Val "{}"]> (<[stateKey := Val "{}"]>
              (<[dependenciesBkt := Bkt md]> (∅ ∪ ∅)))) md).
  - vm_compute. reflexivity.
  - vm_compute. reflexivity.
  - intros Hempty. assert (md !! "B" = None) as Hnone by (by rewrite Hempty).
    vm_compute in Hnone. discriminate.
Defined.

(** ** The volume steps *)

Lemma addContainer_no_fault E s ctr pod w :
  vol_ok (root w) → (addContainer E s ctr pod w).1 ≠ Panic.
Proof.
  intros Hok. unfold addContainer, getDBCon.
  destruct (_ && _); [done|].
  destruct (json_Marshal_config E (ctr_config ctr)); [done|].
  destruct (json_Marshal_state E (ctr_state ctr)); [done|].
  destruct (bolt_Open E (dbPath s)); [done|].
  rewrite (mbind_Ret _ _ _ tt w) by done. unfold db_Update.
  destruct (addContainer_tx _ _ _ _ _ _ w) as [o w'] eqn:Htx.
  destruct (addContainer_tx_wp _ _ _ _ _ _ _ _ _ Htx) as [Hnp _].
  specialize (Hnp Hok). by destruct o.
Qed.

Lemma removeContainer_no_fault E s ctr pod w :
  vol_ok (root w) →
  (removeContainer E s ctr pod w).1 ≠ Panic ∧ (RemoveContainer E s ctr pod w).1 ≠ Panic.
Proof.
  intros Hok. unfold RemoveContainer, db_Update.
  destruct (removeContainer E s ctr pod w) as [o w'] eqn:Hrun.
  destruct (removeContainer_wp _ _ _ _ _ _ _ Hrun) as (_ & Hnp & _).
  specialize (Hnp Hok). by destruct o as [[]|?|].
Qed.

(** The two volume steps on a volume that has a bucket. *)
Lemma volume_step_present ctr p vol w mv mV :
  walk p (root w) = Some mv →
  mv !! vol_Name vol = Some (Bkt mV) →
  is_bkt (mV !! volDependenciesBkt) →
  (addContainer_volume ctr (Some p) vol w).1 ≠ Panic ∧
  (removeContainer_volume ctr (Some p) vol w).1 ≠ Panic.
Proof.
  intros Hp HmV [md Hmd].
  assert (walk (p ++ [vol_Name vol]) (root w) = Some mV) as HwV
    by (by rewrite walk_snoc, Hp, HmV).
  assert (walk ((p ++ [vol_Name vol]) ++ [volDependenciesBkt]) (root w) = Some md) as Hwd
    by (by rewrite walk_snoc, HwV, Hmd).
  unfold addContainer_volume, removeContainer_volume.
  rewrite !(mbind_Ret _ _ _ _ _ (bkt_Bucket_at _ _ _ _ Hp)).
  rewrite !(sub_handle_Some _ _ _ _ HmV).
  rewrite !(mbind_Ret _ _ _ _ _ (bkt_Bucket_at _ _ _ _ HwV)).
  rewrite !(sub_handle_Some _ _ _ _ Hmd).
  rewrite !(mbind_Ret _ _ _ _ _ (bkt_Get_at _ (ctr_ID ctr) _ _ Hwd)).
  destruct (node_value (md !! ctr_ID ctr)) eqn:Hget; [done|]. split.
  - unfold wrapf.
    destruct (bkt_Put_cases (Some ((p ++ [vol_Name vol]) ++ [volDependenciesBkt]))
                (ctr_ID ctr) (ctr_ID ctr) w)
      as [(o & -> & _ & Hpanic)|(? & ? & _ & _ & _ & ->)]; [|done].
    destruct o; try done. specialize (Hpanic eq_refl _ eq_refl). congruence.
  - unfold wrapf. destruct (bkt_Delete_absent _ _ _ _ Hwd Hget) as (o & -> & Hnp).
    by destruct o.
Qed.

Lemma volume_step_absent ctr p vol w mv mV :
  walk p (root w) = Some mv →
  mv !! vol_Name vol = Some (Bkt mV) →
  ¬ is_bkt (mV !! volDependenciesBkt) →
  addContainer_volume ctr (Some p) vol w = (Panic, w) ∧
  removeContainer_volume ctr (Some p) vol w = (Panic, w).
Proof.
  intros Hp HmV Hnone.
  assert (walk (p ++ [vol_Name vol]) (root w) = Some mV) as HwV
    by (by rewrite walk_snoc, Hp, HmV).
  unfold addContainer_volume, removeContainer_volume.
  rewrite !(mbind_Ret _ _ _ _ _ (bkt_Bucket_at _ _ _ _ Hp)).
  rewrite !(sub_handle_Some _ _ _ _ HmV).
  rewrite !(mbind_Ret _ _ _ _ _ (bkt_Bucket_at _ _ _ _ HwV)).
  by rewrite !(sub_handle_None _ _ _ Hnone).
Qed.

(** C10: the volume steps of [addContainer] and [removeContainer] use
    the [vol-dependencies] bucket of a volume without checking it for
    nil.  In a store where every bucket under [vol] has a
    [vol-dependencies] bucket, neither function faults; the step on a
    volume that has its bucket but no [vol-dependencies] bucket faults,
    leaving the transaction as it is, where an error would be returned;
    the step on a volume that has both does not fault. *)
Theorem volume_steps_unguarded (E : Externals) (s : BoltState) (ctr : Container)
    (pod : option Pod) (w : World) :
  (vol_ok (root w) →
   (addContainer E s ctr pod w).1 ≠ Panic ∧
   (removeContainer E s ctr pod w).1 ≠ Panic ∧
   (RemoveContainer E s ctr pod w).1 ≠ Panic) ∧
  (∀ p vol mv mV,
     walk p (root w) = Some mv →
     mv !! vol_Name vol = Some (Bkt mV) →
     (¬ is_bkt (mV !! volDependenciesBkt) →
      addContainer_volume ctr (Some p) vol w = (Panic, w) ∧
      removeContainer_volume ctr (Some p) vol w = (Panic, w)) ∧
     (is_bkt (mV !! volDependenciesBkt) →
      (addContainer_volume ctr (Some p) vol w).1 ≠ Panic ∧
      (removeContainer_volume ctr (Some p) vol w).1 ≠ Panic)).
Proof.
  split.
  - intros Hok. split; [by apply addContainer_no_fault|by apply removeContainer_no_fault].
  - intros p vol mv mV Hp HmV. split.
    + by apply (volume_step_absent ctr p vol w mv mV).
    + by apply (volume_step_present ctr p vol w mv mV).
Qed.

Lemma volume_steps_unguarded_witness :
  let ctr := Sample.container "C" "c" EmptyString ["V"] in
  let good := Sample.world (Sample.withVolume "V" (Sample.volumeRecord ∅) Sample.emptyDB) in
  let bad := Sample.world (Sample.withVolume "V" (Bkt {[ configKey := Val "{}" ]})
                             Sample.emptyDB) in
  let vol := {| vol_Name := "V"; vol_Dest := "/data" |} in
  ((addContainer Sample.E (Sample.s EmptyString) ctr None good).1 ≠ Panic ∧
   (removeContainer Sample.E (Sample.s EmptyString) ctr None good).1 ≠ Panic ∧
   (RemoveContainer Sample.E (Sample.s EmptyString) ctr None good).1 ≠ Panic) ∧
  (addContainer_volume ctr (Some [volBkt]) vol bad = (Panic, bad) ∧
   removeContainer_volume ctr (Some [volBkt]) vol bad = (Panic, bad)) ∧
  (addContainer Sample.E (Sample.s EmptyString) ctr None bad).1 = Panic.
Proof.
  intros ctr good bad vol. split; [|split].
  - apply (volume_steps_unguarded Sample.E (Sample.s EmptyString) ctr None good).
    intros mv v mV Hmv HmV.
    vm_compute in Hmv. injection Hmv as <-.
    destruct (decide (v = "V")) as [->|Hne].
    + vm_compute in HmV. injection HmV as <-. eexists. vm_compute. reflexivity.
    + exfalso. change (({[ "V" := Sample.volumeRecord ∅ ]} : bucket) !! v
                       = Some (Bkt mV)) in HmV.
      by rewrite lookup_singleton_ne in HmV.
  - refine (proj1 (proj2 (volume_steps_unguarded Sample.E (Sample.s EmptyString) ctr None bad)
                     [volBkt] vol {[ "V" := Bkt {[ configKey := Val "{}" ]} ]}
                     {[ configKey := Val "{}" ]} _ _) _).
    + vm_compute. reflexivity.
    + vm_compute. reflexivity.
    + intros [md Hmd]. vm_compute in Hmd. discriminate.
  - vm_compute. reflexivity.
Defined.

(** ** Runtime configuration: every run *)

Section config_runs.
Implicit Types (c : dbConfigValidation) (mc : bucket) (w : World).

Lemma readOnlyValidateConfig_unset p c w m :
  walk p (root w) = Some m → unset m c →
  readOnlyValidateConfig (Some p) c w = (Ret (false, None), w).
Proof.
  intros Hp Hk. unfold readOnlyValidateConfig, mbind, M_bind.
  rewrite (bkt_Get_at _ _ _ _ Hp). unfold unset in Hk. by rewrite Hk.
Qed.

(** The three ways the validation of one field goes. *)
Lemma readOnlyValidateConfig_status p c w m :
  walk p (root w) = Some m →
  (unset m c ∧ readOnlyValidateConfig (Some p) c w = (Ret (false, None), w)) ∨
  ((∃ v, m !! key c = Some (Val v) ∧ matches c v) ∧
   readOnlyValidateConfig (Some p) c w = (Ret (true, None), w)) ∨
  (mismatched m c ∧
   ∃ e, readOnlyValidateConfig (Some p) c w = (Ret (true, Some e), w) ∧
        errors_Cause e = ErrDBBadConfig).
Proof.
  intros Hp. destruct (m !! key c) as [[v|b]|] eqn:Hk.
  - destruct (decide (matches c v)) as [Hm|Hm].
    + right. left. split; [by eauto|].
      exact (readOnlyValidateConfig_stored _ _ _ _ _ Hp Hk Hm).
    + right. right. split; [by exists v|]. eexists. split.
      * exact (readOnlyValidateConfig_mismatch _ _ _ _ _ Hp Hk Hm).
      * done.
  - left. assert (unset m c) as Hu by (unfold unset; by rewrite Hk).
    split; [done|]. exact (readOnlyValidateConfig_unset _ _ _ _ Hp Hu).
  - left. assert (unset m c) as Hu by (unfold unset; by rewrite Hk).
    split; [done|]. exact (readOnlyValidateConfig_unset _ _ _ _ Hp Hu).
Qed.

Lemma unset_not_mismatched mc c : unset mc c → ¬ mismatched mc c.
Proof. unfold unset. intros Hu (v & Hv & _). by rewrite Hv in Hu. Qed.

(** The read-only pass on any bucket: the missing fields when no stored
    field is rejected, the error of the first rejected field otherwise. *)
Lemma validate_loop_total checks acc w mc :
  walk [runtimeConfigBkt] (root w) = Some mc →
  (Forall (λ c, ¬ mismatched mc c) checks ∧
   for_fold checks (λ check missingFields,
     r ← readOnlyValidateConfig (Some [runtimeConfigBkt]) check;
     match r with
     | (_, Some err) => throw err
     | (false, None) => mret (missingFields ++ [check])
     | (true, None) => mret missingFields
     end) acc w = (Ret (acc ++ filter (unset mc) checks), w)) ∨
  (Exists (mismatched mc) checks ∧
   ∃ e, for_fold checks (λ check missingFields,
     r ← readOnlyValidateConfig (Some [runtimeConfigBkt]) check;
     match r with
     | (_, Some err) => throw err
     | (false, None) => mret (missingFields ++ [check])
     | (true, None) => mret missingFields
     end) acc w = (Err e, w) ∧ errors_Cause e = ErrDBBadConfig).
Proof.
  intros Hp. revert acc. induction checks as [|c checks IH]; intros acc.
  - left. split; [constructor|]. cbn. by rewrite app_nil_r.
  - cbn [for_fold].
    destruct (readOnlyValidateConfig_status _ c _ _ Hp)
      as [[Hu Hr]|[[(v & Hv & Hm) Hr]|[Hmis (e & Hr & He)]]].
    + destruct (IH (acc ++ [c])) as [[Hall Hrun]|[Hex (e & Hrun & He)]].
      * left. split; [constructor; [by apply unset_not_mismatched|done]|].
        rewrite filter_cons_True by done.
        erewrite mbind_Ret; [|by rewrite (mbind_Ret _ _ _ _ _ Hr)].
        rewrite Hrun. by rewrite <- app_assoc.
      * right. split; [by apply Exists_cons_tl|]. exists e. split; [|done].
        erewrite mbind_Ret; [|by rewrite (mbind_Ret _ _ _ _ _ Hr)]. done.
    + assert (¬ unset mc c) as Hnu by (unfold unset; by rewrite Hv).
      assert (¬ mismatched mc c) as Hnm.
      { intros (v' & Hv' & Hm'). rewrite Hv in Hv'. by injection Hv' as <-. }
      destruct (IH acc) as [[Hall Hrun]|[Hex (e & Hrun & He)]].
      * left. split; [by constructor|].
        rewrite filter_cons_False by done.
        erewrite mbind_Ret; [|by rewrite (mbind_Ret _ _ _ _ _ Hr)]. done.
      * right. split; [by apply Exists_cons_tl|]. exists e. split; [|done].
        erewrite mbind_Ret; [|by rewrite (mbind_Ret _ _ _ _ _ Hr)]. done.
    + right. split; [by apply Exists_cons_hd|]. exists e. split; [|done].
      apply mbind_Err. by rewrite (mbind_Ret _ _ _ _ _ Hr).
Qed.

(** The read-only pass of [checkRuntimeConfig] as a whole. *)
Lemma validateChecks_total checks w :
  (¬ is_bkt (root w !! runtimeConfigBkt) ∧
   ∃ e, db_View (validateChecks checks) w = (Err e, w) ∧ errors_Cause e = ErrDBBadConfig) ∨
  (∃ mc, root w !! runtimeConfigBkt = Some (Bkt mc) ∧
     ((Forall (λ c, ¬ mismatched mc c) checks ∧
       db_View (validateChecks checks) w = (Ret (filter (unset mc) checks), w)) ∨
      (Exists (mismatched mc) checks ∧
       ∃ e, db_View (validateChecks checks) w = (Err e, w) ∧
            errors_Cause e = ErrDBBadConfig))).
Proof.
  unfold db_View, validateChecks, getRuntimeConfigBucket.
  destruct (required_bucket_cases runtimeConfigBkt
              "runtime configuration bucket not found in DB" w) as [[[mc Hrc] Hb]|[Hno Hb]].
  - right. exists mc. split; [done|].
    assert (walk [runtimeConfigBkt] (root w) = Some mc) as Hp by (by rewrite walk_top, Hrc).
    rewrite (mbind_Ret _ _ _ _ _ Hb).
    destruct (validate_loop_total checks [] w mc Hp) as [[Hall ->]|[Hex (e & -> & He)]].
    + left. split; [done|]. by destruct w.
    + right. split; [done|]. exists e. split; [by destruct w|done].
  - left. split; [done|]. eexists. rewrite (mbind_Err _ _ _ _ _ Hb). split; [by destruct w|done].
Qed.

(** The error of a [Put] tells what was wrong with the key or the value. *)
Lemma bkt_Put_Err_inv p k v w e w' m :
  walk p (root w) = Some m →
  bkt_Put (Some p) k v w = (Err e, w') →
  w' = w ∧
  ((e = ErrKeyRequired ∧ k = EmptyString) ∨
   (e = ErrKeyTooLarge ∧ (MaxKeySize < len k)%Z) ∨
   (e = ErrValueTooLarge ∧ (MaxValueSize < len v)%Z) ∨
   (e = ErrIncompatibleValue ∧ is_bkt (m !! k))).
Proof.
  intros Hp. unfold bkt_Put, with_bkt. rewrite Hp.
  destruct (decide _); [intros [= <- <-]; auto|].
  destruct (Z.ltb_spec MaxKeySize (len k)); [intros [= <- <-]; auto|].
  destruct (Z.ltb_spec MaxValueSize (len v)); [intros [= <- <-]; auto 6|].
  destruct (m !! k) as [[|b]|]; try done.
  intros [= <- <-]. split; [done|]. do 3 right. split; [done|]. by eexists.
Qed.

(** The write pass on any list of fields. *)
Lemma populate_loop_total ms w mc :
  root w !! runtimeConfigBkt = Some (Bkt mc) →
  ∃ o w', for_range ms (λ missing,
            wrapf (bkt_Put (Some [runtimeConfigBkt]) (key missing) (missingValue missing))
              "error updating %s in DB runtime config" [name missing]) w = (o, w') ∧
          trace w' = trace w ∧
          match o with
          | Ret _ => root w' = wr [runtimeConfigBkt] (store ms) (root w) ∧
                     (NoDup (key <$> ms) → Forall (λ c, ¬ is_bkt (mc !! key c)) ms)
          | Err e => Exists (unwritable mc (errors_Cause e)) ms
          | Panic => False
          end.
Proof.
  revert w mc. induction ms as [|c ms IH]; intros w mc Hrc.
  - exists (Ret tt), w. split; [done|]. split; [done|]. split; [|by constructor].
    cbn [wr store foldl]. rewrite Hrc. by rewrite insert_id.
  - cbn [for_range].
    assert (walk [runtimeConfigBkt] (root w) = Some mc) as Hp by (by rewrite walk_top, Hrc).
    destruct (bkt_Put_cases (Some [runtimeConfigBkt]) (key c) (missingValue c) w)
      as [(o & Hput & Hne & Hpanic)|(p & m & [= <-] & Hm & Hnb & Hput)].
    + destruct o as [[]|e|]; [done| |].
      * eexists _, w. split; [apply mbind_Err; unfold wrapf; by rewrite Hput|].
        split; [done|]. cbn [errors_Cause].
        apply Exists_cons_hd.
        destruct (bkt_Put_Err_inv _ _ _ _ _ _ _ Hp Hput) as [_ He].
        destruct He as [[-> ?]|[[-> ?]|[[-> ?]|[-> ?]]]]; unfold unwritable; cbn; auto 6.
      * specialize (Hpanic eq_refl _ eq_refl). congruence.
    + rewrite Hp in Hm. injection Hm as <-.
      destruct (IH (set_root (wr [runtimeConfigBkt] (insert (key c) (Val (missingValue c)))) w)
                  (<[key c := Val (missingValue c)]> mc)) as (o & w' & Hrun & Htr & Ho).
      { cbn [set_root root]. by rewrite (wr_lookup_eq _ _ _ _ _ Hrc). }
      exists o, w'. split; [|split; [done|]].
      * erewrite mbind_Ret; [exact Hrun|]. unfold wrapf. by rewrite Hput.
      * destruct o as [[]|e|]; [| |done].
        -- destruct Ho as [Hroot Habs]. split.
           ++ rewrite Hroot. cbn [set_root root]. by rewrite wr_wr.
           ++ rewrite fmap_cons. intros [Hc Hnd]%NoDup_cons. constructor; [done|].
              specialize (Habs Hnd). rewrite Forall_forall in Habs |- *.
              intros c' Hc' [b Hb]. apply (Habs c' Hc'). exists b.
              rewrite lookup_insert_ne; [done|]. intros Heq. apply Hc.
              rewrite Heq. apply list_elem_of_fmap. by exists c'.
        -- apply Exists_cons_tl. eapply Exists_impl; [exact Ho|].
           intros c' [?|[?|[?|[? [b Hb]]]]]; unfold unwritable; auto.
           do 3 right. split; [done|].
           destruct (decide (key c = key c')) as [Heq|Hne].
           ++ rewrite Heq, lookup_insert_eq in Hb. done.
           ++ rewrite lookup_insert_ne in Hb by done. by exists b.
Qed.

Lemma World_eq w w' : root w' = root w → trace w' = trace w → w' = w.
Proof. destruct w, w'; cbn. by intros -> ->. Qed.

(** Every run of the two passes. *)
Lemma checkFields_inv checks w o w' :
  NoDup (key <$> checks) →
  checkFields checks w = (o, w') →
  trace w' = trace w ∧
  match o with
  | Ret _ =>
      ∃ mc, root w !! runtimeConfigBkt = Some (Bkt mc) ∧
            Forall (λ c, ¬ mismatched mc c) checks ∧
            Forall (λ c, mc !! key c = None) (filter (unset mc) checks) ∧
            root w' = wr [runtimeConfigBkt] (store (filter (unset mc) checks)) (root w)
  | Err e =>
      w' = w ∧
      ((errors_Cause e = ErrDBBadConfig ∧
        (¬ is_bkt (root w !! runtimeConfigBkt) ∨
         ∃ mc, root w !! runtimeConfigBkt = Some (Bkt mc) ∧ Exists (mismatched mc) checks)) ∨
       (∃ mc, root w !! runtimeConfigBkt = Some (Bkt mc) ∧
              Forall (λ c, ¬ mismatched mc c) checks ∧
              Exists (unwritable mc (errors_Cause e)) (filter (unset mc) checks)))
  | Panic => False
  end.
Proof.
  intros Hnd. unfold checkFields.
  destruct (validateChecks_total checks w)
    as [(Hno & e & Hv & He)|(mc & Hrc & [[Hall Hv]|(Hex & e & Hv & He)])].
  - rewrite (mbind_Err _ _ _ _ _ Hv). intros [= <- <-]. split; [done|]. split; [done|]. auto.
  - rewrite (mbind_Ret _ _ _ _ _ Hv).
    destruct (filter (unset mc) checks) as [|c0 ms] eqn:Hms.
    { intros [= <- <-]. split; [done|]. exists mc. rewrite Hms.
      split; [done|]. split; [done|].
      split; [constructor|]. cbn [wr store foldl]. rewrite Hrc. by rewrite insert_id. }
    unfold db_Update, populateMissing, getRuntimeConfigBucket.
    rewrite (mbind_Ret _ _ _ _ _ (required_bucket_found _ _ _ _ Hrc)).
    destruct (populate_loop_total (c0 :: ms) w mc Hrc) as (o1 & w1 & -> & Htr & Ho).
    assert (NoDup (key <$> c0 :: ms)) as Hndms.
    { rewrite <- Hms. eapply sublist_NoDup; [exact Hnd|]. apply fmap_sublist, sublist_filter. }
    destruct o1 as [[]|e|]; [| |done]; intros [= <- <-]; (split; [done|]).
    + destruct Ho as [Hroot Habs]. exists mc. rewrite Hms.
      split; [done|]. split; [done|]. split; [|done].
      specialize (Habs Hndms).
      rewrite Forall_forall in Habs |- *. intros c Hc.
      pose proof Hc as Hc'. rewrite <- Hms in Hc'.
      apply list_elem_of_filter in Hc' as [Hu _]. unfold unset in Hu.
      specialize (Habs c Hc). destruct (mc !! key c) as [[|b]|]; try done.
      destruct Habs. by eexists.
    + split; [by apply World_eq|]. right. exists mc. by rewrite Hms.
  - rewrite (mbind_Err _ _ _ _ _ Hv). intros [= <- <-]. split; [done|]. split; [done|].
    left. split; [done|]. right. by exists mc.
Qed.

Lemma matches_missingValue c : matches c (missingValue c).
Proof.
  unfold matches, missingValue. repeat case_bool_decide; cbn [andb]; auto.
Qed.
End config_runs.

Lemma Forall_Exists_absurd {A} (P : A → Prop) (l : list A) :
  Forall (λ x, ¬ P x) l → Exists P l → False.
Proof. rewrite Forall_forall, Exists_exists. intros Hall (x & Hx & HP). by eapply Hall. Qed.

Lemma checkRuntimeConfig_inv E rt w o w' :
  checkRuntimeConfig E rt w = (o, w') →
  (∃ err, storage_DefaultStoreOptions E = inl err ∧ o = Err err ∧ w' = w) ∨
  (∃ storeOpts, storage_DefaultStoreOptions E = inr storeOpts ∧
     checkFields (runtimeConfigChecks (runtime_GOOS E) rt storeOpts) w = (o, w')).
Proof.
  unfold checkRuntimeConfig. destruct (storage_DefaultStoreOptions E) as [err|storeOpts].
  - intros [= <- <-]. left. by exists err.
  - intros H. right. by exists storeOpts.
Qed.

(** The store after a successful run holds every field, with a value
    that validates. *)
Lemma store_in_order checks mc :
  NoDup (key <$> checks) →
  Forall (λ c, ¬ mismatched mc c) checks →
  Forall (λ c, mc !! key c = None) (filter (unset mc) checks) →
  Forall (λ c, ∃ v, store (filter (unset mc) checks) mc !! key c = Some (Val v) ∧
                    matches c v) checks.
Proof.
  intros Hnd Hall Habs. rewrite Forall_forall in Hall, Habs |- *. intros c Hc.
  assert (NoDup (key <$> filter (unset mc) checks)) as Hndms.
  { eapply sublist_NoDup; [exact Hnd|]. apply fmap_sublist, sublist_filter. }
  destruct (decide (unset mc c)) as [Hu|Hu].
  - exists (missingValue c). split; [|apply matches_missingValue].
    apply store_lookup; [done|]. by apply list_elem_of_filter.
  - rewrite store_lookup_other.
    + unfold unset in Hu. destruct (mc !! key c) as [[v|b]|] eqn:Hk; try done.
      exists v. split; [done|]. destruct (decide (matches c v)) as [|Hm]; [done|].
      destruct (Hall c Hc). exists v. by rewrite Hk.
    + intros (c' & Heq & [Hu' _]%list_elem_of_filter)%list_elem_of_fmap.
      apply Hu. unfold unset in *. by rewrite Heq.
Qed.

Lemma filter_none {A} (P : A → Prop) `{∀ x, Decision (P x)} (l : list A) :
  (∀ x, x ∈ l → ¬ P x) → filter P l = [].
Proof.
  intros Hno. destruct (filter P l) as [|x l'] eqn:Hf; [done|].
  assert (x ∈ filter P l) as [HP Hx]%list_elem_of_filter
    by (rewrite Hf; apply elem_of_cons; by left).
  by destruct (Hno x Hx).
Qed.

(** X1: [checkRuntimeConfig] is idempotent.  After a run that returned
    nil, a second run with the same runtime returns nil as well and
    writes nothing: every field the first run found missing is now stored
    with a value that validates. *)
Theorem checkRuntimeConfig_idempotent (E : Externals) (rt : Runtime) (w w' : World) :
  checkRuntimeConfig E rt w = (Ret tt, w') →
  checkRuntimeConfig E rt w' = (Ret tt, w').
Proof.
  intros [(err & _ & [=] & _)|(storeOpts & Hopts & Hrun)]%checkRuntimeConfig_inv.
  pose proof (runtimeConfigChecks_NoDup (runtime_GOOS E) rt storeOpts) as Hnd.
  destruct (checkFields_inv _ _ _ _ Hnd Hrun) as (_ & mc & Hrc & Hall & Habs & Hroot).
  pose proof (store_in_order _ _ Hnd Hall Habs) as Hord.
  set (checks := runtimeConfigChecks (runtime_GOOS E) rt storeOpts) in *.
  set (mc' := store (filter (unset mc) checks) mc) in *.
  assert (root w' !! runtimeConfigBkt = Some (Bkt mc')) as Hrc'
    by (by rewrite Hroot, (wr_lookup_eq _ _ _ _ _ Hrc)).
  assert (Forall (in_order mc') checks) as Hord'.
  { eapply Forall_impl; [exact Hord|]. intros c Hc. by right. }
  unfold checkRuntimeConfig. rewrite Hopts. fold checks. unfold checkFields.
  rewrite (mbind_Ret _ _ _ _ _ (validateChecks_missing checks w' mc' Hrc' Hord')).
  rewrite filter_none; [done|].
  intros c Hc. rewrite Forall_forall in Hord. destruct (Hord c Hc) as (v & Hv & _).
  unfold absent. by rewrite Hv.
Qed.

Lemma checkRuntimeConfig_idempotent_witness :
  let w := Sample.world (wr [runtimeConfigBkt] (insert graphDriverKey (Val "overlay"))
                           Sample.emptyDB) in
  let w' := (checkRuntimeConfig Sample.E Sample.rt w).2 in
  checkRuntimeConfig Sample.E Sample.rt w = (Ret tt, w') ∧
  w' ≠ w ∧
  checkRuntimeConfig Sample.E Sample.rt w' = (Ret tt, w').
Proof.
  intros w w'.
  assert (checkRuntimeConfig Sample.E Sample.rt w = (Ret tt, w')) as Hfirst
    by (vm_compute; reflexivity).
  split; [exact Hfirst|]. split.
  - intros Heq. apply (f_equal (λ x, walk [runtimeConfigBkt] (root x) ≫= (.!! osKey))) in Heq.
    vm_compute in Heq. discriminate.
  - apply (checkRuntimeConfig_idempotent Sample.E Sample.rt w w'). exact Hfirst.
Defined.

(** X2: a stored field that does not validate makes [checkRuntimeConfig]
    fail with [ErrDBBadConfig] and write nothing, whichever other fields
    are missing; and, when the storage defaults load and the
    [runtime-config] bucket exists, that is the only way it fails with
    [ErrDBBadConfig]. *)
Theorem checkRuntimeConfig_rejects (E : Externals) (rt : Runtime) (w : World)
    (storeOpts : StorageConfig) (mc : bucket) :
  let checks := runtimeConfigChecks (runtime_GOOS E) rt storeOpts in
  storage_DefaultStoreOptions E = inr storeOpts →
  root w !! runtimeConfigBkt = Some (Bkt mc) →
  (Exists (mismatched mc) checks →
   ∃ e, checkRuntimeConfig E rt w = (Err e, w) ∧ errors_Cause e = ErrDBBadConfig) ∧
  (∀ e w', checkRuntimeConfig E rt w = (Err e, w') → errors_Cause e = ErrDBBadConfig →
           Exists (mismatched mc) checks).
Proof.
  intros checks Hopts Hrc.
  pose proof (runtimeConfigChecks_NoDup (runtime_GOOS E) rt storeOpts) as Hnd.
  assert (checkRuntimeConfig E rt w = checkFields checks w) as Heq
    by (unfold checkRuntimeConfig; by rewrite Hopts).
  rewrite Heq. split.
  - intros Hex. destruct (checkFields checks w) as [o w'] eqn:Hrun.
    destruct (checkFields_inv _ _ _ _ Hnd Hrun) as [_ Ho].
    destruct o as [[]|e|]; [| |done].
    + destruct Ho as (mc0 & Hrc0 & Hall & _). rewrite Hrc in Hrc0. injection Hrc0 as <-.
      destruct (Forall_Exists_absurd _ _ Hall Hex).
    + destruct Ho as [-> [[He _]|(mc0 & Hrc0 & Hall & _)]]; [by exists e|].
      rewrite Hrc in Hrc0. injection Hrc0 as <-.
      destruct (Forall_Exists_absurd _ _ Hall Hex).
  - intros e w' Hrun He.
    destruct (checkFields_inv _ _ _ _ Hnd Hrun) as [_ [_ Ho]].
    destruct Ho as [[_ [Hno|(mc0 & Hrc0 & Hex)]]|(mc0 & _ & _ & Hex)].
    + destruct Hno. by exists mc.
    + rewrite Hrc in Hrc0. by injection Hrc0 as <-.
    + rewrite He in Hex. apply Exists_exists in Hex as (c & _ & Hc).
      by destruct Hc as [[? _]|[[? _]|[[? _]|[? _]]]].
Qed.

Lemma checkRuntimeConfig_rejects_witness :
  let w := Sample.world (wr [runtimeConfigBkt] (insert volPathKey (Val "/elsewhere"))
                           Sample.emptyDB) in
  ∃ e, checkRuntimeConfig Sample.E Sample.rt w = (Err e, w) ∧
       errors_Cause e = ErrDBBadConfig.
Proof.
  intros w.
  apply (checkRuntimeConfig_rejects Sample.E Sample.rt w
           {| RunRoot := "/run/containers"; GraphRoot := "/var/lib/containers";
              GraphDriverName := "overlay" |} {[ volPathKey := Val "/elsewhere" ]}).
  - reflexivity.
  - vm_compute. reflexivity.
  - apply Exists_exists. eexists. split.
    + do 6 (apply elem_of_cons; right). apply elem_of_cons. left. reflexivity.
    + exists "/elsewhere". split; [vm_compute; reflexivity|].
      intros [H|[[H _]|[H _]]]; vm_compute in H; discriminate.
Defined.

(** X3: what [checkRuntimeConfig] never does.  It never faults and emits
    nothing; when it does not return nil the store is exactly as before;
    it changes no bucket other than [runtime-config]; and in
    [runtime-config] it leaves every key that was there as it was (a
    stored value is never overwritten, not even by the default it was
    accepted against) and every key that is not one of the seven
    fields. *)
Theorem checkRuntimeConfig_preserves (E : Externals) (rt : Runtime) (w : World)
    (o : outcome unit) (w' : World) :
  checkRuntimeConfig E rt w = (o, w') →
  o ≠ Panic ∧ trace w' = trace w ∧
  (o ≠ Ret tt → w' = w) ∧
  (∀ k, k ≠ runtimeConfigBkt → root w' !! k = root w !! k) ∧
  (∀ mc, root w !! runtimeConfigBkt = Some (Bkt mc) →
     ∃ mc', root w' !! runtimeConfigBkt = Some (Bkt mc') ∧
            (∀ k, mc !! k ≠ None → mc' !! k = mc !! k) ∧
            (∀ k, k ∉ configKeys → mc' !! k = mc !! k)).
Proof.
  intros [(err & _ & -> & ->)|(storeOpts & Hopts & Hrun)]%checkRuntimeConfig_inv.
  { repeat split; try done. intros mc Hmc. by exists mc. }
  pose proof (runtimeConfigChecks_NoDup (runtime_GOOS E) rt storeOpts) as Hnd.
  destruct (checkFields_inv _ _ _ _ Hnd Hrun) as [Htr Ho].
  destruct o as [[]|e|]; [| |done].
  - destruct Ho as (mc & Hrc & Hall & Habs & Hroot).
    split; [done|]. split; [done|]. split; [done|]. split.
    + intros k Hk. rewrite Hroot. by apply wr_lookup_ne.
    + intros mc0 Hrc0. rewrite Hrc in Hrc0. injection Hrc0 as <-.
      eexists. split; [by rewrite Hroot, (wr_lookup_eq _ _ _ _ _ Hrc)|].
      rewrite Forall_forall in Habs. split.
      * intros k Hk. apply store_lookup_other.
        intros (c & -> & Hc)%list_elem_of_fmap. by apply Hk, Habs.
      * intros k Hk. apply store_lookup_other.
        intros (c & -> & [_ Hc]%list_elem_of_filter)%list_elem_of_fmap.
        apply Hk. unfold configKeys.
        rewrite <- (runtimeConfigChecks_keys (runtime_GOOS E) rt storeOpts).
        apply list_elem_of_fmap. by exists c.
  - destruct Ho as [-> _]. repeat split; try done. intros mc Hmc. by exists mc.
Qed.

Lemma checkRuntimeConfig_preserves_witness :
  let w := Sample.world (wr [runtimeConfigBkt]
                           (insert runRootKey (Val EmptyString) ∘ insert "extra" (Val "x"))
                           Sample.emptyDB) in
  let r := checkRuntimeConfig Sample.E Sample.rt w in
  r.1 = Ret tt ∧
  walk [runtimeConfigBkt] (root r.2) ≫= (.!! runRootKey) = Some (Val EmptyString) ∧
  walk [runtimeConfigBkt] (root r.2) ≫= (.!! "extra") = Some (Val "x") ∧
  ∀ k, k ≠ runtimeConfigBkt → root r.2 !! k = root w !! k.
Proof.
  intros w r.
  destruct (checkRuntimeConfig_preserves Sample.E Sample.rt w r.1 r.2)
    as (_ & _ & _ & Hframe & _).
  - apply surjective_pairing.
  - split; [vm_compute; reflexivity|]. split; [vm_compute; reflexivity|].
    split; [vm_compute; reflexivity|]. exact Hframe.
Defined.

(** X4: a key of [runtime-config] that holds a nested bucket reads as a
    missing field, since [Get] answers nil for it.  The write pass then
    fails on it with bbolt's [ErrIncompatibleValue], and the fields
    written before it in the same transaction are rolled back: the world
    is as before. *)
Theorem checkRuntimeConfig_nested_bucket (E : Externals) (rt : Runtime) (w : World)
    (storeOpts : StorageConfig) (mc : bucket) :
  let checks := runtimeConfigChecks (runtime_GOOS E) rt storeOpts in
  storage_DefaultStoreOptions E = inr storeOpts →
  root w !! runtimeConfigBkt = Some (Bkt mc) →
  Forall (λ c, ¬ mismatched mc c) checks →
  Forall (λ c, (len (storedValue c) ≤ MaxValueSize)%Z) checks →
  Exists (λ c, is_bkt (mc !! key c)) checks →
  ∃ e, checkRuntimeConfig E rt w = (Err e, w) ∧ errors_Cause e = ErrIncompatibleValue.
Proof.
  intros checks Hopts Hrc Hall Hfit Hex.
  pose proof (runtimeConfigChecks_NoDup (runtime_GOOS E) rt storeOpts) as Hnd.
  pose proof (runtimeConfigChecks_keys_ok (runtime_GOOS E) rt storeOpts) as Hkeys.
  assert (checkRuntimeConfig E rt w = checkFields checks w) as ->
    by (unfold checkRuntimeConfig; by rewrite Hopts).
  destruct (checkFields checks w) as [o w'] eqn:Hrun.
  destruct (checkFields_inv _ _ _ _ Hnd Hrun) as [_ Ho].
  destruct o as [[]|e|]; [| |done].
  - destruct Ho as (mc0 & Hrc0 & _ & Habs & _). rewrite Hrc in Hrc0. injection Hrc0 as <-.
    apply Exists_exists in Hex as (c & Hc & [b Hb]). rewrite Forall_forall in Habs.
    rewrite (Habs c) in Hb; [done|]. apply list_elem_of_filter. split; [|done].
    unfold unset. by rewrite Hb.
  - destruct Ho as [-> [[_ [Hno|(mc0 & Hrc0 & Hmis)]]|(mc0 & Hrc0 & _ & Hun)]].
    + destruct Hno. by exists mc.
    + rewrite Hrc in Hrc0. injection Hrc0 as <-. destruct (Forall_Exists_absurd _ _ Hall Hmis).
    + exists e. split; [done|].
      apply Exists_exists in Hun as (c & [_ Hc]%list_elem_of_filter & Hun).
      fold checks in Hkeys. rewrite Forall_forall in Hkeys, Hfit.
      destruct (Hkeys c Hc) as [Hk Hlen]. specialize (Hfit c Hc).
      rewrite <- missingValue_storedValue in Hfit.
      destruct Hun as [[_ ?]|[[_ ?]|[[_ ?]|[? _]]]]; [done|lia|lia|done].
Qed.

Lemma checkRuntimeConfig_nested_bucket_witness :
  let w := Sample.world (wr [runtimeConfigBkt] (insert tmpDirKey (Bkt ∅)) Sample.emptyDB) in
  ∃ e, checkRuntimeConfig Sample.E Sample.rt w = (Err e, w) ∧
       errors_Cause e = ErrIncompatibleValue.
Proof.
  intros w.
  apply (checkRuntimeConfig_nested_bucket Sample.E Sample.rt w
           {| RunRoot := "/run/containers"; GraphRoot := "/var/lib/containers";
              GraphDriverName := "overlay" |} {[ tmpDirKey := Bkt ∅ ]}).
  - reflexivity.
  - vm_compute. reflexivity.
  - repeat (apply Forall_cons; split); try apply Forall_nil_2;
      intros (v & Hv & _); vm_compute in Hv; discriminate.
  - repeat (apply Forall_cons; split); try apply Forall_nil_2; vm_compute; discriminate.
  - apply Exists_cons_tl, Exists_cons_tl, Exists_cons_hd. eexists. vm_compute. reflexivity.
Defined.

(** ** Hydration: what the object is left with *)

Ltac hydrate_found := intros []; by eexists.

Ltac hydrate_err :=
  eexists _, _; split; [reflexivity|];
  repeat match goal with
  | |- _ ∧ _ => split
  | |- ¬ _ → _ => first [ by (intros _; split; [done|by eexists]) | hydrate_found ]
  end; try done.

Section hydration.
Implicit Types (w : World) (p : list string) (m : bucket) (s : BoltState).

(** X15: what [getContainerFromDB] leaves in the caller's container when
    it is given a live handle.  The call returns without a fault and
    without touching the store, and never changes the state of the
    container.  When the ID has no bucket the container is untouched and
    the error is [ErrNoSuchCtr].  With a nil error the container is
    valid, bound to the runtime of the state, holds the lock retrieved for
    the lock ID of its configuration and the OCI runtime resolved from the
    configuration, and its configuration was decoded from the bytes under
    the [config] key of the bucket of the ID.  With any error the
    container is not marked valid: [valid], the runtime and the OCI
    runtime are what they were. *)
Theorem getContainerFromDB_outcome (E : Externals) (s : BoltState) (id : string)
    (ctr : Container) (p : list string) (m : bucket) (w : World) :
  walk p (root w) = Some m →
  ∃ ctr' r,
    getContainerFromDB E s id ctr (Some p) w = (Ret (ctr', r), w) ∧
    ctr_state ctr' = ctr_state ctr ∧
    (¬ is_bkt (m !! id) →
     ctr' = ctr ∧ ∃ e, r = Some e ∧ errors_Cause e = ErrNoSuchCtr) ∧
    match r with
    | None =>
        ∃ mc configBytes lock ociRuntime,
          m !! id = Some (Bkt mc) ∧
          mc !! configKey = Some (Val configBytes) ∧
          json_Unmarshal_ctr E configBytes (ctr_config ctr) = (ctr_config ctr', None) ∧
          lockManager_RetrieveLock (runtime s) (cfg_LockID (ctr_config ctr')) = inr lock ∧
          resolveOCIRuntime E s (ctr_config ctr') = Some ociRuntime ∧
          ctr' = mkContainer (ctr_config ctr') (ctr_state ctr) (Some lock)
                   (Some ociRuntime) (Some (runtime s)) true
    | Some e =>
        ctr_valid ctr' = ctr_valid ctr ∧ ctr_runtime ctr' = ctr_runtime ctr ∧
        ctr_ociRuntime ctr' = ctr_ociRuntime ctr
    end.
Proof.
  intros Hp. unfold getContainerFromDB.
  rewrite (mbind_Ret _ _ _ _ _ (bkt_Bucket_at _ _ _ _ Hp)).
  destruct (m !! id) as [[v|mc]|] eqn:Hid.
  1,3: rewrite sub_handle_None by (rewrite Hid; by intros [? [=]]);
    hydrate_err.
  rewrite (sub_handle_Some _ _ _ _ Hid).
  assert (walk (p ++ [id]) (root w) = Some mc) as Hc by (by rewrite walk_snoc, Hp, Hid).
  assert (∃ nsb, (match namespaceBytes s with
                  | Some _ => bkt_Get (Some (p ++ [id])) namespaceKey
                  | None => mret None
                  end) w = (Ret nsb, w)) as [nsb Hnsb].
  { destruct (namespaceBytes s); [|by eexists].
    eexists. by apply bkt_Get_at. }
  rewrite (mbind_Ret _ _ _ _ _ Hnsb).
  destruct (_ && _).
  { hydrate_err. }
  rewrite (mbind_Ret _ _ _ _ _ (bkt_Get_at _ configKey _ _ Hc)).
  destruct (mc !! configKey) as [[configBytes|b]|] eqn:Hcfg; cbn [node_value].
  2,3: hydrate_err.
  destruct (json_Unmarshal_ctr E configBytes (ctr_config ctr)) as [config [uerr|]] eqn:Hu.
  { hydrate_err. }
  destruct (lockManager_RetrieveLock (runtime s) (cfg_LockID config)) as [lerr|lock] eqn:Hl.
  { hydrate_err. }
  cbv zeta.
  destruct (if bool_decide (cfg_OCIRuntime config = EmptyString) then _ else _)
    as [ociRuntime|] eqn:Hoci.
  - eexists _, _. split; [reflexivity|]. split; [done|]. split; [hydrate_found|].
    exists mc, configBytes, lock, ociRuntime. by repeat split.
  - hydrate_err.
Qed.

Lemma getPodFromDB_cases E s id pod p m w :
  walk p (root w) = Some m →
  ∃ pod' r,
    getPodFromDB E s id pod (Some p) w = (Ret (pod', r), w) ∧
    (¬ is_bkt (m !! id) →
     pod' = pod ∧ ∃ e, r = Some e ∧ errors_Cause e = ErrNoSuchPod) ∧
    match r with
    | None =>
        ∃ mc configBytes lock,
          m !! id = Some (Bkt mc) ∧
          mc !! configKey = Some (Val configBytes) ∧
          json_Unmarshal_pod E configBytes (pod_config pod) = (pod_config pod', None) ∧
          lockManager_RetrieveLock (runtime s) (pod_cfg_LockID (pod_config pod')) = inr lock ∧
          pod' = mkPod (pod_config pod') (Some lock) (Some (runtime s)) true
    | Some e =>
        pod_valid pod' = pod_valid pod ∧ pod_runtime pod' = pod_runtime pod ∧
        pod_lock pod' = pod_lock pod
    end.
Proof.
  intros Hp. unfold getPodFromDB.
  rewrite (mbind_Ret _ _ _ _ _ (bkt_Bucket_at _ _ _ _ Hp)).
  destruct (m !! id) as [[v|mc]|] eqn:Hid.
  1,3: rewrite sub_handle_None by (rewrite Hid; by intros [? [=]]);
    hydrate_err.
  rewrite (sub_handle_Some _ _ _ _ Hid).
  assert (walk (p ++ [id]) (root w) = Some mc) as Hc by (by rewrite walk_snoc, Hp, Hid).
  assert (∃ nsb, (match namespaceBytes s with
                  | Some _ => bkt_Get (Some (p ++ [id])) namespaceKey
                  | None => mret None
                  end) w = (Ret nsb, w)) as [nsb Hnsb].
  { destruct (namespaceBytes s); [|by eexists].
    eexists. by apply bkt_Get_at. }
  rewrite (mbind_Ret _ _ _ _ _ Hnsb).
  destruct (_ && _).
  { hydrate_err. }
  rewrite (mbind_Ret _ _ _ _ _ (bkt_Get_at _ configKey _ _ Hc)).
  destruct (mc !! configKey) as [[configBytes|b]|] eqn:Hcfg; cbn [node_value].
  2,3: hydrate_err.
  destruct (json_Unmarshal_pod E configBytes (pod_config pod)) as [config [uerr|]] eqn:Hu.
  { hydrate_err. }
  destruct (lockManager_RetrieveLock (runtime s) (pod_cfg_LockID config)) as [lerr|lock] eqn:Hl.
  { hydrate_err. }
  eexists _, _. split; [reflexivity|]. split; [hydrate_found|].
  exists mc, configBytes, lock. by repeat split.
Qed.

Lemma getVolumeFromDB_cases E s name volume p m w :
  walk p (root w) = Some m →
  ∃ volume' r,
    getVolumeFromDB E s name volume (Some p) w = (Ret (volume', r), w) ∧
    (¬ is_bkt (m !! name) →
     volume' = volume ∧ ∃ e, r = Some e ∧ errors_Cause e = ErrNoSuchVolume) ∧
    match r with
    | None =>
        ∃ mc configBytes lock,
          m !! name = Some (Bkt mc) ∧
          mc !! configKey = Some (Val configBytes) ∧
          json_Unmarshal_vol E configBytes (volume_config volume) =
            (volume_config volume', None) ∧
          lockManager_RetrieveLock (runtime s) (vol_cfg_LockID (volume_config volume'))
            = inr lock ∧
          volume' = mkVolume (volume_config volume') (Some lock) (Some (runtime s)) true
    | Some e =>
        volume_valid volume' = volume_valid volume ∧
        volume_runtime volume' = volume_runtime volume ∧
        volume_lock volume' = volume_lock volume
    end.
Proof.
  intros Hp. unfold getVolumeFromDB.
  rewrite (mbind_Ret _ _ _ _ _ (bkt_Bucket_at _ _ _ _ Hp)).
  destruct (m !! name) as [[v|mc]|] eqn:Hid.
  1,3: rewrite sub_handle_None by (rewrite Hid; by intros [? [=]]);
    hydrate_err.
  rewrite (sub_handle_Some _ _ _ _ Hid).
  assert (walk (p ++ [name]) (root w) = Some mc) as Hc by (by rewrite walk_snoc, Hp, Hid).
  rewrite (mbind_Ret _ _ _ _ _ (bkt_Get_at _ configKey _ _ Hc)).
  destruct (mc !! configKey) as [[configBytes|b]|] eqn:Hcfg; cbn [node_value].
  2,3: hydrate_err.
  destruct (json_Unmarshal_vol E configBytes (volume_config volume)) as [config [uerr|]] eqn:Hu.
  { hydrate_err. }
  destruct (lockManager_RetrieveLock (runtime s) (vol_cfg_LockID config)) as [lerr|lock] eqn:Hl.
  { hydrate_err. }
  eexists _, _. split; [reflexivity|]. split; [hydrate_found|].
  exists mc, configBytes, lock. by repeat split.
Qed.

(** X16: what [getPodFromDB] and [getVolumeFromDB] leave in the caller's
    object when they are given a live handle.  Each call returns without
    a fault and without touching the store.  When the ID, or the name,
    has no bucket the object is untouched and the error is [ErrNoSuchPod],
    or [ErrNoSuchVolume].  With a nil error the object is valid, bound to
    the runtime of the state, holds the lock retrieved for the lock ID of
    its configuration, and its configuration was decoded from the bytes
    under the [config] key of its bucket.  With any error [valid], the
    runtime and the lock are what they were. *)
Theorem getPodFromDB_getVolumeFromDB_outcome (E : Externals) (s : BoltState)
    (id : string) (pod : Pod) (volume : Volume) (p : list string) (m : bucket)
    (w : World) :
  walk p (root w) = Some m →
  (∃ pod' r,
     getPodFromDB E s id pod (Some p) w = (Ret (pod', r), w) ∧
     (¬ is_bkt (m !! id) →
      pod' = pod ∧ ∃ e, r = Some e ∧ errors_Cause e = ErrNoSuchPod) ∧
     match r with
     | None =>
         ∃ mc configBytes lock,
           m !! id = Some (Bkt mc) ∧
           mc !! configKey = Some (Val configBytes) ∧
           json_Unmarshal_pod E configBytes (pod_config pod) = (pod_config pod', None) ∧
           lockManager_RetrieveLock (runtime s) (pod_cfg_LockID (pod_config pod'))
             = inr lock ∧
           pod' = mkPod (pod_config pod') (Some lock) (Some (runtime s)) true
     | Some e =>
         pod_valid pod' = pod_valid pod ∧ pod_runtime pod' = pod_runtime pod ∧
         pod_lock pod' = pod_lock pod
     end) ∧
  (∃ volume' r,
     getVolumeFromDB E s id volume (Some p) w = (Ret (volume', r), w) ∧
     (¬ is_bkt (m !! id) →
      volume' = volume ∧ ∃ e, r = Some e ∧ errors_Cause e = ErrNoSuchVolume) ∧
     match r with
     | None =>
         ∃ mc configBytes lock,
           m !! id = Some (Bkt mc) ∧
           mc !! configKey = Some (Val configBytes) ∧
           json_Unmarshal_vol E configBytes (volume_config volume) =
             (volume_config volume', None) ∧
           lockManager_RetrieveLock (runtime s) (vol_cfg_LockID (volume_config volume'))
             = inr lock ∧
           volume' = mkVolume (volume_config volume') (Some lock) (Some (runtime s)) true
     | Some e =>
         volume_valid volume' = volume_valid volume ∧
         volume_runtime volume' = volume_runtime volume ∧
         volume_lock volume' = volume_lock volume
     end).
Proof.
  intros Hp. split.
  - exact (getPodFromDB_cases E s id pod p m w Hp).
  - exact (getVolumeFromDB_cases E s id volume p m w Hp).
Qed.
End hydration.

Lemma getContainerFromDB_outcome_witness :
  let ctr := Sample.container "c1" "web" EmptyString [] in
  let s := Sample.s EmptyString in
  let m : bucket := {[ "c1" := Sample.ctrRecord None None ∅ ]} in
  let w := Sample.world (Sample.withCtr "c1" (Sample.ctrRecord None None ∅) Sample.emptyDB) in
  walk [ctrBkt] (root w) = Some m ∧
  ∃ ctr' r,
    getContainerFromDB Sample.E s "c1" ctr (Some [ctrBkt]) w = (Ret (ctr', r), w) ∧
    ctr_state ctr' = ctr_state ctr ∧
    (¬ is_bkt (m !! "c1") →
     ctr' = ctr ∧ ∃ e, r = Some e ∧ errors_Cause e = ErrNoSuchCtr) ∧
    match r with
    | None =>
        ∃ mc configBytes lock ociRuntime,
          m !! "c1" = Some (Bkt mc) ∧
          mc !! configKey = Some (Val configBytes) ∧
          json_Unmarshal_ctr Sample.E configBytes (ctr_config ctr) = (ctr_config ctr', None) ∧
          lockManager_RetrieveLock (runtime s) (cfg_LockID (ctr_config ctr')) = inr lock ∧
          resolveOCIRuntime Sample.E s (ctr_config ctr') = Some ociRuntime ∧
          ctr' = mkContainer (ctr_config ctr') (ctr_state ctr) (Some lock)
                   (Some ociRuntime) (Some (runtime s)) true
    | Some e =>
        ctr_valid ctr' = ctr_valid ctr ∧ ctr_runtime ctr' = ctr_runtime ctr ∧
        ctr_ociRuntime ctr' = ctr_ociRuntime ctr
    end.
Proof.
  intros ctr s m w.
  assert (walk [ctrBkt] (root w) = Some m) as Hp by (vm_compute; reflexivity).
  split; [exact Hp|].
  exact (getContainerFromDB_outcome Sample.E s "c1" ctr [ctrBkt] m w Hp).
Defined.

Lemma getPodFromDB_getVolumeFromDB_outcome_witness :
  let pod := Sample.pod "p1" "pod" EmptyString in
  let volume := mkVolume {| vol_cfg_Name := "p1"; vol_cfg_LockID := 2 |} None None false in
  let s := Sample.s EmptyString in
  let w := Sample.world Sample.emptyDB in
  walk [podBkt] (root w) = Some ∅ ∧
  (∃ e, getPodFromDB Sample.E s "p1" pod (Some [podBkt]) w = (Ret (pod, Some e), w) ∧
        errors_Cause e = ErrNoSuchPod) ∧
  (∃ e, getVolumeFromDB Sample.E s "p1" volume (Some [podBkt]) w =
          (Ret (volume, Some e), w) ∧
        errors_Cause e = ErrNoSuchVolume).
Proof.
  intros pod volume s w.
  assert (walk [podBkt] (root w) = Some ∅) as Hp by (vm_compute; reflexivity).
  split; [exact Hp|].
  assert (¬ is_bkt ((∅ : bucket) !! "p1")) as Hno by (intros [? [=]]).
  destruct (getPodFromDB_getVolumeFromDB_outcome Sample.E s "p1" pod volume [podBkt] ∅ w Hp)
    as [(pod' & r & Hrun & Hmiss & _) (volume' & r' & Hrun' & Hmiss' & _)].
  destruct (Hmiss Hno) as (-> & e & -> & He).
  destruct (Hmiss' Hno) as (-> & e' & -> & He').
  split; by eexists.
Defined.

(** ** The operations that return *)

(** Invert a sequence that returned: what the first computation returned
    is named [a], [w1] and [H1]; the rest stays in [H]. *)
Ltac bind_Ret H a w1 H1 :=
  let H' := fresh "H" in
  apply mbind_inv in H as [(a & w1 & H1 & H')|[(? & _ & [=])|[_ [=]]]];
  rename H' into H.

Section returns.
Implicit Types (w : World) (p : list string) (m : bucket) (k v : string) (h : handle).

Lemma wrapf_Ret_inv {A} (m : M A) format args w a w' :
  wrapf m format args w = (Ret a, w') → m w = (Ret a, w').
Proof. intros (o0 & H0 & Ho)%wrapf_inv. by destruct o0; simplify_eq. Qed.

Lemma or_else_Ret_inv {A} (m : M A) e w a w' :
  or_else m e w = (Ret a, w') → m w = (Ret a, w').
Proof. intros (o0 & H0 & Ho)%or_else_inv. by destruct o0; simplify_eq. Qed.

Lemma set_root_set_root (f g : bucket → bucket) w :
  set_root g (set_root f w) = set_root (g ∘ f) w.
Proof. reflexivity. Qed.

Lemma required_bucket_Ret k what w h w' :
  required_bucket k what w = (Ret h, w') →
  h = Some [k] ∧ w' = w ∧ ∃ m, root w !! k = Some (Bkt m).
Proof. intros (-> & -> & Hb)%required_bucket_inv. done. Qed.

Lemma bkt_Get_Ret h k w r w' :
  bkt_Get h k w = (Ret r, w') →
  w' = w ∧ ∃ p m, h = Some p ∧ walk p (root w) = Some m ∧ r = node_value (m !! k).
Proof.
  unfold bkt_Get, with_bkt. destruct h as [p|]; [|done].
  destruct (walk p (root w)) as [m|] eqn:Hp; [|done].
  destruct (m !! k) as [[x|b]|] eqn:Hk; intros [= <- <-]; (split; [done|]);
    exists p, m; by rewrite Hk.
Qed.

Lemma bkt_Bucket_Ret h k w r w' :
  bkt_Bucket h k w = (Ret r, w') →
  w' = w ∧ ∃ p m, h = Some p ∧ walk p (root w) = Some m ∧ r = sub_handle p m k.
Proof.
  unfold bkt_Bucket, with_bkt, sub_handle. destruct h as [p|]; [|done].
  destruct (walk p (root w)) as [m|] eqn:Hp; [|done].
  destruct (m !! k) as [[x|b]|] eqn:Hk; intros [= <- <-]; (split; [done|]);
    exists p, m; by rewrite Hk.
Qed.

Lemma bkt_Put_Ret h k v w w' :
  bkt_Put h k v w = (Ret tt, w') →
  ∃ p m, h = Some p ∧ walk p (root w) = Some m ∧ ¬ is_bkt (m !! k) ∧
         k ≠ EmptyString ∧
         w' = set_root (wr p (insert k (Val v))) w.
Proof.
  destruct (bkt_Put_cases h k v w) as [(o & -> & Hne & _)|(p & m & -> & Hm & Hn & Hput)].
  { intros [= -> ->]. done. }
  rewrite Hput. intros [= <-]. exists p, m. repeat split; try done.
  intros ->. revert Hput. unfold bkt_Put, with_bkt. rewrite Hm. by rewrite decide_True.
Qed.

Lemma bkt_Delete_Ret h k w w' :
  bkt_Delete h k w = (Ret tt, w') →
  ∃ p m, h = Some p ∧ walk p (root w) = Some m ∧ ¬ is_bkt (m !! k) ∧
         w' = set_root (wr p (delete k)) w.
Proof.
  destruct (bkt_Delete_cases h k w) as [(o & -> & Hne & _)|(p & m & -> & Hm & Hn & ->)].
  { intros [= -> ->]. done. }
  intros [= <-]. by exists p, m.
Qed.

Lemma bkt_CreateBucket_Ret h k w r w' :
  bkt_CreateBucket h k w = (Ret r, w') →
  ∃ p m, h = Some p ∧ walk p (root w) = Some m ∧ m !! k = None ∧
         r = Some (p ++ [k]) ∧
         w' = set_root (wr p (insert k (Bkt ∅))) w.
Proof.
  destruct (bkt_CreateBucket_cases h k w)
    as [(o & -> & Hne & _)|(p & m & -> & Hm & Hn & ->)].
  { intros [= -> ->]. by destruct (Hne r). }
  intros [= <- <-]. by exists p, m.
Qed.

Lemma bkt_DeleteBucket_Ret h k w w' :
  bkt_DeleteBucket h k w = (Ret tt, w') →
  ∃ p m, h = Some p ∧ walk p (root w) = Some m ∧ is_bkt (m !! k) ∧
         w' = set_root (wr p (delete k)) w.
Proof.
  destruct (bkt_DeleteBucket_cases h k w)
    as [(o & -> & Hne & _)|(p & m & -> & Hm & Hn & ->)].
  { intros [= -> ->]. done. }
  intros [= <-]. by exists p, m.
Qed.
End returns.

(** ** Rewriting buckets along paths *)

Section rewriting.
Implicit Types (r m : bucket) (p q : list string) (k a b : string) (f g : bucket → bucket).

Lemma wr_lookup k k' p f m :
  wr (k :: p) f m !! k' =
  if decide (k = k') then
    match m !! k with
    | Some (Bkt b) => Some (Bkt (wr p f b))
    | x => x
    end
  else m !! k'.
Proof.
  case_decide as Hk; [subst k'|by apply wr_lookup_ne].
  destruct (m !! k) as [[v|b]|] eqn:Hm.
  - cbn [wr]. by rewrite Hm.
  - by apply wr_lookup_eq.
  - cbn [wr]. by rewrite Hm.
Qed.

Lemma wr_nop k p f m : ¬ is_bkt (m !! k) → wr (k :: p) f m = m.
Proof.
  intros Hn. cbn [wr]. destruct (m !! k) as [[|b]|] eqn:Hk; try done.
  destruct Hn. by eexists.
Qed.

(** Writing inside a bucket that was just put in place. *)
Lemma wr_into k a f m r :
  is_bkt (r !! k) →
  wr [k; a] f (wr [k] (insert a (Bkt m)) r) = wr [k] (insert a (Bkt (f m))) r.
Proof.
  intros [mk Hk]. rewrite !(wr_cons _ _ _ _ _ Hk). cbn [wr].
  rewrite !lookup_insert_eq. by rewrite !insert_insert_eq.
Qed.

Lemma walk_wr_ne k k' p q f r : k ≠ k' → walk (k' :: q) (wr (k :: p) f r) = walk (k' :: q) r.
Proof. intros Hne. cbn [walk]. by rewrite wr_lookup_ne. Qed.

Lemma wr_comm_ne k k' p q f g r :
  k ≠ k' → wr (k :: p) f (wr (k' :: q) g r) = wr (k' :: q) g (wr (k :: p) f r).
Proof.
  intros Hne. apply map_eq. intros x. rewrite !wr_lookup.
  repeat case_decide; subst; try done; rewrite ?wr_lookup; repeat case_decide; try done.
Qed.

Lemma wr_idemp p f r : (∀ m, f (f m) = f m) → wr p f (wr p f r) = wr p f r.
Proof.
  intros Hf. rewrite wr_wr. revert r. induction p as [|k p IH]; intros r; cbn [wr].
  - apply Hf.
  - destruct (r !! k) as [[|b]|]; try done. by rewrite IH.
Qed.

(** A loop of writes under one top-level bucket is a loop of writes in
    that bucket. *)
Lemma foldl_wr_top {A} k (path : A → list string) f (l : list A) r mk :
  r !! k = Some (Bkt mk) →
  foldl (λ r e, wr (k :: path e) f r) r l =
  <[k := Bkt (foldl (λ m e, wr (path e) f m) mk l)]> r.
Proof.
  revert r mk. induction l as [|e l IH]; intros r mk Hk; cbn [foldl].
  - by rewrite insert_id.
  - rewrite (wr_cons _ _ _ _ _ Hk).
    rewrite (IH _ (wr (path e) f mk)) by (by rewrite lookup_insert_eq).
    by rewrite insert_insert_eq.
Qed.

Lemma foldl_wr_nop {A} k (path : A → list string) f (l : list A) r :
  ¬ is_bkt (r !! k) → foldl (λ r e, wr (k :: path e) f r) r l = r.
Proof.
  intros Hk. induction l as [|e l IH]; cbn [foldl]; [done|]. by rewrite wr_nop.
Qed.

Lemma foldl_wr_other_lookup {A} k (path : A → list string) f (l : list A) r k' :
  k ≠ k' → foldl (λ r e, wr (k :: path e) f r) r l !! k' = r !! k'.
Proof.
  intros Hk. revert r. induction l as [|e l IH]; intros r; cbn [foldl]; [done|].
  by rewrite IH, wr_lookup_ne.
Qed.

(** A loop of idempotent writes, one nested bucket per turn: the entry
    of [x] is written once if [x] has a turn, and is untouched
    otherwise. *)
Lemma foldl_wr_lookup {A} (key : A → string) b f (l : list A) m x :
  (∀ m, f (f m) = f m) →
  foldl (λ m e, wr [key e; b] f m) m l !! x =
  (if decide (x ∈ key <$> l) then wr [x; b] f m else m) !! x.
Proof.
  intros Hf. revert m. induction l as [|e l IH]; intros m; cbn [foldl].
  - rewrite decide_False; [done|]. rewrite fmap_nil. apply not_elem_of_nil.
  - rewrite IH, fmap_cons. destruct (decide (x = key e)) as [->|Hne].
    + rewrite (decide_True (P := key e ∈ key e :: _)) by (apply elem_of_cons; by left).
      case_decide; [by rewrite wr_idemp|done].
    + destruct (decide (x ∈ key <$> l)) as [Hin|Hnin].
      * rewrite (decide_True (P := x ∈ key e :: _)) by (apply elem_of_cons; by right).
        rewrite (wr_lookup x x), (wr_lookup x x), !decide_True by done.
        by rewrite wr_lookup_ne.
      * rewrite (decide_False (P := x ∈ key e :: _)).
        -- by rewrite wr_lookup_ne.
        -- intros [?|?]%elem_of_cons; done.
Qed.

(** The bucket two levels down, after a write three levels down. *)
Lemma walk_wr_nested k a a' b f r m :
  walk [k; a] r = Some m →
  walk [k; a] (wr [k; a'; b] f r) = Some (if decide (a' = a) then wr [b] f m else m).
Proof.
  cbn [walk]. destruct (r !! k) as [[|mk]|] eqn:Hk; try done.
  destruct (mk !! a) as [[|ma]|] eqn:Ha; try done. intros [= <-].
  rewrite (wr_lookup_eq _ _ _ _ _ Hk), wr_lookup.
  case_decide as Heq; [subst a'|]; by rewrite Ha.
Qed.

Lemma wr_ext p f g r m : walk p r = Some m → f m = g m → wr p f r = wr p g r.
Proof.
  revert r. induction p as [|k p IH]; intros r; cbn [walk wr].
  - congruence.
  - destruct (r !! k) as [[|mk]|]; try done. intros Hp Hfg. by rewrite (IH _ Hp Hfg).
Qed.

(** A write along a path that leads nowhere changes nothing. *)
Lemma wr_id_None p f r : walk p r = None → wr p f r = r.
Proof.
  revert r. induction p as [|k p IH]; intros r; cbn [walk wr]; [done|].
  destruct (r !! k) as [[|mk]|] eqn:Hk; try done.
  intros Hp. rewrite (IH _ Hp). by apply insert_id.
Qed.

Lemma walk_ext p r r' k : r' !! k = r !! k → walk (k :: p) r' = walk (k :: p) r.
Proof. intros Heq. cbn [walk]. by rewrite Heq. Qed.
End rewriting.

(** ** Adding a container: the store a successful add leaves *)

Lemma mret_inv {A} (a : A) (w : World) o w' :
  (mret a : M A) w = (o, w') → o = Ret a ∧ w' = w.
Proof. by intros [= <- <-]. Qed.

Lemma walk_top_inv k (r m : bucket) : walk [k] r = Some m → r !! k = Some (Bkt m).
Proof. rewrite walk_top. destruct (r !! k) as [[|b]|]; by intros [= <-]. Qed.

Lemma node_value_None_not_bkt (m : bucket) k :
  node_value (m !! k) = None → ¬ is_bkt (m !! k) → m !! k = None.
Proof.
  destruct (m !! k) as [[|b]|]; try done. intros _ Hn. destruct Hn. by eexists.
Qed.

(** One step of a sequence that returned, when the step is a [Put] or
    nothing. *)
Ltac put_step H :=
  let u := fresh "u" in
  let w1 := fresh "w" in
  let Hput := fresh "Hput" in
  let Hm := fresh "Hm" in
  let Hnb := fresh "Hnb" in
  let Hk := fresh "Hk" in
  bind_Ret H u w1 Hput; destruct u;
  first [ apply wrapf_Ret_inv, bkt_Put_Ret in Hput as (? & ? & [= <-] & Hm & Hnb & Hk & ->);
          cbn [set_root root] in Hm; rewrite ?walk_wr_ne in Hm by by_compute
        | apply mret_inv in Hput as [_ ->] ].

Section add_result.
Implicit Types (w : World) (r : bucket) (ctr : Container) (pod : option Pod).

(** A registration that returned found the ID, the name and the key of
    the new bucket free, and wrote what [registered] says. *)
Lemma addContainer_register_Ret ctr pod configJSON stateJSON netNSPath w w' :
  addContainer_register ctr pod configJSON stateJSON netNSPath
    (Some [idRegistryBkt]) (Some [nameRegistryBkt]) (Some [nsRegistryBkt])
    (Some [ctrBkt]) (Some [allCtrsBkt]) w = (Ret tt, w') →
  w' = set_root (registered ctr pod configJSON stateJSON netNSPath) w ∧
  (∃ mids, root w !! idRegistryBkt = Some (Bkt mids) ∧ mids !! ctr_ID ctr = None) ∧
  (∃ mnames, root w !! nameRegistryBkt = Some (Bkt mnames) ∧
             mnames !! ctr_Name ctr = None) ∧
  (∃ mall, root w !! allCtrsBkt = Some (Bkt mall) ∧ ¬ is_bkt (mall !! ctr_ID ctr)) ∧
  (∃ mb, root w !! ctrBkt = Some (Bkt mb) ∧ mb !! ctr_ID ctr = None) ∧
  (ctrNamespaceOf ctr ≠ None →
   ∃ mns, root w !! nsRegistryBkt = Some (Bkt mns) ∧ ¬ is_bkt (mns !! ctr_ID ctr)) ∧
  ctr_ID ctr ≠ EmptyString ∧ ctr_Name ctr ≠ EmptyString.
Proof.
  unfold addContainer_register, registered, newCtrRecord. intros H.
  bind_Ret H idExist w1 Hget.
  apply bkt_Get_Ret in Hget as (-> & p & mids & [= <-] & Hids & ->).
  destruct (node_value (mids !! ctr_ID ctr)) eqn:Hid; [done|].
  bind_Ret H nameExist w1 Hget.
  apply bkt_Get_Ret in Hget as (-> & p & mnames & [= <-] & Hnames & ->).
  destruct (node_value (mnames !! ctr_Name ctr)) eqn:Hname; [done|].
  destruct (ctrNamespaceOf ctr) as [ns|] eqn:Hns; destruct pod as [pod|];
    destruct (bool_decide (netNSPath ≠ EmptyString)) eqn:Hnet.
  all: put_step H; put_step H; put_step H; put_step H.
  all: bind_Ret H newCtrBkt w1 Hnew;
    apply wrapf_Ret_inv, bkt_CreateBucket_Ret in Hnew as (? & mb & [= <-] & Hmb & Hfree & -> & ->);
    cbn [set_root root app] in Hmb, H; rewrite ?walk_wr_ne in Hmb by by_compute.
  all: put_step H; put_step H; put_step H; put_step H; put_step H.
  all: bind_Ret H depsBkt w1 Hnew;
    apply wrapf_Ret_inv, bkt_CreateBucket_Ret in Hnew as (? & ? & [= <-] & _ & _ & -> & ->).
  all: apply mret_inv in H as [_ ->].
  all: apply walk_top_inv in Hids, Hnames, Hmb.
  all: repeat match goal with
       | Hw : walk [_] (root _) = Some _ |- _ => apply walk_top_inv in Hw
       end.
  all: split;
    [unfold set_root; cbn [root trace]; f_equal;
     rewrite !wr_into by (rewrite !wr_lookup_ne by by_compute; by eexists); reflexivity|].
  all: split; [exists mids; split; [done|]; apply node_value_None_not_bkt; [done|]; congruence|].
  all: split;
    [exists mnames; split; [done|]; apply node_value_None_not_bkt; [done|]; congruence|].
  all: split; [eexists; split; [eassumption|done]|].
  all: split; [by exists mb|].
  all: split; [|done].
  all: try done.
  all: intros _; eexists; split; [eassumption|done].
Qed.

Lemma set_root_id (f : bucket → bucket) w : f (root w) = root w → set_root f w = w.
Proof. intros Hf. unfold set_root. rewrite Hf. by destruct w. Qed.

(** A turn of the dependency loop that returned found the dependency
    coherent and entered the container in its [dependencies] bucket. *)
Lemma addContainer_dependency_Ret ctr pod D w w' :
  addContainer_dependency ctr pod (Some [ctrBkt]) D w = (Ret tt, w') →
  w' = set_root (λ r, linkDependency ctr r D) w ∧ linked ctr pod (root w') D.
Proof.
  intros H. pose proof H as H0. unfold addContainer_dependency in H0.
  bind_Ret H0 depCtrBkt w1 Hb.
  apply bkt_Bucket_Ret in Hb as (-> & p & mb & [= <-] & Hmb & ->).
  destruct (sub_handle [ctrBkt] mb D) as [h|] eqn:Hsub; [|done]. clear H0.
  apply sub_handle_inv in Hsub as (_ & mD & HmD).
  destruct (addContainer_dependency_cases ctr pod _ _ _ _ _ Hmb HmD)
    as [(_ & e & Hr & _)|[(_ & _ & Hr)|[(_ & _ & _ & Hr)|(Hcoh & Hns & _ & Hr)]]];
    rewrite Hr in H; try done.
  apply wrapf_Ret_inv, bkt_Put_Ret in H as (p & md & [= <-] & Hmd & Hnb & _ & ->).
  split; [done|]. cbn [app] in Hmd.
  assert (walk [ctrBkt; D] (root w) = Some mD) as HwD.
  { change [ctrBkt; D] with ([ctrBkt] ++ [D]). by rewrite walk_snoc, Hmb, HmD. }
  assert (mD !! dependenciesBkt = Some (Bkt md)) as Hdeps.
  { change [ctrBkt; D; dependenciesBkt] with ([ctrBkt; D] ++ [dependenciesBkt]) in Hmd.
    rewrite walk_snoc, HwD in Hmd. destruct (mD !! dependenciesBkt) as [[|b]|]; try done.
    by injection Hmd as ->. }
  exists (<[dependenciesBkt := Bkt (<[ctr_ID ctr := Val (ctr_Name ctr)]> md)]> mD),
    (<[ctr_ID ctr := Val (ctr_Name ctr)]> md).
  cbn [set_root root].
  rewrite (walk_wr_nested _ _ _ _ _ _ _ HwD), decide_True by done.
  rewrite (wr_cons _ _ _ _ _ Hdeps). cbn [wr].
  split; [done|]. split; [|split; [|split]].
  - unfold pod_incoherent in *. by rewrite lookup_insert_ne by by_compute.
  - by rewrite lookup_insert_ne by by_compute.
  - by rewrite lookup_insert_eq.
  - by rewrite lookup_insert_eq.
Qed.

(** Later turns keep what a turn established. *)
Lemma linked_link ctr pod r D D' : linked ctr pod r D → linked ctr pod (linkDependency ctr r D') D.
Proof.
  intros (mD & md & HwD & Hcoh & Hns & Hdeps & Hid). unfold linkDependency, linked.
  rewrite (walk_wr_nested _ _ _ _ _ _ _ HwD).
  case_decide as Heq; [subst D'|by exists mD, md].
  rewrite (wr_cons _ _ _ _ _ Hdeps). cbn [wr].
  eexists _, _. split; [done|]. split; [|split; [|split]].
  - unfold pod_incoherent in *. by rewrite lookup_insert_ne by by_compute.
  - by rewrite lookup_insert_ne by by_compute.
  - by rewrite lookup_insert_eq.
  - by rewrite lookup_insert_eq.
Qed.

Lemma linked_ext ctr pod r r' D :
  r' !! ctrBkt = r !! ctrBkt → linked ctr pod r D → linked ctr pod r' D.
Proof.
  intros Heq (mD & md & HwD & H). exists mD, md. split; [|done].
  by rewrite (walk_ext _ _ _ _ Heq).
Qed.

Lemma addContainer_dependencies_Ret ctr pod deps w w' :
  for_range deps (addContainer_dependency ctr pod (Some [ctrBkt])) w = (Ret tt, w') →
  w' = set_root (λ r, foldl (linkDependency ctr) r deps) w ∧
  Forall (linked ctr pod (root w')) deps.
Proof.
  revert w. induction deps as [|D deps IH]; intros w; cbn [for_range foldl].
  - intros [_ ->]%mret_inv. split; [by destruct w|constructor].
  - intros H. bind_Ret H u w1 Hturn. destruct u.
    apply addContainer_dependency_Ret in Hturn as [-> Hlinked].
    apply IH in H as [-> Hall]. split; [done|]. constructor; [|done].
    cbn [set_root root] in *. clear Hall IH.
    revert Hlinked. generalize (linkDependency ctr (root w) D). intros r.
    induction deps as [|D' deps IH] in r |- *; cbn [foldl]; [done|].
    intros Hl. by apply IH, linked_link.
Qed.

(** A turn of the volume loop that returned. *)
Lemma addContainer_volume_Ret ctr vol w w' :
  addContainer_volume ctr (Some [volBkt]) vol w = (Ret tt, w') →
  w' = set_root (λ r, linkVolume ctr r vol) w ∧
  ∃ md, walk [volBkt; vol_Name vol; volDependenciesBkt] (root w) = Some md ∧
        ¬ is_bkt (md !! ctr_ID ctr).
Proof.
  unfold addContainer_volume, linkVolume. intros H.
  bind_Ret H volDB w1 Hb.
  apply bkt_Bucket_Ret in Hb as (-> & p & mv & [= <-] & Hmv & ->).
  destruct (sub_handle [volBkt] mv (vol_Name vol)) as [h|] eqn:Hsub; [|done].
  apply sub_handle_inv in Hsub as (-> & mV & HmV).
  bind_Ret H ctrDepsBkt w1 Hb.
  apply bkt_Bucket_Ret in Hb as (-> & p & mV' & [= <-] & HwV & ->).
  bind_Ret H depExists w1 Hget.
  apply bkt_Get_Ret in Hget as (-> & p & md & Hh & Hmd & ->).
  rewrite Hh in H. apply sub_handle_inv in Hh as (-> & _). cbn [app] in Hmd, H.
  destruct (node_value (md !! ctr_ID ctr)) as [v|] eqn:Hget.
  - apply mret_inv in H as [_ ->]. split.
    + symmetry. apply set_root_id. eapply wr_id; [exact Hmd|].
      unfold enterVolume. by rewrite Hget.
    + exists md. split; [done|]. intros [b Hb]. by rewrite Hb in Hget.
  - apply wrapf_Ret_inv, bkt_Put_Ret in H as (p & md' & [= <-] & Hmd' & Hnb & _ & ->).
    cbn [app] in Hmd'. rewrite Hmd in Hmd'. injection Hmd' as <-. split.
    + unfold set_root. f_equal. eapply wr_ext; [exact Hmd|].
      unfold enterVolume. by rewrite Hget.
    + by exists md.
Qed.

Lemma addContainer_volumes_Ret ctr vols w w' :
  for_range vols (addContainer_volume ctr (Some [volBkt])) w = (Ret tt, w') →
  w' = set_root (λ r, foldl (linkVolume ctr) r vols) w.
Proof.
  revert w. induction vols as [|vol vols IH]; intros w; cbn [for_range foldl].
  - intros [_ ->]%mret_inv. by destruct w.
  - intros H. bind_Ret H u w1 Hturn. destruct u.
    apply addContainer_volume_Ret in Hturn as [-> _]. by apply IH in H as ->.
Qed.

Lemma linkDependencies_lookup ctr deps r k :
  k ≠ ctrBkt → foldl (linkDependency ctr) r deps !! k = r !! k.
Proof.
  intros Hk. revert r. induction deps as [|D deps IH]; intros r; cbn [foldl]; [done|].
  rewrite IH. unfold linkDependency. by rewrite wr_lookup_ne.
Qed.

Lemma linkVolumes_lookup ctr vols r k :
  k ≠ volBkt → foldl (linkVolume ctr) r vols !! k = r !! k.
Proof.
  intros Hk. revert r. induction vols as [|v vols IH]; intros r; cbn [foldl]; [done|].
  rewrite IH. unfold linkVolume. by rewrite wr_lookup_ne.
Qed.

Lemma linkPod_lookup ctr pod r k : k ≠ podBkt → linkPod ctr pod r !! k = r !! k.
Proof. intros Hk. destruct pod; [|done]. cbn [linkPod]. by rewrite wr_lookup_ne. Qed.

Lemma registered_lookup ctr pod configJSON stateJSON netNSPath r k :
  k ∉ registerKeys → registered ctr pod configJSON stateJSON netNSPath r !! k = r !! k.
Proof.
  intros Hk. unfold registered, registerKeys in *.
  repeat (apply not_elem_of_cons in Hk as [? Hk]).
  destruct (ctrNamespaceOf ctr); by rewrite !wr_lookup_ne.
Qed.

(** The transaction of [addContainer] that returned: the store is the
    one [added] describes, nothing was emitted, and the checks the
    transaction makes held. *)
Lemma addContainer_tx_Ret ctr pod configJSON stateJSON netNSPath deps w w' :
  addContainer_tx ctr pod configJSON stateJSON netNSPath deps w = (Ret tt, w') →
  w' = set_root (added ctr pod configJSON stateJSON netNSPath deps) w ∧
  registries_exist (root w) ∧ pod_ready (root w) ctr pod ∧
  addContainer_register ctr pod configJSON stateJSON netNSPath
    (Some [idRegistryBkt]) (Some [nameRegistryBkt]) (Some [nsRegistryBkt])
    (Some [ctrBkt]) (Some [allCtrsBkt]) w =
    (Ret tt, set_root (registered ctr pod configJSON stateJSON netNSPath) w) ∧
  Forall (linked ctr pod (root w')) deps.
Proof.
  unfold addContainer_tx. intros H.
  bind_Ret H hs w0 Hopen. destruct hs as [[cb vb] pc].
  destruct (addContainer_open_inv _ _ _ _ _ _ _ _ _ _ Hopen)
    as (Hreg & -> & -> & wp0 & Hpod & Hregister).
  destruct (addContainer_pod_wp ctr pod w _ _ Hpod) as (_ & _ & Hpc).
  destruct (Hpc _ eq_refl) as (-> & -> & Hready). clear Hpc Hpod Hopen.
  pose proof Hregister as [-> _]%addContainer_register_Ret.
  bind_Ret H u w1 Hdeps. destruct u.
  apply addContainer_dependencies_Ret in Hdeps as [-> Hlinked].
  bind_Ret H u w1 Hput. destruct u.
  assert (w1 = set_root (linkPod ctr pod)
                 (set_root (λ r, foldl (linkDependency ctr) r deps)
                    (set_root (registered ctr pod configJSON stateJSON netNSPath) w)))
    as ->.
  { destruct pod as [pod|]; cbn [podCtrs_handle linkPod] in *.
    - by apply wrapf_Ret_inv, bkt_Put_Ret in Hput as (p & m & [= <-] & _ & _ & _ & ->).
    - apply mret_inv in Hput as [_ ->]. by destruct w. }
  apply addContainer_volumes_Ret in H as ->.
  split; [done|]. split; [done|]. split; [done|]. split; [done|].
  eapply Forall_impl; [exact Hlinked|]. intros D HD. cbn [set_root root] in *.
  eapply linked_ext; [|exact HD].
  rewrite linkVolumes_lookup by by_compute. by rewrite linkPod_lookup by by_compute.
Qed.

(** An add that returned nil. *)
Lemma addContainer_Ret E s ctr pod w w' :
  addContainer E s ctr pod w = (Ret tt, w') →
  ∃ configJSON stateJSON,
    prepared E s ctr configJSON stateJSON ∧
    w' = set_root (added ctr pod configJSON stateJSON (getNetNSPath E ctr)
                     (ctr_Dependencies E ctr)) w ∧
    registries_exist (root w) ∧ pod_ready (root w) ctr pod ∧
    addContainer_register ctr pod configJSON stateJSON (getNetNSPath E ctr)
      (Some [idRegistryBkt]) (Some [nameRegistryBkt]) (Some [nsRegistryBkt])
      (Some [ctrBkt]) (Some [allCtrsBkt]) w =
      (Ret tt, set_root (registered ctr pod configJSON stateJSON (getNetNSPath E ctr)) w) ∧
    Forall (linked ctr pod (root w')) (ctr_Dependencies E ctr).
Proof.
  intros (configJSON & stateJSON & Hprep & Htx)%addContainer_Ret_inv.
  exists configJSON, stateJSON. split; [done|]. by apply addContainer_tx_Ret.
Qed.
End add_result.

(** ** Adding a container: what a successful add wrote *)

Section add_lookups.
Implicit Types (w : World) (r : bucket) (ctr : Container) (pod : option Pod).

Lemma added_lookup ctr pod configJSON stateJSON netNSPath deps r k :
  k ≠ ctrBkt → k ≠ podBkt → k ≠ volBkt →
  added ctr pod configJSON stateJSON netNSPath deps r !! k =
  registered ctr pod configJSON stateJSON netNSPath r !! k.
Proof.
  intros Hc Hp Hv. unfold added.
  by rewrite linkVolumes_lookup, linkPod_lookup, linkDependencies_lookup.
Qed.

Lemma added_lookup_ctr ctr pod configJSON stateJSON netNSPath deps r :
  added ctr pod configJSON stateJSON netNSPath deps r !! ctrBkt =
  foldl (linkDependency ctr) (registered ctr pod configJSON stateJSON netNSPath r) deps
    !! ctrBkt.
Proof.
  unfold added. rewrite linkVolumes_lookup by by_compute.
  by rewrite linkPod_lookup by by_compute.
Qed.

Lemma added_ids ctr pod configJSON stateJSON netNSPath deps r m :
  r !! idRegistryBkt = Some (Bkt m) →
  added ctr pod configJSON stateJSON netNSPath deps r !! idRegistryBkt =
  Some (Bkt (<[ctr_ID ctr := Val (ctr_Name ctr)]> m)).
Proof.
  intros Hm. rewrite added_lookup by by_compute. unfold registered.
  destruct (ctrNamespaceOf ctr); rewrite !wr_lookup_ne by by_compute;
    by rewrite (wr_lookup_eq _ _ _ _ _ Hm).
Qed.

Lemma added_names ctr pod configJSON stateJSON netNSPath deps r m :
  r !! nameRegistryBkt = Some (Bkt m) →
  added ctr pod configJSON stateJSON netNSPath deps r !! nameRegistryBkt =
  Some (Bkt (<[ctr_Name ctr := Val (ctr_ID ctr)]> m)).
Proof.
  intros Hm. rewrite added_lookup by by_compute. unfold registered.
  destruct (ctrNamespaceOf ctr); rewrite !wr_lookup_ne by by_compute;
    rewrite (wr_lookup_eq _ _ _ _ m); try done; by rewrite wr_lookup_ne by by_compute.
Qed.

Lemma added_all ctr pod configJSON stateJSON netNSPath deps r m :
  r !! allCtrsBkt = Some (Bkt m) →
  added ctr pod configJSON stateJSON netNSPath deps r !! allCtrsBkt =
  Some (Bkt (<[ctr_ID ctr := Val (ctr_Name ctr)]> m)).
Proof.
  intros Hm. rewrite added_lookup by by_compute. unfold registered.
  destruct (ctrNamespaceOf ctr); rewrite !wr_lookup_ne by by_compute;
    rewrite (wr_lookup_eq _ _ _ _ m); try done; by rewrite !wr_lookup_ne by by_compute.
Qed.

Lemma added_ns ctr pod configJSON stateJSON netNSPath deps r m :
  r !! nsRegistryBkt = Some (Bkt m) →
  added ctr pod configJSON stateJSON netNSPath deps r !! nsRegistryBkt =
  Some (Bkt (if decide (ctr_Namespace ctr = EmptyString) then m
             else <[ctr_ID ctr := Val (ctr_Namespace ctr)]> m)).
Proof.
  intros Hm. rewrite added_lookup by by_compute. unfold registered, ctrNamespaceOf.
  case_bool_decide as Hne.
  - rewrite decide_False by done. rewrite !wr_lookup_ne by by_compute.
    rewrite (wr_lookup_eq _ _ _ _ m); [done|]. by rewrite !wr_lookup_ne by by_compute.
  - rewrite decide_True by done. by rewrite !wr_lookup_ne by by_compute.
Qed.

Lemma added_frame ctr pod configJSON stateJSON netNSPath deps r k :
  k ∉ [idRegistryBkt; nameRegistryBkt; nsRegistryBkt; allCtrsBkt; ctrBkt; podBkt; volBkt] →
  added ctr pod configJSON stateJSON netNSPath deps r !! k = r !! k.
Proof.
  intros Hk. repeat (apply not_elem_of_cons in Hk as [? Hk]).
  rewrite added_lookup by done. apply registered_lookup.
  unfold registerKeys. repeat (apply not_elem_of_cons; split; [done|]). apply not_elem_of_nil.
Qed.

(** The pod bucket after the add is the pod bucket after [linkPod]. *)
Lemma added_pod ctr pod configJSON stateJSON netNSPath deps r :
  added ctr pod configJSON stateJSON netNSPath deps r !! podBkt =
  linkPod ctr pod r !! podBkt.
Proof.
  unfold added. rewrite linkVolumes_lookup by by_compute.
  assert (∀ r', r' !! podBkt = r !! podBkt →
                linkPod ctr pod r' !! podBkt = linkPod ctr pod r !! podBkt) as Hext.
  { intros r' Heq. destruct pod as [p|]; cbn [linkPod]; [|done].
    by rewrite !(wr_lookup podBkt podBkt), Heq. }
  apply Hext. rewrite linkDependencies_lookup by by_compute.
  apply registered_lookup. by_compute.
Qed.
End add_lookups.

(** X5: a successful [addContainer] extends the registries by exactly
    one entry each.  The ID was free in [id-registry] and the name in
    [name-registry]; afterwards [id-registry] maps the ID to the name,
    [name-registry] the name to the ID, [all-ctrs] the ID to the name, and
    [ns-registry] the ID to the namespace when the container has one and
    is untouched when it has none; every other entry of the four buckets,
    every top-level bucket other than these, [ctr], [pod] and [vol], and
    the trace are as before. *)
Theorem addContainer_registers (E : Externals) (s : BoltState) (ctr : Container)
    (pod : option Pod) (w w' : World) :
  addContainer E s ctr pod w = (Ret tt, w') →
  trace w' = trace w ∧
  (∃ mids, root w !! idRegistryBkt = Some (Bkt mids) ∧ mids !! ctr_ID ctr = None ∧
           root w' !! idRegistryBkt =
             Some (Bkt (<[ctr_ID ctr := Val (ctr_Name ctr)]> mids))) ∧
  (∃ mnames, root w !! nameRegistryBkt = Some (Bkt mnames) ∧
             mnames !! ctr_Name ctr = None ∧
             root w' !! nameRegistryBkt =
               Some (Bkt (<[ctr_Name ctr := Val (ctr_ID ctr)]> mnames))) ∧
  (∃ mall, root w !! allCtrsBkt = Some (Bkt mall) ∧
           root w' !! allCtrsBkt =
             Some (Bkt (<[ctr_ID ctr := Val (ctr_Name ctr)]> mall))) ∧
  (∃ mns, root w !! nsRegistryBkt = Some (Bkt mns) ∧
          root w' !! nsRegistryBkt =
            Some (Bkt (if decide (ctr_Namespace ctr = EmptyString) then mns
                       else <[ctr_ID ctr := Val (ctr_Namespace ctr)]> mns))) ∧
  (∀ k, k ∉ [idRegistryBkt; nameRegistryBkt; nsRegistryBkt; allCtrsBkt;
             ctrBkt; podBkt; volBkt] →
        root w' !! k = root w !! k).
Proof.
  intros (configJSON & stateJSON & _ & -> & Hreg & _ & Hrun & _)%addContainer_Ret.
  apply addContainer_register_Ret in Hrun
    as (_ & (mids & Hids & Hid) & (mnames & Hnames & Hname) & (mall & Hall & _) & _).
  destruct Hreg as (_ & _ & [mns Hns] & _).
  cbn [set_root root trace]. split; [done|].
  split; [|split; [|split; [|split]]].
  - exists mids. split; [done|]. split; [done|]. by apply added_ids.
  - exists mnames. split; [done|]. split; [done|]. by apply added_names.
  - exists mall. split; [done|]. by apply added_all.
  - exists mns. split; [done|]. by apply added_ns.
  - intros k Hk. by apply added_frame.
Qed.

Lemma addContainer_registers_witness :
  let ctr := Sample.container "c1" "web" "prod" [] in
  let w := Sample.world
             (wr [idRegistryBkt] (insert "c0" (Val "db")) Sample.emptyDB) in
  let w' := (addContainer Sample.E (Sample.s "prod") ctr None w).2 in
  addContainer Sample.E (Sample.s "prod") ctr None w = (Ret tt, w') ∧
  root w' !! idRegistryBkt = Some (Bkt (<[ "c1" := Val "web" ]> {[ "c0" := Val "db" ]})) ∧
  root w' !! nameRegistryBkt = Some (Bkt {[ "web" := Val "c1" ]}) ∧
  root w' !! nsRegistryBkt = Some (Bkt {[ "c1" := Val "prod" ]}) ∧
  root w' !! allPodsBkt = root w !! allPodsBkt.
Proof.
  intros ctr w w'.
  assert (addContainer Sample.E (Sample.s "prod") ctr None w = (Ret tt, w')) as Hrun
    by (vm_compute; reflexivity).
  split; [exact Hrun|].
  destruct (addContainer_registers Sample.E (Sample.s "prod") ctr None w w' Hrun)
    as (_ & (mids & Hids & _ & Hids') & (mnames & Hnames & _ & Hnames') & _ &
        (mns & Hns & Hns') & Hframe).
  vm_compute in Hids. injection Hids as <-.
  vm_compute in Hnames. injection Hnames as <-.
  vm_compute in Hns. injection Hns as <-.
  split; [exact Hids'|]. split; [exact Hnames'|]. split; [exact Hns'|].
  apply Hframe. by_compute.
Defined.

Section add_record.
Implicit Types (w : World) (r : bucket) (ctr : Container) (pod : option Pod).

Lemma newCtrRecord_lookups ctr pod configJSON stateJSON netNSPath :
  let m := newCtrRecord ctr pod configJSON stateJSON netNSPath in
  m !! configKey = Some (Val configJSON) ∧
  m !! stateKey = Some (Val stateJSON) ∧
  m !! namespaceKey = (if decide (ctr_Namespace ctr = EmptyString) then None
                       else Some (Val (ctr_Namespace ctr))) ∧
  m !! podIDKey = (λ p, Val (pod_ID p)) <$> pod ∧
  m !! netNSKey = (if decide (netNSPath = EmptyString) then None
                   else Some (Val netNSPath)) ∧
  m !! dependenciesBkt = Some (Bkt ∅) ∧
  (∀ k, k ∉ [configKey; stateKey; namespaceKey; podIDKey; netNSKey; dependenciesBkt] →
        m !! k = None).
Proof.
  unfold newCtrRecord, ctrNamespaceOf. cbv zeta.
  destruct (decide (ctr_Namespace ctr = EmptyString)) as [Hns|Hns];
    [rewrite (bool_decide_eq_false_2 (ctr_Namespace ctr ≠ EmptyString)) by auto
    |rewrite (bool_decide_eq_true_2 (ctr_Namespace ctr ≠ EmptyString)) by auto];
    (destruct (decide (netNSPath = EmptyString)) as [Hnet|Hnet];
     [rewrite (bool_decide_eq_false_2 (netNSPath ≠ EmptyString)) by auto
     |rewrite (bool_decide_eq_true_2 (netNSPath ≠ EmptyString)) by auto]);
    destruct pod as [pod|]; cbn [fmap option_fmap option_map].
  all: repeat split;
    try (repeat (rewrite lookup_insert_ne by by_compute);
         first [by rewrite lookup_insert_eq | by rewrite lookup_empty]).
  all: intros k Hk; repeat (apply not_elem_of_cons in Hk as [? Hk]);
    repeat (rewrite lookup_insert_ne by done); by rewrite lookup_empty.
Qed.

Lemma registered_ctr ctr pod configJSON stateJSON netNSPath r mb :
  r !! ctrBkt = Some (Bkt mb) →
  registered ctr pod configJSON stateJSON netNSPath r !! ctrBkt =
  Some (Bkt (<[ctr_ID ctr := Bkt (newCtrRecord ctr pod configJSON stateJSON netNSPath)]> mb)).
Proof.
  intros Hmb. unfold registered.
  rewrite (wr_lookup_eq _ _ _ _ mb); [done|].
  destruct (ctrNamespaceOf ctr); by rewrite !wr_lookup_ne by by_compute.
Qed.

Lemma linkDependencies_top ctr deps r mb :
  r !! ctrBkt = Some (Bkt mb) →
  foldl (linkDependency ctr) r deps =
  <[ctrBkt := Bkt (foldl (λ m D, wr [D; dependenciesBkt]
                                    (insert (ctr_ID ctr) (Val (ctr_Name ctr))) m) mb deps)]> r.
Proof.
  exact (foldl_wr_top ctrBkt (λ D, [D; dependenciesBkt])
           (insert (ctr_ID ctr) (Val (ctr_Name ctr))) deps r mb).
Qed.

(** The entry of a container in [ctr] after the loop over the
    dependencies. *)
Lemma linkDependencies_entry ctr deps (mb : bucket) D :
  foldl (λ m D, wr [D; dependenciesBkt] (insert (ctr_ID ctr) (Val (ctr_Name ctr))) m)
    mb deps !! D =
  if decide (D ∈ deps) then
    match mb !! D with
    | Some (Bkt mD) =>
        Some (Bkt (wr [dependenciesBkt] (insert (ctr_ID ctr) (Val (ctr_Name ctr))) mD))
    | x => x
    end
  else mb !! D.
Proof.
  rewrite (foldl_wr_lookup id) by (intros m; apply insert_insert_eq).
  rewrite list_fmap_id. case_decide; [|done]. by rewrite wr_lookup, decide_True.
Qed.
End add_record.

(** The record of the container after a successful add. *)
Lemma added_record E s ctr pod w w' :
  addContainer E s ctr pod w = (Ret tt, w') →
  ∃ configJSON stateJSON mb,
    prepared E s ctr configJSON stateJSON ∧
    root w !! ctrBkt = Some (Bkt mb) ∧ mb !! ctr_ID ctr = None ∧
    walk [ctrBkt; ctr_ID ctr] (root w') =
      Some (if decide (ctr_ID ctr ∈ ctr_Dependencies E ctr)
            then <[dependenciesBkt := Bkt {[ ctr_ID ctr := Val (ctr_Name ctr) ]}]>
                   (newCtrRecord ctr pod configJSON stateJSON (getNetNSPath E ctr))
            else newCtrRecord ctr pod configJSON stateJSON (getNetNSPath E ctr)).
Proof.
  intros (configJSON & stateJSON & Hprep & -> & _ & _ & Hrun & _)%addContainer_Ret.
  apply addContainer_register_Ret in Hrun as (_ & _ & _ & _ & (mb & Hmb & Hfree) & _).
  exists configJSON, stateJSON, mb.
  split; [done|]. split; [done|]. split; [done|].
  cbn [set_root root walk]. rewrite added_lookup_ctr.
  rewrite (linkDependencies_top _ _ _ _ (registered_ctr _ _ _ _ _ _ _ Hmb)).
  rewrite lookup_insert_eq, linkDependencies_entry, lookup_insert_eq.
  destruct (decide (ctr_ID ctr ∈ ctr_Dependencies E ctr)); [|done].
  cbn [wr].
  destruct (newCtrRecord_lookups ctr pod configJSON stateJSON (getNetNSPath E ctr))
    as (_ & _ & _ & _ & _ & -> & _).
  by rewrite insert_empty.
Qed.

(** X6: a successful [addContainer] creates the record of the container.
    No key of [ctr] was under the ID; afterwards the bucket [ctr]/ID holds
    the marshalled configuration and state, the namespace only when it is
    not empty, the pod ID only when a pod was given, the network namespace
    path only when it is not empty, and a [dependencies] bucket that is
    empty unless the container lists itself as a dependency; and it holds
    nothing else. *)
Theorem addContainer_record (E : Externals) (s : BoltState) (ctr : Container)
    (pod : option Pod) (w w' : World) :
  addContainer E s ctr pod w = (Ret tt, w') →
  ∃ configJSON stateJSON mb mA,
    json_Marshal_config E (ctr_config ctr) = inr configJSON ∧
    json_Marshal_state E (ctr_state ctr) = inr stateJSON ∧
    root w !! ctrBkt = Some (Bkt mb) ∧ mb !! ctr_ID ctr = None ∧
    walk [ctrBkt; ctr_ID ctr] (root w') = Some mA ∧
    mA !! configKey = Some (Val configJSON) ∧
    mA !! stateKey = Some (Val stateJSON) ∧
    mA !! namespaceKey = (if decide (ctr_Namespace ctr = EmptyString) then None
                          else Some (Val (ctr_Namespace ctr))) ∧
    mA !! podIDKey = (λ p, Val (pod_ID p)) <$> pod ∧
    mA !! netNSKey = (if decide (getNetNSPath E ctr = EmptyString) then None
                      else Some (Val (getNetNSPath E ctr))) ∧
    mA !! dependenciesBkt =
      Some (Bkt (if decide (ctr_ID ctr ∈ ctr_Dependencies E ctr)
                 then {[ ctr_ID ctr := Val (ctr_Name ctr) ]} else ∅)) ∧
    (∀ k, k ∉ [configKey; stateKey; namespaceKey; podIDKey; netNSKey; dependenciesBkt] →
          mA !! k = None).
Proof.
  intros (configJSON & stateJSON & mb & Hprep & Hmb & Hfree & HmA)%added_record.
  destruct Hprep as (_ & Hc & Hs & _).
  pose proof (newCtrRecord_lookups ctr pod configJSON stateJSON (getNetNSPath E ctr))
    as Hrec.
  cbv zeta in Hrec. destruct Hrec as (Hcfg & Hst & Hns & Hpod & Hnet & Hdeps & Hrest).
  exists configJSON, stateJSON, mb. eexists.
  split; [done|]. split; [done|]. split; [done|]. split; [done|]. split; [exact HmA|].
  destruct (decide (ctr_ID ctr ∈ ctr_Dependencies E ctr)).
  - rewrite !lookup_insert_ne by by_compute. rewrite lookup_insert_eq.
    repeat split; try done. intros k Hk. rewrite lookup_insert_ne; [by apply Hrest|].
    intros <-. apply Hk. by_compute.
  - done.
Qed.

Lemma addContainer_record_witness :
  let ctr := Sample.container "c1" "web" EmptyString [] in
  let pod := Some (Sample.pod "p1" "db" EmptyString) in
  let w := Sample.world (Sample.withPod "p1" (Sample.podRecord None ∅) Sample.emptyDB) in
  let w' := (addContainer Sample.E (Sample.s EmptyString) ctr pod w).2 in
  addContainer Sample.E (Sample.s EmptyString) ctr pod w = (Ret tt, w') ∧
  ∃ mA, walk [ctrBkt; "c1"] (root w') = Some mA ∧
        mA !! configKey = Some (Val "config:c1") ∧
        mA !! namespaceKey = None ∧
        mA !! podIDKey = Some (Val "p1") ∧
        mA !! dependenciesBkt = Some (Bkt ∅).
Proof.
  intros ctr pod w w'.
  assert (addContainer Sample.E (Sample.s EmptyString) ctr pod w = (Ret tt, w')) as Hrun
    by (vm_compute; reflexivity).
  split; [exact Hrun|].
  destruct (addContainer_record Sample.E (Sample.s EmptyString) ctr pod w w' Hrun)
    as (configJSON & stateJSON & mb & mA & Hc & _ & _ & _ & HmA & Hcfg & _ & Hns & Hpod & _ &
        Hdeps & _).
  vm_compute in Hc. injection Hc as <-.
  exists mA. split; [exact HmA|]. split; [exact Hcfg|]. split; [exact Hns|].
  split; [exact Hpod|]. exact Hdeps.
Defined.

Section add_links.
Implicit Types (w : World) (r : bucket) (ctr : Container) (pod : option Pod).

Lemma wr_top_bucket k f (m : bucket) :
  wr [k] f m = match m !! k with Some (Bkt b) => <[k := Bkt (f b)]> m | _ => m end.
Proof. reflexivity. Qed.

Lemma enterVolume_idemp ctr md : enterVolume ctr (enterVolume ctr md) = enterVolume ctr md.
Proof.
  unfold enterVolume. destruct (node_value (md !! ctr_ID ctr)) eqn:Hget; [by rewrite Hget|].
  by rewrite lookup_insert_eq.
Qed.

Lemma linkVolumes_top ctr vols r mv :
  r !! volBkt = Some (Bkt mv) →
  foldl (linkVolume ctr) r vols =
  <[volBkt := Bkt (foldl (λ m vol, wr [vol_Name vol; volDependenciesBkt] (enterVolume ctr) m)
                     mv vols)]> r.
Proof.
  exact (foldl_wr_top volBkt (λ vol, [vol_Name vol; volDependenciesBkt])
           (enterVolume ctr) vols r mv).
Qed.

Lemma linkVolumes_entry ctr vols (mv : bucket) V :
  foldl (λ m vol, wr [vol_Name vol; volDependenciesBkt] (enterVolume ctr) m) mv vols !! V =
  if decide (V ∈ vol_Name <$> vols) then
    match mv !! V with
    | Some (Bkt mV) => Some (Bkt (wr [volDependenciesBkt] (enterVolume ctr) mV))
    | x => x
    end
  else mv !! V.
Proof.
  rewrite (foldl_wr_lookup vol_Name) by apply enterVolume_idemp.
  case_decide; [|done]. by rewrite wr_lookup, decide_True.
Qed.

Lemma entered_link ctr r vol vol' : entered ctr r vol → entered ctr (linkVolume ctr r vol') vol.
Proof.
  intros (md & v & Hmd & Hv). unfold linkVolume, entered.
  destruct (decide (vol_Name vol' = vol_Name vol)) as [Heq|Hne].
  - rewrite Heq, (walk_wr_same _ _ _ _ Hmd). exists (enterVolume ctr md), v. split; [done|].
    unfold enterVolume. by rewrite Hv.
  - exists md, v. split; [|done]. revert Hmd. cbn [walk].
    destruct (r !! volBkt) as [[|mv]|] eqn:Hvol; try done.
    rewrite (wr_lookup_eq _ _ _ _ _ Hvol), wr_lookup_ne; done.
Qed.

Lemma addContainer_volumes_entered ctr vols w w' :
  for_range vols (addContainer_volume ctr (Some [volBkt])) w = (Ret tt, w') →
  Forall (entered ctr (root w')) vols.
Proof.
  revert w. induction vols as [|vol vols IH]; intros w; cbn [for_range]; [constructor|].
  intros H. bind_Ret H u w1 Hturn. destruct u.
  pose proof (addContainer_volumes_Ret _ _ _ _ H) as Hw'.
  constructor; [|by eapply IH].
  apply addContainer_volume_Ret in Hturn as (-> & md & Hmd & Hnb).
  rewrite Hw'. cbn [set_root root]. clear H Hw' IH.
  assert (entered ctr (linkVolume ctr (root w) vol) vol) as Hent.
  { unfold linkVolume, entered. rewrite (walk_wr_same _ _ _ _ Hmd). unfold enterVolume.
    destruct (md !! ctr_ID ctr) as [[v|b]|] eqn:Hget; cbn [node_value].
    - by exists md, v.
    - destruct Hnb. by exists b.
    - eexists _, _. split; [done|]. by rewrite lookup_insert_eq. }
  revert Hent. generalize (linkVolume ctr (root w) vol). intros r.
  induction vols as [|vol' vols IH] in r |- *; cbn [foldl]; [done|].
  intros Hent. by apply IH, entered_link.
Qed.

Lemma addContainer_entered E s ctr pod w w' :
  addContainer E s ctr pod w = (Ret tt, w') →
  Forall (entered ctr (root w')) (cfg_NamedVolumes (ctr_config ctr)).
Proof.
  intros (cj & sj & _ & Htx)%addContainer_Ret_inv.
  unfold addContainer_tx in Htx.
  bind_Ret Htx hs w0 Hopen. destruct hs as [[cb vb] pc].
  destruct (addContainer_open_inv _ _ _ _ _ _ _ _ _ _ Hopen) as (_ & _ & -> & _).
  bind_Ret Htx u w1 Hdeps. bind_Ret Htx u' w2 Hput.
  by apply addContainer_volumes_entered in Htx.
Qed.
End add_links.

(** X7: a successful [addContainer] enters the container in the
    [dependencies] bucket of each of its dependencies, and touches no
    other container.  In the committed store every declared dependency
    has a record, in the pod and in the namespace of the container, that
    lists the container; the record of any other container is as before,
    that of a dependency differs by that one entry; and no container
    other than the new one appears. *)
Theorem addContainer_links_dependencies (E : Externals) (s : BoltState) (ctr : Container)
    (pod : option Pod) (w w' : World) :
  addContainer E s ctr pod w = (Ret tt, w') →
  (∀ D, D ∈ ctr_Dependencies E ctr → linked ctr pod (root w') D) ∧
  (∀ D mD, D ≠ ctr_ID ctr → walk [ctrBkt; D] (root w) = Some mD →
     ∃ mD', walk [ctrBkt; D] (root w') = Some mD' ∧
            (∀ k, k ≠ dependenciesBkt → mD' !! k = mD !! k) ∧
            (D ∉ ctr_Dependencies E ctr → mD' = mD) ∧
            (D ∈ ctr_Dependencies E ctr →
             ∃ md, mD !! dependenciesBkt = Some (Bkt md) ∧
                   mD' !! dependenciesBkt =
                     Some (Bkt (<[ctr_ID ctr := Val (ctr_Name ctr)]> md)))) ∧
  (∀ D, D ≠ ctr_ID ctr → walk [ctrBkt; D] (root w) = None →
        walk [ctrBkt; D] (root w') = None).
Proof.
  intros (configJSON & stateJSON & _ & -> & _ & _ & Hrun & Hlinked)%addContainer_Ret.
  apply addContainer_register_Ret in Hrun as (_ & _ & _ & _ & (mb & Hmb & Hfree) & _).
  rewrite Forall_forall in Hlinked.
  assert (∀ D, D ≠ ctr_ID ctr →
            walk [ctrBkt; D] (root (set_root (added ctr pod configJSON stateJSON
                     (getNetNSPath E ctr) (ctr_Dependencies E ctr)) w)) =
            match (if decide (D ∈ ctr_Dependencies E ctr) then
                     match mb !! D with
                     | Some (Bkt mD) =>
                         Some (Bkt (wr [dependenciesBkt]
                                      (insert (ctr_ID ctr) (Val (ctr_Name ctr))) mD))
                     | x => x
                     end
                   else mb !! D) with
            | Some (Bkt b) => Some b
            | _ => None
            end) as Hentry.
  { intros D HD. cbn [set_root root walk]. rewrite added_lookup_ctr.
    rewrite (linkDependencies_top _ _ _ _ (registered_ctr _ _ _ _ _ _ _ Hmb)).
    rewrite lookup_insert_eq, linkDependencies_entry, lookup_insert_ne by done.
    by destruct (if decide _ then _ else _) as [[|b]|]. }
  split; [exact Hlinked|]. split.
  - intros D mD HD HwD. rewrite (Hentry D HD).
    assert (mb !! D = Some (Bkt mD)) as HmD.
    { cbn [walk] in HwD. rewrite Hmb in HwD.
      destruct (mb !! D) as [[|b]|]; try done. by injection HwD as ->. }
    rewrite HmD. destruct (decide (D ∈ ctr_Dependencies E ctr)) as [Hin|Hnin].
    + eexists. split; [done|].
      destruct (Hlinked D Hin) as (mD' & md' & HwD' & _ & _ & Hdeps' & _).
      rewrite (Hentry D HD), HmD, decide_True in HwD' by done. injection HwD' as <-.
      rewrite wr_top_bucket.
      destruct (mD !! dependenciesBkt) as [[v|md]|] eqn:Hdeps.
      * by rewrite Hdeps in Hdeps'.
      * split; [by intros k Hk; rewrite lookup_insert_ne|]. split; [done|].
        intros _. exists md. split; [done|]. by rewrite lookup_insert_eq.
      * by rewrite Hdeps in Hdeps'.
    + exists mD. by repeat split.
  - intros D HD HwD. rewrite (Hentry D HD).
    assert (¬ is_bkt (mb !! D)) as Hnb.
    { intros [b Hb]. cbn [walk] in HwD. by rewrite Hmb, Hb in HwD. }
    destruct (mb !! D) as [[v|b]|]; [by case_decide| |by case_decide].
    destruct Hnb. by eexists.
Qed.

Lemma addContainer_links_dependencies_witness :
  let ctr := Sample.container "B" "b" EmptyString [] in
  let w := Sample.world
             (Sample.withCtr "A" (Sample.ctrRecord None None {[ "Z" := Val "z" ]})
                Sample.emptyDB) in
  let w' := (addContainer Sample.E_depA (Sample.s EmptyString) ctr None w).2 in
  addContainer Sample.E_depA (Sample.s EmptyString) ctr None w = (Ret tt, w') ∧
  linked ctr None (root w') "A" ∧
  walk [ctrBkt; "A"; dependenciesBkt] (root w') =
    Some (<[ "B" := Val "b" ]> {[ "Z" := Val "z" ]}) ∧
  walk [ctrBkt; "Q"] (root w') = None.
Proof.
  intros ctr w w'.
  assert (addContainer Sample.E_depA (Sample.s EmptyString) ctr None w = (Ret tt, w'))
    as Hrun by (vm_compute; reflexivity).
  split; [exact Hrun|].
  destruct (addContainer_links_dependencies Sample.E_depA (Sample.s EmptyString)
              ctr None w w' Hrun) as (Hlinked & _ & Hnone).
  split; [apply Hlinked; vm_compute; apply elem_of_cons; by left|].
  split; [vm_compute; reflexivity|].
  apply Hnone; [discriminate|vm_compute; reflexivity].
Defined.

(** X8: a container that another one was added on top of cannot be
    removed.  After a successful [addContainer] of a container that
    declares [D] as a dependency, no removal of [D] succeeds, whatever
    the state handle, the pod and the collaborators, and the failed
    removal leaves the store as it is; when [D] passes the checks on its
    pod and its namespace, the error is [ErrCtrExists]. *)
Theorem addContainer_protects_dependencies (E : Externals) (s : BoltState)
    (ctr : Container) (pod : option Pod) (w w' : World) (D : string)
    (E' : Externals) (s' : BoltState) (ctrD : Container) (podD : option Pod) :
  addContainer E s ctr pod w = (Ret tt, w') →
  D ∈ ctr_Dependencies E ctr →
  ctr_ID ctrD = D →
  (∀ o w'', RemoveContainer E' s' ctrD podD w' = (o, w'') →
            o ≠ Ret tt ∧ root w'' = root w') ∧
  (unlink_ready (root w') ctrD podD → namespace_ok s' ctrD podD →
   ∃ e w'', RemoveContainer E' s' ctrD podD w' = (Err e, w'') ∧
            errors_Cause e = ErrCtrExists).
Proof.
  intros Hadd HD <-.
  pose proof Hadd as (configJSON & stateJSON & _ & _ & _ & _ & _ & Hlinked)%addContainer_Ret.
  rewrite Forall_forall in Hlinked.
  destruct (Hlinked _ HD) as (mD & md & HwD & _ & _ & Hdeps & Hid).
  assert (md ≠ ∅) as Hne by (intros ->; by rewrite lookup_empty in Hid).
  split.
  - intros o w''. unfold RemoveContainer, db_Update.
    destruct (removeContainer E' s' ctrD podD w') as [o1 w1] eqn:Hrun.
    destruct (removeContainer_wp E' s' ctrD podD w' _ _ Hrun) as (_ & _ & Hnever).
    assert (o1 ≠ Ret tt) as Ho1.
    { apply (Hnever md); [|done].
      change [ctrBkt; ctr_ID ctrD; dependenciesBkt]
        with ([ctrBkt; ctr_ID ctrD] ++ [dependenciesBkt]).
      by rewrite walk_snoc, HwD, Hdeps. }
    destruct o1 as [[]|e|]; [done|..]; by intros [= <- <-].
  - intros Hready Hnsok.
    apply addContainer_Ret_inv in Hadd as (cj & sj & _ & Htx).
    destruct (addContainer_tx_wp _ _ _ _ _ _ _ _ _ Htx) as [_ Hpost].
    destruct (Hpost eq_refl) as (Hreg & _ & _).
    destruct (removeContainer_referenced E' s' ctrD podD w' mD md Hreg Hready Hnsok
                HwD Hdeps Hne) as (w1 & Hrun & _).
    unfold RemoveContainer, db_Update. rewrite Hrun. by eexists _, _.
Qed.

Lemma addContainer_protects_dependencies_witness :
  let ctr := Sample.container "B" "b" EmptyString [] in
  let ctrA := Sample.container "A" "a" EmptyString [] in
  let w := Sample.world (Sample.withCtr "A" (Sample.ctrRecord None None ∅) Sample.emptyDB) in
  let w' := (addContainer Sample.E_depA (Sample.s EmptyString) ctr None w).2 in
  addContainer Sample.E_depA (Sample.s EmptyString) ctr None w = (Ret tt, w') ∧
  ∃ e w'', RemoveContainer Sample.E_depA (Sample.s EmptyString) ctrA None w' = (Err e, w'') ∧
           errors_Cause e = ErrCtrExists.
Proof.
  intros ctr ctrA w w'.
  assert (addContainer Sample.E_depA (Sample.s EmptyString) ctr None w = (Ret tt, w'))
    as Hrun by (vm_compute; reflexivity).
  split; [exact Hrun|].
  apply (addContainer_protects_dependencies Sample.E_depA (Sample.s EmptyString) ctr None
           w w' "A" Sample.E_depA (Sample.s EmptyString) ctrA None Hrun).
  - vm_compute. apply elem_of_cons. by left.
  - reflexivity.
  - exact I.
  - left. reflexivity.
Defined.

(** X9: a successful [addContainer] enters the container in its pod and
    in its named volumes, and touches no other pod or volume.  The
    [containers] bucket of the pod gains the entry ID to name; the bucket
    of any other pod is as before; the [vol-dependencies] bucket of a
    named volume gains the entry ID to ID unless [Get] found one there,
    that of any other volume is as before; and every named volume ends
    with an entry for the container. *)
Theorem addContainer_joins (E : Externals) (s : BoltState) (ctr : Container)
    (pod : option Pod) (w w' : World) :
  addContainer E s ctr pod w = (Ret tt, w') →
  (∀ p, pod = Some p →
     ∃ mc, walk [podBkt; pod_ID p; containersBkt] (root w) = Some mc ∧
           walk [podBkt; pod_ID p; containersBkt] (root w') =
             Some (<[ctr_ID ctr := Val (ctr_Name ctr)]> mc)) ∧
  (∀ P, pod_ID <$> pod ≠ Some P → walk [podBkt; P] (root w') = walk [podBkt; P] (root w)) ∧
  (∀ V md, walk [volBkt; V; volDependenciesBkt] (root w) = Some md →
     walk [volBkt; V; volDependenciesBkt] (root w') =
       Some (if decide (V ∈ vol_Name <$> cfg_NamedVolumes (ctr_config ctr))
             then enterVolume ctr md else md)) ∧
  (∀ vol, vol ∈ cfg_NamedVolumes (ctr_config ctr) → entered ctr (root w') vol).
Proof.
  intros Hadd.
  pose proof Hadd as (configJSON & stateJSON & _ & -> & Hreg & Hready & _ & _)%addContainer_Ret.
  cbn [set_root root].
  set (r1 := foldl (linkDependency ctr)
               (registered ctr pod configJSON stateJSON (getNetNSPath E ctr) (root w))
               (ctr_Dependencies E ctr)).
  assert (∀ k, k ≠ ctrBkt → k ∉ registerKeys → r1 !! k = root w !! k) as Hr1.
  { intros k Hk Hk'. unfold r1. rewrite linkDependencies_lookup by done.
    by apply registered_lookup. }
  pose proof (added_pod ctr pod configJSON stateJSON (getNetNSPath E ctr)
                (ctr_Dependencies E ctr) (root w)) as Hpod.
  split; [|split; [|split]].
  - intros p ->. destruct Hready as (mp & mc & Hmp & Hmc & _).
    assert (walk [podBkt; pod_ID p; containersBkt] (root w) = Some mc) as Hwc.
    { change [podBkt; pod_ID p; containersBkt] with ([podBkt; pod_ID p] ++ [containersBkt]).
      by rewrite walk_snoc, Hmp, Hmc. }
    exists mc. split; [done|]. rewrite (walk_ext _ _ _ _ Hpod). cbn [linkPod].
    by apply walk_wr_same.
  - intros P HP. rewrite (walk_ext _ _ _ _ Hpod).
    destruct pod as [p|]; cbn [linkPod]; [|done].
    cbn [walk]. rewrite wr_lookup, decide_True by done.
    destruct (root w !! podBkt) as [[|mpod]|]; try done.
    rewrite wr_lookup_ne; [done|]. intros Heq. apply HP. cbn. by rewrite Heq.
  - intros V md Hmd.
    assert (∃ mv mV, root w !! volBkt = Some (Bkt mv) ∧ mv !! V = Some (Bkt mV) ∧
                     mV !! volDependenciesBkt = Some (Bkt md)) as (mv & mV & Hmv & HmV & HmdV).
    { cbn [walk] in Hmd. destruct (root w !! volBkt) as [[|mv]|] eqn:Hmv; try done.
      destruct (mv !! V) as [[|mV]|] eqn:HmV; try done.
      destruct (mV !! volDependenciesBkt) as [[|md']|] eqn:HmdV; try done.
      injection Hmd as ->. by exists mv, mV. }
    unfold added. fold r1.
    rewrite (linkVolumes_top ctr _ _ mv)
      by (rewrite linkPod_lookup by by_compute; rewrite Hr1; [done|by_compute..]).
    cbn [walk]. rewrite lookup_insert_eq, linkVolumes_entry, HmV.
    case_decide.
    + rewrite wr_top_bucket, HmdV. by rewrite lookup_insert_eq.
    + by rewrite HmdV.
  - apply Forall_forall. exact (addContainer_entered _ _ _ _ _ _ Hadd).
Qed.

Lemma addContainer_joins_witness :
  let ctr := Sample.container "c1" "web" EmptyString ["V"] in
  let pod := Some (Sample.pod "p1" "db" EmptyString) in
  let w := Sample.world (Sample.withPod "p1" (Sample.podRecord None ∅)
             (Sample.withVolume "V" (Sample.volumeRecord ∅)
                (Sample.withVolume "U" (Sample.volumeRecord ∅) Sample.emptyDB))) in
  let w' := (addContainer Sample.E (Sample.s EmptyString) ctr pod w).2 in
  addContainer Sample.E (Sample.s EmptyString) ctr pod w = (Ret tt, w') ∧
  walk [podBkt; "p1"; containersBkt] (root w') = Some {[ "c1" := Val "web" ]} ∧
  walk [volBkt; "V"; volDependenciesBkt] (root w') = Some {[ "c1" := Val "c1" ]} ∧
  walk [volBkt; "U"; volDependenciesBkt] (root w') = Some ∅.
Proof.
  intros ctr pod w w'.
  assert (addContainer Sample.E (Sample.s EmptyString) ctr pod w = (Ret tt, w')) as Hrun
    by (vm_compute; reflexivity).
  split; [exact Hrun|].
  destruct (addContainer_joins Sample.E (Sample.s EmptyString) ctr pod w w' Hrun)
    as (Hpod & _ & Hvol & _).
  split; [|split].
  - destruct (Hpod _ eq_refl) as (mc & Hmc & Hmc').
    assert (Some mc = Some ∅) as [= ->] by (rewrite <- Hmc; vm_compute; reflexivity).
    etransitivity; [exact Hmc'|]. by rewrite insert_empty.
  - rewrite (Hvol "V" ∅) by (vm_compute; reflexivity). vm_compute. reflexivity.
  - rewrite (Hvol "U" ∅) by (vm_compute; reflexivity). vm_compute. reflexivity.
Defined.

(** X10: what was added can be hydrated.  After a successful
    [addContainer], when the codec reads back the configuration it
    marshalled, the lock manager knows the lock and the OCI runtime of the
    configuration resolves, [getContainerFromDB] on the ID returns nil
    and the object holds that configuration, the lock, the runtime, and is
    valid; the state handle's namespace never stands in the way, since the
    add checked it. *)
Theorem addContainer_then_hydrate (E : Externals) (s : BoltState) (ctr : Container)
    (pod : option Pod) (w w' : World) (configJSON : string) (ctr0 : Container)
    (lock : Lock) (ociRuntime : OCIRuntime) :
  addContainer E s ctr pod w = (Ret tt, w') →
  namespace_set s →
  json_Marshal_config E (ctr_config ctr) = inr configJSON →
  json_Unmarshal_ctr E configJSON (ctr_config ctr0) = (ctr_config ctr, None) →
  lockManager_RetrieveLock (runtime s) (cfg_LockID (ctr_config ctr)) = inr lock →
  resolveOCIRuntime E s (ctr_config ctr) = Some ociRuntime →
  getContainerFromDB E s (ctr_ID ctr) ctr0 (Some [ctrBkt]) w' =
    (Ret (mkContainer (ctr_config ctr) (ctr_state ctr0) (Some lock) (Some ociRuntime)
            (Some (runtime s)) true, None), w').
Proof.
  intros Hadd Hset Hmarshal Hcodec Hlock Hoci.
  pose proof Hadd as (cj & sj & mb & Hprep & _ & _ & HmA)%added_record.
  destruct Hprep as (Hns & Hc & _). rewrite Hmarshal in Hc. injection Hc as <-.
  set (mA := if decide (ctr_ID ctr ∈ ctr_Dependencies E ctr) then _ else _) in HmA.
  pose proof (newCtrRecord_lookups ctr pod configJSON sj (getNetNSPath E ctr)) as Hrec.
  cbv zeta in Hrec. destruct Hrec as (Hcfg & _ & Hnsk & _).
  assert (mA !! configKey = Some (Val configJSON) ∧
          node_value (mA !! namespaceKey) = ctrNamespaceOf ctr) as [HcfgA HnsA].
  { unfold mA. destruct (decide (ctr_ID ctr ∈ _));
      rewrite ?lookup_insert_ne by by_compute; rewrite Hcfg, Hnsk;
      (split; [done|]); unfold ctrNamespaceOf; case_decide as Hn.
    all: first [ by rewrite bool_decide_eq_false_2 by auto
               | by rewrite bool_decide_eq_true_2 by auto ]. }
  assert (∃ mb', walk [ctrBkt] (root w') = Some mb' ∧ mb' !! ctr_ID ctr = Some (Bkt mA))
    as (mb' & Hmb' & HmbA).
  { revert HmA. cbn [walk]. destruct (root w' !! ctrBkt) as [[|mb']|]; try done.
    destruct (mb' !! ctr_ID ctr) as [[|b]|] eqn:Hb; try done. intros [= <-]. by exists mb'. }
  assert (walk ([ctrBkt] ++ [ctr_ID ctr]) (root w') = Some mA) as HwA by exact HmA.
  unfold getContainerFromDB.
  rewrite (mbind_Ret _ _ _ _ _ (bkt_Bucket_at _ _ _ _ Hmb')), (sub_handle_Some _ _ _ _ HmbA).
  assert (bool_decide (namespaceBytes s ≠ None) &&
          negb (bytes_Equal (namespaceBytes s)
                  (match namespaceBytes s with Some _ => ctrNamespaceOf ctr | None => None end))
          = false) as Hpass.
  { unfold namespace_set in Hset. rewrite Hset.
    destruct (decide (namespace s = EmptyString)) as [Hempty|Hempty]; [done|].
    destruct Hns as [?|Heq]; [done|]. cbn. apply negb_false_iff, bool_decide_eq_true.
    unfold ctrNamespaceOf. rewrite <- Heq. by rewrite bool_decide_eq_true_2. }
  destruct (namespaceBytes s) as [nb|] eqn:Hnb.
  - rewrite (mbind_Ret _ _ _ _ _ (bkt_Get_at _ namespaceKey _ _ HwA)), HnsA, Hpass.
    rewrite (mbind_Ret _ _ _ _ _ (bkt_Get_at _ configKey _ _ HwA)), HcfgA. cbn [node_value].
    rewrite Hcodec, Hlock. unfold resolveOCIRuntime in Hoci. cbv zeta in Hoci.
    by rewrite Hoci.
  - rewrite (mbind_Ret _ _ _ None w') by done. cbn [andb bool_decide]. rewrite Hpass.
    rewrite (mbind_Ret _ _ _ _ _ (bkt_Get_at _ configKey _ _ HwA)), HcfgA. cbn [node_value].
    rewrite Hcodec, Hlock. unfold resolveOCIRuntime in Hoci. cbv zeta in Hoci.
    by rewrite Hoci.
Qed.

Lemma addContainer_then_hydrate_witness :
  let ctr := Sample.container "c1" "web" "prod" [] in
  let s := Sample.s "prod" in
  let w := Sample.world Sample.emptyDB in
  let w' := (addContainer Sample.E s ctr None w).2 in
  addContainer Sample.E s ctr None w = (Ret tt, w') ∧
  getContainerFromDB Sample.E s "c1" ctr (Some [ctrBkt]) w' =
    (Ret (mkContainer (ctr_config ctr) "{}" (Some 0) (Some "runc") (Some Sample.rt) true,
          None), w').
Proof.
  intros ctr s w w'.
  assert (addContainer Sample.E s ctr None w = (Ret tt, w')) as Hrun
    by (vm_compute; reflexivity).
  split; [exact Hrun|].
  apply (addContainer_then_hydrate Sample.E s ctr None w w' "config:c1" ctr 0 "runc" Hrun);
    reflexivity.
Defined.

(** ** Removing a container: the store a successful removal leaves *)

Section remove_result.
Implicit Types (w : World) (r : bucket) (ctr : Container) (pod : option Pod).

Lemma logged_refl w : logged w w.
Proof. exists []. by rewrite app_nil_r. Qed.

Lemma logged_trans w1 w2 w3 : logged w1 w2 → logged w2 w3 → logged w1 w3.
Proof.
  intros (e1 & H1 & F1) (e2 & H2 & F2). exists (e1 ++ e2).
  split; [by rewrite H2, H1, app_assoc|by apply Forall_app].
Qed.

Lemma logged_set_root f w : logged w (set_root f w).
Proof. exists []. by rewrite app_nil_r. Qed.

Lemma logged_emit format args w : logged w (mkWorld (root w) (trace w ++ [LogErrorf format args])).
Proof. eexists. split; [done|]. by repeat constructor. Qed.

Lemma removeContainer_pod_Ret pod w podDB w' :
  removeContainer_pod pod w = (Ret podDB, w') →
  w' = w ∧
  match pod with
  | None => podDB = None
  | Some pod => podDB = Some [podBkt; pod_ID pod] ∧
                is_Some (walk [podBkt; pod_ID pod] (root w))
  end.
Proof.
  unfold removeContainer_pod. destruct pod as [pod|].
  2:{ by intros [[= <-] ->]%mret_inv. }
  intros H. bind_Ret H podBucket w1 Hb.
  apply required_bucket_Ret in Hb as (-> & -> & mpod & Hpod).
  bind_Ret H h w1 Hb.
  apply bkt_Bucket_Ret in Hb as (-> & p & m & [= <-] & Hm & ->).
  destruct (sub_handle [podBkt] m (pod_ID pod)) as [h|] eqn:Hsub.
  2:{ bind_Ret H u w1 He. done. }
  apply mret_inv in H as [[= ->] ->]. split; [done|].
  apply sub_handle_inv in Hsub as (-> & mp & Hmp). split; [done|].
  change [podBkt; pod_ID pod] with ([podBkt] ++ [pod_ID pod]).
  rewrite walk_snoc, Hm, Hmp. by eexists.
Qed.

Lemma removeContainer_namespace_Ret s ctr pod w w' :
  removeContainer_namespace s ctr pod w = (Ret tt, w') → w' = w ∧ namespace_ok s ctr pod.
Proof.
  unfold removeContainer_namespace, namespace_ok.
  case_bool_decide as Hns; [|intros [_ ->]%mret_inv; auto].
  case_bool_decide as Hctr; [done|].
  destruct pod as [pod|]; [|intros [_ ->]%mret_inv; auto].
  case_bool_decide as Hpod; [done|]. intros [_ ->]%mret_inv. auto.
Qed.

Lemma removeContainer_unlink_Ret ctr pod w w' :
  match pod with
  | None => True
  | Some pod => is_Some (walk [podBkt; pod_ID pod] (root w))
  end →
  removeContainer_unlink ctr pod
    (match pod with Some pod => Some [podBkt; pod_ID pod] | None => None end) w
    = (Ret tt, w') →
  root w' = unlinkPod ctr pod (root w) ∧ unlink_ready (root w) ctr pod ∧ logged w w'.
Proof.
  unfold removeContainer_unlink, unlinkPod, unlink_ready. destruct pod as [pod|].
  2:{ intros _ [_ ->]%mret_inv. split; [done|]. split; [done|apply logged_refl]. }
  intros [mp Hmp] H.
  bind_Ret H podCtrs w1 Hb.
  apply bkt_Bucket_Ret in Hb as (-> & p & m & [= <-] & Hm & ->).
  rewrite Hmp in Hm. injection Hm as <-.
  destruct (sub_handle [podBkt; pod_ID pod] mp containersBkt) as [h|] eqn:Hsub.
  - apply sub_handle_inv in Hsub as (-> & mc & Hmc).
    bind_Ret H ctrInPod w1 Hget.
    apply bkt_Get_Ret in Hget as (-> & p & mc' & [= <-] & Hwc & ->).
    assert (walk ([podBkt; pod_ID pod] ++ [containersBkt]) (root w) = Some mc) as Hwc'
      by (by rewrite walk_snoc, Hmp, Hmc).
    cbn [app] in Hwc, Hwc'. rewrite Hwc' in Hwc. injection Hwc as <-.
    destruct (mc !! ctr_ID ctr) as [[v|b]|] eqn:Hv; try done.
    apply wrapf_Ret_inv, bkt_Delete_Ret in H as (p & m & [= <-] & _ & _ & ->).
    split; [done|]. split; [|apply logged_set_root].
    exists mp. split; [done|]. right. by exists mc, v.
  - unfold emit in H. injection H as <-. split.
    + cbn [root]. symmetry. eapply wr_id_None.
      change [podBkt; pod_ID pod; containersBkt] with ([podBkt; pod_ID pod] ++ [containersBkt]).
      rewrite walk_snoc, Hmp. unfold sub_handle in Hsub.
      by destruct (mp !! containersBkt) as [[|b]|].
    + split; [|apply logged_emit]. exists mp. split; [done|]. left.
      intros [b Hb]. unfold sub_handle in Hsub. by rewrite Hb in Hsub.
Qed.

Lemma removeContainer_dependency_Ret ctr D w w' :
  removeContainer_dependency ctr (Some [ctrBkt]) D w = (Ret tt, w') →
  root w' = unlinkDependency ctr (root w) D ∧ logged w w'.
Proof.
  unfold removeContainer_dependency, unlinkDependency. intros H.
  bind_Ret H depCtrBkt w1 Hb.
  apply bkt_Bucket_Ret in Hb as (-> & p & mb & [= <-] & Hmb & ->).
  destruct (sub_handle [ctrBkt] mb D) as [h|] eqn:Hsub.
  2:{ apply mret_inv in H as [_ ->]. split; [|apply logged_refl].
      symmetry. apply wr_id_None.
      change [ctrBkt; D; dependenciesBkt] with (([ctrBkt] ++ [D]) ++ [dependenciesBkt]).
      rewrite walk_snoc, walk_snoc, Hmb. unfold sub_handle in Hsub.
      by destruct (mb !! D) as [[|b]|]. }
  apply sub_handle_inv in Hsub as (-> & mD & HmD).
  bind_Ret H depCtrDependsBkt w1 Hb.
  apply bkt_Bucket_Ret in Hb as (-> & p & mD' & [= <-] & HwD & ->).
  destruct (sub_handle _ mD' dependenciesBkt) as [h|] eqn:Hsub.
  - apply sub_handle_inv in Hsub as (-> & md & Hmd).
    apply wrapf_Ret_inv, bkt_Delete_Ret in H as (p & m & [= <-] & _ & _ & ->).
    split; [done|apply logged_set_root].
  - unfold emit in H. injection H as <-. split; [|apply logged_emit].
    cbn [root]. symmetry. apply wr_id_None.
    change [ctrBkt; D; dependenciesBkt] with ([ctrBkt; D] ++ [dependenciesBkt]).
    rewrite walk_snoc, HwD. unfold sub_handle in Hsub.
    by destruct (mD' !! dependenciesBkt) as [[|b]|].
Qed.

Lemma removeContainer_dependencies_Ret ctr deps w w' :
  for_range deps (removeContainer_dependency ctr (Some [ctrBkt])) w = (Ret tt, w') →
  root w' = foldl (unlinkDependency ctr) (root w) deps ∧ logged w w'.
Proof.
  revert w. induction deps as [|D deps IH]; intros w; cbn [for_range foldl].
  - intros [_ ->]%mret_inv. split; [done|apply logged_refl].
  - intros H. bind_Ret H u w1 Hturn. destruct u.
    apply removeContainer_dependency_Ret in Hturn as [Hr Hl].
    apply IH in H as [-> Hl']. rewrite Hr. split; [done|by eapply logged_trans].
Qed.

Lemma unlinkDependencies_lookup ctr deps r k :
  k ≠ ctrBkt → foldl (unlinkDependency ctr) r deps !! k = r !! k.
Proof.
  intros Hk. revert r. induction deps as [|D deps IH]; intros r; cbn [foldl]; [done|].
  rewrite IH. unfold unlinkDependency. by rewrite wr_lookup_ne.
Qed.

(** A removal that returned nil: the store is the one [removedStore]
    describes, only log lines were emitted, and the checks the removal
    makes held. *)
Lemma removeContainer_Ret E s ctr pod w w' :
  removeContainer E s ctr pod w = (Ret tt, w') →
  root w' = removedStore ctr pod (ctr_Dependencies E ctr) (root w) ∧
  logged w w' ∧
  registries_exist (root w) ∧ unlink_ready (root w) ctr pod ∧ namespace_ok s ctr pod ∧
  ∃ mA, walk [ctrBkt; ctr_ID ctr] (root w) = Some mA ∧
        mA !! dependenciesBkt = Some (Bkt ∅).
Proof.
  unfold removeContainer. intros H.
  bind_Ret H idsBucket w1 Hb. apply required_bucket_Ret in Hb as (-> & -> & Hids).
  bind_Ret H namesBucket w1 Hb. apply required_bucket_Ret in Hb as (-> & -> & Hnames).
  bind_Ret H ctrBucket w1 Hb. apply required_bucket_Ret in Hb as (-> & -> & Hctr).
  bind_Ret H nsBucket w1 Hb. apply required_bucket_Ret in Hb as (-> & -> & Hns).
  bind_Ret H allCtrsBucket w1 Hb. apply required_bucket_Ret in Hb as (-> & -> & Hall).
  bind_Ret H volBkt' w1 Hb. apply required_bucket_Ret in Hb as (-> & -> & Hvol).
  bind_Ret H podDB w1 Hpod. apply removeContainer_pod_Ret in Hpod as [-> HpodDB].
  bind_Ret H ctrExists w1 Hb.
  apply bkt_Bucket_Ret in Hb as (-> & p & mb & [= <-] & Hmb & ->).
  destruct (sub_handle [ctrBkt] mb (ctr_ID ctr)) as [h|] eqn:Hsub.
  2:{ bind_Ret H u w1 He. done. }
  apply sub_handle_inv in Hsub as (-> & mA & HmA).
  assert (walk [ctrBkt; ctr_ID ctr] (root w) = Some mA) as HwA.
  { change [ctrBkt; ctr_ID ctr] with ([ctrBkt] ++ [ctr_ID ctr]).
    by rewrite walk_snoc, Hmb, HmA. }
  bind_Ret H u w1 Hnsok. destruct u.
  apply removeContainer_namespace_Ret in Hnsok as [-> Hnsok].
  bind_Ret H u w1 Hunlink. destruct u.
  assert (podDB = match pod with Some pod => Some [podBkt; pod_ID pod] | None => None end)
    as -> by (destruct pod; [by destruct HpodDB|done]).
  apply removeContainer_unlink_Ret in Hunlink as (Hr1 & Hready & Hl1);
    [|destruct pod; [by destruct HpodDB|done]].
  assert (walk [ctrBkt; ctr_ID ctr] (root w1) = Some mA) as HwA1.
  { rewrite Hr1. unfold unlinkPod. destruct pod; [|done]. by rewrite walk_wr_ne by by_compute. }
  bind_Ret H ctrDepsBkt w2 Hb.
  apply bkt_Bucket_Ret in Hb as (-> & p & mA' & [= <-] & HwA' & ->).
  cbn [app] in HwA'. rewrite HwA1 in HwA'. injection HwA' as <-.
  destruct (sub_handle _ mA dependenciesBkt) as [h|] eqn:Hsub;
    [|done].
  apply sub_handle_inv in Hsub as (-> & md & Hmd).
  assert (walk ([ctrBkt; ctr_ID ctr] ++ [dependenciesBkt]) (root w1) = Some md) as Hwd
    by (by rewrite walk_snoc, HwA1, Hmd).
  bind_Ret H deps w2 Hforeach.
  rewrite (bkt_ForEach_collect _ _ _ Hwd) in Hforeach. injection Hforeach as <- <-.
  case_bool_decide as Hlen; [done|].
  assert (md = ∅) as -> by (apply sorted_keys_nil; by destruct (sorted_keys md)).
  bind_Ret H u w2 Hdel. destruct u.
  apply or_else_Ret_inv, bkt_DeleteBucket_Ret in Hdel as (? & ? & [= <-] & _ & _ & ->).
  bind_Ret H u w2 Hdel. destruct u.
  apply wrapf_Ret_inv, bkt_Delete_Ret in Hdel as (? & ? & [= <-] & _ & _ & ->).
  bind_Ret H u w2 Hdel. destruct u.
  apply wrapf_Ret_inv, bkt_Delete_Ret in Hdel as (? & ? & [= <-] & _ & _ & ->).
  bind_Ret H u w2 Hdel. destruct u.
  apply wrapf_Ret_inv, bkt_Delete_Ret in Hdel as (? & ? & [= <-] & _ & _ & ->).
  bind_Ret H u w2 Hdel. destruct u.
  apply wrapf_Ret_inv, bkt_Delete_Ret in Hdel as (? & ? & [= <-] & _ & _ & ->).
  bind_Ret H u w2 Hdeps. destruct u.
  apply removeContainer_dependencies_Ret in Hdeps as [Hr2 Hl2].
  assert (w' = w2) as ->.
  { assert (is_bkt (root w2 !! volBkt)) as Hvol2.
    { rewrite Hr2. cbn [set_root root]. rewrite Hr1.
      rewrite unlinkDependencies_lookup by by_compute.
      rewrite !wr_lookup_ne by by_compute.
      destruct pod; cbn [unlinkPod]; rewrite ?wr_lookup_ne by by_compute;
        destruct Hvol as [mv ->]; by eexists. }
    by destruct (removeContainer_volumes_wp ctr _ w2 Hvol2 _ _ H) as [-> _]. }
  split; [|split; [|split; [|split; [|split]]]].
  - rewrite Hr2. cbn [set_root root]. rewrite Hr1. reflexivity.
  - eapply logged_trans; [exact Hl1|]. eapply logged_trans; [|exact Hl2].
    exists []. by rewrite app_nil_r.
  - unfold registries_exist, is_bkt. auto 10.
  - done.
  - done.
  - by exists mA.
Qed.
End remove_result.

Section remove_lookups.
Implicit Types (w : World) (r : bucket) (ctr : Container) (pod : option Pod).

Lemma unlinkDependencies_top ctr deps r mb :
  r !! ctrBkt = Some (Bkt mb) →
  foldl (unlinkDependency ctr) r deps =
  <[ctrBkt := Bkt (foldl (λ m D, wr [D; dependenciesBkt] (delete (ctr_ID ctr)) m) mb deps)]> r.
Proof.
  exact (foldl_wr_top ctrBkt (λ D, [D; dependenciesBkt]) (delete (ctr_ID ctr)) deps r mb).
Qed.

Lemma unlinkDependencies_entry ctr deps (mb : bucket) D :
  foldl (λ m D, wr [D; dependenciesBkt] (delete (ctr_ID ctr)) m) mb deps !! D =
  if decide (D ∈ deps) then
    match mb !! D with
    | Some (Bkt mD) => Some (Bkt (wr [dependenciesBkt] (delete (ctr_ID ctr)) mD))
    | x => x
    end
  else mb !! D.
Proof.
  rewrite (foldl_wr_lookup id) by (intros m; apply delete_delete_eq).
  rewrite list_fmap_id. case_decide; [|done]. by rewrite wr_lookup, decide_True.
Qed.

Lemma unlinkPod_lookup ctr pod r k : k ≠ podBkt → unlinkPod ctr pod r !! k = r !! k.
Proof. intros Hk. destruct pod; [|done]. cbn [unlinkPod]. by rewrite wr_lookup_ne. Qed.

Lemma unregistered_lookup ctr r k :
  k ∉ [ctrBkt; idRegistryBkt; nameRegistryBkt; nsRegistryBkt; allCtrsBkt] →
  unregistered ctr r !! k = r !! k.
Proof.
  intros Hk. unfold unregistered. repeat (apply not_elem_of_cons in Hk as [? Hk]).
  by rewrite !wr_lookup_ne.
Qed.

(** A registry after the removal: the entry under [key] is deleted. *)
Lemma removedStore_registry ctr pod deps r k :
  k ≠ ctrBkt →
  removedStore ctr pod deps r !! k = unregistered ctr (unlinkPod ctr pod r) !! k.
Proof. intros Hc. unfold removedStore. by rewrite unlinkDependencies_lookup. Qed.

Lemma removedStore_ids ctr pod deps r m :
  r !! idRegistryBkt = Some (Bkt m) →
  removedStore ctr pod deps r !! idRegistryBkt = Some (Bkt (delete (ctr_ID ctr) m)).
Proof.
  intros Hm. rewrite removedStore_registry by by_compute.
  unfold unregistered. rewrite !wr_lookup_ne by by_compute.
  rewrite (wr_lookup_eq _ _ _ _ m); [done|].
  rewrite wr_lookup_ne by by_compute. by rewrite unlinkPod_lookup by by_compute.
Qed.

Lemma removedStore_names ctr pod deps r m :
  r !! nameRegistryBkt = Some (Bkt m) →
  removedStore ctr pod deps r !! nameRegistryBkt = Some (Bkt (delete (ctr_Name ctr) m)).
Proof.
  intros Hm. rewrite removedStore_registry by by_compute.
  unfold unregistered. rewrite !wr_lookup_ne by by_compute.
  rewrite (wr_lookup_eq _ _ _ _ m); [done|].
  rewrite !wr_lookup_ne by by_compute. by rewrite unlinkPod_lookup by by_compute.
Qed.

Lemma removedStore_ns ctr pod deps r m :
  r !! nsRegistryBkt = Some (Bkt m) →
  removedStore ctr pod deps r !! nsRegistryBkt = Some (Bkt (delete (ctr_ID ctr) m)).
Proof.
  intros Hm. rewrite removedStore_registry by by_compute.
  unfold unregistered. rewrite !wr_lookup_ne by by_compute.
  rewrite (wr_lookup_eq _ _ _ _ m); [done|].
  rewrite !wr_lookup_ne by by_compute. by rewrite unlinkPod_lookup by by_compute.
Qed.

Lemma removedStore_all ctr pod deps r m :
  r !! allCtrsBkt = Some (Bkt m) →
  removedStore ctr pod deps r !! allCtrsBkt = Some (Bkt (delete (ctr_ID ctr) m)).
Proof.
  intros Hm. rewrite removedStore_registry by by_compute.
  unfold unregistered.
  rewrite (wr_lookup_eq _ _ _ _ m); [done|].
  rewrite !wr_lookup_ne by by_compute. by rewrite unlinkPod_lookup by by_compute.
Qed.

Lemma removedStore_frame ctr pod deps r k :
  k ∉ removeKeys → removedStore ctr pod deps r !! k = r !! k.
Proof.
  intros Hk. unfold removeKeys in Hk. repeat (apply not_elem_of_cons in Hk as [? Hk]).
  unfold removedStore. rewrite unlinkDependencies_lookup by done.
  rewrite unregistered_lookup, unlinkPod_lookup; [done..|].
  repeat (apply not_elem_of_cons; split; [done|]). apply not_elem_of_nil.
Qed.

Lemma removedStore_pod ctr pod deps r :
  removedStore ctr pod deps r !! podBkt = unlinkPod ctr pod r !! podBkt.
Proof.
  unfold removedStore. rewrite unlinkDependencies_lookup by by_compute.
  apply unregistered_lookup. by_compute.
Qed.

(** The bucket [ctr] after the removal. *)
Lemma removedStore_ctr ctr pod deps r mb :
  r !! ctrBkt = Some (Bkt mb) →
  removedStore ctr pod deps r !! ctrBkt =
  Some (Bkt (foldl (λ m D, wr [D; dependenciesBkt] (delete (ctr_ID ctr)) m)
               (delete (ctr_ID ctr) mb) deps)).
Proof.
  intros Hmb. unfold removedStore.
  rewrite (unlinkDependencies_top ctr deps _ (delete (ctr_ID ctr) mb)).
  - by rewrite lookup_insert_eq.
  - unfold unregistered. rewrite !wr_lookup_ne by by_compute.
    rewrite (wr_lookup_eq _ _ _ _ mb); [done|]. by rewrite unlinkPod_lookup by by_compute.
Qed.
End remove_lookups.

(** X11: a successful [removeContainer] takes the container out of the
    registries and out of [ctr].  The container had a record whose
    [dependencies] bucket was empty; afterwards [id-registry],
    [ns-registry] and [all-ctrs] have lost the entry of the ID and
    [name-registry] that of the name, every other entry being as before;
    [ctr] has no bucket for the ID, so that hydrating the ID answers
    [ErrNoSuchCtr]; and no top-level bucket other than these and [pod] has
    changed, [vol] included. *)
Theorem removeContainer_unregisters (E : Externals) (s : BoltState) (ctr : Container)
    (pod : option Pod) (w w' : World) :
  removeContainer E s ctr pod w = (Ret tt, w') →
  (∃ mids, root w !! idRegistryBkt = Some (Bkt mids) ∧
           root w' !! idRegistryBkt = Some (Bkt (delete (ctr_ID ctr) mids))) ∧
  (∃ mnames, root w !! nameRegistryBkt = Some (Bkt mnames) ∧
             root w' !! nameRegistryBkt = Some (Bkt (delete (ctr_Name ctr) mnames))) ∧
  (∃ mns, root w !! nsRegistryBkt = Some (Bkt mns) ∧
          root w' !! nsRegistryBkt = Some (Bkt (delete (ctr_ID ctr) mns))) ∧
  (∃ mall, root w !! allCtrsBkt = Some (Bkt mall) ∧
           root w' !! allCtrsBkt = Some (Bkt (delete (ctr_ID ctr) mall))) ∧
  (∃ mA, walk [ctrBkt; ctr_ID ctr] (root w) = Some mA ∧
         mA !! dependenciesBkt = Some (Bkt ∅)) ∧
  walk [ctrBkt; ctr_ID ctr] (root w') = None ∧
  (∀ E' s' ctr0,
     ∃ e, getContainerFromDB E' s' (ctr_ID ctr) ctr0 (Some [ctrBkt]) w' =
            (Ret (ctr0, Some e), w') ∧
          errors_Cause e = ErrNoSuchCtr) ∧
  (∀ k, k ∉ removeKeys → root w' !! k = root w !! k).
Proof.
  intros (Hroot & _ & Hreg & _ & _ & HmA)%removeContainer_Ret.
  destruct Hreg as ([mids Hids] & [mnames Hnames] & [mns Hns] & [mb Hmb] & [mall Hall] & _).
  assert (walk [ctrBkt] (root w') =
          Some (foldl (λ m D, wr [D; dependenciesBkt] (delete (ctr_ID ctr)) m)
                  (delete (ctr_ID ctr) mb) (ctr_Dependencies E ctr))) as Hwb'
    by (by rewrite walk_top, Hroot, (removedStore_ctr _ _ _ _ _ Hmb)).
  assert (foldl (λ m D, wr [D; dependenciesBkt] (delete (ctr_ID ctr)) m)
            (delete (ctr_ID ctr) mb) (ctr_Dependencies E ctr) !! ctr_ID ctr = None) as Hgone.
  { rewrite unlinkDependencies_entry, lookup_delete_eq. by case_decide. }
  split; [|split; [|split; [|split; [|split; [|split; [|split]]]]]].
  - exists mids. split; [done|]. rewrite Hroot. by apply removedStore_ids.
  - exists mnames. split; [done|]. rewrite Hroot. by apply removedStore_names.
  - exists mns. split; [done|]. rewrite Hroot. by apply removedStore_ns.
  - exists mall. split; [done|]. rewrite Hroot. by apply removedStore_all.
  - exact HmA.
  - change [ctrBkt; ctr_ID ctr] with ([ctrBkt] ++ [ctr_ID ctr]).
    by rewrite walk_snoc, Hwb', Hgone.
  - intros E' s' ctr0. unfold getContainerFromDB.
    rewrite (mbind_Ret _ _ _ _ _ (bkt_Bucket_at _ _ _ _ Hwb')).
    rewrite sub_handle_None by (rewrite Hgone; by intros [? [=]]).
    eexists. split; [reflexivity|done].
  - intros k Hk. rewrite Hroot. by apply removedStore_frame.
Qed.

Lemma removeContainer_unregisters_witness :
  let ctr := Sample.container "c1" "web" "prod" [] in
  let s := Sample.s "prod" in
  let w0 := Sample.world (wr [idRegistryBkt] (insert "c0" (Val "db")) Sample.emptyDB) in
  let w := (addContainer Sample.E s ctr None w0).2 in
  let w' := (removeContainer Sample.E s ctr None w).2 in
  removeContainer Sample.E s ctr None w = (Ret tt, w') ∧
  root w' !! idRegistryBkt = Some (Bkt {[ "c0" := Val "db" ]}) ∧
  walk [ctrBkt; "c1"] (root w') = None ∧
  root w' !! volBkt = root w !! volBkt.
Proof.
  intros ctr s w0 w w'.
  assert (removeContainer Sample.E s ctr None w = (Ret tt, w')) as Hrun
    by (vm_compute; reflexivity).
  split; [exact Hrun|].
  destruct (removeContainer_unregisters Sample.E s ctr None w w' Hrun)
    as ((mids & Hids & Hids') & _ & _ & _ & _ & Hgone & _ & Hframe).
  split; [|split; [exact Hgone|apply Hframe; by_compute]].
  rewrite Hids'. f_equal. f_equal.
  assert (Some (Bkt mids) = Some (Bkt (<[ "c1" := Val "web" ]> {[ "c0" := Val "db" ]})))
    as [= ->] by (rewrite <- Hids; vm_compute; reflexivity).
  rewrite delete_insert_eq. apply delete_id. vm_compute. reflexivity.
Defined.

(** X12: a successful [removeContainer] takes the container out of the
    [dependencies] bucket of each of its dependencies and out of its pod,
    and touches no other container or pod.  The record of a container
    that is not a dependency is as before, that of a dependency differs
    by the deleted entry; the [containers] bucket of the pod, which listed
    the container, loses that entry; a pod without a [containers] bucket
    is left as it is; and the bucket of any other pod is as before. *)
Theorem removeContainer_unlinks (E : Externals) (s : BoltState) (ctr : Container)
    (pod : option Pod) (w w' : World) :
  removeContainer E s ctr pod w = (Ret tt, w') →
  (∀ D mD, D ≠ ctr_ID ctr → walk [ctrBkt; D] (root w) = Some mD →
     ∃ mD', walk [ctrBkt; D] (root w') = Some mD' ∧
            (∀ k, k ≠ dependenciesBkt → mD' !! k = mD !! k) ∧
            (D ∉ ctr_Dependencies E ctr → mD' = mD) ∧
            (D ∈ ctr_Dependencies E ctr →
             ∀ md, mD !! dependenciesBkt = Some (Bkt md) →
                   mD' !! dependenciesBkt = Some (Bkt (delete (ctr_ID ctr) md)))) ∧
  (∀ p, pod = Some p →
     ∃ mp, walk [podBkt; pod_ID p] (root w) = Some mp ∧
           ((¬ is_bkt (mp !! containersBkt) ∧
             walk [podBkt; pod_ID p] (root w') = Some mp) ∨
            (∃ mc v, mp !! containersBkt = Some (Bkt mc) ∧
                     mc !! ctr_ID ctr = Some (Val v) ∧
                     walk [podBkt; pod_ID p; containersBkt] (root w') =
                       Some (delete (ctr_ID ctr) mc)))) ∧
  (∀ P, pod_ID <$> pod ≠ Some P → walk [podBkt; P] (root w') = walk [podBkt; P] (root w)).
Proof.
  intros (Hroot & _ & Hreg & Hready & _ & _)%removeContainer_Ret.
  destruct Hreg as (_ & _ & _ & [mb Hmb] & _).
  assert (root w' !! podBkt = unlinkPod ctr pod (root w) !! podBkt) as Hpod
    by (rewrite Hroot; apply removedStore_pod).
  split; [|split].
  - intros D mD HD HwD.
    assert (mb !! D = Some (Bkt mD)) as HmD.
    { cbn [walk] in HwD. rewrite Hmb in HwD.
      destruct (mb !! D) as [[|b]|]; try done. by injection HwD as ->. }
    cbn [walk]. rewrite Hroot, (removedStore_ctr _ _ _ _ _ Hmb).
    rewrite unlinkDependencies_entry, lookup_delete_ne, HmD by done.
    destruct (decide (D ∈ ctr_Dependencies E ctr)) as [Hin|Hnin].
    + eexists. split; [done|]. rewrite wr_top_bucket.
      destruct (mD !! dependenciesBkt) as [[v|md]|] eqn:Hdeps.
      * repeat split; try done.
      * split; [by intros k Hk; rewrite lookup_insert_ne|]. split; [done|].
        intros _ md' [= <-]. by rewrite lookup_insert_eq.
      * repeat split; try done.
    + exists mD. by repeat split.
  - intros p ->. destruct Hready as (mp & Hmp & Hctrs). exists mp. split; [done|].
    destruct Hctrs as [Hnone|(mc & v & Hmc & Hv)].
    + left. split; [done|]. rewrite (walk_ext _ _ _ _ Hpod). cbn [unlinkPod].
      rewrite wr_id_None; [done|].
      change [podBkt; pod_ID p; containersBkt] with ([podBkt; pod_ID p] ++ [containersBkt]).
      rewrite walk_snoc, Hmp. destruct (mp !! containersBkt) as [[|b]|]; try done.
      destruct Hnone. by eexists.
    + right. exists mc, v. split; [done|]. split; [done|].
      rewrite (walk_ext _ _ _ _ Hpod). cbn [unlinkPod]. apply walk_wr_same.
      change [podBkt; pod_ID p; containersBkt] with ([podBkt; pod_ID p] ++ [containersBkt]).
      by rewrite walk_snoc, Hmp, Hmc.
  - intros P HP. rewrite (walk_ext _ _ _ _ Hpod).
    destruct pod as [p|]; cbn [unlinkPod]; [|done].
    cbn [walk]. rewrite wr_lookup, decide_True by done.
    destruct (root w !! podBkt) as [[|mpod]|]; try done.
    rewrite wr_lookup_ne; [done|]. intros Heq. apply HP. cbn. by rewrite Heq.
Qed.

Lemma removeContainer_unlinks_witness :
  let ctr := Sample.container "B" "b" EmptyString [] in
  let pod := Some (Sample.pod "p1" "db" EmptyString) in
  let w := Sample.world
             (Sample.withPod "p1" (Sample.podRecord None {[ "B" := Val "b"; "A" := Val "a" ]})
                (Sample.withCtr "B" (Sample.ctrRecord None (Some "p1") ∅)
                   (Sample.withCtr "A"
                      (Sample.ctrRecord None (Some "p1") {[ "B" := Val "b" ]})
                      Sample.emptyDB))) in
  let w' := (removeContainer Sample.E_depA (Sample.s EmptyString) ctr pod w).2 in
  removeContainer Sample.E_depA (Sample.s EmptyString) ctr pod w = (Ret tt, w') ∧
  walk [ctrBkt; "A"; dependenciesBkt] (root w') = Some ∅ ∧
  walk [podBkt; "p1"; containersBkt] (root w') = Some {[ "A" := Val "a" ]}.
Proof.
  intros ctr pod w w'.
  assert (removeContainer Sample.E_depA (Sample.s EmptyString) ctr pod w = (Ret tt, w'))
    as Hrun by (vm_compute; reflexivity).
  split; [exact Hrun|].
  destruct (removeContainer_unlinks Sample.E_depA (Sample.s EmptyString) ctr pod w w' Hrun)
    as (Hdeps & _ & _).
  split; [|vm_compute; reflexivity].
  destruct (Hdeps "A" (<[configKey := Val "{}"]> (<[stateKey := Val "{}"]>
              (<[dependenciesBkt := Bkt {[ "B" := Val "b" ]}]>
                 (∅ ∪ {[ podIDKey := Val "p1" ]})))))
    as (mD' & HmD' & _ & _ & Hin); [discriminate|vm_compute; reflexivity|].
  change [ctrBkt; "A"; dependenciesBkt] with ([ctrBkt; "A"] ++ [dependenciesBkt]).
  rewrite walk_snoc, HmD'.
  rewrite (Hin ltac:(vm_compute; apply elem_of_cons; by left) {[ "B" := Val "b" ]})
    by (vm_compute; reflexivity).
  by rewrite delete_singleton_eq.
Defined.

(** ** Adding, then removing *)

Section round_trip.
Implicit Types (w : World) (r : bucket) (ctr : Container) (pod : option Pod).

Lemma entered_ext ctr r r' vol :
  r' !! volBkt = r !! volBkt → entered ctr r vol → entered ctr r' vol.
Proof.
  intros Heq (md & v & Hmd & Hv). exists md, v. split; [|done].
  by rewrite (walk_ext _ _ _ _ Heq).
Qed.

(** Deleting what was just inserted under a free key gives the bucket
    back. *)
Lemma delete_insert_free (m : bucket) k n : m !! k = None → delete k (<[k := n]> m) = m.
Proof. intros Hk. rewrite delete_insert_eq. by apply delete_id. Qed.

Lemma wr_delete_insert p k n r :
  (∀ m, walk p r = Some m → m !! k = None) →
  wr p (delete k) (wr p (insert k n) r) = r.
Proof.
  intros Hfree. rewrite wr_wr.
  destruct (walk p r) as [m|] eqn:Hp; [|by apply wr_id_None].
  eapply wr_id; [exact Hp|]. cbn. apply delete_insert_free. by apply Hfree.
Qed.
End round_trip.

(** X13: removal never deletes an entry of a [vol-dependencies] bucket.
    Whatever [removeContainer] returns, the bucket [vol] is as before;
    hence, after a successful [addContainer], every named volume of the
    container still lists it once the container has been removed. *)
Theorem removeContainer_keeps_volume_entries (E : Externals) (s : BoltState)
    (ctr : Container) (pod : option Pod) (w : World) (o : outcome unit) (w' : World) :
  removeContainer E s ctr pod w = (o, w') →
  root w' !! volBkt = root w !! volBkt ∧
  (∀ E0 s0 pod0 w0,
     addContainer E0 s0 ctr pod0 w0 = (Ret tt, w) →
     ∀ vol, vol ∈ cfg_NamedVolumes (ctr_config ctr) → entered ctr (root w') vol).
Proof.
  intros Hrun. pose proof (removeContainer_keeps_vol _ _ _ _ _ _ _ Hrun) as Hvol.
  split; [done|]. intros E0 s0 pod0 w0 Hadd vol Hin.
  apply addContainer_entered in Hadd. rewrite Forall_forall in Hadd.
  eapply entered_ext; [exact Hvol|]. by apply Hadd.
Qed.

Lemma removeContainer_keeps_volume_entries_witness :
  let ctr := Sample.container "C" "c" EmptyString ["V"] in
  let s := Sample.s EmptyString in
  let w0 := Sample.world (Sample.withVolume "V" (Sample.volumeRecord ∅) Sample.emptyDB) in
  let w := (addContainer Sample.E s ctr None w0).2 in
  let w' := (removeContainer Sample.E s ctr None w).2 in
  (removeContainer Sample.E s ctr None w).1 = Ret tt ∧
  entered ctr (root w') {| vol_Name := "V"; vol_Dest := "/data" |}.
Proof.
  intros ctr s w0 w w'. split; [vm_compute; reflexivity|].
  destruct (removeContainer_keeps_volume_entries Sample.E s ctr None w
              (removeContainer Sample.E s ctr None w).1 w') as [_ Hkeeps].
  - apply surjective_pairing.
  - apply (Hkeeps Sample.E s None w0).
    + vm_compute. reflexivity.
    + apply elem_of_cons. by left.
Defined.

Section restores.
Implicit Types (w : World) (r : bucket) (ctr : Container) (pod : option Pod).

(** The bucket [ctr] after an add and a removal of the same container. *)
Lemma ctr_restored ctr (rec mb : bucket) deps :
  mb !! ctr_ID ctr = None →
  (∀ D mD md, D ∈ deps → mb !! D = Some (Bkt mD) → mD !! dependenciesBkt = Some (Bkt md) →
              md !! ctr_ID ctr = None) →
  foldl (λ m D, wr [D; dependenciesBkt] (delete (ctr_ID ctr)) m)
    (delete (ctr_ID ctr)
       (foldl (λ m D, wr [D; dependenciesBkt] (insert (ctr_ID ctr) (Val (ctr_Name ctr))) m)
          (<[ctr_ID ctr := Bkt rec]> mb) deps)) deps = mb.
Proof.
  intros Hfree Hunlisted. apply map_eq. intros x.
  rewrite unlinkDependencies_entry.
  destruct (decide (x = ctr_ID ctr)) as [->|Hx].
  { rewrite lookup_delete_eq, Hfree. by case_decide. }
  rewrite lookup_delete_ne, linkDependencies_entry, lookup_insert_ne by done.
  destruct (decide (x ∈ deps)) as [Hin|Hnin]; [|done].
  destruct (mb !! x) as [[v|mD]|] eqn:HmD; try done.
  f_equal. f_equal. rewrite !wr_top_bucket.
  destruct (mD !! dependenciesBkt) as [[v|md]|] eqn:Hmd; rewrite ?Hmd; try done.
  rewrite lookup_insert_eq, insert_insert_eq.
  rewrite delete_insert_free by (by eapply Hunlisted). by apply insert_id.
Qed.
End restores.

(** X14: removing what was added restores the store.  After a successful
    [addContainer] and a successful [removeContainer] of the same
    container, [id-registry] and [name-registry] are as they were before
    the add and [vol] is as the add left it; and when the store held no
    entry for the ID before the add (none in [all-ctrs], in [ns-registry],
    in the pod or in a dependency), every top-level bucket other than
    [vol] is as it was before the add. *)
Theorem addContainer_removeContainer_restores (E : Externals) (s : BoltState)
    (ctr : Container) (pod : option Pod) (w w1 w2 : World) :
  addContainer E s ctr pod w = (Ret tt, w1) →
  removeContainer E s ctr pod w1 = (Ret tt, w2) →
  root w2 !! idRegistryBkt = root w !! idRegistryBkt ∧
  root w2 !! nameRegistryBkt = root w !! nameRegistryBkt ∧
  root w2 !! volBkt = root w1 !! volBkt ∧
  (unlisted ctr pod (ctr_Dependencies E ctr) (root w) →
   ∀ k, k ≠ volBkt → root w2 !! k = root w !! k).
Proof.
  intros Hadd Hrm.
  apply addContainer_Ret in Hadd
    as (configJSON & stateJSON & _ & -> & Hreg & Hready & Hrun & _).
  apply addContainer_register_Ret in Hrun
    as (_ & (mids & Hids & Hid) & (mnames & Hnames & Hname) & (mall & Hall & _) &
        (mb & Hmb & Hfree) & _).
  destruct Hreg as (_ & _ & [mns Hns] & _).
  apply removeContainer_Ret in Hrm as (Hroot & _). cbn [set_root root] in *.
  split; [|split; [|split]].
  - rewrite Hroot, (removedStore_ids _ _ _ _ _ (added_ids _ _ _ _ _ _ _ _ Hids)).
    by rewrite delete_insert_free.
  - rewrite Hroot, (removedStore_names _ _ _ _ _ (added_names _ _ _ _ _ _ _ _ Hnames)).
    by rewrite delete_insert_free.
  - rewrite Hroot. apply removedStore_frame. by_compute.
  - intros (Hu_all & Hu_ns & Hu_pod & Hu_deps) k Hk.
    destruct (decide (k = idRegistryBkt)) as [->|Hk1].
    { rewrite Hroot, (removedStore_ids _ _ _ _ _ (added_ids _ _ _ _ _ _ _ _ Hids)).
      by rewrite delete_insert_free. }
    destruct (decide (k = nameRegistryBkt)) as [->|Hk2].
    { rewrite Hroot, (removedStore_names _ _ _ _ _ (added_names _ _ _ _ _ _ _ _ Hnames)).
      by rewrite delete_insert_free. }
    destruct (decide (k = nsRegistryBkt)) as [->|Hk3].
    { rewrite Hroot, (removedStore_ns _ _ _ _ _ (added_ns _ _ _ _ _ _ _ _ Hns)), Hns.
      f_equal. f_equal. case_decide.
      - apply delete_id. by apply Hu_ns.
      - apply delete_insert_free. by apply Hu_ns. }
    destruct (decide (k = allCtrsBkt)) as [->|Hk4].
    { rewrite Hroot, (removedStore_all _ _ _ _ _ (added_all _ _ _ _ _ _ _ _ Hall)), Hall.
      rewrite delete_insert_free; [done|]. by apply Hu_all. }
    destruct (decide (k = ctrBkt)) as [->|Hk5].
    { assert (added ctr pod configJSON stateJSON (getNetNSPath E ctr)
                (ctr_Dependencies E ctr) (root w) !! ctrBkt = Some (Bkt
                (foldl (λ m D, wr [D; dependenciesBkt]
                                 (insert (ctr_ID ctr) (Val (ctr_Name ctr))) m)
                   (<[ctr_ID ctr := Bkt (newCtrRecord ctr pod configJSON stateJSON
                                           (getNetNSPath E ctr))]> mb)
                   (ctr_Dependencies E ctr)))) as Hr1.
      { rewrite added_lookup_ctr.
        rewrite (linkDependencies_top _ _ _ _ (registered_ctr _ _ _ _ _ _ _ Hmb)).
        by rewrite lookup_insert_eq. }
      rewrite Hroot, (removedStore_ctr _ _ _ _ _ Hr1), Hmb. f_equal. f_equal.
      apply ctr_restored; [done|]. intros D mD md HD HmD Hmd.
      apply (Hu_deps D md HD). cbn [walk]. by rewrite Hmb, HmD, Hmd. }
    destruct (decide (k = podBkt)) as [->|Hk6].
    { rewrite Hroot, removedStore_pod.
      assert (∀ r1, r1 !! podBkt = linkPod ctr pod (root w) !! podBkt →
                unlinkPod ctr pod r1 !! podBkt =
                unlinkPod ctr pod (linkPod ctr pod (root w)) !! podBkt) as Hext.
      { intros r1 Heq. destruct pod as [p|]; cbn [unlinkPod linkPod] in *; [|done].
        rewrite (wr_lookup podBkt podBkt _ _ r1), decide_True, Heq by done.
        by rewrite (wr_lookup podBkt podBkt (_ :: _) (delete _)), decide_True by done. }
      rewrite (Hext _ (added_pod _ _ _ _ _ _ _)).
      destruct pod as [p|]; cbn [unlinkPod linkPod]; [|done].
      rewrite wr_delete_insert; [done|]. intros mc Hmc. by eapply Hu_pod. }
    rewrite Hroot, removedStore_frame.
    + apply added_frame. repeat (apply not_elem_of_cons; split; [done|]). apply not_elem_of_nil.
    + unfold removeKeys. repeat (apply not_elem_of_cons; split; [done|]). apply not_elem_of_nil.
Qed.

Lemma addContainer_removeContainer_restores_witness :
  let ctr := Sample.container "B" "b" "prod" ["V"] in
  let pod := Some (Sample.pod "p1" "db" "prod") in
  let s := Sample.s "prod" in
  let w := Sample.world
             (Sample.withPod "p1" (Sample.podRecord (Some "prod") {[ "A" := Val "a" ]})
                (Sample.withVolume "V" (Sample.volumeRecord ∅)
                   (Sample.withCtr "A" (Sample.ctrRecord (Some "prod") (Some "p1") ∅)
                      Sample.emptyDB))) in
  let w1 := (addContainer Sample.E_depA s ctr pod w).2 in
  let w2 := (removeContainer Sample.E_depA s ctr pod w1).2 in
  addContainer Sample.E_depA s ctr pod w = (Ret tt, w1) ∧
  removeContainer Sample.E_depA s ctr pod w1 = (Ret tt, w2) ∧
  w1 ≠ w ∧
  ∀ k, k ≠ volBkt → root w2 !! k = root w !! k.
Proof.
  intros ctr pod s w w1 w2.
  assert (addContainer Sample.E_depA s ctr pod w = (Ret tt, w1)) as Hadd
    by (vm_compute; reflexivity).
  assert (removeContainer Sample.E_depA s ctr pod w1 = (Ret tt, w2)) as Hrm
    by (vm_compute; reflexivity).
  split; [exact Hadd|]. split; [exact Hrm|]. split.
  { intros Heq. apply (f_equal (λ x, walk [ctrBkt] (root x) ≫= (.!! "B"))) in Heq.
    vm_compute in Heq. discriminate. }
  destruct (addContainer_removeContainer_restores Sample.E_depA s ctr pod w w1 w2 Hadd Hrm)
    as (_ & _ & _ & Hall).
  apply Hall. repeat split.
  - intros m Hm. vm_compute in Hm. injection Hm as <-. reflexivity.
  - intros m Hm. vm_compute in Hm. injection Hm as <-. reflexivity.
  - intros p mc [= <-] Hmc. vm_compute in Hmc. injection Hmc as <-. vm_compute. reflexivity.
  - intros D md [->|[]%elem_of_nil]%elem_of_cons Hmd.
    vm_compute in Hmd. injection Hmd as <-. reflexivity.
Defined.

(** ** Missing buckets *)

(** Step over an accessor: its bucket is there, or the call ends with
    [ErrDBBadConfig]. *)
Ltac need_bucket k w :=
  match goal with
  | |- context [required_bucket k ?what] =>
      let Hr := fresh "Hr" in
      destruct (required_bucket_cases k what w) as [[? Hr]|[? Hr]];
      [rewrite (mbind_Ret _ _ _ _ _ Hr); clear Hr
      |rewrite (mbind_Err _ _ _ _ _ Hr); eexists; split; [reflexivity|done]]
  end.

Ltac have_bucket k w :=
  match goal with
  | H : root w !! k = Some (Bkt _) |- context [required_bucket k ?what] =>
      rewrite (mbind_Ret _ _ _ _ _ (required_bucket_found k what w _ H))
  end.

Section missing.
Implicit Types (w : World) (m : bucket) (s : BoltState).

Lemma World_eta w : mkWorld (root w) (trace w) = w.
Proof. by destruct w. Qed.

Lemma removeContainer_needs_schema E s ctr pod w :
  ¬ registries_exist (root w) →
  ∃ e, removeContainer E s ctr pod w = (Err e, w) ∧ errors_Cause e = ErrDBBadConfig.
Proof.
  intros Hno. unfold removeContainer, getIDBucket, getNamesBucket, getCtrBucket,
    getNSBucket, getAllCtrsBucket, getVolBucket.
  need_bucket idRegistryBkt w. need_bucket nameRegistryBkt w. need_bucket ctrBkt w.
  need_bucket nsRegistryBkt w. need_bucket allCtrsBkt w. need_bucket volBkt w.
  by destruct Hno.
Qed.

Lemma addContainer_tx_needs_schema ctr pod configJSON stateJSON netNSPath deps w :
  ¬ registries_exist (root w) →
  ∃ e, addContainer_tx ctr pod configJSON stateJSON netNSPath deps w = (Err e, w) ∧
       errors_Cause e = ErrDBBadConfig.
Proof.
  intros Hno.
  assert (∃ e, addContainer_open ctr pod configJSON stateJSON netNSPath w = (Err e, w) ∧
               errors_Cause e = ErrDBBadConfig) as (e & Hopen & He).
  { unfold addContainer_open, getIDBucket, getNamesBucket, getCtrBucket,
      getNSBucket, getAllCtrsBucket, getVolBucket.
    need_bucket idRegistryBkt w. need_bucket nameRegistryBkt w.
    need_bucket nsRegistryBkt w. need_bucket ctrBkt w.
    need_bucket allCtrsBkt w. need_bucket volBkt w.
    by destruct Hno. }
  exists e. split; [|done]. unfold addContainer_tx.
  by rewrite (mbind_Err _ _ _ _ _ Hopen).
Qed.

(** X17: both mutators need the schema.  When one of the six top-level
    buckets they ask for ([id-registry], [name-registry], [ns-registry],
    [ctr], [all-ctrs], [vol]) is missing, [removeContainer] and an
    [addContainer] that got as far as its transaction return an error
    whose cause is [ErrDBBadConfig], with the store and the events
    untouched: nothing is written and no object is invalidated. *)
Theorem mutators_need_schema (E : Externals) (s : BoltState) (ctr : Container)
    (pod : option Pod) (w : World) :
  ¬ registries_exist (root w) →
  (∃ e, removeContainer E s ctr pod w = (Err e, w) ∧ errors_Cause e = ErrDBBadConfig) ∧
  (∀ configJSON stateJSON,
     prepared E s ctr configJSON stateJSON →
     ∃ e, addContainer E s ctr pod w = (Err e, w) ∧ errors_Cause e = ErrDBBadConfig).
Proof.
  intros Hno. split; [by apply removeContainer_needs_schema|].
  intros configJSON stateJSON Hprep.
  rewrite (addContainer_prepared _ _ _ _ _ _ _ Hprep). unfold db_Update.
  destruct (addContainer_tx_needs_schema ctr pod configJSON stateJSON
              (getNetNSPath E ctr) (ctr_Dependencies E ctr) w Hno) as (e & -> & He).
  exists e. by rewrite World_eta.
Qed.

Lemma mutators_need_schema_witness :
  let w := Sample.world (delete allCtrsBkt Sample.emptyDB) in
  let ctr := Sample.container "c1" "web" EmptyString [] in
  let s := Sample.s EmptyString in
  ¬ registries_exist (root w) ∧
  (∃ e, removeContainer Sample.E s ctr None w = (Err e, w) ∧
        errors_Cause e = ErrDBBadConfig) ∧
  (∃ e, addContainer Sample.E s ctr None w = (Err e, w) ∧
        errors_Cause e = ErrDBBadConfig).
Proof.
  intros w ctr s.
  assert (¬ registries_exist (root w)) as Hno.
  { intros (_ & _ & _ & _ & [m Hm] & _). vm_compute in Hm. discriminate. }
  split; [exact Hno|].
  destruct (mutators_need_schema Sample.E s ctr None w Hno) as [Hrm Hadd].
  split; [exact Hrm|].
  apply (Hadd "config:c1" "{}"). repeat split; auto.
Defined.

(** X18: an object that is missing from the store is invalidated.  In a
    store that has the top-level buckets: when a pod is given and has no
    bucket, [removeContainer] and an [addContainer] that got as far as
    its transaction mark the pod invalid and return an error whose cause
    is [ErrNoSuchPod]; when the pod, if one is given, has a bucket and
    the container has none, [removeContainer] marks the container invalid
    and returns an error whose cause is [ErrNoSuchCtr].  In each case the
    store is as it was and the invalidation is the only event. *)
Theorem mutators_invalidate_missing (E : Externals) (s : BoltState) (ctr : Container)
    (pod : option Pod) (w : World) :
  registries_exist (root w) →
  (∀ p, pod = Some p → is_bkt (root w !! podBkt)) →
  (∀ p, pod = Some p → walk [podBkt; pod_ID p] (root w) = None →
     (∃ e, removeContainer E s ctr pod w =
             (Err e, mkWorld (root w) (trace w ++ [InvalidatePod (pod_ID p)])) ∧
           errors_Cause e = ErrNoSuchPod) ∧
     (∀ configJSON stateJSON,
        prepared E s ctr configJSON stateJSON →
        ∃ e, addContainer E s ctr pod w =
               (Err e, mkWorld (root w) (trace w ++ [InvalidatePod (pod_ID p)])) ∧
             errors_Cause e = ErrNoSuchPod)) ∧
  ((∀ p, pod = Some p → is_Some (walk [podBkt; pod_ID p] (root w))) →
   walk [ctrBkt; ctr_ID ctr] (root w) = None →
   ∃ e, removeContainer E s ctr pod w =
          (Err e, mkWorld (root w) (trace w ++ [InvalidateCtr (ctr_ID ctr)])) ∧
        errors_Cause e = ErrNoSuchCtr).
Proof.
  intros ([mids Hids] & [mnames Hnames] & [mns Hns] & [mb Hmb] & [mall Hall] & [mv Hmv])
    Hpods.
  split.
  - intros p -> Hnone. destruct (Hpods p eq_refl) as [mp Hmp].
    assert (walk [podBkt] (root w) = Some mp) as Hwp by (by rewrite walk_top, Hmp).
    assert (sub_handle [podBkt] mp (pod_ID p) = None) as Hsub.
    { apply sub_handle_None. intros [b Hb].
      change [podBkt; pod_ID p] with ([podBkt] ++ [pod_ID p]) in Hnone.
      by rewrite walk_snoc, Hwp, Hb in Hnone. }
    split.
    + unfold removeContainer, getIDBucket, getNamesBucket, getCtrBucket,
        getNSBucket, getAllCtrsBucket, getVolBucket.
      have_bucket idRegistryBkt w. have_bucket nameRegistryBkt w. have_bucket ctrBkt w.
      have_bucket nsRegistryBkt w. have_bucket allCtrsBkt w. have_bucket volBkt w.
      assert (∃ e, removeContainer_pod (Some p) w =
                     (Err e, mkWorld (root w) (trace w ++ [InvalidatePod (pod_ID p)])) ∧
                   errors_Cause e = ErrNoSuchPod) as (e & Hrun & He).
      { unfold removeContainer_pod, getPodBucket. have_bucket podBkt w.
        rewrite (mbind_Ret _ _ _ _ _ (bkt_Bucket_at _ _ _ _ Hwp)), Hsub.
        eexists. split; reflexivity. }
      exists e. by rewrite (mbind_Err _ _ _ _ _ Hrun).
    + intros configJSON stateJSON Hprep.
      rewrite (addContainer_prepared _ _ _ _ _ _ _ Hprep).
      assert (∃ e, addContainer_pod ctr (Some p) w =
                     (Err e, mkWorld (root w) (trace w ++ [InvalidatePod (pod_ID p)])) ∧
                   errors_Cause e = ErrNoSuchPod) as (e & Hrun & He).
      { unfold addContainer_pod, getPodBucket. have_bucket podBkt w.
        rewrite (mbind_Ret _ _ _ _ _ (bkt_Bucket_at _ _ _ _ Hwp)), Hsub.
        eexists. split; reflexivity. }
      exists e. split; [|done].
      unfold db_Update, addContainer_tx.
      assert (addContainer_open ctr (Some p) configJSON stateJSON (getNetNSPath E ctr) w =
                (Err e, mkWorld (root w) (trace w ++ [InvalidatePod (pod_ID p)]))) as Hopen.
      { unfold addContainer_open, getIDBucket, getNamesBucket,
          getCtrBucket, getNSBucket, getAllCtrsBucket, getVolBucket.
        have_bucket idRegistryBkt w. have_bucket nameRegistryBkt w.
        have_bucket nsRegistryBkt w. have_bucket ctrBkt w.
        have_bucket allCtrsBkt w. have_bucket volBkt w.
        by rewrite (mbind_Err _ _ _ _ _ Hrun). }
      by rewrite (mbind_Err _ _ _ _ _ Hopen).
  - intros Hpod Hnone.
    assert (walk [ctrBkt] (root w) = Some mb) as Hwb by (by rewrite walk_top, Hmb).
    assert (sub_handle [ctrBkt] mb (ctr_ID ctr) = None) as Hsub.
    { apply sub_handle_None. intros [b Hb].
      change [ctrBkt; ctr_ID ctr] with ([ctrBkt] ++ [ctr_ID ctr]) in Hnone.
      by rewrite walk_snoc, Hwb, Hb in Hnone. }
    assert (∃ h, removeContainer_pod pod w = (Ret h, w)) as [h Hh].
    { destruct pod as [p|]; [|by eexists].
      destruct (Hpods p eq_refl) as [mp Hmp].
      assert (walk [podBkt] (root w) = Some mp) as Hwp by (by rewrite walk_top, Hmp).
      destruct (Hpod p eq_refl) as [mP HmP].
      change [podBkt; pod_ID p] with ([podBkt] ++ [pod_ID p]) in HmP.
      rewrite walk_snoc, Hwp in HmP.
      destruct (mp !! pod_ID p) as [[|b]|] eqn:Hb; try done.
      unfold removeContainer_pod, getPodBucket.
      have_bucket podBkt w.
      rewrite (mbind_Ret _ _ _ _ _ (bkt_Bucket_at _ _ _ _ Hwp)).
      rewrite (sub_handle_Some _ _ _ _ Hb). by eexists. }
    unfold removeContainer, getIDBucket, getNamesBucket, getCtrBucket,
      getNSBucket, getAllCtrsBucket, getVolBucket.
    have_bucket idRegistryBkt w. have_bucket nameRegistryBkt w. have_bucket ctrBkt w.
    have_bucket nsRegistryBkt w. have_bucket allCtrsBkt w. have_bucket volBkt w.
    rewrite (mbind_Ret _ _ _ _ _ Hh).
    rewrite (mbind_Ret _ _ _ _ _ (bkt_Bucket_at _ _ _ _ Hwb)), Hsub.
    eexists. split; reflexivity.
Qed.
End missing.

Lemma mutators_invalidate_missing_witness :
  let w := Sample.world Sample.emptyDB in
  let ctr := Sample.container "c1" "web" EmptyString [] in
  let pod := Sample.pod "p1" "pod" EmptyString in
  let s := Sample.s EmptyString in
  registries_exist (root w) ∧
  (∃ e, removeContainer Sample.E s ctr (Some pod) w =
          (Err e, mkWorld (root w) [InvalidatePod "p1"]) ∧
        errors_Cause e = ErrNoSuchPod) ∧
  (∃ e, addContainer Sample.E s ctr (Some pod) w =
          (Err e, mkWorld (root w) [InvalidatePod "p1"]) ∧
        errors_Cause e = ErrNoSuchPod) ∧
  (∃ e, removeContainer Sample.E s ctr None w =
          (Err e, mkWorld (root w) [InvalidateCtr "c1"]) ∧
        errors_Cause e = ErrNoSuchCtr).
Proof.
  intros w ctr pod s.
  assert (registries_exist (root w)) as Hreg.
  { unfold registries_exist, is_bkt. repeat split; exists ∅; vm_compute; reflexivity. }
  assert (is_bkt (root w !! podBkt)) as Hpods by (exists ∅; vm_compute; reflexivity).
  split; [exact Hreg|].
  destruct (mutators_invalidate_missing Sample.E s ctr (Some pod) w Hreg (λ _ _, Hpods))
    as [Hpod _].
  destruct (Hpod pod eq_refl) as [Hrm Hadd]; [vm_compute; reflexivity|].
  split; [exact Hrm|]. split.
  { apply (Hadd "config:c1" "{}"). repeat split; auto. }
  destruct (mutators_invalidate_missing Sample.E s ctr None w Hreg) as [_ Hctr];
    [by intros ? [=]|].
  apply Hctr; [by intros ? [=]|vm_compute; reflexivity].
Defined.

(** ** The lock of the connection *)

(** X19: the lock discipline of the connection.  From a free lock,
    [getDBCon] returns with the lock held, also when [bolt.Open] fails;
    [closeDBCon] then frees it and returns what [db.Close] returned, and
    [deferredCloseDBCon] frees it and logs that error, one line, instead
    of returning it.  So the connection of [addContainer] ends with the
    lock free exactly when [bolt.Open] succeeded: after a failed open the
    lock stays held and the next [getDBCon] waits for ever.  Closing a
    connection while the lock is free is a fatal error. *)
Theorem connection_lock_discipline (E : Externals) (db_Close : option error)
    (error_Error : error → string) (s s' : BoltState) (st : Conn.State) :
  Conn.dbLock st = false →
  (∃ r st1,
     Conn.getDBCon_lock E s st = Conn.Returns r st1 ∧
     Conn.dbLock st1 = true ∧ Conn.log st1 = Conn.log st ∧
     (r = None ↔ bolt_Open E (dbPath s) = None) ∧
     Conn.getDBCon_lock E s' st1 = Conn.Waits ∧
     Conn.closeDBCon db_Close st1 = Conn.Returns db_Close st ∧
     ∃ st2,
       Conn.deferredCloseDBCon db_Close error_Error st1 = Conn.Returns tt st2 ∧
       Conn.dbLock st2 = false ∧
       Conn.log st2 = Conn.log st ++
         match db_Close with
         | Some err => [LogErrorf "failed to close libpod db: %q" [error_Error err]]
         | None => []
         end) ∧
  (∃ r st3,
     Conn.addContainer_connection E db_Close error_Error s st = Conn.Returns r st3 ∧
     (r = None ↔ bolt_Open E (dbPath s) = None) ∧
     (Conn.dbLock st3 = false ↔ bolt_Open E (dbPath s) = None) ∧
     (bolt_Open E (dbPath s) ≠ None →
      st3 = Conn.mkState true (Conn.log st) ∧
      Conn.addContainer_connection E db_Close error_Error s' st3 = Conn.Waits)) ∧
  Conn.closeDBCon db_Close st = Conn.Fatal ∧
  Conn.deferredCloseDBCon db_Close error_Error st = Conn.Fatal.
Proof.
  destruct st as [held lg]. cbn [Conn.dbLock Conn.log]. intros ->.
  split; [|split].
  - unfold Conn.getDBCon_lock, Conn.closeDBCon, Conn.deferredCloseDBCon, Conn.mutex_Lock,
      Conn.mutex_Unlock.
    cbn [Conn.dbLock Conn.log].
    destruct (bolt_Open E (dbPath s)) as [err|]; eexists _, _; (split; [reflexivity|]);
      cbn [Conn.dbLock Conn.log]; repeat split; try done.
    all: destruct db_Close; eexists; (split; [reflexivity|]); cbn [Conn.dbLock Conn.log];
      by rewrite ?app_nil_r.
  - unfold Conn.addContainer_connection, Conn.getDBCon_lock, Conn.closeDBCon,
      Conn.deferredCloseDBCon, Conn.mutex_Lock, Conn.mutex_Unlock.
    cbn [Conn.dbLock Conn.log].
    destruct (bolt_Open E (dbPath s)) as [err|]; [|destruct db_Close];
      eexists _, _; (split; [reflexivity|]); cbn [Conn.dbLock Conn.log];
      repeat split; try done.
  - unfold Conn.deferredCloseDBCon, Conn.closeDBCon, Conn.mutex_Unlock. by cbn.
Qed.

Lemma connection_lock_discipline_witness :
  let E := Sample.E in
  let s := Sample.s EmptyString in
  let st := Conn.mkState false [] in
  Conn.dbLock st = false ∧
  Conn.addContainer_connection E (Some ErrInternal) (λ _, "internal") s st =
    Conn.Returns None
      (Conn.mkState false [LogErrorf "failed to close libpod db: %q" ["internal"]]) ∧
  Conn.closeDBCon (Some ErrInternal) st = Conn.Fatal.
Proof.
  intros E s st.
  destruct (connection_lock_discipline E (Some ErrInternal) (λ _, "internal") s s st eq_refl)
    as (_ & _ & Hfatal & _).
  split; [reflexivity|]. split; [reflexivity|exact Hfatal].
Defined.

(** ** When a removal succeeds *)

Section progress.
Implicit Types (w : World) (m : bucket) (s : BoltState) (ctr : Container).

Lemma sorted_keys_empty : sorted_keys (∅ : bucket) = [].
Proof.
  destruct (sorted_keys ∅) as [|d l] eqn:Hl; [done|].
  assert (d ∈ sorted_keys (∅ : bucket)) as Hin by (rewrite Hl; apply elem_of_cons; by left).
  apply sorted_keys_elem in Hin as [n Hn]. by rewrite lookup_empty in Hn.
Qed.

(** A delete in a top-level bucket, of a key that holds no bucket. *)
Lemma delete_top_run k key format args w m :
  root w !! k = Some (Bkt m) → ¬ is_bkt (m !! key) →
  ∃ w', wrapf (bkt_Delete (Some [k]) key) format args w = (Ret tt, w') ∧
        ∀ k', k' ≠ k → root w' !! k' = root w !! k'.
Proof.
  intros Hk Hno.
  assert (walk [k] (root w) = Some m) as Hw by (by rewrite walk_top, Hk).
  eexists. split; [apply wrapf_Ret; by eapply bkt_Delete_at|].
  intros k' Hne. rewrite root_set_root. by rewrite wr_lookup_ne.
Qed.

Lemma deleteBucket_top_run k key e w m b :
  root w !! k = Some (Bkt m) → m !! key = Some (Bkt b) →
  ∃ w', or_else (bkt_DeleteBucket (Some [k]) key) e w = (Ret tt, w') ∧
        root w' !! k = Some (Bkt (delete key m)) ∧
        ∀ k', k' ≠ k → root w' !! k' = root w !! k'.
Proof.
  intros Hk Hb.
  assert (walk [k] (root w) = Some m) as Hw by (by rewrite walk_top, Hk).
  exists (set_root (wr [k] (delete key)) w). split; [|split].
  - unfold or_else, bkt_DeleteBucket, with_bkt. by rewrite Hw, Hb.
  - rewrite root_set_root. by rewrite (wr_lookup_eq _ _ _ _ _ Hk).
  - intros k' Hne. rewrite root_set_root. by rewrite wr_lookup_ne.
Qed.

Lemma removeContainer_pod_run ctr pod w :
  unlink_ready (root w) ctr pod →
  removeContainer_pod pod w =
    (Ret (match pod with Some pod => Some [podBkt; pod_ID pod] | None => None end), w).
Proof.
  destruct pod as [pd|]; [|done]. intros (mp & Hmp & _).
  cbn [walk] in Hmp. destruct (root w !! podBkt) as [[|mP]|] eqn:HP; try done.
  destruct (mP !! pod_ID pd) as [[|b]|] eqn:Hb; try done.
  assert (walk [podBkt] (root w) = Some mP) as Hw by (by rewrite walk_top, HP).
  unfold removeContainer_pod, getPodBucket.
  rewrite (mbind_Ret _ _ _ _ _ (required_bucket_found _ _ _ _ HP)).
  rewrite (mbind_Ret _ _ _ _ _ (bkt_Bucket_at _ _ _ _ Hw)).
  by rewrite (sub_handle_Some _ _ _ _ Hb).
Qed.

Lemma removeContainer_namespace_run s ctr pod w :
  namespace_ok s ctr pod → removeContainer_namespace s ctr pod w = (Ret tt, w).
Proof.
  unfold removeContainer_namespace, namespace_ok. intros [Hns|[Hc Hp]].
  - by rewrite (bool_decide_eq_false_2 (namespace s ≠ EmptyString)) by auto.
  - case_bool_decide; [|done].
    rewrite (bool_decide_eq_false_2 (namespace s ≠ ctr_Namespace ctr)) by auto.
    destruct pod as [pd|]; [|done].
    by rewrite (bool_decide_eq_false_2 (namespace s ≠ _)) by auto.
Qed.

Lemma removeContainer_unlink_run ctr pod w :
  unlink_ready (root w) ctr pod →
  ∃ w', removeContainer_unlink ctr pod
          (match pod with Some pod => Some [podBkt; pod_ID pod] | None => None end) w
        = (Ret tt, w') ∧
        ∀ k, k ≠ podBkt → root w' !! k = root w !! k.
Proof.
  destruct pod as [pd|]; [|by eexists]. intros (mp & Hmp & Hc).
  unfold removeContainer_unlink.
  rewrite (mbind_Ret _ _ _ _ _ (bkt_Bucket_at _ _ _ _ Hmp)).
  destruct Hc as [Hno|(mc & v & Hmc & Hv)].
  - rewrite (sub_handle_None _ _ _ Hno). eexists. split; [reflexivity|done].
  - rewrite (sub_handle_Some _ _ _ _ Hmc).
    assert (walk ([podBkt; pod_ID pd] ++ [containersBkt]) (root w) = Some mc) as Hw
      by (by rewrite walk_snoc, Hmp, Hmc).
    rewrite (mbind_Ret _ _ _ _ _ (bkt_Get_at _ (ctr_ID ctr) _ _ Hw)), Hv. cbn [node_value].
    eexists. split.
    + apply wrapf_Ret. eapply bkt_Delete_at; [exact Hw|]. rewrite Hv. by intros [? [=]].
    + intros k Hk. rewrite root_set_root. cbn [app]. by rewrite wr_lookup_ne.
Qed.

(** The loop over the dependencies, when no [dependencies] bucket holds
    a nested bucket under the ID. *)
Lemma removeContainer_dependencies_run ctr deps w :
  is_bkt (root w !! ctrBkt) →
  (∀ D md, D ∈ deps → walk [ctrBkt; D; dependenciesBkt] (root w) = Some md →
           ¬ is_bkt (md !! ctr_ID ctr)) →
  ∃ w', for_range deps (removeContainer_dependency ctr (Some [ctrBkt])) w = (Ret tt, w') ∧
        ∀ k, k ≠ ctrBkt → root w' !! k = root w !! k.
Proof.
  revert w. induction deps as [|D deps IH]; intros w Hctr Hdeps; cbn [for_range].
  { by eexists. }
  assert (∃ w1, removeContainer_dependency ctr (Some [ctrBkt]) D w = (Ret tt, w1) ∧
                (∀ k, k ≠ ctrBkt → root w1 !! k = root w !! k) ∧
                is_bkt (root w1 !! ctrBkt) ∧
                (∀ D' md, D' ∈ deps →
                   walk [ctrBkt; D'; dependenciesBkt] (root w1) = Some md →
                   ¬ is_bkt (md !! ctr_ID ctr))) as (w1 & Hrun & Hfr & Hctr1 & Hdeps1).
  { assert (∀ D' md, D' ∈ deps →
               walk [ctrBkt; D'; dependenciesBkt] (root w) = Some md →
               ¬ is_bkt (md !! ctr_ID ctr)) as Hrest.
    { intros D' md HD'. apply Hdeps. apply elem_of_cons. by right. }
    pose proof Hctr as [mb Hmb].
    assert (walk [ctrBkt] (root w) = Some mb) as Hwb by (by rewrite walk_top, Hmb).
    unfold removeContainer_dependency.
    rewrite (mbind_Ret _ _ _ _ _ (bkt_Bucket_at _ _ _ _ Hwb)).
    destruct (mb !! D) as [[|mD]|] eqn:HD.
    1,3: rewrite sub_handle_None by (rewrite HD; by intros [? [=]]); by exists w.
    rewrite (sub_handle_Some _ _ _ _ HD).
    assert (walk ([ctrBkt] ++ [D]) (root w) = Some mD) as HwD
      by (by rewrite walk_snoc, Hwb, HD).
    rewrite (mbind_Ret _ _ _ _ _ (bkt_Bucket_at _ _ _ _ HwD)).
    destruct (mD !! dependenciesBkt) as [[|md]|] eqn:Hmd.
    1,3: rewrite sub_handle_None by (rewrite Hmd; by intros [? [=]]);
      eexists; split; [reflexivity|]; by cbn [root].
    rewrite (sub_handle_Some _ _ _ _ Hmd).
    assert (walk (([ctrBkt] ++ [D]) ++ [dependenciesBkt]) (root w) = Some md) as Hwd
      by (by rewrite walk_snoc, HwD, Hmd).
    eexists. split; [|split; [|split]].
    - apply wrapf_Ret. eapply bkt_Delete_at; [exact Hwd|].
      apply (Hdeps D md); [apply elem_of_cons; by left|exact Hwd].
    - intros k Hk. rewrite root_set_root. cbn [app]. by rewrite wr_lookup_ne.
    - rewrite root_set_root. cbn [app]. by apply wr_is_bkt.
    - intros D' md' HD'. rewrite root_set_root. cbn [app].
      destruct (decide (D' = D)) as [->|Hne].
      + rewrite (walk_wr_same _ _ _ _ Hwd). intros [= <-].
        rewrite lookup_delete_eq. by intros [? [=]].
      + intros Hw'. apply (Hrest D' md' HD'). revert Hw'. cbn [walk wr].
        rewrite Hmb, lookup_insert_eq, HD. by rewrite lookup_insert_ne by done. }
  rewrite (mbind_Ret _ _ _ _ _ Hrun).
  destruct (IH w1 Hctr1 Hdeps1) as (w' & Hrun' & Hfr'). exists w'. split; [done|].
  intros k Hk. by rewrite Hfr', Hfr.
Qed.

(** The loop over the named volumes, when every volume that has a bucket
    has a [vol-dependencies] bucket with no nested bucket under the ID:
    nothing is written. *)
Lemma removeContainer_volumes_run ctr (vols : list ContainerNamedVolume) w mv :
  root w !! volBkt = Some (Bkt mv) →
  (∀ vol mV, vol ∈ vols → mv !! vol_Name vol = Some (Bkt mV) →
     ∃ md, mV !! volDependenciesBkt = Some (Bkt md) ∧ ¬ is_bkt (md !! ctr_ID ctr)) →
  for_range vols (removeContainer_volume ctr (Some [volBkt])) w = (Ret tt, w).
Proof.
  intros Hmv. assert (walk [volBkt] (root w) = Some mv) as Hwv by (by rewrite walk_top, Hmv).
  induction vols as [|vol vols IH]; intros Hvols; cbn [for_range]; [done|].
  assert (removeContainer_volume ctr (Some [volBkt]) vol w = (Ret tt, w)) as Hrun.
  { unfold removeContainer_volume.
    rewrite (mbind_Ret _ _ _ _ _ (bkt_Bucket_at _ _ _ _ Hwv)).
    destruct (mv !! vol_Name vol) as [[|mV]|] eqn:HV.
    1,3: by rewrite sub_handle_None by (rewrite HV; by intros [? [=]]).
    rewrite (sub_handle_Some _ _ _ _ HV).
    destruct (Hvols vol mV) as (md & Hmd & Hno); [apply elem_of_cons; by left|done|].
    assert (walk ([volBkt] ++ [vol_Name vol]) (root w) = Some mV) as HwV
      by (by rewrite walk_snoc, Hwv, HV).
    rewrite (mbind_Ret _ _ _ _ _ (bkt_Bucket_at _ _ _ _ HwV)).
    rewrite (sub_handle_Some _ _ _ _ Hmd).
    assert (walk (([volBkt] ++ [vol_Name vol]) ++ [volDependenciesBkt]) (root w) = Some md)
      as Hwd by (by rewrite walk_snoc, HwV, Hmd).
    rewrite (mbind_Ret _ _ _ _ _ (bkt_Get_at _ (ctr_ID ctr) _ _ Hwd)).
    destruct (md !! ctr_ID ctr) as [[v|b]|] eqn:Hk; cbn [node_value].
    - done.
    - destruct Hno. by eexists.
    - assert (¬ is_bkt (md !! ctr_ID ctr)) as Hno' by (by rewrite Hk).
      rewrite (wrapf_Ret _ _ _ _ _ _ (bkt_Delete_at _ _ _ _ Hwd Hno')). f_equal.
      apply set_root_id. eapply wr_id; [exact Hwd|]. by apply delete_id. }
  rewrite (mbind_Ret _ _ _ _ _ Hrun). apply IH.
  intros v mV Hv. apply Hvols. apply elem_of_cons. by right.
Qed.

Ltac delete_top k Hk Hno w' Hfr :=
  match goal with
  | |- context [wrapf (bkt_Delete (Some [k]) ?key) ?format ?args] =>
      let Hs := fresh "Hs" in
      destruct (delete_top_run k key format args _ _ Hk Hno) as (w' & Hs & Hfr);
      rewrite (mbind_Ret _ _ _ _ _ Hs); clear Hs
  end.

Lemma removeContainer_runs E s ctr pod w mids mnames mns mb mall mv mA :
  root w !! idRegistryBkt = Some (Bkt mids) →
  root w !! nameRegistryBkt = Some (Bkt mnames) →
  root w !! nsRegistryBkt = Some (Bkt mns) →
  root w !! ctrBkt = Some (Bkt mb) →
  root w !! allCtrsBkt = Some (Bkt mall) →
  root w !! volBkt = Some (Bkt mv) →
  ¬ is_bkt (mids !! ctr_ID ctr) → ¬ is_bkt (mnames !! ctr_Name ctr) →
  ¬ is_bkt (mns !! ctr_ID ctr) → ¬ is_bkt (mall !! ctr_ID ctr) →
  mb !! ctr_ID ctr = Some (Bkt mA) → mA !! dependenciesBkt = Some (Bkt ∅) →
  unlink_ready (root w) ctr pod → namespace_ok s ctr pod →
  (∀ D mD md, D ∈ ctr_Dependencies E ctr → mb !! D = Some (Bkt mD) →
     mD !! dependenciesBkt = Some (Bkt md) → ¬ is_bkt (md !! ctr_ID ctr)) →
  (∀ vol mV, vol ∈ cfg_NamedVolumes (ctr_config ctr) → mv !! vol_Name vol = Some (Bkt mV) →
     ∃ md, mV !! volDependenciesBkt = Some (Bkt md) ∧ ¬ is_bkt (md !! ctr_ID ctr)) →
  ∃ w', removeContainer E s ctr pod w = (Ret tt, w').
Proof.
  intros Hids Hnames Hns Hmb Hall Hmv Hnids Hnnames Hnns Hnall HmA HdA Hready Hnsok
    Hdeps Hvols.
  unfold removeContainer, getIDBucket, getNamesBucket, getCtrBucket, getNSBucket,
    getAllCtrsBucket, getVolBucket.
  have_bucket idRegistryBkt w. have_bucket nameRegistryBkt w. have_bucket ctrBkt w.
  have_bucket nsRegistryBkt w. have_bucket allCtrsBkt w. have_bucket volBkt w.
  rewrite (mbind_Ret _ _ _ _ _ (removeContainer_pod_run ctr pod w Hready)).
  assert (walk [ctrBkt] (root w) = Some mb) as Hwb by (by rewrite walk_top, Hmb).
  rewrite (mbind_Ret _ _ _ _ _ (bkt_Bucket_at _ _ _ _ Hwb)).
  rewrite (sub_handle_Some _ _ _ _ HmA).
  rewrite (mbind_Ret _ _ _ _ _ (removeContainer_namespace_run s ctr pod w Hnsok)).
  destruct (removeContainer_unlink_run ctr pod w Hready) as (w1 & Hunlink & Hfr1).
  rewrite (mbind_Ret _ _ _ _ _ Hunlink). clear Hunlink.
  assert (root w1 !! ctrBkt = Some (Bkt mb)) as Hmb1 by (by rewrite Hfr1 by by_compute).
  assert (walk ([ctrBkt] ++ [ctr_ID ctr]) (root w1) = Some mA) as HwA
    by (cbn [app walk]; by rewrite Hmb1, HmA).
  rewrite (mbind_Ret _ _ _ _ _ (bkt_Bucket_at _ _ _ _ HwA)).
  rewrite (sub_handle_Some _ _ _ _ HdA).
  assert (walk (([ctrBkt] ++ [ctr_ID ctr]) ++ [dependenciesBkt]) (root w1) = Some ∅) as Hwd
    by (by rewrite walk_snoc, HwA, HdA).
  rewrite (mbind_Ret _ _ _ _ _ (bkt_ForEach_collect _ _ _ Hwd)).
  rewrite sorted_keys_empty.
  rewrite (bool_decide_eq_false_2 (length _ ≠ 0)) by (by intros []).
  match goal with
  | |- context [or_else (bkt_DeleteBucket (Some [ctrBkt]) ?key) ?e] =>
      destruct (deleteBucket_top_run ctrBkt key e w1 mb mA Hmb1 HmA)
        as (w2 & Hs & Hmb2 & Hfr2);
      rewrite (mbind_Ret _ _ _ _ _ Hs); clear Hs
  end.
  assert (root w2 !! idRegistryBkt = Some (Bkt mids)) as Hids2
    by (by rewrite Hfr2, Hfr1 by by_compute).
  delete_top idRegistryBkt Hids2 Hnids w3 Hfr3.
  assert (root w3 !! nameRegistryBkt = Some (Bkt mnames)) as Hnames3
    by (by rewrite Hfr3, Hfr2, Hfr1 by by_compute).
  delete_top nameRegistryBkt Hnames3 Hnnames w4 Hfr4.
  assert (root w4 !! nsRegistryBkt = Some (Bkt mns)) as Hns4
    by (by rewrite Hfr4, Hfr3, Hfr2, Hfr1 by by_compute).
  delete_top nsRegistryBkt Hns4 Hnns w5 Hfr5.
  assert (root w5 !! allCtrsBkt = Some (Bkt mall)) as Hall5
    by (by rewrite Hfr5, Hfr4, Hfr3, Hfr2, Hfr1 by by_compute).
  delete_top allCtrsBkt Hall5 Hnall w6 Hfr6.
  assert (root w6 !! ctrBkt = Some (Bkt (delete (ctr_ID ctr) mb))) as Hmb6
    by (by rewrite Hfr6, Hfr5, Hfr4, Hfr3 by by_compute).
  destruct (removeContainer_dependencies_run ctr (ctr_Dependencies E ctr) w6)
    as (w7 & Hloop & Hfr7).
  { by eexists. }
  { intros D md HD. cbn [walk]. rewrite Hmb6.
    destruct (decide (D = ctr_ID ctr)) as [->|Hne]; [by rewrite lookup_delete_eq|].
    rewrite lookup_delete_ne by done.
    destruct (mb !! D) as [[|mD]|] eqn:HmD; try done.
    destruct (mD !! dependenciesBkt) as [[|md']|] eqn:Hmd; try done.
    intros [= <-]. by eapply Hdeps. }
  rewrite (mbind_Ret _ _ _ _ _ Hloop).
  assert (root w7 !! volBkt = Some (Bkt mv)) as Hmv7
    by (by rewrite Hfr7, Hfr6, Hfr5, Hfr4, Hfr3, Hfr2, Hfr1 by by_compute).
  rewrite (removeContainer_volumes_run ctr _ w7 mv Hmv7 Hvols). by eexists.
Qed.

(** What a committed add leaves is what [removeContainer_runs] asks for. *)
Lemma removeContainer_after_add E s ctr pod w w1 :
  addContainer E s ctr pod w = (Ret tt, w1) →
  ctr_ID ctr ∉ ctr_Dependencies E ctr →
  namespace_ok s ctr pod →
  (ctr_Namespace ctr = EmptyString →
   ∀ mns, root w !! nsRegistryBkt = Some (Bkt mns) → ¬ is_bkt (mns !! ctr_ID ctr)) →
  ∃ w2, removeContainer E s ctr pod w1 = (Ret tt, w2).
Proof.
  intros Hadd Hself Hnsok Hnsfree.
  pose proof (addContainer_entered _ _ _ _ _ _ Hadd) as Hent.
  apply addContainer_Ret in Hadd
    as (configJSON & stateJSON & _ & -> & Hreg & Hready & Hrun & _).
  apply addContainer_register_Ret in Hrun as (_ & _ & _ & _ & (mb & Hmb & Hfree) & _).
  destruct Hreg as ([mids Hids] & [mnames Hnames] & [mns Hns] & _ & [mall Hall] & [mv Hmv]).
  cbn [set_root root] in *.
  pose proof (added_pod ctr pod configJSON stateJSON (getNetNSPath E ctr)
                (ctr_Dependencies E ctr) (root w)) as Hpod.
  assert (∃ mv', added ctr pod configJSON stateJSON (getNetNSPath E ctr)
                   (ctr_Dependencies E ctr) (root w) !! volBkt = Some (Bkt mv'))
    as [mv' Hmv'].
  { unfold added. erewrite linkVolumes_top.
    - rewrite lookup_insert_eq. by eexists.
    - rewrite linkPod_lookup, linkDependencies_lookup, registered_lookup by by_compute.
      exact Hmv. }
  eapply (removeContainer_runs E s ctr pod
            (mkWorld (added ctr pod configJSON stateJSON (getNetNSPath E ctr)
                        (ctr_Dependencies E ctr) (root w)) (trace w))); cbn [root].
  - by apply added_ids.
  - by apply added_names.
  - by apply added_ns.
  - rewrite added_lookup_ctr.
    rewrite (linkDependencies_top _ _ _ _ (registered_ctr _ _ _ _ _ _ _ Hmb)).
    by rewrite lookup_insert_eq.
  - by apply added_all.
  - exact Hmv'.
  - rewrite lookup_insert_eq. by intros [? [=]].
  - rewrite lookup_insert_eq. by intros [? [=]].
  - case_decide as Hns0; [by apply Hnsfree|].
    rewrite lookup_insert_eq. by intros [? [=]].
  - rewrite lookup_insert_eq. by intros [? [=]].
  - rewrite linkDependencies_entry, decide_False by done. by rewrite lookup_insert_eq.
  - by destruct (newCtrRecord_lookups ctr pod configJSON stateJSON (getNetNSPath E ctr))
      as (_ & _ & _ & _ & _ & Hd & _).
  - destruct pod as [pd|]; [|done].
    destruct Hready as (mp & mc & Hmp & Hmc & _).
    assert (walk ([podBkt; pod_ID pd] ++ [containersBkt]) (root w) = Some mc) as Hwc
      by (by rewrite walk_snoc, Hmp, Hmc).
    pose proof (walk_wr_same _ (insert (ctr_ID ctr) (Val (ctr_Name ctr))) _ _ Hwc) as Hwc'.
    rewrite walk_snoc in Hwc'.
    destruct (walk [podBkt; pod_ID pd]
                (wr ([podBkt; pod_ID pd] ++ [containersBkt])
                   (insert (ctr_ID ctr) (Val (ctr_Name ctr))) (root w)))
      as [mp'|] eqn:Hmp'; [|done].
    exists mp'. split.
    + rewrite (walk_ext _ _ _ _ Hpod). exact Hmp'.
    + right. destruct (mp' !! containersBkt) as [[|mc']|] eqn:Hmc'; try done.
      injection Hwc' as ->. eexists _, _. split; [done|]. by rewrite lookup_insert_eq.
  - exact Hnsok.
  - intros D mD' md' HD. rewrite linkDependencies_entry, decide_True by done.
    destruct (decide (D = ctr_ID ctr)) as [->|Hne]; [done|].
    rewrite lookup_insert_ne by done.
    destruct (mb !! D) as [[|mD]|] eqn:HmD; try done. intros [= <-].
    destruct (mD !! dependenciesBkt) as [[|md]|] eqn:Hmd; rewrite ?Hmd; try done.
    rewrite lookup_insert_eq. intros [= <-]. rewrite lookup_insert_eq. by intros [? [=]].
  - intros vol mV' Hvol HmV'.
    rewrite Forall_forall in Hent. destruct (Hent vol Hvol) as (md & v & Hwd & Hv).
    cbn [root walk] in Hwd. rewrite Hmv', HmV' in Hwd.
    destruct (mV' !! volDependenciesBkt) as [[|md']|] eqn:Hmd'; try done.
    injection Hwd as ->. exists md. split; [done|]. rewrite Hv. by intros [? [=]].
Qed.
End progress.

(** X20: when [removeContainer] succeeds.  In a store with the six
    top-level buckets, the removal returns nil when: the container has a
    record whose [dependencies] bucket is empty; the pod, if one is
    given, has a bucket whose [containers] bucket, if it has one, lists
    the container; the container and the pod are in the namespace of a
    namespace-scoped state; and no key the removal deletes holds a nested
    bucket (the ID and the name in the registries, the ID in the
    [dependencies] bucket of each dependency and in the
    [vol-dependencies] bucket, which must exist, of each named volume
    that has a bucket).  The store it leaves is the one described by
    [removedStore]. *)
Theorem removeContainer_succeeds (E : Externals) (s : BoltState) (ctr : Container)
    (pod : option Pod) (w : World) (mids mnames mns mb mall mv mA : bucket) :
  root w !! idRegistryBkt = Some (Bkt mids) →
  root w !! nameRegistryBkt = Some (Bkt mnames) →
  root w !! nsRegistryBkt = Some (Bkt mns) →
  root w !! ctrBkt = Some (Bkt mb) →
  root w !! allCtrsBkt = Some (Bkt mall) →
  root w !! volBkt = Some (Bkt mv) →
  ¬ is_bkt (mids !! ctr_ID ctr) → ¬ is_bkt (mnames !! ctr_Name ctr) →
  ¬ is_bkt (mns !! ctr_ID ctr) → ¬ is_bkt (mall !! ctr_ID ctr) →
  mb !! ctr_ID ctr = Some (Bkt mA) → mA !! dependenciesBkt = Some (Bkt ∅) →
  unlink_ready (root w) ctr pod → namespace_ok s ctr pod →
  (∀ D mD md, D ∈ ctr_Dependencies E ctr → mb !! D = Some (Bkt mD) →
     mD !! dependenciesBkt = Some (Bkt md) → ¬ is_bkt (md !! ctr_ID ctr)) →
  (∀ vol mV, vol ∈ cfg_NamedVolumes (ctr_config ctr) → mv !! vol_Name vol = Some (Bkt mV) →
     ∃ md, mV !! volDependenciesBkt = Some (Bkt md) ∧ ¬ is_bkt (md !! ctr_ID ctr)) →
  ∃ w', removeContainer E s ctr pod w = (Ret tt, w') ∧
        root w' = removedStore ctr pod (ctr_Dependencies E ctr) (root w).
Proof.
  intros Hids Hnames Hns Hmb Hall Hmv Hnids Hnnames Hnns Hnall HmA HdA Hready Hnsok
    Hdeps Hvols.
  destruct (removeContainer_runs E s ctr pod w mids mnames mns mb mall mv mA)
    as [w' Hrun]; try done.
  exists w'. split; [done|]. by apply removeContainer_Ret in Hrun as [Hroot _].
Qed.

(** X21: what [addContainer] added, [removeContainer] can remove.  After
    a successful [addContainer], a [removeContainer] of the same
    container from the same pod returns nil, provided that the container
    does not list itself among its dependencies, that the container and
    the pod are in the namespace of a namespace-scoped state, and, for a
    container without a namespace, that [ns-registry] holds no nested
    bucket under its ID. *)
Theorem addContainer_then_removeContainer (E : Externals) (s : BoltState)
    (ctr : Container) (pod : option Pod) (w w1 : World) :
  addContainer E s ctr pod w = (Ret tt, w1) →
  ctr_ID ctr ∉ ctr_Dependencies E ctr →
  namespace_ok s ctr pod →
  (ctr_Namespace ctr = EmptyString →
   ∀ mns, root w !! nsRegistryBkt = Some (Bkt mns) → ¬ is_bkt (mns !! ctr_ID ctr)) →
  ∃ w2, removeContainer E s ctr pod w1 = (Ret tt, w2) ∧
        root w2 = removedStore ctr pod (ctr_Dependencies E ctr) (root w1).
Proof.
  intros Hadd Hself Hnsok Hnsfree.
  destruct (removeContainer_after_add E s ctr pod w w1 Hadd Hself Hnsok Hnsfree)
    as [w2 Hrun].
  exists w2. split; [done|]. by apply removeContainer_Ret in Hrun as [Hroot _].
Qed.

Lemma removeContainer_succeeds_witness :
  let ctr := Sample.container "c1" "web" EmptyString ["V"] in
  let s := Sample.s EmptyString in
  let w := Sample.world
             (Sample.withVolume "V" (Sample.volumeRecord {[ "c1" := Val "c1" ]})
                (Sample.withCtr "c1" (Sample.ctrRecord None None ∅) Sample.emptyDB)) in
  ∃ w', removeContainer Sample.E s ctr None w = (Ret tt, w') ∧
        root w' = removedStore ctr None [] (root w).
Proof.
  intros ctr s w.
  eapply (removeContainer_succeeds Sample.E s ctr None w).
  - vm_compute. reflexivity.
  - vm_compute. reflexivity.
  - vm_compute. reflexivity.
  - vm_compute. reflexivity.
  - vm_compute. reflexivity.
  - vm_compute. reflexivity.
  - intros [m Hm]. vm_compute in Hm. discriminate.
  - intros [m Hm]. vm_compute in Hm. discriminate.
  - intros [m Hm]. vm_compute in Hm. discriminate.
  - intros [m Hm]. vm_compute in Hm. discriminate.
  - vm_compute. reflexivity.
  - vm_compute. reflexivity.
  - exact I.
  - by left.
  - intros D mD md HD. by apply elem_of_nil in HD.
  - intros vol mV [->|[]%elem_of_nil]%elem_of_cons HmV.
    exists {[ "c1" := Val "c1" ]}. split.
    + assert (Some (Bkt mV) = Some (Sample.volumeRecord {[ "c1" := Val "c1" ]})) as [= ->]
        by (rewrite <- HmV; vm_compute; reflexivity).
      vm_compute. reflexivity.
    + intros [m Hm]. vm_compute in Hm. discriminate.
Defined.

Lemma addContainer_then_removeContainer_witness :
  let ctr := Sample.container "B" "b" "prod" ["V"] in
  let pod := Some (Sample.pod "p1" "db" "prod") in
  let s := Sample.s "prod" in
  let w := Sample.world
             (Sample.withPod "p1" (Sample.podRecord (Some "prod") {[ "A" := Val "a" ]})
                (Sample.withVolume "V" (Sample.volumeRecord ∅)
                   (Sample.withCtr "A" (Sample.ctrRecord (Some "prod") (Some "p1") ∅)
                      Sample.emptyDB))) in
  let w1 := (addContainer Sample.E_depA s ctr pod w).2 in
  addContainer Sample.E_depA s ctr pod w = (Ret tt, w1) ∧
  ∃ w2, removeContainer Sample.E_depA s ctr pod w1 = (Ret tt, w2) ∧
        root w2 = removedStore ctr pod ["A"] (root w1).
Proof.
  intros ctr pod s w w1.
  assert (addContainer Sample.E_depA s ctr pod w = (Ret tt, w1)) as Hadd
    by (vm_compute; reflexivity).
  split; [exact Hadd|].
  apply (addContainer_then_removeContainer Sample.E_depA s ctr pod w w1 Hadd).
  - intros [H|[]%elem_of_nil]%elem_of_cons. discriminate H.
  - right. by split.
  - intros H. discriminate H.
Defined.

(** ** When an add succeeds *)

Ltac solve_key :=
  first [ assumption
        | split; [done|by vm_compute]
        | by vm_compute
        | done ].

Section add_progress.
Implicit Types (w : World) (m : bucket) (s : BoltState) (ctr : Container).

(** A put in a top-level bucket. *)
Lemma put_top_run k key v format args w m :
  root w !! k = Some (Bkt m) → key_ok key → value_ok v → ¬ is_bkt (m !! key) →
  ∃ w', wrapf (bkt_Put (Some [k]) key v) format args w = (Ret tt, w') ∧
        ∀ k', k' ≠ k → root w' !! k' = root w !! k'.
Proof.
  intros Hk [Hne Hlen] Hv Hno.
  assert (walk [k] (root w) = Some m) as Hw by (by rewrite walk_top, Hk).
  eexists. split; [apply wrapf_Ret; by eapply bkt_Put_at|].
  intros k' Hk'. rewrite root_set_root. by rewrite wr_lookup_ne.
Qed.

(** A put in the record under construction: a bucket of values only,
    without a [dependencies] key. *)
Lemma put_rec_run p key v format args w :
  (∃ m, walk p (root w) = Some m ∧ (∀ k, ¬ is_bkt (m !! k)) ∧
        m !! dependenciesBkt = None) →
  key ≠ dependenciesBkt → key_ok key → value_ok v →
  ∃ w', wrapf (bkt_Put (Some p) key v) format args w = (Ret tt, w') ∧
        ∃ m, walk p (root w') = Some m ∧ (∀ k, ¬ is_bkt (m !! k)) ∧
             m !! dependenciesBkt = None.
Proof.
  intros (m & Hw & Hplain & Hfree) Hkey [Hne Hlen] Hv.
  eexists. split; [apply wrapf_Ret; by eapply bkt_Put_at|].
  exists (<[key := Val v]> m). rewrite root_set_root. split; [by apply walk_wr_same|].
  split.
  - intros k. destruct (decide (k = key)) as [->|Hk].
    + rewrite lookup_insert_eq. by intros [? [=]].
    + by rewrite lookup_insert_ne.
  - by rewrite lookup_insert_ne.
Qed.

Lemma key_value_ok k : key_ok k → value_ok k.
Proof. unfold key_ok, value_ok, MaxKeySize, MaxValueSize. lia. Qed.

Lemma create_rec_run k key format args w m :
  root w !! k = Some (Bkt m) → m !! key = None → key ≠ EmptyString →
  ∃ w', wrapf (bkt_CreateBucket (Some [k]) key) format args w = (Ret (Some [k; key]), w') ∧
        ∃ m', walk [k; key] (root w') = Some m' ∧ (∀ k', ¬ is_bkt (m' !! k')) ∧
              m' !! dependenciesBkt = None.
Proof.
  intros Hk Hfree Hne.
  assert (walk [k] (root w) = Some m) as Hw by (by rewrite walk_top, Hk).
  exists (set_root (wr [k] (insert key (Bkt ∅))) w). split.
  - apply wrapf_Ret. unfold bkt_CreateBucket, with_bkt.
    by rewrite Hw, decide_False, Hfree by done.
  - exists ∅. rewrite root_set_root. split; [|split].
    + cbn [walk]. rewrite (wr_lookup_eq _ _ _ _ _ Hk). cbn [wr].
      by rewrite lookup_insert_eq.
    + intros k'. rewrite lookup_empty. by intros [? [=]].
    + done.
Qed.

Lemma create_deps_run p format args w :
  (∃ m, walk p (root w) = Some m ∧ (∀ k, ¬ is_bkt (m !! k)) ∧
        m !! dependenciesBkt = None) →
  ∃ h w', wrapf (bkt_CreateBucket (Some p) dependenciesBkt) format args w = (Ret h, w').
Proof.
  intros (m & Hw & _ & Hfree). eexists _, _. apply wrapf_Ret.
  unfold bkt_CreateBucket, with_bkt. rewrite Hw, decide_False, Hfree by done. reflexivity.
Qed.

Ltac put_top k Hk w' Hfr :=
  match goal with
  | |- context [wrapf (bkt_Put (Some [k]) ?key ?v) ?format ?args] =>
      let Hs := fresh "Hs" in
      destruct (put_top_run k key v format args _ _ Hk) as (w' & Hs & Hfr);
      [solve_key..|]; rewrite (mbind_Ret _ _ _ _ _ Hs); clear Hs
  end.

Ltac put_rec key HP w' :=
  match goal with
  | |- context [wrapf (bkt_Put (Some ?p) key ?v) ?format ?args] =>
      let Hs := fresh "Hs" in
      let HP' := fresh "HP" in
      destruct (put_rec_run p key v format args _ HP) as (w' & Hs & HP');
      [solve_key..|]; rewrite (mbind_Ret _ _ _ _ _ Hs); clear Hs HP; rename HP' into HP
  end.

(** The registration, when the ID and the name are free and every key
    and value is one the engine accepts. *)
Lemma addContainer_register_run ctr pod configJSON stateJSON netNSPath w
    mids mnames mns mb mall :
  root w !! idRegistryBkt = Some (Bkt mids) →
  root w !! nameRegistryBkt = Some (Bkt mnames) →
  root w !! nsRegistryBkt = Some (Bkt mns) →
  root w !! ctrBkt = Some (Bkt mb) →
  root w !! allCtrsBkt = Some (Bkt mall) →
  mids !! ctr_ID ctr = None → mnames !! ctr_Name ctr = None →
  (ctr_Namespace ctr ≠ EmptyString → ¬ is_bkt (mns !! ctr_ID ctr)) →
  ¬ is_bkt (mall !! ctr_ID ctr) → mb !! ctr_ID ctr = None →
  key_ok (ctr_ID ctr) → key_ok (ctr_Name ctr) →
  value_ok (ctr_Namespace ctr) → value_ok configJSON → value_ok stateJSON →
  value_ok netNSPath → (∀ p, pod = Some p → value_ok (pod_ID p)) →
  ∃ w', addContainer_register ctr pod configJSON stateJSON netNSPath
          (Some [idRegistryBkt]) (Some [nameRegistryBkt]) (Some [nsRegistryBkt])
          (Some [ctrBkt]) (Some [allCtrsBkt]) w = (Ret tt, w').
Proof.
  intros Hids Hnames Hns Hmb Hall Hid Hname Hnns Hnall Hfree Hkid Hkname Hvns Hvcfg Hvst
    Hvnet Hvpod.
  pose proof (key_value_ok _ Hkid) as Hvid. pose proof (key_value_ok _ Hkname) as Hvname.
  assert (¬ is_bkt (mids !! ctr_ID ctr)) as Hnids by (rewrite Hid; by intros [? [=]]).
  assert (¬ is_bkt (mnames !! ctr_Name ctr)) as Hnnames by (rewrite Hname; by intros [? [=]]).
  assert (walk [idRegistryBkt] (root w) = Some mids) as Hwids by (by rewrite walk_top, Hids).
  assert (walk [nameRegistryBkt] (root w) = Some mnames) as Hwnames
    by (by rewrite walk_top, Hnames).
  assert (ctr_ID ctr ≠ EmptyString) as Hne by (by destruct Hkid).
  unfold addContainer_register. cbv zeta.
  rewrite (mbind_Ret _ _ _ _ _ (bkt_Get_at _ (ctr_ID ctr) _ _ Hwids)), Hid. cbn [node_value].
  rewrite (mbind_Ret _ _ _ _ _ (bkt_Get_at _ (ctr_Name ctr) _ _ Hwnames)), Hname.
  cbn [node_value].
  put_top idRegistryBkt Hids w1 Hfr1.
  assert (root w1 !! nameRegistryBkt = Some (Bkt mnames)) as Hnames1
    by (by rewrite Hfr1 by by_compute).
  put_top nameRegistryBkt Hnames1 w2 Hfr2.
  assert (∃ w3, (match ctrNamespaceOf ctr with
                 | Some ns =>
                     wrapf (bkt_Put (Some [nsRegistryBkt]) (ctr_ID ctr) ns)
                       "error adding container %s namespace (%q) to DB"
                       [ctr_ID ctr; ctr_Namespace ctr]
                 | None => mret tt
                 end) w2 = (Ret tt, w3) ∧
                ∀ k', k' ≠ nsRegistryBkt → root w3 !! k' = root w2 !! k')
    as (w3 & Hs3 & Hfr3).
  { unfold ctrNamespaceOf. case_bool_decide as Hns0; [|by eexists].
    eapply put_top_run; [|done|done|by apply Hnns].
    by rewrite Hfr2, Hfr1 by by_compute. }
  rewrite (mbind_Ret _ _ _ _ _ Hs3). clear Hs3.
  assert (root w3 !! allCtrsBkt = Some (Bkt mall)) as Hall3
    by (by rewrite Hfr3, Hfr2, Hfr1 by by_compute).
  put_top allCtrsBkt Hall3 w4 Hfr4.
  assert (root w4 !! ctrBkt = Some (Bkt mb)) as Hmb4
    by (by rewrite Hfr4, Hfr3, Hfr2, Hfr1 by by_compute).
  match goal with
  | |- context [wrapf (bkt_CreateBucket (Some [ctrBkt]) ?key) ?format ?args] =>
      destruct (create_rec_run ctrBkt key format args w4 mb Hmb4 Hfree Hne)
        as (w5 & Hs & HP);
      rewrite (mbind_Ret _ _ _ _ _ Hs); clear Hs
  end.
  put_rec configKey HP wa. put_rec stateKey HP wb.
  assert (∃ w6, (match ctrNamespaceOf ctr with
                 | Some ns =>
                     wrapf (bkt_Put (Some [ctrBkt; ctr_ID ctr]) namespaceKey ns)
                       "error adding container %s namespace to DB" [ctr_ID ctr]
                 | None => mret tt
                 end) wb = (Ret tt, w6) ∧
                ∃ m, walk [ctrBkt; ctr_ID ctr] (root w6) = Some m ∧
                     (∀ k, ¬ is_bkt (m !! k)) ∧ m !! dependenciesBkt = None)
    as (w6 & Hs6 & HP6).
  { unfold ctrNamespaceOf. case_bool_decide as Hns0; [|by eexists].
    eapply put_rec_run; [exact HP|done|split; [done|by vm_compute]|done]. }
  rewrite (mbind_Ret _ _ _ _ _ Hs6). clear Hs6 HP.
  assert (∃ w7, (match pod with
                 | Some pod =>
                     wrapf (bkt_Put (Some [ctrBkt; ctr_ID ctr]) podIDKey (pod_ID pod))
                       "error adding container %s pod to DB" [ctr_ID ctr]
                 | None => mret tt
                 end) w6 = (Ret tt, w7) ∧
                ∃ m, walk [ctrBkt; ctr_ID ctr] (root w7) = Some m ∧
                     (∀ k, ¬ is_bkt (m !! k)) ∧ m !! dependenciesBkt = None)
    as (w7 & Hs7 & HP7).
  { destruct pod as [pd|]; [|by eexists].
    eapply put_rec_run; [exact HP6|done|split; [done|by vm_compute]|by apply Hvpod]. }
  rewrite (mbind_Ret _ _ _ _ _ Hs7). clear Hs7 HP6.
  assert (∃ w8, (if bool_decide (netNSPath ≠ EmptyString) then
                   wrapf (bkt_Put (Some [ctrBkt; ctr_ID ctr]) netNSKey netNSPath)
                     "error adding container %s netns path to DB" [ctr_ID ctr]
                 else mret tt) w7 = (Ret tt, w8) ∧
                ∃ m, walk [ctrBkt; ctr_ID ctr] (root w8) = Some m ∧
                     (∀ k, ¬ is_bkt (m !! k)) ∧ m !! dependenciesBkt = None)
    as (w8 & Hs8 & HP8).
  { case_bool_decide; [|by eexists].
    eapply put_rec_run; [exact HP7|done|split; [done|by vm_compute]|done]. }
  rewrite (mbind_Ret _ _ _ _ _ Hs8). clear Hs8 HP7.
  match goal with
  | |- context [wrapf (bkt_CreateBucket (Some ?p) dependenciesBkt) ?format ?args] =>
      destruct (create_deps_run p format args w8 HP8) as (h & w9 & Hs);
      rewrite (mbind_Ret _ _ _ _ _ Hs); clear Hs
  end.
  by eexists.
Qed.

Lemma addContainer_pod_run ctr pod w :
  pod_ready (root w) ctr pod → addContainer_pod ctr pod w = (Ret (podCtrs_handle pod), w).
Proof.
  destruct pod as [pd|]; [|done]. intros (mp & mc & Hmp & Hmc & Hns).
  assert (∃ mP, root w !! podBkt = Some (Bkt mP) ∧ mP !! pod_ID pd = Some (Bkt mp))
    as (mP & HP & Hb).
  { cbn [walk] in Hmp. destruct (root w !! podBkt) as [[|mP]|]; try done.
    destruct (mP !! pod_ID pd) as [[|b]|] eqn:Hb; try done. injection Hmp as ->.
    by exists mP. }
  assert (walk [podBkt] (root w) = Some mP) as Hw by (by rewrite walk_top, HP).
  assert (walk ([podBkt] ++ [pod_ID pd]) (root w) = Some mp) as Hw' by done.
  unfold addContainer_pod, getPodBucket.
  rewrite (mbind_Ret _ _ _ _ _ (required_bucket_found _ _ _ _ HP)).
  rewrite (mbind_Ret _ _ _ _ _ (bkt_Bucket_at _ _ _ _ Hw)).
  rewrite (sub_handle_Some _ _ _ _ Hb).
  rewrite (mbind_Ret _ _ _ _ _ (bkt_Bucket_at _ _ _ _ Hw')).
  rewrite (sub_handle_Some _ _ _ _ Hmc).
  rewrite (mbind_Ret _ _ _ _ _ (bkt_Get_at _ namespaceKey _ _ Hw')).
  by rewrite Hns.
Qed.

Lemma walk_wr_sibling k a a' b f (r : bucket) :
  a ≠ a' → walk [k; a; b] (wr [k; a'; b] f r) = walk [k; a; b] r.
Proof.
  intros Hne. cbn [walk wr]. destruct (r !! k) as [[|mk]|] eqn:Hk; rewrite ?Hk; try done.
  rewrite lookup_insert_eq.
  destruct (mk !! a') as [[|ma]|]; try done. by rewrite lookup_insert_ne.
Qed.

Lemma linkable_link ctr pod r D D' :
  linkable ctr pod r D → linkable ctr pod (linkDependency ctr r D') D.
Proof.
  intros (mD & md & HwD & Hcoh & Hns & Hdeps & Hid). unfold linkDependency, linkable.
  rewrite (walk_wr_nested _ _ _ _ _ _ _ HwD).
  case_decide as Heq; [subst D'|by exists mD, md].
  rewrite (wr_cons _ _ _ _ _ Hdeps). cbn [wr].
  eexists _, _. split; [done|]. split; [|split; [|split]].
  - unfold pod_incoherent in *. by rewrite lookup_insert_ne by by_compute.
  - by rewrite lookup_insert_ne by by_compute.
  - by rewrite lookup_insert_eq.
  - rewrite lookup_insert_eq. by intros [? [=]].
Qed.

Lemma linkable_ext ctr pod r r' D :
  r' !! ctrBkt = r !! ctrBkt → linkable ctr pod r D → linkable ctr pod r' D.
Proof.
  intros Heq (mD & md & HwD & H). exists mD, md. split; [|done].
  by rewrite (walk_ext _ _ _ _ Heq).
Qed.

Lemma addContainer_dependency_run ctr pod D w :
  key_ok (ctr_ID ctr) → value_ok (ctr_Name ctr) → linkable ctr pod (root w) D →
  addContainer_dependency ctr pod (Some [ctrBkt]) D w =
    (Ret tt, set_root (λ r, linkDependency ctr r D) w).
Proof.
  intros [Hne Hlen] Hv (mD & md & HwD & Hcoh & Hns & Hdeps & Hno).
  assert (∃ mb, root w !! ctrBkt = Some (Bkt mb) ∧ mb !! D = Some (Bkt mD))
    as (mb & Hmb & HD).
  { cbn [walk] in HwD. destruct (root w !! ctrBkt) as [[|mb]|]; try done.
    destruct (mb !! D) as [[|b]|] eqn:Hb; try done. injection HwD as ->. by exists mb. }
  assert (walk [ctrBkt] (root w) = Some mb) as Hwb by (by rewrite walk_top, Hmb).
  pose proof (addContainer_dependency_cases ctr pod [ctrBkt] mb D mD w Hwb HD) as Hcases.
  cbv zeta in Hcases.
  destruct Hcases as [[H _]|[(_ & H & _)|[(_ & _ & H & _)|(_ & _ & _ & ->)]]].
  - done.
  - by rewrite Hns in H.
  - destruct H. by eexists.
  - apply wrapf_Ret. eapply bkt_Put_at; try done.
    by rewrite !walk_snoc, Hwb, HD, Hdeps.
Qed.

Lemma addContainer_dependencies_run ctr pod deps w :
  key_ok (ctr_ID ctr) → value_ok (ctr_Name ctr) →
  (∀ D, D ∈ deps → linkable ctr pod (root w) D) →
  ∃ w', for_range deps (addContainer_dependency ctr pod (Some [ctrBkt])) w = (Ret tt, w').
Proof.
  intros Hk Hv. revert w. induction deps as [|D deps IH]; intros w Hdeps; cbn [for_range].
  { by eexists. }
  rewrite (mbind_Ret _ _ _ _ _ (addContainer_dependency_run ctr pod D w Hk Hv
             (Hdeps D (proj2 (elem_of_cons _ _ _) (or_introl eq_refl))))).
  apply IH. intros D' HD'. rewrite root_set_root. apply linkable_link, Hdeps.
  apply elem_of_cons. by right.
Qed.

Lemma enterable_link ctr r vol vol' :
  enterable ctr r vol → enterable ctr (linkVolume ctr r vol') vol.
Proof.
  intros (md & Hwd & Hno). unfold linkVolume, enterable.
  destruct (decide (vol_Name vol = vol_Name vol')) as [Heq|Hne].
  - rewrite <- Heq. rewrite (walk_wr_same _ _ _ _ Hwd). eexists. split; [done|].
    unfold enterVolume. destruct (node_value (md !! ctr_ID ctr)); [done|].
    rewrite lookup_insert_eq. by intros [? [=]].
  - rewrite walk_wr_sibling by done. by exists md.
Qed.

Lemma enterable_ext ctr r r' vol :
  r' !! volBkt = r !! volBkt → enterable ctr r vol → enterable ctr r' vol.
Proof.
  intros Heq (md & Hwd & H). exists md. split; [|done]. by rewrite (walk_ext _ _ _ _ Heq).
Qed.

Lemma addContainer_volume_run ctr vol w :
  key_ok (ctr_ID ctr) → enterable ctr (root w) vol →
  addContainer_volume ctr (Some [volBkt]) vol w =
    (Ret tt, set_root (λ r, linkVolume ctr r vol) w).
Proof.
  intros Hk (md & Hwd & Hno). pose proof (key_value_ok _ Hk) as Hv. destruct Hk as [Hne Hlen].
  assert (∃ mv mV, root w !! volBkt = Some (Bkt mv) ∧ mv !! vol_Name vol = Some (Bkt mV) ∧
                   mV !! volDependenciesBkt = Some (Bkt md)) as (mv & mV & Hmv & HmV & Hmd).
  { cbn [walk] in Hwd. destruct (root w !! volBkt) as [[|mv]|]; try done.
    destruct (mv !! vol_Name vol) as [[|mV]|] eqn:HmV; try done.
    destruct (mV !! volDependenciesBkt) as [[|md']|] eqn:Hmd; try done.
    injection Hwd as ->. by exists mv, mV. }
  assert (walk [volBkt] (root w) = Some mv) as Hwv by (by rewrite walk_top, Hmv).
  assert (walk ([volBkt] ++ [vol_Name vol]) (root w) = Some mV) as HwV
    by (by rewrite walk_snoc, Hwv, HmV).
  assert (walk (([volBkt] ++ [vol_Name vol]) ++ [volDependenciesBkt]) (root w) = Some md)
    as Hwd' by done.
  unfold addContainer_volume.
  rewrite (mbind_Ret _ _ _ _ _ (bkt_Bucket_at _ _ _ _ Hwv)).
  rewrite (sub_handle_Some _ _ _ _ HmV).
  rewrite (mbind_Ret _ _ _ _ _ (bkt_Bucket_at _ _ _ _ HwV)).
  rewrite (sub_handle_Some _ _ _ _ Hmd).
  rewrite (mbind_Ret _ _ _ _ _ (bkt_Get_at _ (ctr_ID ctr) _ _ Hwd')).
  unfold linkVolume.
  destruct (node_value (md !! ctr_ID ctr)) as [v|] eqn:Hget.
  - f_equal. symmetry. apply set_root_id. eapply wr_id; [exact Hwd|].
    unfold enterVolume. by rewrite Hget.
  - rewrite (wrapf_Ret _ _ _ _ _ _ (bkt_Put_at _ _ _ _ _ Hwd' Hne Hlen Hv Hno)).
    f_equal. unfold set_root. f_equal. cbn [app].
    eapply wr_ext; [exact Hwd|]. unfold enterVolume. by rewrite Hget.
Qed.

Lemma addContainer_volumes_run ctr (vols : list ContainerNamedVolume) w :
  key_ok (ctr_ID ctr) →
  (∀ vol, vol ∈ vols → enterable ctr (root w) vol) →
  ∃ w', for_range vols (addContainer_volume ctr (Some [volBkt])) w = (Ret tt, w').
Proof.
  intros Hk. revert w. induction vols as [|vol vols IH]; intros w Hvols; cbn [for_range].
  { by eexists. }
  rewrite (mbind_Ret _ _ _ _ _ (addContainer_volume_run ctr vol w Hk
             (Hvols vol (proj2 (elem_of_cons _ _ _) (or_introl eq_refl))))).
  apply IH. intros vol' Hvol'. rewrite root_set_root. apply enterable_link, Hvols.
  apply elem_of_cons. by right.
Qed.

Lemma addContainer_runs E s ctr pod w configJSON stateJSON mids mnames mns mb mall mv :
  prepared E s ctr configJSON stateJSON →
  root w !! idRegistryBkt = Some (Bkt mids) →
  root w !! nameRegistryBkt = Some (Bkt mnames) →
  root w !! nsRegistryBkt = Some (Bkt mns) →
  root w !! ctrBkt = Some (Bkt mb) →
  root w !! allCtrsBkt = Some (Bkt mall) →
  root w !! volBkt = Some (Bkt mv) →
  mids !! ctr_ID ctr = None → mnames !! ctr_Name ctr = None →
  (ctr_Namespace ctr ≠ EmptyString → ¬ is_bkt (mns !! ctr_ID ctr)) →
  ¬ is_bkt (mall !! ctr_ID ctr) → mb !! ctr_ID ctr = None →
  key_ok (ctr_ID ctr) → key_ok (ctr_Name ctr) →
  value_ok (ctr_Namespace ctr) → value_ok configJSON → value_ok stateJSON →
  value_ok (getNetNSPath E ctr) → (∀ p, pod = Some p → value_ok (pod_ID p)) →
  pod_ready (root w) ctr pod →
  (∀ p mc, pod = Some p → walk [podBkt; pod_ID p; containersBkt] (root w) = Some mc →
           ¬ is_bkt (mc !! ctr_ID ctr)) →
  (∀ D, D ∈ ctr_Dependencies E ctr → linkable ctr pod (root w) D) →
  (∀ vol, vol ∈ cfg_NamedVolumes (ctr_config ctr) → enterable ctr (root w) vol) →
  ∃ w', addContainer E s ctr pod w = (Ret tt, w').
Proof.
  intros Hprep Hids Hnames Hns Hmb Hall Hmv Hid Hname Hnns Hnall Hfree Hkid Hkname Hvns
    Hvcfg Hvst Hvnet Hvpod Hready Hpodfree Hdeps Hvols.
  rewrite (addContainer_prepared _ _ _ _ _ _ _ Hprep). unfold db_Update.
  enough (∃ w', addContainer_tx ctr pod configJSON stateJSON (getNetNSPath E ctr)
                  (ctr_Dependencies E ctr) w = (Ret tt, w')) as [w' ->] by (by eexists).
  destruct (addContainer_register_run ctr pod configJSON stateJSON (getNetNSPath E ctr) w
              mids mnames mns mb mall) as [w1 Hreg]; try done.
  pose proof Hreg as (-> & _)%addContainer_register_Ret.
  assert (addContainer_open ctr pod configJSON stateJSON (getNetNSPath E ctr) w =
            (Ret (Some [ctrBkt], Some [volBkt], podCtrs_handle pod),
             set_root (registered ctr pod configJSON stateJSON (getNetNSPath E ctr)) w))
    as Hopen.
  { unfold addContainer_open, getIDBucket, getNamesBucket, getCtrBucket, getNSBucket,
      getAllCtrsBucket, getVolBucket.
    have_bucket idRegistryBkt w. have_bucket nameRegistryBkt w.
    have_bucket nsRegistryBkt w. have_bucket ctrBkt w.
    have_bucket allCtrsBkt w. have_bucket volBkt w.
    rewrite (mbind_Ret _ _ _ _ _ (addContainer_pod_run ctr pod w Hready)).
    by rewrite (mbind_Ret _ _ _ _ _ Hreg). }
  unfold addContainer_tx. rewrite (mbind_Ret _ _ _ _ _ Hopen). clear Hopen Hreg.
  destruct (addContainer_dependencies_run ctr pod (ctr_Dependencies E ctr)
              (set_root (registered ctr pod configJSON stateJSON (getNetNSPath E ctr)) w))
    as [w2 Hloop]; [done|by apply key_value_ok| |].
  { intros D HD. destruct (Hdeps D HD) as (mD & md & HwD & Hrest).
    exists mD, md. split; [|done]. rewrite root_set_root.
    cbn [walk]. rewrite (registered_ctr _ _ _ _ _ _ _ Hmb).
    cbn [walk] in HwD. rewrite Hmb in HwD.
    destruct (decide (D = ctr_ID ctr)) as [->|Hne]; [by rewrite Hfree in HwD|].
    by rewrite lookup_insert_ne. }
  pose proof Hloop as [-> _]%addContainer_dependencies_Ret.
  rewrite (mbind_Ret _ _ _ _ _ Hloop). clear Hloop.
  assert (∀ k, k ≠ ctrBkt → k ∉ registerKeys →
            foldl (linkDependency ctr)
              (registered ctr pod configJSON stateJSON (getNetNSPath E ctr) (root w))
              (ctr_Dependencies E ctr) !! k = root w !! k) as Hr2.
  { intros k Hk Hk'. rewrite linkDependencies_lookup by done. by apply registered_lookup. }
  assert (∃ w3, (match pod, podCtrs_handle pod with
                 | Some pd, Some _ =>
                     wrapf (bkt_Put (podCtrs_handle pod) (ctr_ID ctr) (ctr_Name ctr))
                       "error adding container %s to pod %s" [ctr_ID ctr; pod_ID pd]
                 | _, _ => mret tt
                 end)
                  (set_root (λ r, foldl (linkDependency ctr) r (ctr_Dependencies E ctr))
                     (set_root (registered ctr pod configJSON stateJSON
                                  (getNetNSPath E ctr)) w)) = (Ret tt, w3) ∧
                root w3 !! volBkt = root w !! volBkt) as (w3 & Hput & Hvol3).
  { destruct pod as [pd|]; cbn [podCtrs_handle].
    2:{ eexists. split; [reflexivity|]. rewrite !root_set_root. apply Hr2; by_compute. }
    destruct Hready as (mp & mc & Hmp & Hmc & _).
    assert (walk [podBkt; pod_ID pd; containersBkt] (root w) = Some mc) as Hwc.
    { change [podBkt; pod_ID pd; containersBkt] with ([podBkt; pod_ID pd] ++ [containersBkt]).
      by rewrite walk_snoc, Hmp, Hmc. }
    eexists. split.
    - apply wrapf_Ret. eapply bkt_Put_at.
      + rewrite !root_set_root. erewrite walk_ext; [exact Hwc|].
        apply Hr2; by_compute.
      + by destruct Hkid.
      + by destruct Hkid.
      + by apply key_value_ok.
      + by eapply Hpodfree.
    - rewrite !root_set_root. rewrite wr_lookup_ne by by_compute. apply Hr2; by_compute. }
  rewrite (mbind_Ret _ _ _ _ _ Hput). clear Hput.
  apply addContainer_volumes_run; [done|].
  intros vol Hvol. by apply (enterable_ext ctr (root w)), Hvols.
Qed.
End add_progress.

(** X22: when [addContainer] succeeds.  When the container passes the
    checks made before the transaction, the store has the six top-level
    buckets, the ID and the name are free in the registries and in
    [ctr], the pod, if one is given, passes its checks, every dependency
    has a record in the pod and in the namespace of the container with a
    [dependencies] bucket, every named volume has a record with a
    [vol-dependencies] bucket, every key and value written is one the
    engine accepts, and no key written holds a nested bucket, then
    [addContainer] returns nil and commits the store described by
    [added]. *)
Theorem addContainer_succeeds (E : Externals) (s : BoltState) (ctr : Container)
    (pod : option Pod) (w : World) (configJSON stateJSON : string)
    (mids mnames mns mb mall mv : bucket) :
  prepared E s ctr configJSON stateJSON →
  root w !! idRegistryBkt = Some (Bkt mids) →
  root w !! nameRegistryBkt = Some (Bkt mnames) →
  root w !! nsRegistryBkt = Some (Bkt mns) →
  root w !! ctrBkt = Some (Bkt mb) →
  root w !! allCtrsBkt = Some (Bkt mall) →
  root w !! volBkt = Some (Bkt mv) →
  mids !! ctr_ID ctr = None → mnames !! ctr_Name ctr = None →
  (ctr_Namespace ctr ≠ EmptyString → ¬ is_bkt (mns !! ctr_ID ctr)) →
  ¬ is_bkt (mall !! ctr_ID ctr) → mb !! ctr_ID ctr = None →
  key_ok (ctr_ID ctr) → key_ok (ctr_Name ctr) →
  value_ok (ctr_Namespace ctr) → value_ok configJSON → value_ok stateJSON →
  value_ok (getNetNSPath E ctr) → (∀ p, pod = Some p → value_ok (pod_ID p)) →
  pod_ready (root w) ctr pod →
  (∀ p mc, pod = Some p → walk [podBkt; pod_ID p; containersBkt] (root w) = Some mc →
           ¬ is_bkt (mc !! ctr_ID ctr)) →
  (∀ D, D ∈ ctr_Dependencies E ctr → linkable ctr pod (root w) D) →
  (∀ vol, vol ∈ cfg_NamedVolumes (ctr_config ctr) → enterable ctr (root w) vol) →
  addContainer E s ctr pod w =
    (Ret tt, set_root (added ctr pod configJSON stateJSON (getNetNSPath E ctr)
                         (ctr_Dependencies E ctr)) w).
Proof.
  intros Hprep Hids Hnames Hns Hmb Hall Hmv Hid Hname Hnns Hnall Hfree Hkid Hkname Hvns
    Hvcfg Hvst Hvnet Hvpod Hready Hpodfree Hdeps Hvols.
  destruct (addContainer_runs E s ctr pod w configJSON stateJSON mids mnames mns mb mall mv)
    as [w' Hrun]; try done.
  rewrite Hrun. f_equal.
  apply addContainer_Ret in Hrun as (cfg' & st' & (_ & Hc & Hs & _) & -> & _).
  destruct Hprep as (_ & Hc' & Hs' & _). congruence.
Qed.

Lemma addContainer_succeeds_witness :
  let ctr := Sample.container "B" "b" "prod" ["V"] in
  let pod := Some (Sample.pod "p1" "db" "prod") in
  let s := Sample.s "prod" in
  let w := Sample.world
             (Sample.withPod "p1" (Sample.podRecord (Some "prod") {[ "A" := Val "a" ]})
                (Sample.withVolume "V" (Sample.volumeRecord ∅)
                   (Sample.withCtr "A" (Sample.ctrRecord (Some "prod") (Some "p1") ∅)
                      Sample.emptyDB))) in
  addContainer Sample.E_depA s ctr pod w =
    (Ret tt, set_root (added ctr pod "config:B" "{}" EmptyString ["A"]) w).
Proof.
  intros ctr pod s w.
  eapply (addContainer_succeeds Sample.E_depA s ctr pod w "config:B" "{}").
  - repeat split; auto.
  - vm_compute. reflexivity.
  - vm_compute. reflexivity.
  - vm_compute. reflexivity.
  - vm_compute. reflexivity.
  - vm_compute. reflexivity.
  - vm_compute. reflexivity.
  - vm_compute. reflexivity.
  - vm_compute. reflexivity.
  - intros _ [m Hm]. vm_compute in Hm. discriminate.
  - intros [m Hm]. vm_compute in Hm. discriminate.
  - vm_compute. reflexivity.
  - split; [done|by vm_compute].
  - split; [done|by vm_compute].
  - by vm_compute.
  - by vm_compute.
  - by vm_compute.
  - by vm_compute.
  - intros p [= <-]. by vm_compute.
  - eexists _, _. split; [vm_compute; reflexivity|]. split; vm_compute; reflexivity.
  - intros p mc [= <-] Hmc.
    assert (Some mc = Some {[ "A" := Val "a" ]}) as [= ->]
      by (rewrite <- Hmc; vm_compute; reflexivity).
    intros [m Hm]. vm_compute in Hm. discriminate.
  - intros D [->|[]%elem_of_nil]%elem_of_cons.
    eexists _, _. split; [vm_compute; reflexivity|]. split; [|split; [|split]].
    + intros H. by apply H.
    + vm_compute. reflexivity.
    + vm_compute. reflexivity.
    + intros [m Hm]. vm_compute in Hm. discriminate.
  - intros vol [->|[]%elem_of_nil]%elem_of_cons.
    eexists. split; [vm_compute; reflexivity|].
    intros [m Hm]. vm_compute in Hm. discriminate.
Defined.

